(* ===== verification/_CoqProject ===== *)
-Q . S2P
Prelude.v
RustStd.v
Text.v
Os.v
Wire.v
Proto.v
Control.v
ControlSocket.v
Startup.v
Membership.v
Gossip.v
Hivebus.v
Hostname.v
HivebusMain.v
Tasks.v
Cluster.v
Calm.v
Ghost.v
Stability.v
Healing.v
Tftp.v
TftpClient.v
TftpShared.v
Dhcp.v
Leases.v
Pxeboot.v
Boot.v
PxebootMain.v
Netgate.v
Netop.v
Imager.v
Orchestrator.v
Daemons.v
Hivectl.v
Inspectors.v
HivectlUi.v
