(* ===== verification/Prelude.v ===== *)
(** * A verification of hivebus

    hivebus is a set of small daemons for a bare-metal cluster, written in Rust, one
    crate each under src/crates.  This library models the decisions of all of them:
    every function that computes or changes state is a Rocq definition of the same
    name, and what the daemons promise each other and their users is proved of those
    definitions.

    ** The program and the files that model it

    - [proto] (crates/proto/src/lib.rs): the discovery frame header, the payload types,
      the control envelope and the node id derived from a MAC address.  File [Proto].
    - hivebus (crates/hivebus/src/main.rs): the table of peers with the election and the
      failure detector is file [Membership] ([listener_frame] is the body of
      [listener_task], [fd_tick] of [failure_detector_task]), the theory of its gossip arm
      file [Gossip]; the senders, the control
      operations and the daemon as a transition system are file [Hivebus]
      ([heartbeat_tick], [gossip_tick], [get_nodes], [get_master], [step]); [main], which
      reads the configuration, sets the socket up, announces the node and spawns the
      tasks, is file [HivebusMain], with the module that asks for the host name in
      [Hostname]; the four tasks as the loops they are, file [Tasks].  Several daemons on a
      network that loses, repeats, delays and reorders datagrams, and that stop and start
      again, are file [Cluster]; [Calm] runs such a cluster while its daemons keep hearing
      each other, turn by turn, [Stability] says who leads it then, [Healing] how it comes
      to agree from any state, and [Ghost] how a leader that has stopped stays elected.
    - pxeboot (crates/pxeboot/src/main.rs): the TFTP server is file [Tftp], and
      [TftpClient] puts a client and a lossy network around it, [TftpShared] lets the file
      change meanwhile; the DHCP server with boot scripts is file [Dhcp], its leases over
      time file [Leases], configuration and control plane file [Pxeboot]; [Boot] follows one machine through both servers; [main] and the
      beginnings of the two server tasks are file [PxebootMain].
    - netgate, netop, imager, orchestrator (crates/<name>/src/main.rs): files [Netgate],
      [Netop], [Imager], [Orchestrator]; their control operations, the state those change
      and their tasks, as far as the daemons are implemented, and their [main]s, which
      share the block of file [Startup] that finds the configuration.  [Daemons] gives what
      the four [main]s do, call by call.
    - hivectl (crates/hivectl/src/main.rs): the inspector's state, keys and query, file
      [Hivectl]; what it draws, its event loop and its [main], file [HivectlUi].
      [Inspectors] puts inspectors in front of the daemons of a cluster.

    The control socket is one piece of code repeated in every daemon.  File [Control]
    models the connection once, over the class [ControlService]: a daemon is an instance
    that maps an operation to a new state and a reply, and [ControlServiceOk] states what
    all of them have in common.  The theorems on the framing are proved against the class,
    and each daemon's file has its instance and its [control_plane].  File
    [ControlSocket] has the opening of the socket and the accept loop, whose handlers run
    as interleaved tasks.  An operation runs there in the stages its daemon declares in
    [ControlStages]: first what it does until it releases the lock, then one step after the
    other, with other handlers in between; [LockedPart] says which part of the state the
    lock protects.

    Under these lie five files: this prelude (results, panics, fixed-width integers,
    big-endian encodings, lists), [RustStd] (what the code uses of Rust's standard
    library: UTF-8, hexadecimal, paths, addresses, time, hash-map iteration), [Text]
    (numbers and addresses as text, and the lossy decoding of bytes), [Os] (programs that make system calls, as trees
    whose branches are the answers) and [Wire] (the serialisation crate bincode as a
    class: an encoder and a decoder per type, and the laws of a faithful format, with a
    concrete format that satisfies them).

    ** How the model corresponds to the code

    Integers are [Z], with their width written out where it matters ([wrap], [fits]);
    bytes are [list Z]; structs are records and enums inductive types; a [HashMap] is a
    [gmap], and every walk over one goes through an arbitrary enumeration of its entries
    ([HashIter]), so that no theorem depends on the hash order.  A [Result] is [result];
    a computation that can panic is an [outcome].  Clock readings, the datagrams that
    arrive, what a send or a wait ends in and what other tasks do between two awaits are
    arguments of the definitions or choices of a step relation, never fixed.  Functions
    of crates that are not in the repository are parameters: bincode ([Wire]), the TOML
    parser (an argument of every [config_load]), the hash function ([Imager.Hasher]), KVM
    ([OrchEnv]), what gethostname leaves in its buffer ([Hostname]), the ticks of tokio's
    timers ([Tasks]).  Log output is not modelled, except for what the listener reports about
    peers, where it tells a duplicate node id.

    Code whose work is a sequence of system calls (the [main] functions, the opening of
    sockets) is a program of [Os]: the calls in the order of the source, each with an
    arbitrary answer, errors included; a run is the list of the calls it made.

    Granularity: a task runs without interruption while it holds the lock of the shared
    table, as in the code; between two acquisitions anything may happen.  In [Dhcp] the
    handler takes the lock of the boot table three times, and the entries registered in
    between are part of its environment.  Two control operations go on after they have
    released the lock: boot.register writes its script ([boot_write]: the file is emptied,
    then written over), and proxy.add starts its task ([proxy_spawn]).  The theorems that
    speak of one connection at a time have these steps right after the first stage; those of
    [ControlSocket] interleave them.  The laws of bincode are asked for values the format
    can carry: of an IPv6 socket address serde sends address and port only, so its flow label
    and scope must be zero ([addr_ok]).

    ** What is proved

    - Membership: the election names the least id among the living peers and the node
      itself; a scan classifies a peer by its silence alone, and its master flags are
      exact; a peer that stays silent is suspected, declared dead and removed, one that
      keeps sending never is; merging gossip is taking the report of the largest
      incarnation, it is idempotent, and two frames commute as far as they do not carry
      different states of equal incarnation.
    - Hivebus: every valid configuration starts a well-formed node or ends with an error of
      its own; the start-up makes its calls in the order of the source and hands the tasks the
      values of the configuration; an invariant of every reachable state, for arbitrary
      datagrams; every frame sent is small, well formed, and ignored by its own sender; what a heartbeat,
      an announcement and a gossip frame of one daemon do to the table of another, through
      encoding and decoding; the reply to GetNodes does not depend on the hash order; the
      host name is a valid string whatever bytes the system gives; the tasks are runs of
      the steps the invariant quantifies over, and heartbeats are numbered modulo 16.
    - Cluster: tables and elections only ever contain configured nodes; after one round
      of heartbeats all daemons elect the same master.  In a calm period (every daemon
      sends and scans in time, whatever else the network does) daemons that have heard
      each other once form a cluster under the least id; the leader stays; when daemons
      stop, every scan past the suspect threshold elects the least of the others, and once
      all have scanned they agree again and stay with that leader; inspectors of a cluster that agrees show the same
      nodes and the same master.  From any state, whatever partitions and rumours left
      behind, all agree once they have heard each other without gossip in between.
    - Control: an operation reaches the daemon and its reply the client exactly when
      both fit; a rejected frame has no effect; for connections served at the same time the
      protected tables and the answers are as if their requests came one after the other,
      which the scripts and tasks they leave behind need not be; the socket's mode is set
      before the first connection is accepted.
    - Tftp, Dhcp and Leases: requested paths stay under the root; a transfer is stop-and-wait, it
      ends, and it delivers the file to a client that acknowledges; replies have the
      layout of the protocol and answer their request; no two clients hold an address
      when static addresses are kept apart from the pool; a client that follows the
      protocol gets the file over a lossy network; an unknown machine is
      given an address and, over that network, its own boot script, and a registered one the
      address and the script it was registered with; every registration is listed, if the list fits a reply;
      addresses, entries and leases keep their widths; and the control plane of [Pxeboot]
      is a refinement of the steps these theorems quantify over.
    - The other daemons: each makes the calls of its start in order and stops at the
      first failure; last writer wins in the DNS table, registering a machine takes
      effect before the reply; the inspector shows the daemon's table row by row, that of the
      last query that succeeded, under an error box when the last one failed;
      its selection stays in bounds, and the terminal's modes are restored however the
      program ends, once the guard that restores them exists.
    - Theorems on what the code does not do: a truncated DHCP option stops the server;
      leases never expire; a static address can collide with a lease; a peer heard while
      the scan waits for the lock is dropped; a table that is too large is not gossiped;
      the default configuration of netop never reconciles; a heartbeat interval of zero
      ends the heartbeat task; a daemon that starts again may carry a smaller incarnation,
      and old reports then overrule it; between scans, relayed gossip can keep a stopped
      leader elected for ever; a script that is rewritten while it is sent may arrive cut,
      and the server reports it complete; two registrations at once can leave the entry of
      one and the script of the other; the fold of a MAC address is not free of
      collisions.

    ** Fuel and bounds

    [scan_options] has one unit of fuel per option byte and [components] and [trim] work
    on the length of their input; the lemmas [scan_opts], [scan_tail] and [trim_line] use
    them with that much, so no result is cut short.  Everything else is structural.  A
    TFTP transfer has no fuel: it runs along the list of its attempts, and
    [transfer_terminates] bounds the length of that list.  A program of [Os] is a finite
    tree; the loops that never end (accept loops, timers, the inspector's event loop) run
    along the list of the events they are given, of any length, and so do the runs of
    [Calm], whose turns are the activities of one daemon each.

    ** What is not modelled

    Log subscribers; the inside of system calls and of crates: rendering and layout on
    the terminal (the areas the layout yields are arguments), the byte copying of a
    proxied connection, the KVM ioctls, the run of qemu-img; the stubs that do nothing (the
    DNS server, containerd); the chunk service of the imager, which the documents
    describe and the code does not have; the variants for systems that are not Unix.  The
    Raft payloads of [proto] are data only because nothing sends or handles them. *)

From Stdlib Require Export ZArith Lia.
From stdpp Require Export prelude gmap strings list pretty sorting fin_maps.

#[global] Open Scope Z_scope.

(** ** Results and panics *)

(** Rust's [Result<T, E>]; the error comes first so that [result E] is a monad. *)
Inductive result (E A : Type) : Type :=
| Ok (a : A)
| Err (e : E).
Arguments Ok {E A} a.
Arguments Err {E A} e.

(** What running a piece of code ends in: a value, or a panic, which in the
    daemons unwinds the task that runs it (a tokio task, not the process). *)
Inductive outcome (A : Type) : Type :=
| Done (a : A)
| Panicked.
Arguments Done {A} a.
Arguments Panicked {A}.

#[global] Instance result_ret E : MRet (result E) := λ A a, Ok a.
#[global] Instance result_bind E : MBind (result E) := λ A B f r,
  match r with Ok a => f a | Err e => Err e end.
#[global] Instance result_fmap E : FMap (result E) := λ A B f r,
  match r with Ok a => Ok (f a) | Err e => Err e end.
#[global] Instance outcome_ret : MRet outcome := λ A a, Done a.
#[global] Instance outcome_bind : MBind outcome := λ A B f o,
  match o with Done a => f a | Panicked => Panicked end.

#[global] Instance result_eq_dec `{EqDecision E, EqDecision A} : EqDecision (result E A).
Proof. solve_decision. Defined.
#[global] Instance outcome_eq_dec `{EqDecision A} : EqDecision (outcome A).
Proof. solve_decision. Defined.

(** [.ok()] *)
Definition ok {E A} (r : result E A) : option A :=
  match r with Ok a => Some a | Err _ => None end.

(** An index or slice expression: out of range it panics. *)
Definition index {A} (l : list A) (i : nat) : outcome A :=
  match l !! i with Some x => Done x | None => Panicked end.

(** Only the value matters for whether a result is a success. *)
Definition is_ok {E A} (r : result E A) : bool :=
  match r with Ok _ => true | Err _ => false end.

(** ** Machine integers

    A [w]-bit unsigned integer is a [Z] that [fits w]; arithmetic that can
    leave the range wraps with [wrap w] where the source wraps. *)

Definition fits (w z : Z) : Prop := 0 ≤ z < 2 ^ w.
Definition wrap (w z : Z) : Z := z `mod` 2 ^ w.

#[global] Instance fits_dec w z : Decision (fits w z).
Proof. unfold fits. apply _. Defined.

Abbreviation u8 := (fits 8) (only parsing).
Abbreviation u16 := (fits 16) (only parsing).
Abbreviation u32 := (fits 32) (only parsing).
Abbreviation u64 := (fits 64) (only parsing).

(** A [Vec<u8>] or [&[u8]]. *)
Abbreviation bytes := (list Z) (only parsing).
Abbreviation bytes_ok := (Forall u8) (only parsing).

(** [to_be_bytes]/[from_be_bytes] at [n] bytes. *)
Fixpoint to_be_bytes (n : nat) (z : Z) : bytes :=
  match n with
  | O => []
  | S n => to_be_bytes n (z `div` 256) ++ [z `mod` 256]
  end.

Definition from_be_bytes (bs : bytes) : Z :=
  foldl (λ acc b, acc * 256 + b) 0 bs.

#[global] Arguments from_be_bytes : simpl never.
#[global] Arguments to_be_bytes : simpl nomatch.

(** ** Automation *)

Create HintDb hive discriminated.
Create Rewrite HintDb hive_len.

(** [lia] with division and remainder by constants. *)
Ltac Zify.zify_post_hook ::= Z.to_euclidean_division_equations.

(** Arithmetic on [fits] hypotheses. *)
Ltac fits_unfold :=
  unfold fits, wrap in *;
  change (2 ^ 8) with 256 in *; change (2 ^ 16) with 65536 in *;
  change (2 ^ 32) with 4294967296 in *; change (2 ^ 64) with 18446744073709551616 in *.
Ltac fits_lia := fits_unfold; lia.

(** Split the conjunctions of the goal and close the parts with [tac]. *)
Tactic Notation "splits" "by" tactic3(tac) := repeat split; try (solve [tac]).

(** Decide a closed decidable proposition by evaluation. *)
Ltac by_compute := apply (bool_decide_unpack _); vm_compute; exact I.

(** Case analysis on every match of the goal and the hypotheses. *)
Ltac cases := repeat (case_match || case_decide || case_bool_decide); simplify_eq/=.

Lemma fits_wrap w z : 0 ≤ w → fits w (wrap w z).
Proof. intros. unfold fits, wrap. apply Z.mod_pos_bound. lia. Qed.

Lemma wrap_fits w z : fits w z → wrap w z = z.
Proof. unfold fits, wrap. intros. by apply Z.mod_small. Qed.

Lemma fits_mono w w' z : 0 ≤ w ≤ w' → fits w z → fits w' z.
Proof.
  unfold fits. intros Hw [? ?]. split; [done|].
  pose proof (Z.pow_le_mono_r 2 w w' ltac:(lia) ltac:(lia)). lia.
Qed.

Lemma testbit_above w z i : 0 ≤ w → fits w z → w ≤ i → Z.testbit z i = false.
Proof.
  intros Hw [Hz0 Hz] Hi. destruct (decide (z = 0)) as [->|Hnz]; [apply Z.bits_0|].
  apply Z.bits_above_log2; [done|].
  apply Z.lt_le_trans with w; [|done]. apply Z.log2_lt_pow2; lia.
Qed.

Lemma fits_testbit w z :
  0 ≤ w → 0 ≤ z → (∀ i, w ≤ i → Z.testbit z i = false) → fits w z.
Proof.
  intros Hw Hz Hbits. split; [done|].
  destruct (decide (z = 0)) as [->|Hnz]; [apply Z.pow_pos_nonneg; lia|].
  apply Z.log2_lt_pow2; [lia|].
  destruct (decide (Z.log2 z < w)) as [|Hge]; [done|].
  specialize (Hbits (Z.log2 z) ltac:(lia)). rewrite Z.bit_log2 in Hbits; [done|lia].
Qed.

Lemma fits_lxor w a b : 0 ≤ w → fits w a → fits w b → fits w (Z.lxor a b).
Proof.
  intros Hw Ha Hb. apply fits_testbit; [done| |].
  - apply Z.lxor_nonneg. destruct Ha, Hb. tauto.
  - intros i Hi. rewrite Z.lxor_spec, !(testbit_above w) by done. done.
Qed.

Lemma fits_lor w a b : 0 ≤ w → fits w a → fits w b → fits w (Z.lor a b).
Proof.
  intros Hw Ha Hb. apply fits_testbit; [done| |].
  - apply Z.lor_nonneg. destruct Ha, Hb. tauto.
  - intros i Hi. rewrite Z.lor_spec, !(testbit_above w) by done. done.
Qed.

(** Xor with a fixed value is injective. *)
Lemma lxor_cancel_l a b c : Z.lxor a b = Z.lxor a c → b = c.
Proof.
  intros H. apply (f_equal (Z.lxor a)) in H.
  by rewrite <-!Z.lxor_assoc, Z.lxor_nilpotent, !Z.lxor_0_l in H.
Qed.

Lemma lxor_cancel_r a b c : Z.lxor b a = Z.lxor c a → b = c.
Proof. rewrite !(Z.lxor_comm _ a). apply lxor_cancel_l. Qed.

(** Masking with a power of two tests one bit. *)
Lemma land_pow2 z i : 0 ≤ i → negb (Z.land z (2 ^ i) =? 0) = Z.testbit z i.
Proof.
  intros Hi. destruct (Z.testbit z i) eqn:Hb.
  - apply negb_true_iff, Z.eqb_neq. intros H0. apply (f_equal (λ x, Z.testbit x i)) in H0.
    by rewrite Z.land_spec, Hb, Z.pow2_bits_true, Z.bits_0 in H0.
  - apply negb_false_iff, Z.eqb_eq, Z.bits_inj'. intros j Hj.
    rewrite Z.land_spec, Z.bits_0, Z.pow2_bits_eqb by done.
    destruct (Z.eqb_spec i j) as [<-|]; [by rewrite Hb|by rewrite andb_false_r].
Qed.

#[export] Hint Resolve fits_lxor fits_lor fits_wrap : hive.

(** ** Big-endian integers *)

Lemma length_to_be_bytes n z : length (to_be_bytes n z) = n.
Proof. revert z; induction n; intros z; simpl; [done|]. rewrite length_app, IHn. simpl; lia. Qed.

Lemma to_be_bytes_ok n z : bytes_ok (to_be_bytes n z).
Proof.
  revert z; induction n; intros z; simpl; [constructor|].
  apply Forall_app; split; [done|]. apply Forall_singleton. fits_lia.
Qed.

Lemma from_be_bytes_snoc bs b : from_be_bytes (bs ++ [b]) = from_be_bytes bs * 256 + b.
Proof. unfold from_be_bytes. by rewrite foldl_app. Qed.

(** Decoding what was encoded gives the value back, modulo the width. *)
Lemma from_to_be_bytes n z : fits (8 * Z.of_nat n) z → from_be_bytes (to_be_bytes n z) = z.
Proof.
  revert z; induction n as [|n IH]; intros z Hz; simpl.
  - unfold fits in Hz. simpl in Hz. change (from_be_bytes []) with 0. lia.
  - rewrite from_be_bytes_snoc, IH; [lia|].
    unfold fits in *. split; [lia|]. apply Z.div_lt_upper_bound; [lia|].
    replace (8 * Z.of_nat (S n)) with (8 + 8 * Z.of_nat n) in Hz by lia.
    rewrite Z.pow_add_r in Hz by lia. change (2 ^ 8) with 256 in Hz. lia.
Qed.

Lemma to_from_be_bytes bs : bytes_ok bs → to_be_bytes (length bs) (from_be_bytes bs) = bs.
Proof.
  induction bs as [|b bs IH] using rev_ind; [done|].
  intros [Hbs Hb]%Forall_app. rewrite Forall_singleton in Hb. unfold fits in Hb.
  rewrite length_app, from_be_bytes_snoc. simpl. rewrite Nat.add_1_r. simpl.
  change (2 ^ 8) with 256 in Hb.
  rewrite Z.div_add_l, Z.div_small, Z.add_0_r, IH by (done || lia).
  f_equal. f_equal. lia.
Qed.

Lemma from_be_bytes_fits bs : bytes_ok bs → fits (8 * Z.of_nat (length bs)) (from_be_bytes bs).
Proof.
  induction bs as [|b bs IH] using rev_ind; [done|].
  intros [Hbs Hb]%Forall_app. rewrite Forall_singleton in Hb. specialize (IH Hbs).
  rewrite length_app, from_be_bytes_snoc. simpl.
  unfold fits in *. change (2 ^ 8) with 256 in Hb.
  replace (8 * Z.of_nat (length bs + 1)) with (8 * Z.of_nat (length bs) + 8) by lia.
  rewrite Z.pow_add_r by lia. change (2 ^ 8) with 256. lia.
Qed.

Lemma to_be_bytes_2 z : to_be_bytes 2 z = [(z `div` 256) `mod` 256; z `mod` 256].
Proof. done. Qed.

Lemma from_be_bytes_2 a b : from_be_bytes [a; b] = a * 256 + b.
Proof. unfold from_be_bytes. simpl. lia. Qed.

(** Two byte pairs with the same big-endian value are the same pair. *)
Lemma from_be_bytes_2_inj a b c d :
  u8 a → u8 b → u8 c → u8 d → from_be_bytes [a; b] = from_be_bytes [c; d] → a = c ∧ b = d.
Proof. rewrite !from_be_bytes_2. fits_lia. Qed.

#[export] Hint Resolve to_be_bytes_ok : hive.
#[export] Hint Rewrite length_to_be_bytes : hive_len.

(** ** Lists *)

(** [iter().position(p)] *)
Fixpoint position {A} (p : A → bool) (l : list A) : option nat :=
  match l with
  | [] => None
  | x :: l => if p x then Some O else S <$> position p l
  end.

(** A list that reaches a match: everything before it fails the test. *)
Lemma position_app_cons {A} (p : A → bool) l1 x l2 :
  Forall (λ y, p y = false) l1 → p x = true → position p (l1 ++ x :: l2) = Some (length l1).
Proof. intros Hl Hx. induction Hl as [|y l1 Hy _ IH]; simpl; [by rewrite Hx|]. by rewrite Hy, IH. Qed.

Lemma position_Some {A} (p : A → bool) l i :
  position p l = Some i ↔
  ∃ x, l !! i = Some x ∧ p x = true ∧ Forall (λ y, p y = false) (take i l).
Proof.
  revert i; induction l as [|y l IH]; intros i; simpl.
  - split; [done|]. by intros (x & ? & _).
  - destruct (p y) eqn:Hy.
    + split; [intros [= <-]; by exists y|].
      intros (x & Hx & Hp & Hall). destruct i; [done|].
      simpl in Hall. inversion Hall; congruence.
    + destruct i as [|i]; simpl.
      * split; [by destruct (position p l)|]. intros (x & [= ->] & ? & _). congruence.
      * split.
        -- destruct (position p l) as [j|] eqn:Hj; [|done]. intros [= ->].
           destruct (proj1 (IH i) eq_refl) as (x & ? & ? & ?).
           exists x. split_and!; [done..|]. by constructor.
        -- intros (x & Hx & Hp & Hall). inversion_clear Hall.
           assert (position p l = Some i) as ->; [|done]. apply IH. eauto.
Qed.

Lemma position_None {A} (p : A → bool) l :
  position p l = None ↔ Forall (λ y, p y = false) l.
Proof.
  induction l as [|y l IH]; simpl; [split; [constructor|done]|].
  destruct (p y) eqn:Hy.
  - split; [done|]. intros H. inversion H; congruence.
  - rewrite Forall_cons, <-IH. split; [by destruct (position p l)|by intros [_ ->]].
Qed.

Lemma position_lt {A} (p : A → bool) l i : position p l = Some i → (i < length l)%nat.
Proof. intros (x & Hx & _)%position_Some. by apply lookup_lt_Some in Hx. Qed.

(** The first [n] elements of a list that starts with a block of length [n]. *)
Lemma take_app_exact {A} (l1 l2 : list A) n : n = length l1 → take n (l1 ++ l2) = l1.
Proof. intros ->. by apply take_app_length. Qed.
Lemma drop_app_exact {A} (l1 l2 : list A) n : n = length l1 → drop n (l1 ++ l2) = l2.
Proof. intros ->. by apply drop_app_length. Qed.

(** A sorted list with distinct keys is the only sorted permutation of itself. *)
Lemma sorted_perm_unique {A} (f : A → Z) l1 l2 :
  NoDup (f <$> l1) → l1 ≡ₚ l2 →
  StronglySorted (λ x y, f x ≤ f y) l1 → StronglySorted (λ x y, f x ≤ f y) l2 → l1 = l2.
Proof.
  intros Hnd Hp H1 H2. apply (StronglySorted_unique_strong (λ x y, f x ≤ f y)); [|done..].
  intros x1 x2 Hx1 Hx2 Hle1 Hle2. rewrite <-Hp in Hx2.
  apply list_elem_of_lookup in Hx1 as [i Hi]. apply list_elem_of_lookup in Hx2 as [j Hj].
  assert (i = j) as ->; [|congruence].
  apply (NoDup_lookup (f <$> l1) i j (f x1) Hnd); rewrite list_lookup_fmap.
  - by rewrite Hi.
  - rewrite Hj. simpl. f_equal. lia.
Qed.
