(* ===== verification/RustStd.v ===== *)
(** * The parts of Rust's standard library the daemons use

    Strings are byte strings ([String]/[&str] as Rocq [string], one character
    per UTF-8 byte); paths are byte lists; a [SystemTime] is a number of
    nanoseconds since the Unix epoch and a [Duration] a non-negative number of
    nanoseconds.  [HashMap] is a [gmap]; where the source walks over one, the
    walk goes through [hash_iter], any enumeration of the map's entries. *)

From S2P Require Import Prelude.
From Stdlib Require Import Ascii.
Local Open Scope Z_scope.

(** ** Bytes of a string *)

Definition byte_of_ascii (a : ascii) : Z := Z.of_N (N_of_ascii a).
Definition ascii_of_byte (b : Z) : ascii := ascii_of_N (Z.to_N b).

(** [str::as_bytes] *)
Fixpoint as_bytes (s : string) : bytes :=
  match s with
  | EmptyString => []
  | String a s => byte_of_ascii a :: as_bytes s
  end.

Fixpoint string_of_bytes (bs : bytes) : string :=
  match bs with
  | [] => EmptyString
  | b :: bs => String (ascii_of_byte b) (string_of_bytes bs)
  end.

(** A UTF-8 continuation byte. *)
Definition is_cont (b : Z) : bool := (128 <=? b) && (b <=? 191).
Definition in_range (lo hi b : Z) : bool := (lo <=? b) && (b <=? hi).

(** The validity check of [str::from_utf8]. *)
Fixpoint utf8_valid (bs : bytes) : bool :=
  match bs with
  | [] => true
  | b0 :: r0 =>
    if b0 <? 128 then utf8_valid r0
    else if in_range 194 223 b0 then
      match r0 with b1 :: r1 => is_cont b1 && utf8_valid r1 | _ => false end
    else if in_range 224 239 b0 then
      match r0 with
      | b1 :: b2 :: r2 =>
        (if b0 =? 224 then in_range 160 191 b1
         else if b0 =? 237 then in_range 128 159 b1
         else is_cont b1) && is_cont b2 && utf8_valid r2
      | _ => false
      end
    else if in_range 240 244 b0 then
      match r0 with
      | b1 :: b2 :: b3 :: r3 =>
        (if b0 =? 240 then in_range 144 191 b1
         else if b0 =? 244 then in_range 128 143 b1
         else is_cont b1) && is_cont b2 && is_cont b3 && utf8_valid r3
      | _ => false
      end
    else false
  end.

(** [std::str::from_utf8(..).ok()] *)
Definition from_utf8 (bs : bytes) : option string :=
  if utf8_valid bs then Some (string_of_bytes bs) else None.

(** [str::to_ascii_lowercase], on bytes. *)
Definition ascii_lower (b : Z) : Z := if in_range 65 90 b then b + 32 else b.
Definition to_ascii_lowercase (s : string) : string :=
  string_of_bytes (ascii_lower <$> as_bytes s).

(** ** Formatting and parsing numbers *)

(** The digit [{:x}] prints. *)
Definition hex_digit (n : Z) : Z := if n <? 10 then 48 + n else 87 + n.

(** [{b:02x}] of a byte. *)
Definition fmt_02x (b : Z) : bytes := [hex_digit (b `div` 16); hex_digit (b `mod` 16)].

(** [{n:#06x}] of a [u16]: the prefix [0x] and four digits. *)
Definition fmt_06x_alt (n : Z) : string :=
  string_of_bytes ([48; 120] ++ fmt_02x (n `div` 256) ++ fmt_02x (n `mod` 256)).

(** [char::to_digit(16)] on one byte. *)
Definition to_hex_digit (b : Z) : option Z :=
  if in_range 48 57 b then Some (b - 48)
  else if in_range 97 102 b then Some (b - 87)
  else if in_range 65 70 b then Some (b - 55)
  else None.

(** The digit loop of [u8::from_str_radix]: overflow is an error. *)
Fixpoint parse_hex_digits (acc : Z) (bs : bytes) : option Z :=
  match bs with
  | [] => Some acc
  | b :: bs =>
    d ← to_hex_digit b;
    let acc := acc * 16 + d in
    if acc <? 256 then parse_hex_digits acc bs else None
  end.

(** [u8::from_str_radix(s, 16).ok()]: an optional plus sign, then at least one digit. *)
Definition u8_from_str_radix_16 (bs : bytes) : option Z :=
  match bs with
  | [] => None
  | [43] => None
  | 43 :: digits => parse_hex_digits 0 digits
  | _ => parse_hex_digits 0 bs
  end.

(** ** Splitting and trimming *)

(** [s.split(c)]: the pieces between separators, at least one. *)
Fixpoint split_byte (sep : Z) (bs : bytes) : list bytes :=
  match bs with
  | [] => [[]]
  | b :: bs =>
    if b =? sep then [] :: split_byte sep bs
    else match split_byte sep bs with
         | [] => [[b]]
         | piece :: pieces => (b :: piece) :: pieces
         end
  end.

(** The UTF-8 encodings of the characters with the Unicode property White_Space. *)
Definition white_space : list bytes :=
  [[9]; [10]; [11]; [12]; [13]; [32]; [194; 133]; [194; 160]; [225; 154; 128];
   [226; 128; 128]; [226; 128; 129]; [226; 128; 130]; [226; 128; 131]; [226; 128; 132];
   [226; 128; 133]; [226; 128; 134]; [226; 128; 135]; [226; 128; 136]; [226; 128; 137];
   [226; 128; 138]; [226; 128; 168]; [226; 128; 169]; [226; 128; 175]; [226; 129; 159];
   [227; 128; 128]].

(** Strip one of the patterns from the front, if one is there. *)
Definition strip_one (pats : list bytes) (bs : bytes) : option bytes :=
  head (omap (λ p, if decide (take (length p) bs = p) then Some (drop (length p) bs) else None) pats).

(** Strip patterns while there is one; each strips at least a byte, so
    [length bs] rounds are enough. *)
Fixpoint strip_all (fuel : nat) (pats : list bytes) (bs : bytes) : bytes :=
  match fuel with
  | O => bs
  | S fuel => match strip_one pats bs with Some r => strip_all fuel pats r | None => bs end
  end.

(** [str::trim] *)
Definition trim (bs : bytes) : bytes :=
  let front := strip_all (length bs) white_space bs in
  reverse (strip_all (length front) (reverse <$> white_space) (reverse front)).

(** ** Paths (Unix) *)

Abbreviation path := bytes (only parsing).

Inductive component :=
| RootDir
| CurDir
| ParentDir
| Normal (segment : bytes).

#[global] Instance component_eq_dec : EqDecision component.
Proof. solve_decision. Defined.

(** One piece between slashes: empty pieces and inner dots are skipped. *)
Definition parse_component (piece : bytes) : option component :=
  if decide (piece = []) then None
  else if decide (piece = [46]) then None
  else if decide (piece = [46; 46]) then Some ParentDir
  else Some (Normal piece).

(** The components of the pieces of a path without a leading slash. *)
Definition rel_components (pieces : list bytes) : list component :=
  match pieces with
  | piece :: rest =>
    if decide (piece = [46]) then CurDir :: omap parse_component rest
    else omap parse_component pieces
  | [] => []
  end.

(** [Path::components]: a leading slash is a [RootDir], a leading dot a [CurDir]. *)
Definition components (p : path) : list component :=
  match p with
  | b :: rest =>
    if b =? 47 then RootDir :: omap parse_component (split_byte 47 rest)
    else rel_components (split_byte 47 p)
  | [] => rel_components (split_byte 47 p)
  end.

(** [PathBuf::push]: an absolute segment replaces the path; otherwise a
    separator goes in between unless the path is empty or ends in one. *)
Definition push (p : path) (segment : bytes) : path :=
  match segment with
  | 47 :: _ => segment
  | _ =>
    match last p with
    | Some b => if b =? 47 then p ++ segment else p ++ 47 :: segment
    | None => segment
    end
  end.

(** [Path::join]: the path with the segment pushed. *)
Definition join (p : path) (segment : bytes) : path := push p segment.

(** The path of a list of components. *)
Definition path_of (cs : list component) : path :=
  foldl (λ p c, push p match c with
                       | RootDir => [47] | CurDir => [46] | ParentDir => [46; 46]
                       | Normal segment => segment
                       end) [] cs.

(** [Path::parent]: the path without its last component, up to the equality of paths,
    which compares components. *)
Definition parent (p : path) : option path :=
  match reverse (components p) with
  | [] | RootDir :: _ => None
  | _ :: rest => Some (path_of (reverse rest))
  end.

(** ** Network addresses *)

(** An [Ipv4Addr] is its 32-bit value ([u32::from]). *)
Abbreviation Ipv4Addr := Z (only parsing).
Definition octets (ip : Ipv4Addr) : bytes := to_be_bytes 4 ip.
Definition ipv4 (a b c d : Z) : Ipv4Addr := from_be_bytes [a; b; c; d].

Inductive IpAddr := IpV4 (ip : Ipv4Addr) | IpV6 (ip : Z).

Inductive SocketAddr :=
| V4 (ip : Ipv4Addr) (port : Z)
| V6 (ip : Z) (port flowinfo scope_id : Z).

#[global] Instance IpAddr_eq_dec : EqDecision IpAddr.
Proof. solve_decision. Defined.
#[global] Instance SocketAddr_eq_dec : EqDecision SocketAddr.
Proof. solve_decision. Defined.

(** [{}] of an [Ipv4Addr]: dotted decimal. *)
Definition fmt_ipv4 (ip : Ipv4Addr) : string :=
  String.concat "." (pretty <$> octets ip).

(** [{:x}] of a [u16]: no leading zeros, at least one digit. *)
Fixpoint strip_zeros (ds : list Z) : list Z :=
  match ds with
  | 0 :: (_ :: _ as rest) => strip_zeros rest
  | _ => ds
  end.
Definition fmt_x (n : Z) : string :=
  string_of_bytes (hex_digit <$> strip_zeros
    [n `div` 4096; (n `div` 256) `mod` 16; (n `div` 16) `mod` 16; n `mod` 16]).

(** [Ipv6Addr::segments] *)
Definition segments (ip : Z) : list Z :=
  (λ i, wrap 16 (ip `div` 2 ^ (16 * i))) <$> [7; 6; 5; 4; 3; 2; 1; 0].

(** The first longest run of zero segments: the span found so far, the current one and
    the index. *)
Fixpoint longest_zeros (i : nat) (longest current : nat * nat) (segs : list Z) : nat * nat :=
  match segs with
  | [] => longest
  | s :: segs =>
    if s =? 0 then
      let current := (if (current.2 =? 0)%nat then i else current.1, S current.2) in
      longest_zeros (S i) (if (longest.2 <? current.2)%nat then current else longest) current segs
    else longest_zeros (S i) longest (0%nat, 0%nat) segs
  end.

Definition fmt_segments (segs : list Z) : string := String.concat ":" (fmt_x <$> segs).

(** [{}] of an [Ipv6Addr]: a mapped IPv4 address in its own notation, and a run of more
    than one zero segment abbreviated. *)
Definition fmt_ipv6 (ip : Z) : string :=
  if ip `div` 2 ^ 32 =? 65535 then "::ffff:" +:+ fmt_ipv4 (ip `mod` 2 ^ 32)
  else
    let segs := segments ip in
    let '(start, len) := longest_zeros 0 (0%nat, 0%nat) (0%nat, 0%nat) segs in
    if (1 <? len)%nat
    then fmt_segments (take start segs) +:+ "::" +:+ fmt_segments (drop (start + len) segs)
    else fmt_segments segs.

(** [{}] of a [SocketAddr] *)
Definition fmt_socket_addr (a : SocketAddr) : string :=
  match a with
  | V4 ip port => fmt_ipv4 ip +:+ ":" +:+ pretty port
  | V6 ip port _ scope_id =>
    "[" +:+ fmt_ipv6 ip +:+ (if scope_id =? 0 then "" else "%" +:+ pretty scope_id)
    +:+ "]:" +:+ pretty port
  end.

(** ** Time *)

Abbreviation SystemTime := Z (only parsing).
Abbreviation Instant := Z (only parsing).
Abbreviation Duration := Z (only parsing).

Definition from_secs (s : Z) : Duration := s * 1000000000.
Definition from_millis (ms : Z) : Duration := ms * 1000000.

(** [Duration::MAX] *)
Definition duration_max : Duration := from_secs (2 ^ 64 - 1) + 999999999.

(** [later.duration_since(earlier)]: an error when the clock reads earlier. *)
Definition duration_since (later earlier : SystemTime) : result unit Duration :=
  if decide (earlier ≤ later) then Ok (later - earlier) else Err ().

(** [.unwrap_or(d)] *)
Definition unwrap_or {E A} (r : result E A) (d : A) : A :=
  match r with Ok a => a | Err _ => d end.

Definition as_secs (d : Duration) : Z := d `div` 1000000000.
Definition as_millis (d : Duration) : Z := d `div` 1000000.

(** ** Hash maps *)

(** The order in which [HashMap::iter], [values] and [values_mut] walk a map:
    some enumeration of its entries. *)
Class HashIter (K V : Type) `{Countable K} := hash_iter : gmap K V → list (K * V).
#[global] Hint Mode HashIter ! ! - - : typeclass_instances.

Class HashIterOk {K V} `{Countable K} (it : HashIter K V) : Prop :=
  hash_iter_perm (m : gmap K V) : hash_iter m ≡ₚ map_to_list m.

(** [m.values()] *)
Definition hash_values {K V} `{Countable K} {it : HashIter K V} (m : gmap K V) : list V :=
  (hash_iter m).*2.

(** ** Lemmas: strings and bytes *)

Lemma byte_of_ascii_u8 a : u8 (byte_of_ascii a).
Proof. unfold byte_of_ascii. pose proof (N_ascii_bounded a). fits_lia. Qed.

Lemma as_bytes_ok s : bytes_ok (as_bytes s).
Proof. induction s; simpl; constructor; auto using byte_of_ascii_u8. Qed.

Lemma string_of_as_bytes s : string_of_bytes (as_bytes s) = s.
Proof.
  induction s as [|a s IH]; simpl; [done|]. rewrite IH. f_equal.
  unfold ascii_of_byte, byte_of_ascii. by rewrite N2Z.id, ascii_N_embedding.
Qed.

Lemma as_string_of_bytes bs : bytes_ok bs → as_bytes (string_of_bytes bs) = bs.
Proof.
  induction 1 as [|b bs Hb _ IH]; simpl; [done|]. rewrite IH. f_equal.
  unfold ascii_of_byte, byte_of_ascii. rewrite N_ascii_embedding; fits_lia.
Qed.

#[export] Instance as_bytes_inj : Inj (=) (=) as_bytes.
Proof. intros s1 s2 H. by rewrite <-(string_of_as_bytes s1), <-(string_of_as_bytes s2), H. Qed.

Lemma as_bytes_app s1 s2 : as_bytes (s1 +:+ s2) = as_bytes s1 ++ as_bytes s2.
Proof. induction s1 as [|a s1 IH]; simpl; [done|]. by rewrite IH. Qed.

Lemma utf8_valid_ascii bs : Forall (λ b, b < 128) bs → utf8_valid bs = true.
Proof. induction 1 as [|b bs Hb _ IH]; simpl; [done|]. by rewrite (proj2 (Z.ltb_lt b 128)). Qed.

(** Decoding the bytes of a string gives the string back. *)
Lemma from_utf8_as_bytes s : utf8_valid (as_bytes s) = true → from_utf8 (as_bytes s) = Some s.
Proof. unfold from_utf8. intros ->. by rewrite string_of_as_bytes. Qed.

(** ** Lemmas: hexadecimal *)

Lemma hex_digit_range n : 0 ≤ n < 16 → 48 ≤ hex_digit n ≤ 57 ∨ 97 ≤ hex_digit n ≤ 102.
Proof. unfold hex_digit. intros. case_match; lia. Qed.

Lemma to_hex_digit_hex_digit n : 0 ≤ n < 16 → to_hex_digit (hex_digit n) = Some n.
Proof.
  intros Hn. unfold to_hex_digit, hex_digit, in_range.
  destruct (Z.ltb_spec n 10).
  - rewrite !(proj2 (Z.leb_le _ _)) by lia. simpl. f_equal. lia.
  - rewrite (proj2 (Z.leb_gt (87 + n) 57)), andb_false_r by lia.
    rewrite !(proj2 (Z.leb_le _ _)) by lia. simpl. f_equal. lia.
Qed.

Lemma hex_digit_inj m n : 0 ≤ m < 16 → 0 ≤ n < 16 → hex_digit m = hex_digit n → m = n.
Proof.
  intros Hm Hn H. apply (f_equal to_hex_digit) in H.
  rewrite !to_hex_digit_hex_digit in H by done. congruence.
Qed.

(** A byte is printed as two digits that no byte shares. *)
Lemma fmt_02x_inj a b : u8 a → u8 b → fmt_02x a = fmt_02x b → a = b.
Proof.
  intros Ha Hb [= H1 H2]. apply hex_digit_inj in H1; [|fits_lia..].
  apply hex_digit_inj in H2; fits_lia.
Qed.

Lemma fmt_02x_ascii b : u8 b → Forall (λ c, 48 ≤ c < 128 ∧ c ≠ 58) (fmt_02x b).
Proof.
  intros Hb. unfold fmt_02x.
  pose proof (hex_digit_range (b `div` 16) ltac:(fits_lia)).
  pose proof (hex_digit_range (b `mod` 16) ltac:(fits_lia)).
  repeat constructor; lia.
Qed.

Lemma parse_hex_digits_cons acc b bs d :
  to_hex_digit b = Some d → acc * 16 + d < 256 →
  parse_hex_digits acc (b :: bs) = parse_hex_digits (acc * 16 + d) bs.
Proof.
  intros Hd Hlt. cbn [parse_hex_digits]. rewrite Hd. unfold mbind, option_bind.
  by rewrite (proj2 (Z.ltb_lt _ _) Hlt).
Qed.

(** Parsing the two printed digits gives the byte back. *)
Lemma u8_from_str_radix_fmt_02x b : u8 b → u8_from_str_radix_16 (fmt_02x b) = Some b.
Proof.
  intros Hb. unfold fmt_02x.
  pose proof (hex_digit_range (b `div` 16) ltac:(fits_lia)) as Hr.
  remember (hex_digit (b `div` 16)) as c eqn:Hc.
  assert (u8_from_str_radix_16 [c; hex_digit (b `mod` 16)]
          = parse_hex_digits 0 [c; hex_digit (b `mod` 16)]) as ->.
  { unfold u8_from_str_radix_16. destruct (decide (c = 43)); [lia|]. by repeat case_match. }
  subst c. erewrite parse_hex_digits_cons; [|apply to_hex_digit_hex_digit; fits_lia|fits_lia].
  erewrite parse_hex_digits_cons; [|apply to_hex_digit_hex_digit; fits_lia|fits_lia].
  simpl. f_equal. fits_lia.
Qed.

(** A successfully parsed number is a byte. *)
Lemma parse_hex_digits_u8 acc bs n : u8 acc → parse_hex_digits acc bs = Some n → u8 n.
Proof.
  revert acc; induction bs as [|b bs IH]; intros acc Hacc; simpl; [by intros [= <-]|].
  destruct (to_hex_digit b) as [d|] eqn:Hd; [|done]. simpl.
  destruct (Z.ltb_spec (acc * 16 + d) 256); [|done]. apply IH.
  revert Hd. unfold to_hex_digit, in_range. intros. repeat case_match; simplify_eq; fits_lia.
Qed.

(** ** Lemmas: splitting and trimming *)

Lemma split_byte_ne_nil sep bs : split_byte sep bs ≠ [].
Proof. destruct bs as [|b bs]; simpl; [done|]. case_match; [done|]. by destruct (split_byte sep bs). Qed.

Lemma split_byte_cons_sep sep piece rest :
  sep ∉ piece → split_byte sep (piece ++ sep :: rest) = piece :: split_byte sep rest.
Proof.
  induction piece as [|b piece IH]; intros Hin; simpl; [by rewrite Z.eqb_refl|].
  apply not_elem_of_cons in Hin as [Hne Hin].
  by rewrite (proj2 (Z.eqb_neq b sep)), IH by done.
Qed.

Lemma split_byte_none sep piece : sep ∉ piece → split_byte sep piece = [piece].
Proof.
  induction piece as [|b piece IH]; intros Hin; simpl; [done|].
  apply not_elem_of_cons in Hin as [Hne Hin].
  by rewrite (proj2 (Z.eqb_neq b sep)), IH by done.
Qed.

(** No piece contains the separator. *)
Lemma split_byte_no_sep sep bs : Forall (λ piece, sep ∉ piece) (split_byte sep bs).
Proof.
  induction bs as [|b bs IH]; simpl; [by repeat constructor; apply not_elem_of_nil|].
  destruct (Z.eqb_spec b sep); [constructor; [apply not_elem_of_nil|done]|].
  destruct (split_byte sep bs) as [|piece pieces]; inversion_clear IH; repeat constructor; try done;
    apply not_elem_of_cons; split; auto using not_elem_of_nil.
Qed.

(** The first byte decides whether a pattern can be stripped. *)
Lemma strip_one_none pats bs :
  Forall (λ p, take (length p) bs ≠ p) pats → strip_one pats bs = None.
Proof.
  unfold strip_one. induction 1 as [|p pats Hp _ IH]; simpl; [done|].
  by rewrite decide_False by done.
Qed.

Lemma strip_all_S fuel pats bs :
  strip_all (S fuel) pats bs
  = match strip_one pats bs with Some r => strip_all fuel pats r | None => bs end.
Proof. done. Qed.

Lemma strip_all_none fuel pats bs : strip_one pats bs = None → strip_all fuel pats bs = bs.
Proof. destruct fuel; simpl; [done|]. by intros ->. Qed.

(** A first byte no pattern starts with blocks stripping. *)
Lemma strip_one_head pats b bs :
  Forall (λ p, p ≠ [] ∧ head p ≠ Some b) pats → strip_one pats (b :: bs) = None.
Proof.
  intros H. apply strip_one_none. eapply Forall_impl; [done|].
  intros [|c p] [Hne Hhd]; [done|]. simpl in *. congruence.
Qed.

(** Graphic ASCII characters are not white space, in either direction. *)
Definition starts_outside_graphic (p : bytes) : bool :=
  match p with c :: _ => (c <? 33) || (128 <=? c) | [] => false end.

Lemma white_space_graphic b :
  33 ≤ b < 128 → Forall (λ p, p ≠ [] ∧ head p ≠ Some b) white_space
              ∧ Forall (λ p, p ≠ [] ∧ head p ≠ Some b) (reverse <$> white_space).
Proof.
  intros Hb.
  assert (∀ pats, forallb starts_outside_graphic pats = true →
    Forall (λ p, p ≠ [] ∧ head p ≠ Some b) pats) as Himpl.
  { intros pats Hp. apply Forall_forall. intros p Hin%list_elem_of_In.
    eapply forallb_forall in Hp; [|done]. destruct p as [|c p]; [done|].
    simpl in *. split; [done|]. intros [= ->]. lia. }
  split; apply Himpl; vm_compute; reflexivity.
Qed.

Lemma strip_one_hit pats1 b pats2 bs :
  Forall (λ p, p ≠ [] ∧ head p ≠ Some b) pats1 →
  strip_one (pats1 ++ [b] :: pats2) (b :: bs) = Some bs.
Proof.
  unfold strip_one. induction 1 as [|p pats1 [Hne Hhd] _ IH].
  - cbn. by rewrite decide_True by done.
  - cbn. rewrite decide_False; [done|]. destruct p as [|c p]; [done|]. cbn in *. congruence.
Qed.

Lemma strip_one_newline bs : strip_one (reverse <$> white_space) (10 :: bs) = Some bs.
Proof.
  change (reverse <$> white_space) with ([[9]] ++ [10] :: (reverse <$> drop 2 white_space)).
  apply strip_one_hit. by repeat constructor.
Qed.

(** Trimming a line of graphic characters removes just the newline. *)
Lemma trim_line first rest final :
  33 ≤ first < 128 → 33 ≤ final < 128 →
  trim (first :: rest ++ [final; 10]) = first :: rest ++ [final].
Proof.
  intros Hf Hl. unfold trim.
  rewrite (strip_all_none _ white_space) by exact (strip_one_head _ _ _ (proj1 (white_space_graphic _ Hf))).
  replace (first :: rest ++ [final; 10]) with ((first :: rest ++ [final]) ++ [10])
    by (rewrite app_comm_cons, <-app_assoc; done).
  rewrite length_app, Nat.add_1_r, reverse_snoc.
  rewrite strip_all_S, strip_one_newline.
  rewrite strip_all_none; [by rewrite reverse_involutive|].
  rewrite app_comm_cons, reverse_snoc.
  exact (strip_one_head _ _ _ (proj2 (white_space_graphic _ Hl))).
Qed.

(** ** Lemmas: paths *)

(** A normal segment is a nonempty piece without slashes, and not a dot or two. *)
Definition normal_segment (s : bytes) : Prop :=
  (s ≠ []) ∧ (47 ∉ s) ∧ s ≠ [46] ∧ s ≠ [46; 46].

Lemma parse_component_Normal piece s :
  47 ∉ piece → parse_component piece = Some (Normal s) → normal_segment s.
Proof. unfold parse_component, normal_segment. intros. by repeat case_decide; simplify_eq. Qed.

Lemma omap_parse_Normal pieces :
  Forall (λ piece, 47 ∉ piece) pieces →
  Forall (λ c, ∀ s, c = Normal s → normal_segment s) (omap parse_component pieces).
Proof.
  induction 1 as [|piece pieces Hp _ IH]; simpl; [constructor|].
  destruct (parse_component piece) eqn:Hc; [|done]. constructor; [|done].
  intros s ->. eauto using parse_component_Normal.
Qed.

(** Every normal component of a path is a normal segment. *)
Lemma components_Normal p : Forall (λ c, ∀ s, c = Normal s → normal_segment s) (components p).
Proof.
  assert (∀ q, Forall (λ c, ∀ s, c = Normal s → normal_segment s)
                 (omap parse_component (split_byte 47 q))) as Hall.
  { intros q. apply omap_parse_Normal, split_byte_no_sep. }
  assert (∀ q, Forall (λ c, ∀ s, c = Normal s → normal_segment s)
                 (rel_components (split_byte 47 q))) as Hrel.
  { intros q. pose proof (split_byte_no_sep 47 q) as Hsep. specialize (Hall q).
    unfold rel_components. destruct (split_byte 47 q) as [|piece rest]; [done|].
    inversion_clear Hsep. case_decide; [|done].
    constructor; [done|]. by apply omap_parse_Normal. }
  unfold components. destruct p as [|b p]; [apply Hrel|].
  case_match; [by constructor|apply Hrel].
Qed.

(** Pushing a normal segment extends the path, with one separator in between. *)
Lemma push_normal p s :
  normal_segment s →
  ∃ sep, push p s = p ++ sep ++ s ∧ (sep = [] ∨ sep = [47]).
Proof.
  intros (Hne & Hslash & _). unfold push.
  destruct s as [|b s]; [done|]. apply not_elem_of_cons in Hslash as [Hb _].
  destruct (last p) as [x|] eqn:Hlast.
  - destruct (Z.eqb_spec x 47).
    + exists []. split; [|by left]. by repeat case_match.
    + exists [47]. split; [|by right]. by repeat case_match.
  - apply last_None in Hlast as ->. exists []. split; [|by left]. by repeat case_match.
Qed.

Lemma split_byte_app_sep sep p s :
  sep ∉ s → split_byte sep (p ++ sep :: s) = split_byte sep p ++ [s].
Proof.
  intros Hs. induction p as [|b p IH]; cbn.
  - by rewrite Z.eqb_refl, split_byte_none.
  - destruct (b =? sep); [by rewrite IH|]. rewrite IH.
    pose proof (split_byte_ne_nil sep p). by destruct (split_byte sep p).
Qed.

Lemma components_rest p s :
  normal_segment s →
  omap parse_component (split_byte 47 (p ++ 47 :: s))
  = omap parse_component (split_byte 47 p) ++ [Normal s].
Proof.
  intros (Hne & Hslash & Hdot & Hdots). rewrite split_byte_app_sep by done.
  rewrite omap_app. f_equal. cbn. unfold parse_component. by rewrite !decide_False.
Qed.

Lemma rel_components_app pieces s :
  pieces ≠ [] → rel_components (pieces ++ [s]) = rel_components pieces ++ omap parse_component [s].
Proof.
  intros Hne. destruct pieces as [|piece rest]; [done|]. unfold rel_components.
  rewrite <-app_comm_cons. case_decide; by rewrite ?app_comm_cons, omap_app.
Qed.

Lemma parse_normal s : normal_segment s → parse_component s = Some (Normal s).
Proof. intros (? & _ & ? & ?). unfold parse_component. by rewrite !decide_False. Qed.

Lemma omap_parse_normal s : normal_segment s → omap parse_component [s] = [Normal s].
Proof. intros Hs. cbn. by rewrite parse_normal. Qed.

(** A separator and a segment at the end of a path. *)
Lemma components_app_sep p s :
  47 ∉ s → p ≠ [] → components (p ++ 47 :: s) = components p ++ omap parse_component [s].
Proof.
  intros Hs Hne. destruct p as [|b p]; [done|]. unfold components. cbn [app].
  destruct (b =? 47).
  - by rewrite split_byte_app_sep, omap_app by done.
  - rewrite app_comm_cons, split_byte_app_sep by done.
    apply rel_components_app, split_byte_ne_nil.
Qed.

(** Pushing a normal segment adds it as the last component. *)
Lemma components_push p s :
  normal_segment s → components (push p s) = components p ++ [Normal s].
Proof.
  intros Hs. pose proof Hs as (Hne & Hslash & Hdot & _).
  assert (components s = [Normal s]) as Hsingle.
  { destruct s as [|b s]; [done|]. unfold components.
    destruct (Z.eqb_spec b 47) as [->|]; [by apply not_elem_of_cons in Hslash as [? _]|].
    rewrite split_byte_none by done. unfold rel_components.
    rewrite decide_False by done. by apply omap_parse_normal. }
  assert (push p s = match last p with
                     | Some b => if b =? 47 then p ++ s else p ++ 47 :: s | None => s end) as ->.
  { unfold push. destruct s as [|b s]; [done|]. apply not_elem_of_cons in Hslash as [? _].
    by repeat case_match. }
  destruct (last p) as [b|] eqn:Hlast; [|by apply last_None in Hlast as ->].
  apply last_Some in Hlast as [q ->].
  assert (47 ∉ @nil Z) as Hnil by apply not_elem_of_nil.
  destruct (Z.eqb_spec b 47) as [->|Hb].
  - destruct q as [|c q].
    + cbn. unfold components. cbn. rewrite split_byte_none by done.
      f_equal. by apply omap_parse_normal.
    + replace (((c :: q) ++ [47]) ++ s) with ((c :: q) ++ 47 :: s) by (by rewrite <-app_assoc).
      rewrite (components_app_sep (c :: q) s) by done.
      rewrite (components_app_sep (c :: q) []) by done.
      change (omap parse_component [[]]) with (@nil component).
      by rewrite app_nil_r, omap_parse_normal.
  - rewrite components_app_sep by (done || by destruct q).
    by rewrite omap_parse_normal.
Qed.

(** ** Lemmas: hash maps and time *)

Lemma hash_values_perm {K V} `{Countable K} {it : HashIter K V} {Hit : HashIterOk it}
    (m : gmap K V) :
  hash_values m ≡ₚ (map_to_list m).*2.
Proof. unfold hash_values. by rewrite hash_iter_perm. Qed.

Lemma elem_of_hash_values {K V} `{Countable K} {it : HashIter K V} {Hit : HashIterOk it}
    (m : gmap K V) v :
  v ∈ hash_values m ↔ ∃ k, m !! k = Some v.
Proof.
  rewrite hash_values_perm, list_elem_of_fmap. split.
  - intros ((k & v') & -> & Hin). apply elem_of_map_to_list in Hin. eauto.
  - intros [k Hk]. exists (k, v). by rewrite elem_of_map_to_list.
Qed.

Lemma duration_since_Ok a b d : duration_since a b = Ok d ↔ b ≤ a ∧ d = a - b.
Proof.
  unfold duration_since. case_decide; split; try done; [by intros [= <-]|by intros [_ ->]|lia].
Qed.

Lemma duration_max_large : from_secs 300 ≤ duration_max.
Proof. unfold duration_max, from_secs. lia. Qed.

(** The enumeration the finite-map library computes. *)
Definition map_iter {K V} `{Countable K} : HashIter K V := map_to_list.
#[export] Instance map_iter_ok {K V} `{Countable K} : HashIterOk (map_iter (K := K) (V := V)).
Proof. intros m. reflexivity. Qed.

(** Another enumeration, the reverse one. *)
Definition rev_iter {K V} `{Countable K} : HashIter K V := λ m, reverse (map_to_list m).
#[export] Instance rev_iter_ok {K V} `{Countable K} : HashIterOk (rev_iter (K := K) (V := V)).
Proof. intros m. unfold hash_iter, rev_iter. apply reverse_Permutation. Qed.

#[export] Hint Resolve as_bytes_ok : hive.
