(* ===== verification/Text.v ===== *)
(** * Numbers and addresses as text

    What [to_string] and the format macros make of numbers and IPv4 socket addresses:
    how long the text is, which characters it has, and that it can be read back. *)

From S2P Require Import Prelude RustStd.
Local Open Scope Z_scope.

(** ** Decimal numbers *)

Definition decimal_digit (b : Z) : Prop := 48 ≤ b ≤ 57.

Lemma pretty_char_digit x : decimal_digit (byte_of_ascii (pretty_N_char x)).
Proof. unfold pretty_N_char, decimal_digit. repeat case_match; by vm_compute. Qed.

(** The printing loop: it adds digits in front of what is there, at most as many as the
    number has. *)
Lemma pretty_N_go_digits x (s : string) :
  ∃ ds, as_bytes (pretty_N_go x s) = ds ++ as_bytes s ∧ Forall decimal_digit ds
    ∧ ∀ k : nat, (x < 10 ^ N.of_nat k)%N → (length ds ≤ k)%nat.
Proof.
  revert s. induction (N.lt_wf_0 x) as [x _ IH]; intros s.
  assert (x = 0 ∨ 0 < x)%N as [->|Hx] by lia; [exists []; rewrite pretty_N_go_0; split_and!; [done..|cbn; lia]|].
  rewrite pretty_N_go_step by done.
  destruct (IH (x / 10)%N ltac:(by apply N.div_lt) (String (pretty_N_char (x mod 10)) s))
    as (ds & -> & Hds & Hlen).
  exists (ds ++ [byte_of_ascii (pretty_N_char (x mod 10))]). split; [by rewrite <-app_assoc|].
  split; [apply Forall_app; split; [done|]; apply Forall_singleton, pretty_char_digit|].
  intros k Hk. rewrite length_app. cbn. destruct k as [|k]; [cbn in Hk; lia|].
  rewrite Nat2N.inj_succ, N.pow_succ_r' in Hk.
  specialize (Hlen k ltac:(apply N.Div0.div_lt_upper_bound; lia)). lia.
Qed.

Lemma pretty_Z_nonneg z : 0 ≤ z → pretty z = pretty (Z.to_N z).
Proof. intros Hz. unfold pretty at 1, pretty_Z. by destruct z. Qed.

(** A printed number consists of digits, at least one. *)
Lemma pretty_digits z : 0 ≤ z → Forall decimal_digit (as_bytes (pretty z)) ∧ as_bytes (pretty z) ≠ [].
Proof.
  intros Hz. rewrite pretty_Z_nonneg by done. unfold pretty, pretty_N. case_decide as H0.
  { split; [|done]. by repeat constructor. }
  rewrite pretty_N_go_step by lia.
  destruct (pretty_N_go_digits (Z.to_N z / 10) (String (pretty_N_char (Z.to_N z mod 10)) ""))
    as (ds & -> & Hds & _).
  split; [|by destruct ds]. apply Forall_app. split; [done|].
  repeat constructor. all: apply pretty_char_digit.
Qed.

Lemma pretty_length z (k : nat) :
  0 ≤ z < 10 ^ Z.of_nat k → (0 < k)%nat → (length (as_bytes (pretty z)) ≤ k)%nat.
Proof.
  intros [Hz Hlt] Hk. rewrite pretty_Z_nonneg by done. unfold pretty, pretty_N. case_decide; [done|].
  destruct (pretty_N_go_digits (Z.to_N z) "") as (ds & -> & _ & Hlen). rewrite app_nil_r.
  apply Hlen. apply N2Z.inj_lt. rewrite N2Z.inj_pow, nat_N_Z, Z2N.id by done. done.
Qed.

Lemma pretty_no_byte z b : 0 ≤ z → ¬ decimal_digit b → b ∉ as_bytes (pretty z).
Proof. intros Hz Hb Hin. by apply (proj1 (Forall_forall _ _) (proj1 (pretty_digits z Hz))) in Hin. Qed.

(** ** IPv4 socket addresses *)

Lemma octets_ok ip : Forall u8 (octets ip).
Proof. apply to_be_bytes_ok. Qed.

Lemma octets_inj ip1 ip2 : u32 ip1 → u32 ip2 → octets ip1 = octets ip2 → ip1 = ip2.
Proof.
  intros H1 H2 Heq. apply (f_equal from_be_bytes) in Heq. unfold octets in Heq.
  by rewrite !from_to_be_bytes in Heq.
Qed.

Lemma octets_4 ip : ∃ a b c d, octets ip = [a; b; c; d] ∧ Forall u8 [a; b; c; d].
Proof.
  pose proof (octets_ok ip) as Hok. pose proof (length_to_be_bytes 4 ip : length (octets ip) = 4%nat) as Hlen.
  destruct (octets ip) as [|a [|b [|c [|d [|]]]]]; try done. by exists a, b, c, d.
Qed.

(** The text of an address and a port: numbers between dots and before a colon. *)
Lemma fmt_v4_bytes ip port :
  ∃ a b c d, octets ip = [a; b; c; d] ∧ Forall u8 [a; b; c; d] ∧
    as_bytes (fmt_socket_addr (V4 ip port))
    = as_bytes (pretty a) ++ 46 :: as_bytes (pretty b) ++ 46 :: as_bytes (pretty c) ++ 46 ::
      as_bytes (pretty d) ++ 58 :: as_bytes (pretty port).
Proof.
  destruct (octets_4 ip) as (a & b & c & d & Ho & Hok). exists a, b, c, d. split; [done|]. split; [done|].
  unfold fmt_socket_addr, fmt_ipv4. rewrite Ho. cbn [fmap list_fmap String.concat].
  change (String.append ?x ?y) with (x +:+ y).
  rewrite !as_bytes_app. by rewrite <-!app_assoc.
Qed.

(** It fits in twenty-one characters. *)
Lemma fmt_v4_length ip port : u16 port → (length (as_bytes (fmt_socket_addr (V4 ip port))) ≤ 21)%nat.
Proof.
  intros Hport. destruct (fmt_v4_bytes ip port) as (a & b & c & d & _ & Hok & ->).
  rewrite !Forall_cons in Hok. destruct Hok as (Ha & Hb & Hc & Hd & _).
  assert (∀ x, u8 x → (length (as_bytes (pretty x)) ≤ 3)%nat) as H8.
  { intros x Hx. apply pretty_length; [|lia]. fits_lia. }
  pose proof (H8 a Ha). pose proof (H8 b Hb). pose proof (H8 c Hc). pose proof (H8 d Hd).
  assert (length (as_bytes (pretty port)) ≤ 5)%nat by (apply pretty_length; [fits_lia|lia]).
  repeat (rewrite length_app; cbn [length]). lia.
Qed.

(** Two texts that start with digits up to the same separator agree on both sides of it. *)
Lemma digits_sep_inj z1 z2 sep (r1 r2 : bytes) :
  0 ≤ z1 → 0 ≤ z2 → ¬ decimal_digit sep →
  as_bytes (pretty z1) ++ sep :: r1 = as_bytes (pretty z2) ++ sep :: r2 → z1 = z2 ∧ r1 = r2.
Proof.
  intros H1 H2 Hsep Heq. pose proof (f_equal (split_byte sep) Heq) as Hs.
  rewrite !split_byte_cons_sep in Hs by by apply pretty_no_byte.
  injection Hs as Hz _. rewrite Hz in Heq. apply app_inv_head in Heq. injection Heq as ->.
  split; [|done]. by apply (inj as_bytes), (inj pretty) in Hz.
Qed.

(** No two IPv4 addresses and ports have the same text. *)
Lemma fmt_v4_inj ip1 port1 ip2 port2 :
  u32 ip1 → u32 ip2 → u16 port1 → u16 port2 →
  fmt_socket_addr (V4 ip1 port1) = fmt_socket_addr (V4 ip2 port2) → ip1 = ip2 ∧ port1 = port2.
Proof.
  intros Hip1 Hip2 Hp1 Hp2 Heq. apply (f_equal as_bytes) in Heq.
  destruct (fmt_v4_bytes ip1 port1) as (a & b & c & d & Ho & Hok & E1).
  destruct (fmt_v4_bytes ip2 port2) as (a' & b' & c' & d' & Ho' & Hok' & E2).
  rewrite E1, E2 in Heq. clear E1 E2. rewrite !Forall_cons in Hok, Hok'.
  destruct Hok as (Ha & Hb & Hc & Hd & _), Hok' as (Ha' & Hb' & Hc' & Hd' & _).
  assert (¬ decimal_digit 46 ∧ ¬ decimal_digit 58) as [Hdot Hcolon] by (unfold decimal_digit; lia).
  apply digits_sep_inj in Heq as [-> Heq]; [|fits_lia..|done].
  apply digits_sep_inj in Heq as [-> Heq]; [|fits_lia..|done].
  apply digits_sep_inj in Heq as [-> Heq]; [|fits_lia..|done].
  apply digits_sep_inj in Heq as [-> Heq]; [|fits_lia..|done].
  apply (inj as_bytes), (inj pretty) in Heq. split; [|done].
  apply octets_inj; [done..|]. by rewrite Ho, Ho'.
Qed.

(** ** Lossy decoding

    [String::from_utf8_lossy]: an invalid sequence is replaced by U+FFFD, from its first
    byte to the last byte before the one that made it invalid; that one is read again. *)

Definition replacement : bytes := [239; 191; 189].

(** The range of the second byte of a sequence of three or four. *)
Definition second_ok (b0 b1 : Z) : bool :=
  if b0 =? 224 then in_range 160 191 b1
  else if b0 =? 237 then in_range 128 159 b1
  else if b0 =? 240 then in_range 144 191 b1
  else if b0 =? 244 then in_range 128 143 b1
  else is_cont b1.

Fixpoint from_utf8_lossy (bs : bytes) : bytes :=
  match bs with
  | [] => []
  | b0 :: r0 =>
    if b0 <? 128 then b0 :: from_utf8_lossy r0
    else if in_range 194 223 b0 then
      match r0 with
      | b1 :: r1 =>
        if is_cont b1 then b0 :: b1 :: from_utf8_lossy r1 else replacement ++ from_utf8_lossy r0
      | [] => replacement
      end
    else if in_range 224 239 b0 then
      match r0 with
      | b1 :: r1 =>
        if second_ok b0 b1 then
          match r1 with
          | b2 :: r2 =>
            if is_cont b2 then b0 :: b1 :: b2 :: from_utf8_lossy r2
            else replacement ++ from_utf8_lossy r1
          | [] => replacement
          end
        else replacement ++ from_utf8_lossy r0
      | [] => replacement
      end
    else if in_range 240 244 b0 then
      match r0 with
      | b1 :: r1 =>
        if second_ok b0 b1 then
          match r1 with
          | b2 :: r2 =>
            if is_cont b2 then
              match r2 with
              | b3 :: r3 =>
                if is_cont b3 then b0 :: b1 :: b2 :: b3 :: from_utf8_lossy r3
                else replacement ++ from_utf8_lossy r2
              | [] => replacement
              end
            else replacement ++ from_utf8_lossy r1
          | [] => replacement
          end
        else replacement ++ from_utf8_lossy r0
      | [] => replacement
      end
    else replacement ++ from_utf8_lossy r0
  end.

Lemma utf8_valid_replacement bs : utf8_valid (replacement ++ bs) = utf8_valid bs.
Proof. reflexivity. Qed.

(** The second byte's range, for sequences of three and of four. *)
Lemma second_ok_3 b0 b1 :
  in_range 224 239 b0 = true →
  second_ok b0 b1 = if b0 =? 224 then in_range 160 191 b1
                    else if b0 =? 237 then in_range 128 159 b1 else is_cont b1.
Proof.
  unfold in_range, second_ok. intros Hb. apply andb_true_iff in Hb as [?%Z.leb_le ?%Z.leb_le].
  by rewrite (proj2 (Z.eqb_neq b0 240)), (proj2 (Z.eqb_neq b0 244)) by lia.
Qed.

Lemma second_ok_4 b0 b1 :
  in_range 240 244 b0 = true →
  second_ok b0 b1 = if b0 =? 240 then in_range 144 191 b1
                    else if b0 =? 244 then in_range 128 143 b1 else is_cont b1.
Proof.
  unfold in_range, second_ok. intros Hb. apply andb_true_iff in Hb as [?%Z.leb_le ?%Z.leb_le].
  by rewrite (proj2 (Z.eqb_neq b0 224)), (proj2 (Z.eqb_neq b0 237)) by lia.
Qed.

(** The result is always valid, and valid text is left as it is. *)
Lemma from_utf8_lossy_spec bs :
  utf8_valid (from_utf8_lossy bs) = true ∧ (utf8_valid bs = true → from_utf8_lossy bs = bs).
Proof.
  induction (Nat.lt_wf_0_projected (@length Z) bs) as [bs _ IH].
  destruct bs as [|b0 r0]; [done|]. cbn [from_utf8_lossy utf8_valid].
  destruct (b0 <? 128) eqn:H0.
  { destruct (IH r0 ltac:(cbn; lia)) as [Hv Hid]. cbn. rewrite H0. split; [done|]. intros ?. by rewrite Hid. }
  destruct (in_range 194 223 b0) eqn:H2.
  { destruct r0 as [|b1 r1]; [done|]. destruct (is_cont b1) eqn:H1.
    - destruct (IH r1 ltac:(cbn; lia)) as [Hv Hid]. cbn. rewrite H0, H2, H1. cbn.
      split; [done|]. intros ?. by rewrite Hid.
    - rewrite utf8_valid_replacement. split; [by apply IH; cbn; lia|done]. }
  destruct (in_range 224 239 b0) eqn:H3.
  { destruct r0 as [|b1 r1]; [done|]. rewrite (second_ok_3 _ _ H3). set (ok := if b0 =? 224 then _ else _).
    destruct ok eqn:Hok; cycle 1.
    { rewrite utf8_valid_replacement. split; [by apply IH; cbn; lia|]. by destruct r1. }
    destruct r1 as [|b2 r2]; [done|]. destruct (is_cont b2) eqn:Hb2; cycle 1.
    { rewrite utf8_valid_replacement. split; [by apply IH; cbn; lia|done]. }
    destruct (IH r2 ltac:(cbn; lia)) as [Hv Hid]. cbn [utf8_valid]. rewrite H0, H2, H3. fold ok. rewrite Hok, Hb2.
    cbn. split; [done|]. intros ?. by rewrite Hid. }
  destruct (in_range 240 244 b0) eqn:H4; cycle 1.
  { rewrite utf8_valid_replacement. split; [by apply IH; cbn; lia|done]. }
  destruct r0 as [|b1 r1]; [done|]. rewrite (second_ok_4 _ _ H4). set (ok := if b0 =? 240 then _ else _).
  destruct ok eqn:Hok; cycle 1.
  { rewrite utf8_valid_replacement. split; [by apply IH; cbn; lia|]. by destruct r1 as [|? [|]]. }
  destruct r1 as [|b2 r2]; [done|]. destruct (is_cont b2) eqn:Hb2; cycle 1.
  { rewrite utf8_valid_replacement. split; [by apply IH; cbn; lia|]. by destruct r2. }
  destruct r2 as [|b3 r3]; [done|]. destruct (is_cont b3) eqn:Hb3; cycle 1.
  { rewrite utf8_valid_replacement. split; [by apply IH; cbn; lia|done]. }
  destruct (IH r3 ltac:(cbn; lia)) as [Hv Hid]. cbn [utf8_valid]. rewrite H0, H2, H3, H4. fold ok.
  rewrite Hok, Hb2, Hb3. cbn. split; [done|]. intros ?. by rewrite Hid.
Qed.

Lemma from_utf8_lossy_bytes bs : bytes_ok bs → bytes_ok (from_utf8_lossy bs).
Proof.
  assert (∀ bs, bytes_ok bs → bytes_ok (replacement ++ bs)) as Happ
    by (intros; apply Forall_app; split; [by_compute|done]).
  assert (bytes_ok replacement) as Hr by by_compute.
  induction (Nat.lt_wf_0_projected (@length Z) bs) as [bs _ IH]. intros Hbs.
  assert (∀ bs', (length bs' < length bs)%nat → bytes_ok bs' → bytes_ok (from_utf8_lossy bs')) as IH' by auto.
  clear IH.
  destruct bs as [|b0 r0]; [done|]. apply Forall_cons in Hbs as [H0 Hbs]. cbn [from_utf8_lossy].
  repeat match goal with
  | H : bytes_ok (_ :: _) |- _ => apply Forall_cons in H as [? H]
  | |- bytes_ok (if ?x then _ else _) => destruct x
  | |- bytes_ok (match ?x with _ => _ end) => destruct x
  | |- bytes_ok (replacement ++ _) => apply Happ
  | |- bytes_ok (_ :: _) => apply Forall_cons_2; [done|]
  | |- bytes_ok (from_utf8_lossy _) => apply IH'; [cbn; lia|]
  | |- bytes_ok replacement => exact Hr
  end; repeat (apply Forall_cons_2; [done|]); try done.
Qed.
