(* ===== verification/Os.v ===== *)
(** * Programs that call the operating system

    What the daemons do when they start is a sequence of system calls, most of which
    can fail and end it.  A program is a finite tree: it returns, or makes one of the
    calls below and goes on with the answer.  Running a program against an oracle,
    which gives the answer of every call, yields the calls made, in order, and the
    result; the theorems quantify over all oracles. *)

From S2P Require Import Prelude RustStd.
Local Open Scope Z_scope.

(** [std::io::Error], by its message. *)
Inductive io_error := IoError (message : string).

#[global] Instance io_error_eq_dec : EqDecision io_error.
Proof. solve_decision. Defined.

(** The tasks the daemons spawn, with the arguments that are not handles. *)
Inductive task :=
| HeartbeatTask (node_id interval_ms : Z)
| ListenerTask (node_id : Z)
| FailureDetectorTask (node_id : Z) (suspect dead : Duration)
| GossipTask (node_id : Z)
| DhcpServer
| TftpServer (root : path) (bind : SocketAddr)
| DnsServer (addr : SocketAddr)
| ReconcileLoop (period : Duration).

(** The calls that answer with [io::Result<()>], by what the source calls them. *)
Inductive sysop :=
| RemoveFile (p : path)
| CreateDirAll (p : path)
| UnixBind (p : path)
| SetPermissions (p : path) (mode : Z)
| SocketNew
| SetReuseAddress (b : bool)
| SetReusePort (b : bool)
| SetBroadcast (b : bool)
| SocketBind (addr : SocketAddr)
| UdpBind (addr : SocketAddr)
| JoinMulticastV4 (group iface : Ipv4Addr)
| SetMulticastLoopV4 (b : bool)
| SetNonblocking (b : bool)
| FromStd
| SendTo (buf : bytes) (addr : SocketAddr)
| EnableRawMode
| DisableRawMode
| EnterAlternateScreen
| LeaveAlternateScreen
| ShowCursor
| NewTerminal.

(** All calls. *)
Inductive call :=
| Act (a : sysop)
| ReadToString (p : path)
| PathExists (p : path)
| GetHostname
| Now
| Spawn (t : task)
| Command (program : string) (args : list bytes).

#[global] Instance task_eq_dec : EqDecision task.
Proof. solve_decision. Defined.
#[global] Instance sysop_eq_dec : EqDecision sysop.
Proof. solve_decision. Defined.
#[global] Instance call_eq_dec : EqDecision call.
Proof. solve_decision. Defined.

(** The type of a call's answer; a command answers with its exit status. *)
Definition reply (c : call) : Type :=
  match c with
  | Act _ => result io_error unit
  | ReadToString _ | GetHostname => result io_error string
  | PathExists _ => bool
  | Now => SystemTime
  | Spawn _ => unit
  | Command _ _ => result io_error Z
  end.

(** ** Programs *)

Inductive prog (A : Type) : Type :=
| Ret (a : A)
| Do (c : call) (k : reply c → prog A).
Arguments Ret {A} a.
Arguments Do {A} c k.

#[global] Instance prog_ret : MRet prog := @Ret.
Fixpoint bind_prog {A B} (f : A → prog B) (p : prog A) : prog B :=
  match p with Ret a => f a | Do c k => Do c (λ r, bind_prog f (k r)) end.
#[global] Instance prog_bind : MBind prog := @bind_prog.

(** One call. *)
Definition call_os (c : call) : prog (reply c) := Do c Ret.

Definition act (a : sysop) : prog (result io_error unit) := call_os (Act a).
Definition path_exists (p : path) : prog bool := call_os (PathExists p).
Definition read_to_string (p : path) : prog (result io_error string) := call_os (ReadToString p).
Definition get_hostname : prog (result io_error string) := call_os GetHostname.
Definition system_time : prog SystemTime := call_os Now.
Definition spawn (t : task) : prog unit := call_os (Spawn t).
Definition command (program : string) (args : list bytes) : prog (result io_error Z) :=
  call_os (Command program args).

(** Sequencing, the program first. *)
Definition seq_prog {A B} (p : prog A) (f : A → prog B) : prog B := p ≫= f.

(** [e?]: an error ends the program it stands in. *)
Definition try {E A B} (p : prog (result E A)) (f : A → prog (result E B)) : prog (result E B) :=
  p ≫= λ r, match r with Ok a => f a | Err e => Ret (Err e) end.

Declare Scope prog_scope.
Delimit Scope prog_scope with prog.
Notation "x ←! p ; q" := (seq_prog p%prog (λ x, q%prog))
  (at level 100, p at level 200, q at level 200, right associativity) : prog_scope.
Notation "x ←? p ; q" := (try p%prog (λ x, q%prog))
  (at level 100, p at level 200, q at level 200, right associativity) : prog_scope.

(** ** Runs *)

(** The answer of the [i]-th call, should it be [c]. *)
Abbreviation oracle := (nat → ∀ c : call, reply c) (only parsing).

(** The calls a program makes from the [i]-th on, and what it returns. *)
Fixpoint run {A} (o : oracle) (i : nat) (p : prog A) : list call * A :=
  match p with
  | Ret a => ([], a)
  | Do c k => let '(calls, a) := run o (S i) (k (o i c)) in (c :: calls, a)
  end.

Definition calls {A} (o : oracle) (p : prog A) : list call := (run o 0 p).1.
Definition returns {A} (o : oracle) (p : prog A) : A := (run o 0 p).2.

Lemma run_bind {A B} (o : oracle) i (p : prog A) (f : A → prog B) :
  run o i (p ≫= f) =
  let '(cs1, a) := run o i p in
  let '(cs2, b) := run o (i + length cs1) (f a) in (cs1 ++ cs2, b).
Proof.
  unfold mbind, prog_bind. revert i. induction p as [a|c k IH]; intros i; cbn.
  - rewrite Nat.add_0_r. by destruct (run o i (f a)).
  - rewrite IH. destruct (run o (S i) (k (o i c))) as [cs1 a]. cbn.
    rewrite Nat.add_succ_r. by destruct (run o (S (i + length cs1)) (f a)).
Qed.

Lemma run_seq {A B} (o : oracle) i (p : prog A) (f : A → prog B) :
  run o i (seq_prog p f) =
  let '(cs1, a) := run o i p in
  let '(cs2, b) := run o (i + length cs1) (f a) in (cs1 ++ cs2, b).
Proof. apply run_bind. Qed.

Lemma run_try {E A B} (o : oracle) i (p : prog (result E A)) (f : A → prog (result E B)) :
  run o i (try p f) =
  match run o i p with
  | (cs, Ok a) => let '(cs', r) := run o (i + length cs) (f a) in (cs ++ cs', r)
  | (cs, Err e) => (cs, Err e)
  end.
Proof.
  unfold try. rewrite run_bind. destruct (run o i p) as [cs [a|e]]; [done|].
  cbn. by rewrite app_nil_r.
Qed.

(** ** Errors of another type *)

(** [?] converts the error. *)
Definition map_err {E1 E2 A} (f : E1 → E2) (p : prog (result E1 A)) : prog (result E2 A) :=
  p ≫= λ r, Ret match r with Ok a => Ok a | Err e => Err (f e) end.

Lemma run_map_err {E1 E2 A} (f : E1 → E2) (o : oracle) i (p : prog (result E1 A)) :
  run o i (map_err f p)
  = let '(cs, r) := run o i p in (cs, match r with Ok a => Ok a | Err e => Err (f e) end).
Proof. unfold map_err. rewrite run_bind. destruct (run o i p) as [cs r]. cbn. by rewrite app_nil_r. Qed.

(** ** Sequences of calls that nothing stops *)

(** [let _ = a;] for one call after the other. *)
Fixpoint act_each (acts : list sysop) : prog unit :=
  match acts with
  | [] => Ret ()
  | a :: acts => seq_prog (act a) (λ _, act_each acts)
  end.

Fixpoint spawn_all (tasks : list task) : prog unit :=
  match tasks with
  | [] => Ret ()
  | t :: tasks => seq_prog (spawn t) (λ _, spawn_all tasks)
  end.

Lemma run_act_each (o : oracle) i acts : run o i (act_each acts) = (Act <$> acts, ()).
Proof. revert i. induction acts as [|a acts IH]; intros i; cbn [act_each]; [done|]. rewrite run_seq. cbn. by rewrite IH. Qed.

Lemma run_spawn_all (o : oracle) i tasks : run o i (spawn_all tasks) = (Spawn <$> tasks, ()).
Proof. revert i. induction tasks as [|t tasks IH]; intros i; cbn [spawn_all]; [done|]. rewrite run_seq. cbn. by rewrite IH. Qed.

(** ** Sequences of calls that stop at the first failure *)

(** One call checked with [?] after the other. *)
Fixpoint act_all (acts : list sysop) : prog (result io_error unit) :=
  match acts with
  | [] => Ret (Ok ())
  | a :: acts => try (act a) (λ _, act_all acts)
  end.

(** What was called and how it ended: all calls and none failed, or the calls up to
    the first that failed, with its error. *)
Definition act_outcome (o : oracle) (i : nat) (acts made : list sysop)
    (r : result io_error unit) : Prop :=
  let succeeded := λ js, ∀ j a, js !! j = Some a → o (i + j)%nat (Act a) = Ok () in
  match r with
  | Ok _ => made = acts ∧ succeeded made
  | Err e => ∃ before a after, acts = before ++ a :: after ∧ made = before ++ [a]
      ∧ succeeded before ∧ o (i + length before)%nat (Act a) = Err e
  end.

Lemma run_act_all (o : oracle) i acts :
  ∃ made r, run o i (act_all acts) = (Act <$> made, r) ∧ act_outcome o i acts made r.
Proof.
  revert i. induction acts as [|a acts IH]; intros i; cbn [act_all].
  { exists [], (Ok ()). split; [done|]. by split. }
  rewrite run_try. cbn. destruct (o i (Act a)) as [[]|e] eqn:Ha; cycle 1.
  { exists [a], (Err e). split; [done|]. exists [], a, acts. cbn. by rewrite Nat.add_0_r. }
  destruct (IH (S i)) as (made & r & Hrun & Hout). rewrite Nat.add_1_r, Hrun.
  exists (a :: made), r. split; [done|].
  assert (∀ js, (∀ j b, js !! j = Some b → o (S i + j)%nat (Act b) = Ok ()) →
    ∀ j b, (a :: js) !! j = Some b → o (i + j)%nat (Act b) = Ok ()) as Hcons.
  { intros js Hjs [|j] b Hj; cbn in Hj; [rewrite Nat.add_0_r; by injection Hj as <-|].
    rewrite Nat.add_succ_r. by apply Hjs. }
  unfold act_outcome in *. destruct r as [[]|e].
  - destruct Hout as [-> Hok]. split; [done|]. by apply Hcons.
  - destruct Hout as (before & b & after & -> & -> & Hok & He).
    exists (a :: before), b, after. cbn. rewrite Nat.add_succ_r. split_and!; try done. by apply Hcons.
Qed.

(** Two groups of checked calls are one. *)
Lemma run_act_all_app (o : oracle) i acts1 acts2 :
  run o i (act_all (acts1 ++ acts2)) = run o i (try (act_all acts1) (λ _, act_all acts2)).
Proof.
  revert i. induction acts1 as [|a acts1 IH]; intros i; cbn [act_all app].
  - rewrite run_try. cbn. rewrite Nat.add_0_r. by destruct (run o i (act_all acts2)).
  - rewrite !run_try. cbn [run act call_os]. cbn.
    destruct (o i (Act a)) as [u|e]; [|done]. rewrite IH, run_try.
    destruct (run o (i + 1) (act_all acts1)) as [cs [v|e]]; [|done]. cbn.
    replace (i + 1 + length cs)%nat with (i + S (length cs))%nat by lia.
    by destruct (run o _ (act_all acts2)).
Qed.

(** ** A concrete system

    Everything works; [found] tells whether files exist. *)
Definition working_os (found : bool) (c : call) : reply c :=
  match c with
  | Act _ => Ok ()
  | ReadToString _ | GetHostname => Ok ""%string
  | PathExists _ => found
  | Now => 0
  | Spawn _ => ()
  | Command _ _ => Ok 0
  end.
