(* ===== verification/Wire.v ===== *)
(** * The serialisation interface

    The daemons encode every payload with the [bincode] crate, which is not
    part of the repository.  What the code relies on is stated here as a type
    class: an encoder and a decoder per payload type, each of which may fail,
    and the laws of a faithful format.  The theorems about the daemons are
    proved against this interface. *)

From S2P Require Import Prelude RustStd.

(** The crate's error types and their messages. *)
Class Bincode := {
  EncodeError : Type;
  DecodeError : Type;
  encode_error_to_string : EncodeError → string;
  decode_error_to_string : DecodeError → string;
}.

(** [bincode::serde::encode_to_vec] and [decode_from_slice] at one type; the
    decoder also returns how many bytes it consumed. *)
Class Codec `{Bincode} (A : Type) := {
  encode_to_vec : A → result EncodeError bytes;
  decode_from_slice : bytes → result DecodeError (A * nat);
}.

(** The values of the model's type [A] that are values of the Rust type:
    integer fields fit their width. *)
Class WireOk (A : Type) := wire_ok : A → Prop.
#[global] Hint Mode WireOk ! : typeclass_instances.

(** What the code relies on: decoding an encoding gives the value back and
    consumes all of it, an encoding is a byte string, and a decoder returns
    values of the Rust type only. *)
Class CodecLaws `{Bincode} (A : Type) `{!Codec A, !WireOk A} : Prop := {
  codec_roundtrip (x : A) bs :
    wire_ok x → encode_to_vec x = Ok bs → decode_from_slice bs = Ok (x, length bs);
  codec_bytes (x : A) bs : encode_to_vec x = Ok bs → bytes_ok bs;
  codec_sound (x : A) bs n : decode_from_slice bs = Ok (x, n) → wire_ok x;
}.

(** ** A concrete format

    The laws can be met at every type whose values can be enumerated: write the
    value's number in binary, a byte per digit.  The witnesses of the
    development use this instance. *)

Inductive simple_encode_error := EncodeRefused.
Inductive simple_decode_error := Malformed.

Definition simple_bincode : Bincode := {|
  EncodeError := simple_encode_error;
  DecodeError := simple_decode_error;
  encode_error_to_string _ := "refused"%string;
  decode_error_to_string _ := "malformed"%string;
|}.

Fixpoint bits_of_pos (p : positive) : bytes :=
  match p with
  | xH => []
  | xO p => 0 :: bits_of_pos p
  | xI p => 1 :: bits_of_pos p
  end.

Fixpoint pos_of_bits (bs : bytes) : option positive :=
  match bs with
  | [] => Some xH
  | b :: bs =>
    p ← pos_of_bits bs;
    if decide (b = 0) then Some (xO p) else if decide (b = 1) then Some (xI p) else None
  end.

Lemma pos_of_bits_of_pos p : pos_of_bits (bits_of_pos p) = Some p.
Proof. induction p as [p IH|p IH|]; cbn; by rewrite ?IH. Qed.

Lemma bits_of_pos_ok p : bytes_ok (bits_of_pos p).
Proof. induction p; cbn; constructor; (done || fits_lia). Qed.

Section SimpleCodec.
Context (A : Type) `{Countable A, !WireOk A, ∀ x : A, Decision (wire_ok x)}.

Definition simple_codec : @Codec simple_bincode A :=
  @Build_Codec simple_bincode A
    (λ x, Ok (bits_of_pos (encode x)))
    (λ bs, match pos_of_bits bs ≫= decode with
           | Some x => if decide (wire_ok x) then Ok (x, length bs) else Err Malformed
           | None => Err Malformed
           end).

Lemma simple_codec_laws : @CodecLaws simple_bincode A simple_codec _.
Proof.
  split; cbn.
  - intros x bs Hx [= <-]. rewrite pos_of_bits_of_pos. cbn. rewrite decode_encode.
    by rewrite decide_True.
  - intros x bs [= <-]. apply bits_of_pos_ok.
  - intros x bs n. destruct (pos_of_bits bs ≫= decode) as [y|]; [|done].
    case_decide; [|done]. by intros [= <- _].
Qed.
End SimpleCodec.
