(* ===== verification/Proto.v ===== *)
(** * The [proto] crate (crates/proto/src/lib.rs)

    Discovery frame header, payload types, node state, the control envelope
    encoder and the node identifier derived from a MAC address. *)

From S2P Require Import Prelude RustStd Wire.
Local Open Scope Z_scope.

(** ** Constants *)

Definition FRAME_MAGIC : Z := 202.
Definition DISCOVERY_PORT : Z := 7777.
Definition CONTROL_FRAME_MARKER : Z := 1.
Definition MAX_CONTROL_PAYLOAD : Z := 60 * 1024.

(** ** Message types *)

Inductive MsgType :=
| Heartbeat | Announce | Leave | Ack | Gossip | VoteRequest | VoteGrant.

#[global] Instance MsgType_eq_dec : EqDecision MsgType.
Proof. solve_decision. Defined.

(** [msg_type as u8] *)
Definition MsgType_as_u8 (t : MsgType) : Z :=
  match t with
  | Heartbeat => 0 | Announce => 1 | Leave => 2 | Ack => 3
  | Gossip => 4 | VoteRequest => 5 | VoteGrant => 6
  end.

Definition MsgType_from_u8 (v : Z) : option MsgType :=
  match v with
  | 0 => Some Heartbeat | 1 => Some Announce | 2 => Some Leave | 3 => Some Ack
  | 4 => Some Gossip | 5 => Some VoteRequest | 6 => Some VoteGrant
  | _ => None
  end.

(** ** The discovery frame header *)

Module FrameHeader.

Record t := mk {
  magic : Z;
  type_seq : Z;
  node_id_be : Z * Z;
}.

(** [FrameHeader::new]; the [u8] shift drops what leaves the byte. *)
Definition new (msg_type : MsgType) (seq node_id : Z) : t := {|
  magic := FRAME_MAGIC;
  type_seq := Z.lor (wrap 8 (Z.shiftl (MsgType_as_u8 msg_type) 4)) (Z.land seq 15);
  node_id_be :=
    match to_be_bytes 2 node_id with [hi; lo] => (hi, lo) | _ => (0, 0) end;
|}.

Definition msg_type (h : t) : option MsgType := MsgType_from_u8 (Z.shiftr (type_seq h) 4).
Definition seq (h : t) : Z := Z.land (type_seq h) 15.
Definition node_id (h : t) : Z := from_be_bytes [(node_id_be h).1; (node_id_be h).2].

Definition to_bytes (h : t) : bytes :=
  [magic h; type_seq h; (node_id_be h).1; (node_id_be h).2].

(** [FrameHeader::from_bytes]: [None] for a short slice or a wrong magic byte. *)
Definition from_bytes (b : bytes) : option t :=
  match b with
  | b0 :: b1 :: b2 :: b3 :: _ =>
    if b0 =? FRAME_MAGIC then Some {| magic := b0; type_seq := b1; node_id_be := (b2, b3) |}
    else None
  | _ => None
  end.

End FrameHeader.

(** ** Node state and payloads *)

Inductive NodeState := Alive | Suspect | Dead.

#[global] Instance NodeState_eq_dec : EqDecision NodeState.
Proof. solve_decision. Defined.

Record HeartbeatPayload := {
  hb_incarnation : Z;
  hb_epoch_ms : Z;
}.

Record AnnouncePayload := {
  an_incarnation : Z;
  an_hostname : string;
  an_control_addr : SocketAddr;
  an_version : string;
}.

Record LeavePayload := {
  lv_incarnation : Z;
  lv_reason : string;
}.

Record GossipEntry := {
  ge_node_id : Z;
  ge_incarnation : Z;
  ge_state : NodeState;
  ge_epoch_ms : Z;
}.

Record GossipPayload := { gp_entries : list GossipEntry }.

(** The election payloads; no daemon sends or handles them. *)
Record VoteRequestPayload := {
  vr_term : Z;
  vr_candidate_id : Z;
  vr_last_log_index : Z;
  vr_last_log_term : Z;
}.

Record VoteGrantPayload := {
  vg_term : Z;
  vg_granted : bool;
}.

(** The view of a peer hivebus keeps. *)
Record NodeInfo := {
  ni_node_id : Z;
  ni_hostname : string;
  ni_control_addr : SocketAddr;
  ni_state : NodeState;
  ni_incarnation : Z;
  ni_last_seen : SystemTime;
  ni_is_master : bool;
}.

(** [NodeInfo::is_timed_out]; [now] is what the clock reads in [elapsed]. *)
Definition is_timed_out (now : SystemTime) (n : NodeInfo) (dead_threshold : Duration) : bool :=
  match duration_since now (ni_last_seen n) with
  | Ok e => dead_threshold <? e
  | Err _ => true
  end.

(** ** The control envelope *)

Inductive ControlOp :=
| Ping
| GetNodes
| GetMaster
| StepDown
| Shutdown
| Custom (tag : string) (payload : bytes).

Inductive ControlReply :=
| ReplyOk
| ReplyError (message : string)
| ReplyNodes (nodes : list NodeInfo)
| ReplyMaster (master : option NodeInfo)
| ReplyData (tag : string) (payload : bytes).

Section Control.
Context `{Bincode}.

(** [encode_control]: a payload that does not fit the 16-bit length field
    hits the [expect] and panics. *)
Definition encode_control {T} `{!Codec T} (msg : T) : outcome (result EncodeError bytes) :=
  match encode_to_vec msg with
  | Err e => Done (Err e)
  | Ok payload =>
    let len := Z.of_nat (length payload) in
    if len <? 65536
    then Done (Ok (CONTROL_FRAME_MARKER :: to_be_bytes 2 len ++ payload))
    else Panicked
  end.

Definition decode_control {T} `{!Codec T} (bs : bytes) : result DecodeError T :=
  match decode_from_slice bs with
  | Ok (val, _) => Ok val
  | Err e => Err e
  end.
End Control.

(** ** Node identifiers *)

(** A MAC address, [[u8; 6]]. *)
Record Mac := mkMac { m0 : Z; m1 : Z; m2 : Z; m3 : Z; m4 : Z; m5 : Z }.

Definition mac_bytes (mac : Mac) : bytes :=
  [m0 mac; m1 mac; m2 mac; m3 mac; m4 mac; m5 mac].

Definition mac_ok (mac : Mac) : Prop := bytes_ok (mac_bytes mac).

#[global] Instance mac_ok_dec mac : Decision (mac_ok mac).
Proof. unfold mac_ok. apply _. Defined.

(** [node_id_from_mac]: the even octets fold into the high byte, the odd ones
    into the low byte. *)
Definition node_id_from_mac (mac : Mac) : Z :=
  let hi := Z.lxor (Z.lxor (m0 mac) (m2 mac)) (m4 mac) in
  let lo := Z.lxor (Z.lxor (m1 mac) (m3 mac)) (m5 mac) in
  from_be_bytes [hi; lo].

(** ** Decidable equality and enumerations *)

#[global] Instance HeartbeatPayload_eq_dec : EqDecision HeartbeatPayload.
Proof. solve_decision. Defined.
#[global] Instance AnnouncePayload_eq_dec : EqDecision AnnouncePayload.
Proof. solve_decision. Defined.
#[global] Instance LeavePayload_eq_dec : EqDecision LeavePayload.
Proof. solve_decision. Defined.
#[global] Instance GossipEntry_eq_dec : EqDecision GossipEntry.
Proof. solve_decision. Defined.
#[global] Instance GossipPayload_eq_dec : EqDecision GossipPayload.
Proof. solve_decision. Defined.
#[global] Instance NodeInfo_eq_dec : EqDecision NodeInfo.
Proof. solve_decision. Defined.
#[global] Instance ControlOp_eq_dec : EqDecision ControlOp.
Proof. solve_decision. Defined.
#[global] Instance ControlReply_eq_dec : EqDecision ControlReply.
Proof. solve_decision. Defined.
#[global] Instance Mac_eq_dec : EqDecision Mac.
Proof. solve_decision. Defined.

#[global] Instance NodeState_countable : Countable NodeState.
Proof.
  refine (inj_countable' (λ s, match s with Alive => 0 | Suspect => 1 | Dead => 2 end)
            (λ z, if decide (z = 0) then Alive else if decide (z = 1) then Suspect else Dead) _).
  by intros [].
Defined.

#[global] Instance SocketAddr_countable : Countable SocketAddr.
Proof.
  refine (inj_countable'
    (λ a, match a with V4 i p => inl (i, p) | V6 i p f s => inr (i, p, (f, s)) end)
    (λ x, match x with inl (i, p) => V4 i p | inr (i, p, (f, s)) => V6 i p f s end) _).
  by intros [].
Defined.

#[global] Instance IpAddr_countable : Countable IpAddr.
Proof.
  refine (inj_countable' (λ a, match a with IpV4 i => inl i | IpV6 i => inr i end)
            (λ x, match x with inl i => IpV4 i | inr i => IpV6 i end) _).
  by intros [].
Defined.

#[global] Instance HeartbeatPayload_countable : Countable HeartbeatPayload.
Proof.
  refine (inj_countable' (λ p, (hb_incarnation p, hb_epoch_ms p))
            (λ x, {| hb_incarnation := x.1; hb_epoch_ms := x.2 |}) _).
  by intros [].
Defined.

#[global] Instance AnnouncePayload_countable : Countable AnnouncePayload.
Proof.
  refine (inj_countable'
    (λ p, ((an_incarnation p, an_control_addr p), (an_hostname p, an_version p)))
    (λ x, {| an_incarnation := x.1.1; an_control_addr := x.1.2;
             an_hostname := x.2.1; an_version := x.2.2 |}) _).
  by intros [].
Defined.

#[global] Instance LeavePayload_countable : Countable LeavePayload.
Proof.
  refine (inj_countable' (λ p, (lv_incarnation p, lv_reason p))
            (λ x, {| lv_incarnation := x.1; lv_reason := x.2 |}) _).
  by intros [].
Defined.

#[global] Instance GossipEntry_countable : Countable GossipEntry.
Proof.
  refine (inj_countable'
    (λ p, ((ge_node_id p, ge_incarnation p), (ge_state p, ge_epoch_ms p)))
    (λ x, {| ge_node_id := x.1.1; ge_incarnation := x.1.2;
             ge_state := x.2.1; ge_epoch_ms := x.2.2 |}) _).
  by intros [].
Defined.

#[global] Instance GossipPayload_countable : Countable GossipPayload.
Proof. refine (inj_countable' gp_entries Build_GossipPayload _). by intros []. Defined.

#[global] Instance NodeInfo_countable : Countable NodeInfo.
Proof.
  refine (inj_countable'
    (λ n, (((ni_node_id n, ni_state n), (ni_incarnation n, ni_is_master n)),
           ((ni_hostname n, ni_control_addr n), ni_last_seen n)))
    (λ x, {| ni_node_id := x.1.1.1; ni_state := x.1.1.2; ni_incarnation := x.1.2.1;
             ni_is_master := x.1.2.2; ni_hostname := x.2.1.1; ni_control_addr := x.2.1.2;
             ni_last_seen := x.2.2 |}) _).
  by intros [].
Defined.

#[global] Instance Mac_countable : Countable Mac.
Proof.
  refine (inj_countable' (λ m, ((m0 m, m1 m, m2 m), (m3 m, m4 m, m5 m)))
            (λ x, mkMac x.1.1.1 x.1.1.2 x.1.2 x.2.1.1 x.2.1.2 x.2.2) _).
  by intros [].
Defined.

#[global] Instance ControlOp_countable : Countable ControlOp.
Proof.
  refine (inj_countable'
    (λ o, match o with
          | Ping => inl 0 | GetNodes => inl 1 | GetMaster => inl 2 | StepDown => inl 3
          | Shutdown => inl 4 | Custom tag payload => inr (tag, payload)
          end)
    (λ x, match x with
          | inl 0 => Ping | inl 1 => GetNodes | inl 2 => GetMaster | inl 3 => StepDown
          | inl _ => Shutdown | inr (tag, payload) => Custom tag payload
          end) _).
  by intros [].
Defined.

#[global] Instance ControlReply_countable : Countable ControlReply.
Proof.
  refine (inj_countable'
    (λ r, match r with
          | ReplyOk => inl None
          | ReplyError m => inl (Some m)
          | ReplyNodes ns => inr (inl (inl ns))
          | ReplyMaster o => inr (inl (inr o))
          | ReplyData tag payload => inr (inr (tag, payload))
          end)
    (λ x, match x with
          | inl None => ReplyOk
          | inl (Some m) => ReplyError m
          | inr (inl (inl ns)) => ReplyNodes ns
          | inr (inl (inr o)) => ReplyMaster o
          | inr (inr (tag, payload)) => ReplyData tag payload
          end) _).
  by intros [].
Defined.

(** ** The values of the Rust types

    Integer fields fit their width, strings are valid UTF-8. *)

Definition str_ok (s : string) : Prop := utf8_valid (as_bytes s) = true.

Definition ip_ok (a : IpAddr) : Prop :=
  match a with IpV4 ip => u32 ip | IpV6 ip => fits 128 ip end.

(** serde writes a socket address as address and port: the flow label and the scope of an
    IPv6 address are not sent, and are zero in an address that was decoded. *)
Definition addr_ok (a : SocketAddr) : Prop :=
  match a with
  | V4 ip port => u32 ip ∧ u16 port
  | V6 ip port flowinfo scope => fits 128 ip ∧ u16 port ∧ flowinfo = 0 ∧ scope = 0
  end.

#[global] Instance str_ok_dec s : Decision (str_ok s).
Proof. unfold str_ok. apply _. Defined.
#[global] Instance ip_ok_dec a : Decision (ip_ok a).
Proof. unfold ip_ok. destruct a; apply _. Defined.
#[global] Instance addr_ok_dec a : Decision (addr_ok a).
Proof. unfold addr_ok. destruct a; apply _. Defined.

#[global] Instance HeartbeatPayload_wire : WireOk HeartbeatPayload := λ p,
  u32 (hb_incarnation p) ∧ u64 (hb_epoch_ms p).
#[global] Instance AnnouncePayload_wire : WireOk AnnouncePayload := λ p,
  u32 (an_incarnation p) ∧ addr_ok (an_control_addr p) ∧ str_ok (an_hostname p)
  ∧ str_ok (an_version p).
#[global] Instance LeavePayload_wire : WireOk LeavePayload := λ p,
  u32 (lv_incarnation p) ∧ str_ok (lv_reason p).
#[global] Instance GossipEntry_wire : WireOk GossipEntry := λ e,
  u16 (ge_node_id e) ∧ u32 (ge_incarnation e) ∧ u64 (ge_epoch_ms e).
#[global] Instance GossipPayload_wire : WireOk GossipPayload := λ p,
  Forall wire_ok (gp_entries p).
#[global] Instance NodeInfo_wire : WireOk NodeInfo := λ n,
  u16 (ni_node_id n) ∧ u32 (ni_incarnation n) ∧ addr_ok (ni_control_addr n)
  ∧ str_ok (ni_hostname n).
#[global] Instance ControlOp_wire : WireOk ControlOp := λ o,
  match o with Custom tag payload => str_ok tag ∧ bytes_ok payload | _ => True end.
#[global] Instance ControlReply_wire : WireOk ControlReply := λ r,
  match r with
  | ReplyOk => True
  | ReplyError m => str_ok m
  | ReplyNodes ns => Forall wire_ok ns
  | ReplyMaster None => True
  | ReplyMaster (Some n) => wire_ok n
  | ReplyData tag payload => str_ok tag ∧ bytes_ok payload
  end.

#[global] Instance HeartbeatPayload_wire_dec (x : HeartbeatPayload) : Decision (wire_ok x).
Proof. unfold wire_ok, HeartbeatPayload_wire. apply _. Defined.
#[global] Instance AnnouncePayload_wire_dec (x : AnnouncePayload) : Decision (wire_ok x).
Proof. unfold wire_ok, AnnouncePayload_wire. apply _. Defined.
#[global] Instance LeavePayload_wire_dec (x : LeavePayload) : Decision (wire_ok x).
Proof. unfold wire_ok, LeavePayload_wire. apply _. Defined.
#[global] Instance GossipEntry_wire_dec (x : GossipEntry) : Decision (wire_ok x).
Proof. unfold wire_ok, GossipEntry_wire. apply _. Defined.
#[global] Instance GossipPayload_wire_dec (x : GossipPayload) : Decision (wire_ok x).
Proof. unfold wire_ok, GossipPayload_wire. apply _. Defined.
#[global] Instance NodeInfo_wire_dec (x : NodeInfo) : Decision (wire_ok x).
Proof. unfold wire_ok, NodeInfo_wire. apply _. Defined.
#[global] Instance ControlOp_wire_dec (x : ControlOp) : Decision (wire_ok x).
Proof. unfold wire_ok, ControlOp_wire. destruct x; apply _. Defined.
#[global] Instance ControlReply_wire_dec (x : ControlReply) : Decision (wire_ok x).
Proof. unfold wire_ok, ControlReply_wire. destruct x as [| | |[]|]; apply _. Defined.

(** ** The header *)

Lemma MsgType_from_as_u8 t : MsgType_from_u8 (MsgType_as_u8 t) = Some t.
Proof. by destruct t. Qed.

(** Only the numbers of the seven message types are recognised. *)
Lemma MsgType_from_u8_Some v t : MsgType_from_u8 v = Some t ↔ v = MsgType_as_u8 t.
Proof.
  split; [|intros ->; apply MsgType_from_as_u8].
  unfold MsgType_from_u8. intros. by repeat (case_match; simplify_eq/=).
Qed.

Lemma land_15 z : Z.land z 15 = z `mod` 16.
Proof. change 15 with (Z.ones 4). by rewrite Z.land_ones. Qed.

(** The type and the sequence number sit in the two nibbles of [type_seq]. *)
Lemma type_seq_nibbles t s :
  0 ≤ s < 16 →
  let b := Z.lor (wrap 8 (Z.shiftl (MsgType_as_u8 t) 4)) s in
  Z.shiftr b 4 = MsgType_as_u8 t ∧ Z.land b 15 = s ∧ u8 b.
Proof.
  intros Hs.
  assert (s = 0 ∨ s = 1 ∨ s = 2 ∨ s = 3 ∨ s = 4 ∨ s = 5 ∨ s = 6 ∨ s = 7 ∨ s = 8 ∨ s = 9 ∨ s = 10
          ∨ s = 11 ∨ s = 12 ∨ s = 13 ∨ s = 14 ∨ s = 15) as Hc by lia.
  destruct_or! Hc; subst s; destruct t; vm_compute; repeat split; congruence.
Qed.

Lemma header_new_fields t s id :
  u16 id →
  let h := FrameHeader.new t s id in
  FrameHeader.msg_type h = Some t ∧ FrameHeader.seq h = s `mod` 16
  ∧ FrameHeader.node_id h = id ∧ bytes_ok (FrameHeader.to_bytes h).
Proof.
  intros Hid h. unfold h, FrameHeader.msg_type, FrameHeader.seq, FrameHeader.node_id,
    FrameHeader.to_bytes, FrameHeader.new. cbn [FrameHeader.type_seq FrameHeader.node_id_be].
  destruct (type_seq_nibbles t (Z.land s 15)) as (Ht & Hs & Hb); [rewrite land_15; lia|].
  cbv zeta in Ht, Hs, Hb.
  rewrite Ht, Hs, MsgType_from_as_u8, to_be_bytes_2. cbn [fst snd].
  split_and!; [done|apply land_15|rewrite from_be_bytes_2; fits_lia|].
  repeat apply Forall_cons_2; try done; fits_lia.
Qed.

Lemma from_bytes_to_bytes h rest :
  FrameHeader.magic h = FRAME_MAGIC →
  FrameHeader.from_bytes (FrameHeader.to_bytes h ++ rest) = Some h.
Proof. destruct h as [m ts [b0 b1]]; cbn. intros ->. by rewrite Z.eqb_refl. Qed.

(** A header built from a message type, a sequence number and a node id,
    written out and followed by any payload, is read back as the same header:
    the reader finds the type, the sequence number modulo 16 and the id. *)
Theorem frame_header_roundtrip t s id payload :
  u16 id →
  ∃ h, FrameHeader.from_bytes (FrameHeader.to_bytes (FrameHeader.new t s id) ++ payload) = Some h
       ∧ FrameHeader.msg_type h = Some t ∧ FrameHeader.seq h = s `mod` 16
       ∧ FrameHeader.node_id h = id.
Proof.
  intros Hid. exists (FrameHeader.new t s id).
  rewrite from_bytes_to_bytes by done. destruct (header_new_fields t s id Hid) as (?&?&?&_).
  by split_and!.
Qed.

Lemma frame_header_roundtrip_witness :
  u16 48879 ∧
  ∃ h, FrameHeader.from_bytes (FrameHeader.to_bytes (FrameHeader.new Announce 7 48879) ++ [1; 2])
       = Some h
       ∧ FrameHeader.msg_type h = Some Announce ∧ FrameHeader.seq h = 7 `mod` 16
       ∧ FrameHeader.node_id h = 48879.
Proof. split; [by vm_compute|]. apply (frame_header_roundtrip Announce 7 48879 [1; 2]). by vm_compute. Defined.

(** Reading succeeds exactly on four bytes or more starting with the magic
    byte, and writing what was read gives those four bytes back. *)
Lemma from_bytes_Some b h :
  FrameHeader.from_bytes b = Some h ↔
  (4 ≤ length b)%nat ∧ head b = Some FRAME_MAGIC ∧ FrameHeader.to_bytes h = take 4 b.
Proof.
  unfold FrameHeader.from_bytes.
  destruct b as [|b0 [|b1 [|b2 [|b3 b]]]]; cbn; try (split; [done|intros (?&_); lia]).
  destruct (Z.eqb_spec b0 FRAME_MAGIC) as [->|Hne].
  - split; [intros [= <-]; split_and!; [lia|done..]|].
    intros (_ & _ & Hh). destruct h as [m ts [x y]]. cbn in Hh.
    by injection Hh as -> -> -> ->.
  - split; [done|]. intros (_ & [=] & _). congruence.
Qed.

(** The two unit tests of the crate. *)
Example test_frame_header_round_trip :
  let h := FrameHeader.new Announce 7 48879 in
  FrameHeader.from_bytes (FrameHeader.to_bytes h)
  = Some {| FrameHeader.magic := 202; FrameHeader.type_seq := 23;
            FrameHeader.node_id_be := (190, 239) |}.
Proof. reflexivity. Qed.

Example test_node_id_from_mac : node_id_from_mac (mkMac 0 17 34 51 68 85) = 26231.
Proof. reflexivity. Qed.

(** ** Control payloads *)

Section ControlLemmas.
Context `{Bincode} {T : Type} `{!Codec T}.

Lemma encode_control_Done (msg : T) payload :
  encode_to_vec msg = Ok payload → Z.of_nat (length payload) < 65536 →
  encode_control msg
  = Done (Ok (CONTROL_FRAME_MARKER :: to_be_bytes 2 (Z.of_nat (length payload)) ++ payload)).
Proof. unfold encode_control. intros -> Hlen. by rewrite (proj2 (Z.ltb_lt _ _)). Qed.

Lemma encode_control_panics (msg : T) :
  encode_control msg = Panicked ↔
  ∃ payload, encode_to_vec msg = Ok payload ∧ 65536 ≤ Z.of_nat (length payload).
Proof.
  unfold encode_control. destruct (encode_to_vec msg) as [payload|e].
  - destruct (Z.ltb_spec (Z.of_nat (length payload)) 65536); split; try done.
    + intros (? & [= <-] & ?). lia.
    + intros _. eauto.
  - split; [done|]. by intros (? & ? & _).
Qed.

Lemma decode_control_roundtrip `{!WireOk T, !CodecLaws T} (msg : T) payload :
  wire_ok msg → encode_to_vec msg = Ok payload → decode_control payload = Ok msg.
Proof. intros Hok Henc. unfold decode_control. by erewrite codec_roundtrip. Qed.
End ControlLemmas.

(** ** Node identifiers *)

Lemma mac_ok_octets mac :
  mac_ok mac → u8 (m0 mac) ∧ u8 (m1 mac) ∧ u8 (m2 mac) ∧ u8 (m3 mac) ∧ u8 (m4 mac) ∧ u8 (m5 mac).
Proof.
  unfold mac_ok, mac_bytes. intros H.
  repeat (apply Forall_cons_1 in H as [? H]). by split_and!.
Qed.

Lemma u8_lxor3 a b c : u8 a → u8 b → u8 c → u8 (Z.lxor (Z.lxor a b) c).
Proof. intros. repeat apply fits_lxor; done. Qed.

Lemma node_id_from_mac_u16 mac : mac_ok mac → u16 (node_id_from_mac mac).
Proof.
  intros (?&?&?&?&?&?)%mac_ok_octets. unfold node_id_from_mac.
  apply (from_be_bytes_fits [_; _]). repeat apply Forall_cons_2; auto using u8_lxor3.
Qed.

Lemma node_id_from_mac_eq m m' :
  mac_ok m → mac_ok m' →
  node_id_from_mac m = node_id_from_mac m' ↔
  Z.lxor (Z.lxor (m0 m) (m2 m)) (m4 m) = Z.lxor (Z.lxor (m0 m') (m2 m')) (m4 m')
  ∧ Z.lxor (Z.lxor (m1 m) (m3 m)) (m5 m) = Z.lxor (Z.lxor (m1 m') (m3 m')) (m5 m').
Proof.
  intros (?&?&?&?&?&?)%mac_ok_octets (?&?&?&?&?&?)%mac_ok_octets. unfold node_id_from_mac.
  split; [|intros [-> ->]; done].
  apply from_be_bytes_2_inj; auto using u8_lxor3.
Qed.

(** Within a block of addresses that share their first four octets, two
    different MAC addresses never get the same node id; across blocks they can. *)
Theorem node_id_block_injective m m' :
  mac_ok m → mac_ok m' →
  m0 m = m0 m' → m1 m = m1 m' → m2 m = m2 m' → m3 m = m3 m' →
  m ≠ m' → node_id_from_mac m ≠ node_id_from_mac m'.
Proof.
  intros Hm Hm' E0 E1 E2 E3 Hne Heq. apply node_id_from_mac_eq in Heq as [Hhi Hlo]; [|done..].
  rewrite E0, E2 in Hhi. rewrite E1, E3 in Hlo.
  apply lxor_cancel_l in Hhi. apply lxor_cancel_l in Hlo.
  destruct m, m'; cbn in *; congruence.
Qed.

Lemma node_id_block_injective_witness :
  node_id_from_mac (mkMac 8 0 39 1 2 3) ≠ node_id_from_mac (mkMac 8 0 39 1 3 2).
Proof. by apply node_id_block_injective; try by_compute. Defined.

(** The fold is not collision free: for every MAC address, swapping its
    first and third octets gives an address with the same node id, so any
    address whose two octets differ collides with a different address. *)
Theorem node_id_collision m :
  let m' := mkMac (m2 m) (m1 m) (m0 m) (m3 m) (m4 m) (m5 m) in
  node_id_from_mac m' = node_id_from_mac m ∧ (m' = m ↔ m0 m = m2 m).
Proof.
  cbv zeta. unfold node_id_from_mac; cbn [m0 m1 m2 m3 m4 m5]. split.
  - by rewrite (Z.lxor_comm (m2 m) (m0 m)).
  - destruct m; cbn. split; [by intros [=]|by intros ->].
Qed.

(** ** A concrete format for the daemons' payloads

    The witnesses of the development import these instances. *)

Module Simple.
#[export] Instance bincode : Bincode := simple_bincode.
#[export] Instance heartbeat : Codec HeartbeatPayload := simple_codec _.
#[export] Instance announce : Codec AnnouncePayload := simple_codec _.
#[export] Instance leave : Codec LeavePayload := simple_codec _.
#[export] Instance gossip : Codec GossipPayload := simple_codec _.
#[export] Instance control_op : Codec ControlOp := simple_codec _.
#[export] Instance control_reply : Codec ControlReply := simple_codec _.
#[export] Instance heartbeat_laws : CodecLaws HeartbeatPayload := simple_codec_laws _.
#[export] Instance announce_laws : CodecLaws AnnouncePayload := simple_codec_laws _.
#[export] Instance leave_laws : CodecLaws LeavePayload := simple_codec_laws _.
#[export] Instance gossip_laws : CodecLaws GossipPayload := simple_codec_laws _.
#[export] Instance control_op_laws : CodecLaws ControlOp := simple_codec_laws _.
#[export] Instance control_reply_laws : CodecLaws ControlReply := simple_codec_laws _.
End Simple.
