(* ===== verification/Control.v ===== *)
(** * The control plane

    Every daemon serves the same framing on its Unix socket and differs in the
    operations it answers.  The framing is modelled once, over an interface
    [ControlService] that a daemon implements with its [dispatch]; the laws in
    [ControlServiceOk] are what the daemons have in common.  The client side is
    hivectl's [send_op]. *)

From S2P Require Import Prelude RustStd Wire Proto.
Local Open Scope Z_scope.

(** [AsyncReadExt::read_exact] of [n] bytes from what the peer sends before it
    closes: the bytes and the rest of the stream, or an error at end of file. *)
Definition read_exact (n : nat) (stream : bytes) : option (bytes * bytes) :=
  if decide (n ≤ length stream)%nat then Some (take n stream, drop n stream) else None.

(** The receiving half of a connection handler: three header bytes, the marker
    check, the payload bound, the payload. *)
Definition read_control_frame (stream : bytes) : option bytes :=
  '(len_buf, rest) ← read_exact 3 stream;
  match len_buf with
  | [marker; l1; l0] =>
    if marker =? CONTROL_FRAME_MARKER then
      let payload_len := from_be_bytes [l1; l0] in
      if MAX_CONTROL_PAYLOAD <? payload_len then None
      else '(payload, _) ← read_exact (Z.to_nat payload_len) rest; Some payload
    else None
  | _ => None
  end.

(** What a handler does with a decoded operation. *)
Inductive action :=
| Reply (r : ControlReply)
| ExitProcess.

(** The operations of a daemon: the environment holds what the handler reads
    from outside (clocks, hash orders, the file system). *)
Class ControlService (Env St : Type) := dispatch : Env → St → ControlOp → St * action.
#[global] Hint Mode ControlService ! ! : typeclass_instances.

(** What all daemons promise. *)
Class ControlServiceOk {Env St} (CS : ControlService Env St) : Prop := {
  dispatch_ping (env : Env) (st : St) : dispatch env st Ping = (st, Reply ReplyOk);
  dispatch_shutdown (env : Env) (st : St) : dispatch env st Shutdown = (st, ExitProcess);
  dispatch_step_down (env : Env) (st : St) :
    dispatch env st StepDown = (st, Reply (ReplyError "unsupported op"));
  dispatch_exit (env : Env) (st : St) op : (dispatch env st op).2 = ExitProcess → op = Shutdown;
}.

(** No operation but Shutdown makes the daemon exit. *)
Ltac solve_exit service :=
  intros ? ? []; unfold dispatch, service; cbn iota; try done; repeat case_match; done.

(** How a connection ends for the client: bytes, nothing, nothing because the
    handler task panicked, or nothing because the process exited. *)
Inductive conn_end :=
| Sent (bs : bytes)
| Closed
| Crashed
| Exited.

Section Server.
Context `{Bincode} {Env St : Type} `{!ControlService Env St}.
Context `{!Codec ControlOp, !Codec ControlReply}.

Definition send_reply (reply : ControlReply) : conn_end :=
  match encode_control reply with
  | Done (Ok encoded) => Sent encoded
  | Done (Err _) => Closed
  | Panicked => Crashed
  end.

(** The handler once it has the payload. *)
Definition handle_payload (env : Env) (st : St) (payload : bytes) : St * conn_end :=
  match decode_control payload with
  | Ok op =>
    match dispatch env st op with
    | (st', Reply reply) => (st', send_reply reply)
    | (st', ExitProcess) => (st', Exited)
    end
  | Err e => (st, send_reply (ReplyError (decode_error_to_string e)))
  end.

(** One connection, from accept to close. *)
Definition serve_connection (env : Env) (st : St) (stream : bytes) : St * conn_end :=
  match read_control_frame stream with
  | None => (st, Closed)
  | Some payload => handle_payload env st payload
  end.
End Server.

(** ** The client *)

Inductive client_error `{Bincode} :=
| EncodeOp (e : EncodeError)
| HeaderRead
| InvalidMarker (m : Z)
| ReplyTooLarge (len : Z)
| PayloadRead
| DecodeReply (e : DecodeError).

Section Client.
Context `{Bincode} `{!Codec ControlOp, !Codec ControlReply}.

(** The reading half of hivectl's [send_op], on what the server sends back. *)
Definition read_reply (response : bytes) : result client_error ControlReply :=
  match read_exact 3 response with
  | Some ([marker; l1; l0], rest) =>
    if marker =? CONTROL_FRAME_MARKER then
      let payload_len := from_be_bytes [l1; l0] in
      if MAX_CONTROL_PAYLOAD <? payload_len then Err (ReplyTooLarge payload_len)
      else match read_exact (Z.to_nat payload_len) rest with
           | Some (payload, _) =>
             match decode_control payload with
             | Ok reply => Ok reply
             | Err e => Err (DecodeReply e)
             end
           | None => Err PayloadRead
           end
    else Err (InvalidMarker marker)
  | _ => Err HeaderRead
  end.

(** [send_op]: the connection is a function from what is written to what comes back. *)
Definition send_op (connection : bytes → bytes) (op : ControlOp) :
    outcome (result client_error ControlReply) :=
  match encode_control op with
  | Done (Ok bs) => Done (read_reply (connection bs))
  | Done (Err e) => Done (Err (EncodeOp e))
  | Panicked => Panicked
  end.
End Client.

(** What the client reads from a connection that ended so. *)
Definition received (e : conn_end) : bytes :=
  match e with Sent bs => bs | _ => [] end.

(** ** Framing lemmas *)

Lemma read_exact_app n bs rest : n = length bs → read_exact n (bs ++ rest) = Some (bs, rest).
Proof.
  intros ->. unfold read_exact.
  rewrite decide_True by (rewrite length_app; lia).
  by rewrite take_app_length, drop_app_length.
Qed.

Lemma read_exact_short n bs : (length bs < n)%nat → read_exact n bs = None.
Proof. intros. unfold read_exact. by rewrite decide_False by lia. Qed.

Lemma frame_len_bytes len : u16 len → from_be_bytes (to_be_bytes 2 len) = len.
Proof. intros. by apply from_to_be_bytes. Qed.

(** A frame as [encode_control] writes it, and what follows it on the stream. *)
Definition frame (payload rest : bytes) : bytes :=
  CONTROL_FRAME_MARKER :: to_be_bytes 2 (Z.of_nat (length payload)) ++ payload ++ rest.

Lemma read_control_frame_frame payload rest :
  Z.of_nat (length payload) < 65536 →
  read_control_frame (frame payload rest)
  = if Z.of_nat (length payload) <=? MAX_CONTROL_PAYLOAD then Some payload else None.
Proof.
  intros Hlen. unfold read_control_frame, frame. rewrite to_be_bytes_2.
  set (l1 := (_ `div` 256) `mod` 256). set (l0 := _ `mod` 256).
  change (CONTROL_FRAME_MARKER :: [l1; l0] ++ payload ++ rest)
    with ([CONTROL_FRAME_MARKER; l1; l0] ++ payload ++ rest).
  rewrite read_exact_app by done. cbn [mbind option_bind].
  rewrite Z.eqb_refl.
  assert (from_be_bytes [l1; l0] = Z.of_nat (length payload)) as ->.
  { rewrite from_be_bytes_2. subst l1 l0. fits_lia. }
  rewrite Z.leb_antisym. destruct (_ <? _); [done|].
  by rewrite read_exact_app by lia.
Qed.

Section Exchange.
Context `{Bincode} `{!Codec ControlOp, !Codec ControlReply}.

Lemma read_reply_frame payload :
  Z.of_nat (length payload) < 65536 →
  read_reply (frame payload [])
  = if Z.of_nat (length payload) <=? MAX_CONTROL_PAYLOAD
    then match decode_control payload with Ok r => Ok r | Err e => Err (DecodeReply e) end
    else Err (ReplyTooLarge (Z.of_nat (length payload))).
Proof.
  intros Hlen. unfold read_reply, frame. rewrite to_be_bytes_2.
  set (l1 := (_ `div` 256) `mod` 256). set (l0 := _ `mod` 256).
  change (CONTROL_FRAME_MARKER :: [l1; l0] ++ payload ++ [])
    with ([CONTROL_FRAME_MARKER; l1; l0] ++ payload ++ []).
  rewrite read_exact_app, Z.eqb_refl by done.
  assert (from_be_bytes [l1; l0] = Z.of_nat (length payload)) as ->.
  { rewrite from_be_bytes_2. subst l1 l0. fits_lia. }
  rewrite Z.leb_antisym. destruct (_ <? _); [done|].
  by rewrite read_exact_app by lia.
Qed.

Lemma encode_control_frame {T} `{!Codec T} (msg : T) bs :
  encode_control msg = Done (Ok bs) ↔
  ∃ payload, encode_to_vec msg = Ok payload ∧ Z.of_nat (length payload) < 65536
             ∧ bs = frame payload [].
Proof.
  unfold encode_control, frame. destruct (encode_to_vec msg) as [payload|e].
  - destruct (Z.ltb_spec (Z.of_nat (length payload)) 65536); split; try done.
    + intros [= <-]. exists payload. by rewrite app_nil_r.
    + intros (? & [= <-] & _ & ->). by rewrite app_nil_r.
    + intros (? & [= <-] & ? & _). lia.
  - split; [done|]. by intros (? & ? & _).
Qed.
End Exchange.

(** What makes a handler drop a connection without an answer. *)
Definition frame_rejected (stream : bytes) : Prop :=
  (length stream < 3)%nat ∨
  ∃ m l1 l0 rest, stream = m :: l1 :: l0 :: rest ∧
    (m ≠ CONTROL_FRAME_MARKER ∨ MAX_CONTROL_PAYLOAD < from_be_bytes [l1; l0]
     ∨ Z.of_nat (length rest) < from_be_bytes [l1; l0]).

Lemma read_control_frame_None stream :
  read_control_frame stream = None ↔ frame_rejected stream.
Proof.
  unfold frame_rejected. destruct stream as [|m [|l1 [|l0 rest]]];
    try (split; [intros _; left; cbn; lia|done]).
  assert (read_control_frame (m :: l1 :: l0 :: rest)
    = if m =? CONTROL_FRAME_MARKER then
        if MAX_CONTROL_PAYLOAD <? from_be_bytes [l1; l0] then None
        else '(payload, _) ← read_exact (Z.to_nat (from_be_bytes [l1; l0])) rest; Some payload
      else None) as ->.
  { unfold read_control_frame.
    change (m :: l1 :: l0 :: rest) with ([m; l1; l0] ++ rest). by rewrite read_exact_app. }
  destruct (Z.eqb_spec m CONTROL_FRAME_MARKER); [|split; [|done]; right; naive_solver].
  destruct (Z.ltb_spec MAX_CONTROL_PAYLOAD (from_be_bytes [l1; l0]));
    [split; [|done]; right; naive_solver|].
  unfold read_exact. case_decide as Hlen; cbn.
  - split; [done|]. intros [?|(m' & l1' & l0' & rest' & [= <- <- <- <-] & Hc)]; [cbn in *; lia|].
    destruct Hc as [?|[?|?]]; [done|lia|]. lia.
  - split; [|done]. intros _. right. exists m, l1, l0, rest. split; [done|]. right; right. lia.
Qed.

Section Theorems.
Context `{Bincode} {Env St : Type} `{CS : !ControlService Env St}.
Context `{!Codec ControlOp, !Codec ControlReply}.

(** A frame that is too short, starts with another marker, announces more
    than [MAX_CONTROL_PAYLOAD] bytes or ends before the announced payload has
    no effect on the daemon and gets no answer. *)
Theorem rejected_frame_no_effect (env : Env) (st : St) stream :
  frame_rejected stream → serve_connection env st stream = (st, Closed).
Proof. intros Hrej%read_control_frame_None. unfold serve_connection. by rewrite Hrej. Qed.

Context `{!CodecLaws ControlOp, !CodecLaws ControlReply}.

Lemma serve_connection_frame (env : Env) (st : St) op payload :
  wire_ok op → encode_to_vec op = Ok payload →
  Z.of_nat (length payload) ≤ MAX_CONTROL_PAYLOAD →
  serve_connection env st (frame payload []) =
    match dispatch env st op with
    | (st', Reply reply) => (st', send_reply reply)
    | (st', ExitProcess) => (st', Exited)
    end.
Proof.
  intros Hok Henc Hlen. unfold serve_connection, handle_payload.
  rewrite read_control_frame_frame by (unfold MAX_CONTROL_PAYLOAD in *; lia).
  rewrite (proj2 (Z.leb_le _ _)) by done.
  by erewrite decode_control_roundtrip.
Qed.

(** What a client sees of an operation that gets a reply with a short encoding. *)
Lemma exchange_reply (env : Env) (st st' : St) op op_payload reply reply_payload :
  wire_ok op → encode_to_vec op = Ok op_payload →
  Z.of_nat (length op_payload) ≤ MAX_CONTROL_PAYLOAD →
  dispatch env st op = (st', Reply reply) →
  wire_ok reply → encode_to_vec reply = Ok reply_payload →
  let n := Z.of_nat (length reply_payload) in
  (serve_connection env st (frame op_payload [])).1 = st' ∧
  send_op (λ request, received (serve_connection env st request).2) op
  = Done (if n <=? MAX_CONTROL_PAYLOAD then Ok reply
          else if n <? 65536 then Err (ReplyTooLarge n) else Err HeaderRead).
Proof.
  intros Hop Henc Hlen Hdisp Hreply Hrenc n.
  pose proof (serve_connection_frame env st op op_payload Hop Henc Hlen) as Hserve.
  rewrite Hdisp in Hserve. split; [by rewrite Hserve|].
  unfold send_op.
  rewrite (proj2 (encode_control_frame op (frame op_payload [])));
    [|exists op_payload; split_and!; [done|unfold MAX_CONTROL_PAYLOAD in *; lia|done]].
  rewrite Hserve. cbn [snd]. unfold send_reply, encode_control. rewrite Hrenc. fold n.
  destruct (Z.ltb_spec n 65536).
  - rewrite <-(app_nil_r reply_payload). cbn [received].
    change (CONTROL_FRAME_MARKER :: to_be_bytes 2 n ++ reply_payload ++ [])
      with (frame reply_payload []).
    rewrite read_reply_frame by done. fold n.
    destruct (n <=? MAX_CONTROL_PAYLOAD); [|done].
    by erewrite decode_control_roundtrip.
  - by rewrite (proj2 (Z.leb_gt _ _)) by (unfold MAX_CONTROL_PAYLOAD in *; lia).
Qed.

(** C21: an operation whose encoding fits the payload bound reaches the daemon's
    handler, and the client gets back exactly the handler's reply when the
    reply's encoding is at most [MAX_CONTROL_PAYLOAD] bytes.  A reply between
    that bound and the 16-bit length limit is sent but refused by the client;
    a larger one makes the handler panic and the client sees end of file. *)
Theorem control_exchange (env : Env) (st st' : St) op op_payload reply reply_payload :
  wire_ok op → encode_to_vec op = Ok op_payload →
  Z.of_nat (length op_payload) ≤ MAX_CONTROL_PAYLOAD →
  dispatch env st op = (st', Reply reply) →
  wire_ok reply → encode_to_vec reply = Ok reply_payload →
  let n := Z.of_nat (length reply_payload) in
  (serve_connection env st (frame op_payload [])).1 = st' ∧
  send_op (λ request, received (serve_connection env st request).2) op
  = Done (if n <=? MAX_CONTROL_PAYLOAD then Ok reply
          else if n <? 65536 then Err (ReplyTooLarge n) else Err HeaderRead).
Proof. apply exchange_reply. Qed.

Context {CSok : ControlServiceOk CS}.

(** What every daemon does with the three plain operations, proved against
    the interface they all implement: Ping is answered with Ok and StepDown with
    an error, neither changing the daemon's state; Shutdown ends the process at
    once, without an answer, so the client only sees the end of the stream. *)
Theorem plain_operations (env : Env) (st : St) op op_payload :
  op = Ping ∨ op = StepDown ∨ op = Shutdown →
  encode_to_vec op = Ok op_payload → Z.of_nat (length op_payload) ≤ MAX_CONTROL_PAYLOAD →
  (∀ r, r = ReplyOk ∨ r = ReplyError "unsupported op" →
     ∃ payload, encode_to_vec r = Ok payload ∧ Z.of_nat (length payload) ≤ MAX_CONTROL_PAYLOAD) →
  let seen := send_op (λ request, received (serve_connection env st request).2) op in
  (serve_connection env st (frame op_payload [])).1 = st ∧
  match op with
  | Ping => seen = Done (Ok ReplyOk)
  | StepDown => seen = Done (Ok (ReplyError "unsupported op"))
  | _ => (serve_connection env st (frame op_payload [])).2 = Exited ∧ seen = Done (Err HeaderRead)
  end.
Proof.
  intros Hop Henc Hlen Hreplies.
  assert (wire_ok op) as Hok by by destruct Hop as [-> | [-> | ->]].
  assert (∀ r, r = ReplyOk ∨ r = ReplyError "unsupported op" → dispatch env st op = (st, Reply r) →
    (serve_connection env st (frame op_payload [])).1 = st ∧
    send_op (λ request, received (serve_connection env st request).2) op = Done (Ok r)) as Hreply.
  { intros r Hr Hd. destruct (Hreplies r Hr) as (payload & Hrenc & Hrlen).
    assert (wire_ok r) as Hrok by by destruct Hr as [-> | ->].
    pose proof (exchange_reply env st st op op_payload r payload Hok Henc Hlen Hd Hrok Hrenc) as Hx.
    cbv zeta in Hx. by rewrite (proj2 (Z.leb_le _ _) Hrlen) in Hx. }
  destruct Hop as [-> | [-> | ->]].
  - apply Hreply; [by left|apply dispatch_ping].
  - apply Hreply; [by right|apply dispatch_step_down].
  - pose proof (serve_connection_frame env st Shutdown op_payload Hok Henc Hlen) as Hserve.
    rewrite dispatch_shutdown in Hserve. rewrite Hserve. split; [done|]. split; [done|].
    unfold send_op. rewrite (proj2 (encode_control_frame Shutdown (frame op_payload []))).
    + by rewrite Hserve.
    + exists op_payload. split_and!; [done|unfold MAX_CONTROL_PAYLOAD in *; lia|done].
Qed.
End Theorems.
