(* ===== verification/ControlSocket.v ===== *)
(** * The control sockets

    Every daemon opens its Unix socket with the same calls and then accepts one
    connection after the other, for as long as accepting works.  [control_socket] is
    the opening, [socket_run] the loop with the handlers it spawns, over a daemon that
    implements [ControlService] and says in [ControlStages] what an operation does while it
    holds the lock and what it does afterwards.  The loop is compared with the daemon's
    operations applied one after the other. *)

From S2P Require Import Prelude RustStd Os Wire Proto Control.
Local Open Scope Z_scope.
Local Open Scope prog_scope.

(** ** Opening the socket *)

(** [format!("{SOCKET_DIR}/<daemon>.sock")] *)
Definition SOCKET_DIR : string := "/var/run/hivebus".
Definition socket_path (daemon : string) : path :=
  as_bytes (SOCKET_DIR +:+ "/" +:+ daemon +:+ ".sock").

(** The head of [control_plane]: a stale socket is removed, the directory made, the
    socket bound and, afterwards, its mode set to 0o660. *)
Definition control_socket (p : path) : prog (result io_error unit) :=
  stale ←! path_exists p;
  act_all ((if stale then [RemoveFile p] else [])
           ++ match parent p with Some d => [CreateDirAll d] | None => [] end
           ++ [UnixBind p; SetPermissions p 432]).

(** The daemons with a control socket. *)
Definition daemons : list string :=
  ["hivebus"; "pxeboot"; "netgate"; "netop"; "imager"; "orchestrator"]%string.

Lemma socket_dir_parent daemon :
  daemon ∈ daemons → parent (socket_path daemon) = Some (as_bytes SOCKET_DIR).
Proof.
  unfold daemons. rewrite !elem_of_cons. intros Hd. destruct_or! Hd; subst; [reflexivity..|].
  by apply not_elem_of_nil in Hd.
Qed.

(** C34: a daemon that reaches its accept loop has removed a stale socket, made the
    directory, bound a new socket and then restricted its mode, in this order and
    doing nothing else; otherwise the last call it made failed, every call before it
    succeeded, nothing was tried afterwards, and the failure's error is returned. *)
Theorem control_socket_calls (o : nat → ∀ c, reply c) daemon :
  daemon ∈ daemons →
  let p := socket_path daemon in
  let steps := (if o 0%nat (PathExists p) then [RemoveFile p] else [])
               ++ [CreateDirAll (as_bytes SOCKET_DIR); UnixBind p; SetPermissions p 432] in
  match run o 0 (control_socket p) with
  | (made, Ok _) => made = PathExists p :: (Act <$> steps)
      ∧ ∀ i a, steps !! i = Some a → o (S i) (Act a) = Ok ()
  | (made, Err e) => ∃ before a after, steps = before ++ a :: after
      ∧ made = PathExists p :: (Act <$> before ++ [a]) ∧ o (S (length before)) (Act a) = Err e
      ∧ ∀ i b, before !! i = Some b → o (S i) (Act b) = Ok ()
  end.
Proof.
  intros Hd p steps. unfold control_socket. rewrite run_seq. cbn [run path_exists call_os].
  unfold p. rewrite socket_dir_parent by done. fold p. change ([CreateDirAll _] ++ ?l) with (CreateDirAll (as_bytes SOCKET_DIR) :: l).
  fold steps. cbn [length Nat.add].
  destruct (run_act_all o 1 steps) as (made & r & -> & Hout). cbn [app].
  unfold act_outcome in Hout. destruct r as [[]|e].
  - destruct Hout as [-> Hok]. split; [done|]. intros i a Hi. by apply Hok.
  - destruct Hout as (before & a & after & Hs & -> & Hok & He).
    exists before, a, after. by split_and!.
Qed.

(** ** Operations in stages

    An operation takes a lock of the daemon's tables at most once; the answer is settled
    then.  Some operations go on after they have released it, and other handlers run in
    between. *)

(** A first stage and the steps after it, with nothing in between. *)
Definition in_stages {St} (first : St * action) (steps : list (St → St)) : St * action :=
  (foldl (λ st f, f st) first.1 steps, first.2).

(** [locked] is what happens until the lock is released, [unlocked] the steps that follow,
    each of them atomic; undisturbed they are the whole operation. *)
Class ControlStages {Env St} (CS : ControlService Env St) := {
  locked : Env → St → ControlOp → St * action;
  unlocked : Env → ControlOp → list (St → St);
  dispatch_stages (env : Env) (st : St) op :
    dispatch env st op = in_stages (locked env st op) (unlocked env op);
}.
#[global] Hint Mode ControlStages ! ! ! : typeclass_instances.

(** A daemon all of whose operations end when they release the lock. *)
Definition one_stage {Env St} (CS : ControlService Env St) : ControlStages CS.
Proof.
  refine {| locked := dispatch; unlocked _ _ := [] |}. intros. unfold in_stages. by destruct (dispatch env st op).
Defined.

(** The part of the state the lock protects: the later steps leave it alone, and what happens
    under the lock depends on nothing else. *)
Class LockedPart {Env St C} {CS : ControlService Env St} (CSt : ControlStages CS) (core : St → C) : Prop := {
  core_unlocked (env : Env) op f (st : St) : f ∈ unlocked env op → core (f st) = core st;
  core_locked (env : Env) (st st' : St) op : core st = core st' →
    core (locked env st op).1 = core (locked env st' op).1 ∧ (locked env st op).2 = (locked env st' op).2;
}.

#[global] Instance one_stage_locked {Env St} (CS : ControlService Env St) :
  LockedPart (one_stage CS) (λ st, st).
Proof.
  split; [by intros env op f st ?%not_elem_of_nil|]. by intros env st st' op ->.
Qed.

(** ** The accept loop

    The loop accepts connections for as long as accepting works and spawns a handler
    for each; the handlers run concurrently.  A handler waits for bytes until it can
    drop the frame or has all of it; then it runs its operation, stage by stage, and
    answers.  An event is what the loop or one handler finds: a result of [accept],
    bytes or the end of a client's stream, or that the handler is scheduled again. *)

Inductive reading :=
| NeedMore
| Drop
| Payload (payload : bytes).

(** How far a handler gets with the bytes it has. *)
Definition handler_reading (got : bytes) : reading :=
  match read_exact 3 got with
  | Some ([marker; l1; l0], rest) =>
    if marker =? CONTROL_FRAME_MARKER then
      let payload_len := from_be_bytes [l1; l0] in
      if MAX_CONTROL_PAYLOAD <? payload_len then Drop
      else match read_exact (Z.to_nat payload_len) rest with
           | Some (payload, _) => Payload payload
           | None => NeedMore
           end
    else Drop
  | _ => NeedMore
  end.

(** A handler that is reading, one with steps left and the answer it will give, and one that
    is gone. *)
Inductive handler (St : Type) :=
| Reading (got : bytes)
| Working (steps : list (St → St)) (answer : ControlReply)
| Finished (e : conn_end).
Arguments Reading {St} got.
Arguments Working {St} steps answer.
Arguments Finished {St} e.

Inductive loop_end :=
| Listening
| AcceptFailed (e : io_error)
| ProcessExit.

(** The daemon's state, the handlers in the order of their connections, and whether
    the loop still runs. *)
Record listener (St : Type) := { served : St; handlers : list (handler St); ending : loop_end }.
Arguments served {St}.
Arguments handlers {St}.
Arguments ending {St}.

(** [Received] carries what the handler reads from outside should its operation run. *)
Inductive socket_event (Env : Type) :=
| Accepted (r : result io_error unit)
| Received (i : nat) (bs : bytes) (env : Env)
| PeerClosed (i : nat)
| Resumed (i : nat).
Arguments Accepted {Env} r.
Arguments Received {Env} i bs env.
Arguments PeerClosed {Env} i.
Arguments Resumed {Env} i.

Section Loop.
Context `{Bincode} {Env St : Type} `{CS : !ControlService Env St} `{CSt : !ControlStages CS}.
Context `{!Codec ControlOp, !Codec ControlReply}.

(** A handler that has the payload: the new state, and what becomes of the handler. *)
Definition start_operation (env : Env) (st : St) (payload : bytes) : St * handler St :=
  match decode_control payload with
  | Ok op =>
    match locked env st op with
    | (st', Reply answer) => (st', Working (unlocked env op) answer)
    | (st', ExitProcess) => (st', Finished Exited)
    end
  | Err e => (st, Finished (send_reply (ReplyError (decode_error_to_string e))))
  end.

(** One event.  Once the loop has ended the process is gone and nothing happens. *)
Definition socket_step (l : listener St) (ev : socket_event Env) : listener St :=
  match ending l with
  | Listening =>
    match ev with
    | Accepted (Ok _) =>
      {| served := served l; handlers := handlers l ++ [Reading []]; ending := Listening |}
    | Accepted (Err e) =>
      {| served := served l; handlers := handlers l; ending := AcceptFailed e |}
    | Received i bs env =>
      match handlers l !! i with
      | Some (Reading got) =>
        match handler_reading (got ++ bs) with
        | NeedMore =>
          {| served := served l; handlers := <[i := Reading (got ++ bs)]> (handlers l);
             ending := Listening |}
        | Drop =>
          {| served := served l; handlers := <[i := Finished Closed]> (handlers l);
             ending := Listening |}
        | Payload payload =>
          let '(st, h) := start_operation env (served l) payload in
          {| served := st; handlers := <[i := h]> (handlers l);
             ending := match h with Finished Exited => ProcessExit | _ => Listening end |}
        end
      | _ => l
      end
    | Resumed i =>
      match handlers l !! i with
      | Some (Working (f :: steps) answer) =>
        {| served := f (served l); handlers := <[i := Working steps answer]> (handlers l);
           ending := Listening |}
      | Some (Working [] answer) =>
        {| served := served l; handlers := <[i := Finished (send_reply answer)]> (handlers l);
           ending := Listening |}
      | _ => l
      end
    | PeerClosed i =>
      match handlers l !! i with
      | Some (Reading _) =>
        {| served := served l; handlers := <[i := Finished Closed]> (handlers l);
           ending := Listening |}
      | _ => l
      end
    end
  | _ => l
  end.

Definition socket_run (st : St) (events : list (socket_event Env)) : listener St :=
  foldl socket_step {| served := st; handlers := []; ending := Listening |} events.

(** ** One connection at a time *)

(** What the client of connection [i] sends before it closes, and whether it has: the
    state counts the connections accepted so far. *)
Definition sent_step (i : nat) (s : nat * bool * bytes) (ev : socket_event Env) :
    nat * bool * bytes :=
  let '(n, closed, bs) := s in
  match ev with
  | Accepted (Ok _) => (S n, closed, bs)
  | Received j more _ =>
    if decide (j = i) then if (i <? n)%nat && negb closed then (n, closed, bs ++ more) else s else s
  | PeerClosed j => if decide (j = i) then (n, (i <? n)%nat || closed, bs) else s
  | _ => s
  end.

Definition sent_state (i : nat) (events : list (socket_event Env)) : nat * bool * bytes :=
  foldl (sent_step i) (0%nat, false, []) events.
Definition sent (i : nat) (events : list (socket_event Env)) : bytes := (sent_state i events).2.

(** The connections served one after the other, whole streams at a time. *)
Definition serial (streams : nat → bytes) (st : St) (order : list (nat * Env)) : St :=
  foldl (λ st '(i, env), (serve_connection env st (streams i)).1) st order.

(** ** Lemmas *)

Lemma read_exact_more n bs more got rest :
  read_exact n bs = Some (got, rest) → read_exact n (bs ++ more) = Some (got, rest ++ more).
Proof.
  unfold read_exact. repeat case_decide; rewrite ?length_app in *; try done; [|lia].
  intros [= <- <-]. by rewrite take_app_le, drop_app_le by done.
Qed.

Lemma read_exact_3 bs got rest :
  read_exact 3 bs = Some (got, rest) → ∃ m l1 l0, got = [m; l1; l0].
Proof.
  unfold read_exact. case_decide; [|done]. intros [= <- _].
  destruct bs as [|m [|l1 [|l0 bs]]]; cbn in *; [lia..|]. by exists m, l1, l0.
Qed.

(** What a handler has decided does not change with more bytes. *)
Lemma handler_reading_more got more :
  handler_reading got ≠ NeedMore → handler_reading (got ++ more) = handler_reading got.
Proof.
  unfold handler_reading. destruct (read_exact 3 got) as [[hdr rest]|] eqn:Hhdr; [|done].
  rewrite (read_exact_more _ _ more _ _ Hhdr).
  destruct (read_exact_3 _ _ _ Hhdr) as (m & l1 & l0 & ->).
  destruct (m =? _); [|done]. destruct (_ <? _); [done|].
  destruct (read_exact _ rest) as [[payload rest']|] eqn:Hp; [|done].
  by rewrite (read_exact_more _ _ more _ _ Hp).
Qed.

Lemma read_control_frame_reading got :
  read_control_frame got = match handler_reading got with Payload p => Some p | _ => None end.
Proof.
  unfold read_control_frame, handler_reading.
  destruct (read_exact 3 got) as [[hdr rest]|] eqn:Hhdr; [|done].
  destruct (read_exact_3 _ _ _ Hhdr) as (m & l1 & l0 & ->). cbn [mbind option_bind].
  destruct (m =? _); [|done]. destruct (_ <? _); [done|]. by destruct (read_exact _ rest) as [[]|].
Qed.

Lemma serve_connection_payload (env : Env) (st : St) stream payload :
  handler_reading stream = Payload payload →
  serve_connection env st stream = handle_payload env st payload.
Proof. intros Hr. unfold serve_connection. by rewrite read_control_frame_reading, Hr. Qed.

Lemma sent_snoc i events ev : sent_state i (events ++ [ev]) = sent_step i (sent_state i events) ev.
Proof. unfold sent_state. by rewrite foldl_app. Qed.

Lemma socket_run_snoc st events ev :
  socket_run st (events ++ [ev]) = socket_step (socket_run st events) ev.
Proof. unfold socket_run. by rewrite foldl_app. Qed.

(** Whether the handler of connection [i] has what it waits for. *)
Definition settled (i : nat) (events : list (socket_event Env)) : Prop :=
  (sent_state i events).1.2 = true ∨ handler_reading (sent i events) ≠ NeedMore.

Lemma sent_grow i events ev :
  ∃ more, sent i (events ++ [ev]) = sent i events ++ more
    ∧ ((sent_state i events).1.2 = true → more = [] ∧ (sent_state i (events ++ [ev])).1.2 = true).
Proof.
  unfold sent. rewrite sent_snoc. destruct (sent_state i events) as [[n closed] bs].
  destruct ev as [[[]|]|j more env|j|j]; cbn; try case_decide;
    try (exists []; rewrite app_nil_r; split; [done|]; intros; subst; rewrite ?orb_true_r; done).
  destruct closed; rewrite ?andb_false_r; [exists []; by rewrite app_nil_r|].
  case_match; [by exists more|exists []; by rewrite app_nil_r].
Qed.

Lemma settled_grow i events ev :
  settled i events →
  settled i (events ++ [ev])
  ∧ read_control_frame (sent i (events ++ [ev])) = read_control_frame (sent i events).
Proof.
  destruct (sent_grow i events ev) as (more & Heq & Hclosed). intros [Hc|Hr].
  - destruct (Hclosed Hc) as [-> Hc']. rewrite Heq, app_nil_r. split; [by left|done].
  - rewrite !read_control_frame_reading. unfold settled. rewrite Heq, handler_reading_more by done.
    split; [right; congruence|done].
Qed.

Lemma settled_serve i events ev (env : Env) (st : St) :
  settled i events →
  serve_connection env st (sent i (events ++ [ev])) = serve_connection env st (sent i events).
Proof. intros Hs. unfold serve_connection. by rewrite (proj2 (settled_grow i events ev Hs)). Qed.

Lemma serial_ext (f g : nat → bytes) (st : St) order :
  (∀ i (env : Env) (st : St), i ∈ order.*1 → serve_connection env st (f i) = serve_connection env st (g i)) →
  serial f st order = serial g st order.
Proof.
  unfold serial. revert st. induction order as [|[i env] order IH]; intros st Hext; cbn; [done|].
  rewrite Hext by apply list_elem_of_here. apply IH. intros. apply Hext. by apply list_elem_of_further.
Qed.

Lemma serial_snoc f (st : St) order i (env : Env) :
  serial f st (order ++ [(i, env)]) = (serve_connection env (serial f st order) (f i)).1.
Proof. unfold serial. by rewrite foldl_app. Qed.

(** ** The invariant *)

Context {C : Type} (core : St → C) `{!LockedPart CSt core}.

(** Serving a payload, as far as the protected part goes: the same for states that agree on
    it, and settled by the first stage. *)
Lemma core_steps steps (st : St) :
  Forall (λ f, ∀ st, core (f st) = core st) steps → core (foldl (λ st f, f st) st steps) = core st.
Proof. intros Hs. revert st. induction Hs as [|f steps Hf _ IH]; intros st; [done|]. cbn. by rewrite IH. Qed.

Lemma unlocked_steps (env : Env) op : Forall (λ f, ∀ st, core (f st) = core st) (unlocked env op).
Proof. apply Forall_forall. intros f Hf st. by eapply core_unlocked. Qed.

(** What a handler answers, or will. *)
Definition answered (h : handler St) : option conn_end :=
  match h with Reading _ => None | Working _ answer => Some (send_reply answer) | Finished e => Some e end.

Definition steps_ok (h : handler St) : Prop :=
  match h with Working steps _ => Forall (λ f, ∀ st, core (f st) = core st) steps | _ => True end.

Lemma start_operation_core (env : Env) (st st0 : St) payload :
  core st = core st0 →
  core (start_operation env st payload).1 = core (handle_payload env st0 payload).1
  ∧ answered (start_operation env st payload).2 = Some (handle_payload env st0 payload).2
  ∧ steps_ok (start_operation env st payload).2.
Proof.
  intros Hcore. unfold start_operation, handle_payload.
  destruct (decode_control payload) as [op|e]; [|done]. rewrite dispatch_stages.
  destruct (core_locked env st st0 op Hcore) as [Hst Hact].
  destruct (locked env st op) as [st1 a], (locked env st0 op) as [st2 a']. cbn in Hst, Hact |- *. subst a'.
  destruct a; cbn; rewrite core_steps by apply unlocked_steps; split_and!; try done.
  apply unlocked_steps.
Qed.

Lemma serve_core (env : Env) (st st' : St) stream :
  core st = core st' →
  core (serve_connection env st stream).1 = core (serve_connection env st' stream).1
  ∧ (serve_connection env st stream).2 = (serve_connection env st' stream).2.
Proof.
  intros Hcore. unfold serve_connection. destruct (read_control_frame stream) as [payload|]; [|done].
  destruct (start_operation_core env st st payload eq_refl) as (H1 & H2 & _).
  destruct (start_operation_core env st st' payload Hcore) as (H3 & H4 & _).
  rewrite <-H1, <-H3. split; [done|]. congruence.
Qed.

(** How connection [i] ended, when [order] is served one after the other from [st]. *)
Definition ended_as (st : St) (events : list (socket_event Env)) (order : list (nat * Env))
    (i : nat) (e : conn_end) : Prop :=
  (e = Closed ∧ (i ∉ order.*1) ∧ read_control_frame (sent i events) = None) ∨
  ∃ before env after, order = before ++ (i, env) :: after
    ∧ e = (serve_connection env (serial (λ i, sent i events) st before) (sent i events)).2.

(** The state and the handlers agree with serving [order]. *)
Record agrees (st : St) (events : list (socket_event Env)) (order : list (nat * Env))
    (now : St) (hs : list (handler St)) : Prop := {
  agrees_state : core now = core (serial (λ i, sent i events) st order);
  agrees_once : NoDup order.*1;
  agrees_settled i : i ∈ order.*1 → settled i events ∧ ∃ h, hs !! i = Some h ∧ is_Some (answered h);
  agrees_handler i h : hs !! i = Some h →
    match answered h with
    | None => True
    | Some e => settled i events ∧ ended_as st events order i e
    end;
  agrees_steps i h : hs !! i = Some h → steps_ok h;
}.

Lemma agrees_reading st events order now hs i got :
  agrees st events order now hs → hs !! i = Some (Reading got) → i ∉ order.*1.
Proof.
  intros Hag Hi Hin. destruct (agrees_settled _ _ _ _ _ Hag i Hin) as (_ & h & Hh & [e He]).
  rewrite Hi in Hh. injection Hh as <-. done.
Qed.

Lemma agrees_grow st events order now hs ev :
  agrees st events order now hs → agrees st (events ++ [ev]) order now hs.
Proof.
  intros [Hst Hnd Hset Hhs Hsteps].
  assert (∀ order', (∀ i, i ∈ order'.*1 → i ∈ order.*1) →
    serial (λ i, sent i (events ++ [ev])) st order' = serial (λ i, sent i events) st order') as Hser.
  { intros order' Hsub. apply serial_ext. intros. apply settled_serve, Hset. auto. }
  split; [by rewrite Hser|done| | |done].
  - intros i [Hs He]%Hset. split; [by apply settled_grow|done].
  - intros i h Hi. specialize (Hhs i h Hi). destruct (answered h) as [e|]; [|done].
    destruct Hhs as [Hs Hend]. split; [by apply settled_grow|].
    destruct Hend as [(-> & Hin & Hrej)|(before & env & after & -> & ->)]; [left|right].
    + split_and!; [done..|]. by rewrite (proj2 (settled_grow i events ev Hs)).
    + exists before, env, after. split; [done|]. rewrite settled_serve, Hser; [done| |done].
      intros j Hj. rewrite fmap_app. set_solver.
Qed.

(** Every other connection ends as before when one more is served. *)
Lemma ended_as_snoc st events order i j (env : Env) e :
  i ≠ j → ended_as st events order i e → ended_as st events (order ++ [(j, env)]) i e.
Proof.
  intros Hne [(-> & Hin & Hrej)|(before & env' & after & -> & ->)]; [left|right].
  - split_and!; [done| |done]. rewrite fmap_app. set_solver.
  - exists before, env', (after ++ [(j, env)]). by rewrite <-app_assoc.
Qed.

(** A handler goes on without having taken the lock: it reads on or is dropped, or it does
    one of its later steps. *)
Lemma agrees_update st events order now now' hs i h h' :
  agrees st events order now hs → hs !! i = Some h → core now' = core now → steps_ok h' →
  answered h' = answered h
  ∨ (answered h = None ∧ answered h' = Some Closed ∧ settled i events ∧ read_control_frame (sent i events) = None) →
  agrees st events order now' (<[i := h']> hs).
Proof.
  intros Hag Hi Hnow Hok Hcase. destruct Hag as [Hst Hnd Hset Hhs Hsteps].
  pose proof (lookup_lt_Some _ _ _ Hi) as Hlt. split; [by rewrite Hnow|done| | |].
  - intros j Hj. destruct (Hset j Hj) as (Hs & hj & Hhj & Hans). split; [done|].
    destruct (decide (j = i)) as [->|Hne]; [|exists hj; by rewrite list_lookup_insert_ne].
    exists h'. rewrite list_lookup_insert_eq by done. split; [done|]. rewrite Hi in Hhj. injection Hhj as <-.
    destruct Hcase as [->|(Hnone & _)]; [done|]. rewrite Hnone in Hans. by destruct Hans.
  - intros j hj [(<- & <- & _)|[_ Hj]]%list_lookup_insert_Some; [|by apply Hhs].
    specialize (Hhs i h Hi). destruct Hcase as [->|(Hnone & -> & Hs & Hrej)]; [done|].
    split; [done|]. left. split_and!; [done| |done]. intros Hin.
    destruct (Hset i Hin) as (_ & hj & Hhj & [e He]). congruence.
  - intros j hj [(-> & <- & _)|[_ Hj]]%list_lookup_insert_Some; [done|by eapply Hsteps].
Qed.

(** A handler runs what its operation does under the lock. *)
Lemma agrees_serve st events order now hs i got (env : Env) payload :
  agrees st events order now hs → hs !! i = Some (Reading got) →
  handler_reading (sent i events) = Payload payload →
  agrees st events (order ++ [(i, env)]) (start_operation env now payload).1
    (<[i := (start_operation env now payload).2]> hs).
Proof.
  intros Hag Hi Hr. pose proof (agrees_reading _ _ _ _ _ _ _ Hag Hi) as Hin.
  destruct Hag as [Hst Hnd Hset Hhs Hsteps]. pose proof (lookup_lt_Some _ _ _ Hi) as Hlt.
  assert (settled i events) as Hs by (right; congruence).
  destruct (start_operation_core env _ _ payload Hst) as (Hcore & Hans & Hok).
  rewrite <-(serve_connection_payload _ _ _ _ Hr) in Hcore, Hans. split.
  - by rewrite serial_snoc, Hcore.
  - rewrite fmap_app. apply NoDup_app. split_and!; [done| |apply NoDup_singleton]. set_solver.
  - intros j. rewrite fmap_app, elem_of_app. change ([(i, env)].*1) with [i]. rewrite list_elem_of_singleton.
    intros Hj. destruct (decide (i = j)) as [<-|Hne].
    + split; [done|]. eexists. rewrite list_lookup_insert_eq by done. split; [done|]. rewrite Hans. by eexists.
    + rewrite list_lookup_insert_ne by done. apply Hset. destruct Hj; [done|congruence].
  - intros j h [(<- & <- & _)|[Hne Hj]]%list_lookup_insert_Some.
    + rewrite Hans. split; [done|]. right. by exists order, env, [].
    + specialize (Hhs j h Hj). destruct (answered h) as [e'|]; [|done]. destruct Hhs as [? Hend].
      split; [done|]. by apply ended_as_snoc.
  - intros j h [(<- & <- & _)|[Hne Hj]]%list_lookup_insert_Some; [done|by eapply Hsteps].
Qed.

Lemma agrees_accept st events order now hs :
  agrees st events order now hs → agrees st events order now (hs ++ [Reading []]).
Proof.
  intros [Hst Hnd Hset Hhs Hsteps]. split; [done..| | |].
  - intros i (Hs & h & Hh & Hans)%Hset. split; [done|]. exists h. split; [by apply lookup_app_l_Some|done].
  - intros i h [Hi|[_ Hi]]%lookup_app_Some; [by apply Hhs|].
    by apply list_lookup_singleton_Some in Hi as [_ <-].
  - intros i h [Hi|[_ Hi]]%lookup_app_Some; [by eapply Hsteps|].
    by apply list_lookup_singleton_Some in Hi as [_ <-].
Qed.

(** While the loop runs, a handler that has not finished has read all its client sent. *)
Record running (events : list (socket_event Env)) (l : listener St) : Prop := {
  running_count i : (sent_state i events).1.1 = length (handlers l);
  running_handler i h : handlers l !! i = Some h →
    match h with
    | Reading got => got = sent i events ∧ handler_reading got = NeedMore
                     ∧ (sent_state i events).1.2 = false
    | Working _ _ => True
    | Finished e => e ≠ Exited
    end;
}.

(** The operation a client's bytes hold, if they do. *)
Definition request (stream : bytes) : option ControlOp :=
  payload ← read_control_frame stream; ok (decode_control payload).

(** What the end of the loop says. *)
Definition ending_ok (events : list (socket_event Env)) (l : listener St) : Prop :=
  match ending l with
  | Listening => running events l
  | AcceptFailed e => Accepted (Err e) ∈ events
  | ProcessExit => ∃ i, handlers l !! i = Some (Finished Exited) ∧ settled i events
                        ∧ request (sent i events) = Some Shutdown
  end.

Lemma sent_snoc_other i events ev :
  match ev with
  | Accepted _ | Resumed _ => True | Received j _ _ | PeerClosed j => i ≠ j
  end →
  sent i (events ++ [ev]) = sent i events
  ∧ (sent_state i (events ++ [ev])).1.2 = (sent_state i events).1.2.
Proof.
  unfold sent. rewrite sent_snoc. destruct (sent_state i events) as [[n closed] bs].
  by destruct ev as [[]| | |]; cbn; try case_decide.
Qed.

Lemma sent_count i events ev :
  (sent_state i (events ++ [ev])).1.1
  = match ev with Accepted (Ok _) => S (sent_state i events).1.1 | _ => (sent_state i events).1.1 end.
Proof.
  rewrite sent_snoc. destruct (sent_state i events) as [[n closed] bs].
  destruct ev as [[]| | |]; cbn; try case_decide; try done. by case_match.
Qed.

Lemma sent_received i events bs env l :
  running events l → (i < length (handlers l))%nat → (sent_state i events).1.2 = false →
  sent i (events ++ [Received i bs env]) = sent i events ++ bs
  ∧ (sent_state i (events ++ [Received i bs env])).1.2 = false.
Proof.
  intros [Hn _]. specialize (Hn i). unfold sent. rewrite sent_snoc.
  destruct (sent_state i events) as [[n closed] got]. cbn [fst snd sent_step] in *. intros Hlt ->.
  rewrite decide_True, Hn, (proj2 (Nat.ltb_lt _ _) Hlt) by done. done.
Qed.

Lemma sent_closed i events l :
  running events l → (i < length (handlers l))%nat →
  sent i (events ++ [PeerClosed i]) = sent i events
  ∧ (sent_state i (events ++ [PeerClosed i])).1.2 = true.
Proof.
  intros [Hn _]. specialize (Hn i). unfold sent. rewrite sent_snoc.
  destruct (sent_state i events) as [[n closed] got]. cbn [fst snd sent_step] in *. intros Hlt.
  rewrite decide_True, Hn, (proj2 (Nat.ltb_lt _ _) Hlt) by done. done.
Qed.

Lemma sent_fresh i events :
  ((sent_state i events).1.1 ≤ i)%nat →
  [] = sent i events ∧ handler_reading [] = NeedMore ∧ (sent_state i events).1.2 = false.
Proof.
  unfold sent. induction events as [|ev events IH] using rev_ind; [done|].
  rewrite sent_count, sent_snoc. destruct (sent_state i events) as [[n closed] bs].
  cbn [fst snd] in *. intros Hn.
  destruct IH as (<- & _ & ->); [destruct ev as [[]| | |]; cbn in *; lia|].
  destruct ev as [[]|j more env|j|j]; cbn [sent_step]; try case_decide; try done.
  - by rewrite (proj2 (Nat.ltb_ge i n)).
  - by rewrite (proj2 (Nat.ltb_ge i n)).
Qed.

(** An event that concerns connection [i] alone keeps the others running. *)
Lemma running_update events l ev i h st e :
  running events l →
  match ev with Accepted _ => False | Received j _ _ | PeerClosed j | Resumed j => j = i end →
  match h with
  | Reading got => got = sent i (events ++ [ev]) ∧ handler_reading got = NeedMore
                   ∧ (sent_state i (events ++ [ev])).1.2 = false
  | Working _ _ => True
  | Finished e => e ≠ Exited
  end →
  running (events ++ [ev]) {| served := st; handlers := <[i := h]> (handlers l); ending := e |}.
Proof.
  intros [Hn Hhs] Hev Hh. split; cbn.
  - intros j. rewrite sent_count, length_insert, Hn. by destruct ev.
  - intros j h' Hj. apply list_lookup_insert_Some in Hj as [(<- & <- & _)|[Hne Hj]]; [done|].
    specialize (Hhs j h' Hj). destruct h' as [got| |]; [|done..].
    destruct (sent_snoc_other j events ev) as [-> ->]; [|done]. destruct ev; done || congruence.
Qed.

(** An event of a connection whose handler is gone changes nothing. *)
Lemma running_ignored events l ev i :
  running events l →
  match ev with
  | Accepted _ => False
  | Received j _ _ | PeerClosed j => j = i ∧ ∀ got, handlers l !! i ≠ Some (Reading got)
  | Resumed _ => True
  end →
  running (events ++ [ev]) l.
Proof.
  intros [Hn Hhs] Hev. split.
  - intros j. rewrite sent_count, Hn. by destruct ev.
  - intros j h Hj. specialize (Hhs j h Hj). destruct h as [got| |]; [|done..].
    destruct (sent_snoc_other j events ev) as [-> ->]; [|done].
    destruct ev; [done| | |done]; destruct Hev as [-> Hi]; intros ->; by eapply Hi.
Qed.

(** ** Every step keeps the invariant *)

Context {CSok : ControlServiceOk CS}.

(** A handler only ends the process when it was asked to. *)
Lemma send_reply_alive answer : send_reply answer ≠ Exited.
Proof. unfold send_reply. by repeat case_match. Qed.

Lemma start_operation_exit (env : Env) (st : St) payload :
  (start_operation env st payload).2 = Finished Exited → decode_control payload = Ok Shutdown.
Proof.
  unfold start_operation. destruct (decode_control payload) as [op|e].
  - pose proof (dispatch_stages env st op) as Hd. destruct (locked env st op) as [st1 [r|]]; [done|].
    intros _. by rewrite (dispatch_exit env st op) by by rewrite Hd.
  - intros [= He]. by apply send_reply_alive in He.
Qed.

Lemma ending_grow events ev l :
  ending l ≠ Listening → ending_ok events l → ending_ok (events ++ [ev]) l.
Proof.
  unfold ending_ok. destruct (ending l); intros Hne; [done| |].
  - intros. apply elem_of_app. by left.
  - intros (i & Hi & Hs & Hreq). exists i.
    destruct (settled_grow i events ev Hs) as [? Heq].
    split_and!; [done..|]. unfold request in *. by rewrite Heq.
Qed.

Lemma received_step st events order l i bs (env : Env) got :
  agrees st events order (served l) (handlers l) → running events l → ending l = Listening →
  handlers l !! i = Some (Reading got) →
  let events' := events ++ [Received i bs env] in
  let l' := socket_step l (Received i bs env) in
  ∃ order', agrees st events' order' (served l') (handlers l') ∧ ending_ok events' l'.
Proof.
  intros Hag Hrun Hl Hi. cbv zeta. pose proof (lookup_lt_Some _ _ _ Hi) as Hlt.
  destruct (running_handler _ _ Hrun i _ Hi) as (Hgot & _ & Hopen).
  destruct (sent_received i events bs env l Hrun Hlt Hopen) as [Hsent Hopen'].
  rewrite <-Hgot in Hsent. apply (agrees_grow _ _ _ _ _ (Received i bs env)) in Hag.
  unfold socket_step. rewrite Hl, Hi. rewrite <-Hsent in *.
  destruct (handler_reading _) as [| |payload] eqn:Hr.
  - exists order. split; [by eapply agrees_update; [..|left]|]. apply (running_update _ _ _ i); [done..|].
    by split_and!.
  - exists order. split.
    + eapply agrees_update; [done..|right]. split_and!; [done..|right; congruence|].
      by rewrite read_control_frame_reading, Hr.
    + by apply (running_update _ _ _ i).
  - pose proof (agrees_serve _ _ _ _ _ _ _ env _ Hag Hi Hr) as Hserve.
    pose proof (start_operation_exit env (served l) payload) as Hexit.
    destruct (start_operation env (served l) payload) as [st' h] eqn:Hp. cbn [fst snd] in *.
    exists (order ++ [(i, env)]). split; [done|].
    assert (h = Finished Exited ∨ (∀ got, h ≠ Reading got) ∧ h ≠ Finished Exited) as [->|[Hnr He]].
    { unfold start_operation in Hp. repeat case_match; simplify_eq; try (by left); right; (split; [done|]); try done.
      intros [= ?]. by eapply send_reply_alive. }
    + exists i. cbn. split; [by apply list_lookup_insert_eq|]. split; [right; congruence|].
      unfold request. rewrite read_control_frame_reading, Hr. cbn. by rewrite Hexit.
    + replace (match h with Finished Exited => ProcessExit | _ => Listening end) with Listening
        by by destruct h as [| |[]].
      apply (running_update _ _ _ i); [done..|]. destruct h as [|?|e]; [by edestruct Hnr|done|congruence].
Qed.

Lemma socket_step_ok st events order l ev :
  agrees st events order (served l) (handlers l) → ending_ok events l →
  let events' := events ++ [ev] in
  let l' := socket_step l ev in
  ∃ order', agrees st events' order' (served l') (handlers l') ∧ ending_ok events' l'.
Proof.
  intros Hag Hend. cbv zeta. pose proof (agrees_grow _ _ _ _ _ ev Hag) as Hag'.
  assert (ending l = Listening ∨ ending l ≠ Listening) as [Hl|Hl]
    by (destruct (ending l); by (left + right)); cycle 1.
  { exists order. unfold socket_step.
    destruct (ending l) eqn:He; [done|split; [done|apply ending_grow; [by rewrite He|done]]..]. }
  assert (running events l) as Hrun by by unfold ending_ok in Hend; rewrite Hl in Hend.
  pose proof (running_ignored events l ev) as Hignored.
  destruct ev as [[[]|e]|i bs env|i|i].
  - exists order. unfold socket_step. rewrite Hl. cbn. split; [by apply agrees_accept|].
    split; cbn; [intros i; rewrite sent_count, length_app, (running_count _ _ Hrun); cbn; lia|].
    intros i h [Hi|[Hi Hi0]]%lookup_app_Some.
    + destruct (sent_snoc_other i events (Accepted (Ok tt))) as [-> ->]; [done|].
      exact (running_handler _ _ Hrun i h Hi).
    + apply list_lookup_singleton_Some in Hi0 as [Hi0 <-].
      destruct (sent_snoc_other i events (Accepted (Ok tt))) as [-> ->]; [done|].
      apply sent_fresh. rewrite (running_count _ _ Hrun). lia.
  - exists order. unfold socket_step. rewrite Hl. split; [done|].
    apply elem_of_app. right. by apply list_elem_of_singleton.
  - destruct (handlers l !! i) as [[got| |]|] eqn:Hi; [by eapply received_step|..];
      exists order; unfold socket_step, ending_ok; rewrite !Hl, Hi, ?Hl;
      (split; [done|]); apply (Hignored i Hrun); (split; [done|congruence]).
  - destruct (handlers l !! i) as [[got| |]|] eqn:Hi;
      [|exists order; unfold socket_step, ending_ok; rewrite !Hl, Hi, ?Hl;
        (split; [done|]); apply (Hignored i Hrun); (split; [done|congruence])..].
    exists order. pose proof (lookup_lt_Some _ _ _ Hi) as Hlt.
    destruct (sent_closed i events l Hrun Hlt) as [Hsent Hclosed].
    destruct (running_handler _ _ Hrun i _ Hi) as (Hgot & Hr & _).
    unfold socket_step. rewrite Hl, Hi. split.
    + eapply agrees_update; [done..|right]. split_and!; [done..|by left|].
      by rewrite Hsent, read_control_frame_reading, <-Hgot, Hr.
    + by apply (running_update _ _ _ i).
  - exists order. unfold socket_step, ending_ok. rewrite Hl.
    destruct (handlers l !! i) as [[got|[|f steps] answer|e]|] eqn:Hi; rewrite ?Hl;
      try (split; [done|by apply (Hignored i)]); cbn [served handlers ending].
    + split; [by eapply agrees_update; [..|left]|]. apply (running_update _ _ _ i); [done..|].
      apply send_reply_alive.
    + pose proof (agrees_steps _ _ _ _ _ Hag' i _ Hi) as [Hf Hsteps]%Forall_cons.
      split; [eapply agrees_update; [done|done|apply Hf|done|by left]|]. by apply (running_update _ _ _ i).
Qed.

(** C11: however the bytes of concurrent clients arrive and their handlers are interleaved, the
    tables a daemon keeps under its locks, and every answer, are as if its clients came one
    at a time: there is an order of the operations it received in full, each connection
    once, such that the protected part of its state is that of applying whole operations in
    that order, and every connection that is finished or at work gets the answer its
    client's whole stream would get in the state reached when its turn came, or was dropped
    without effect.  While the loop runs, a handler that is still reading has read all its
    client sent, is missing bytes and its client has not hung up, so no client holds up
    another; the loop ends only with the first failing accept, or with a client that asked for
    Shutdown.  What operations do after they have released the lock interleaves: the scripts of
    registrations and the order in which proxy tasks start are not part of the claim. *)
Theorem handlers_serialise (st : St) (events : list (socket_event Env)) :
  let l := socket_run st events in
  ∃ order, NoDup order.*1 ∧ core (served l) = core (serial (λ i, sent i events) st order)
    ∧ (∀ i h e, handlers l !! i = Some h → answered h = Some e → ended_as st events order i e)
    ∧ ending_ok events l.
Proof.
  intros l. subst l.
  assert (∃ order, agrees st events order (served (socket_run st events)) (handlers (socket_run st events))
    ∧ ending_ok events (socket_run st events)) as (order & Hag & Hend); cycle 1.
  { exists order. split_and!; [by eapply agrees_once|by eapply agrees_state| |done].
    intros i h e Hi He. pose proof (agrees_handler _ _ _ _ _ Hag i h Hi) as Hh. rewrite He in Hh. apply Hh. }
  induction events as [|ev events (order & Hag & Hend)] using rev_ind.
  - exists []. split; [|split; cbn; [done|intros i h ?; set_solver]].
    split; [done|constructor|intros i Hi|intros i h Hi|intros i h Hi]; [by apply not_elem_of_nil in Hi|done..].
  - rewrite socket_run_snoc. by apply (socket_step_ok st events order).
Qed.
End Loop.
