(* ===== verification/Startup.v ===== *)
(** * Starting a daemon with one configuration file

    netgate, netop, imager and orchestrator find their configuration in the same way: the
    file their argument names, or a default one, read if it is there.  [read_config] is
    that block of their [main]s.  What a whole [main] does up to its accept loop is then
    given call by call, for all answers the system can give ([starts]); [Daemons] shows
    that each of the four [main]s does it. *)

From S2P Require Import Prelude RustStd Os ControlSocket.
Local Open Scope Z_scope.
Local Open Scope prog_scope.

Inductive start_error (E : Type) :=
| StartIo (e : io_error)
| StartParse (e : E)
| StartPanic.
Arguments StartIo {E} e.
Arguments StartParse {E} e.
Arguments StartPanic {E}.

(** The first argument, or the file under /etc. *)
Definition config_path (daemon : string) (arg : option path) : path :=
  default (as_bytes ("/etc/hivebus/" +:+ daemon +:+ ".toml")) arg.

Section Config.
Context {E C : Type} (parse : string → result E C) (missing : result (start_error E) C).

(** The configuration, from the file if there is one: [parse] is the TOML decoder,
    [missing] what is used without a file. *)
Definition read_config (p : path) : prog (result (start_error E) C) :=
  found ←! path_exists p;
  if found then
    raw ←? map_err StartIo (read_to_string p);
    Ret match parse raw with Ok cfg => Ok cfg | Err e => Err (StartParse e) end
  else Ret missing.

(** ** What a start is meant to do *)

(** The calls [cs] made one after the other, up to the first checked one that fails. *)
Fixpoint until_failure (o : nat → ∀ c, reply c) (i : nat) (cs : list call) :
    list call * result io_error unit :=
  match cs with
  | [] => ([], Ok ())
  | c :: cs =>
    let onwards := let '(made, r) := until_failure o (S i) cs in (c :: made, r) in
    match c with
    | Act a => match o i (Act a) with Ok _ => onwards | Err e => ([c], Err e) end
    | _ => onwards
    end
  end.

(** Opening the control socket: the [i]-th call finds out whether a stale one is there. *)
Definition socket_calls (o : nat → ∀ c, reply c) (i : nat) (daemon : string) : list call :=
  let p := as_bytes ("/var/run/hivebus/" +:+ daemon +:+ ".sock") in
  PathExists p :: (if o i (PathExists p) then [Act (RemoveFile p)] else [])
  ++ [Act (CreateDirAll (as_bytes "/var/run/hivebus")); Act (UnixBind p); Act (SetPermissions p 432)].

(** A start: the configuration is looked for at [p]; with [cfg] come the calls [steps cfg],
    and the control socket is opened.  The calls that are made, and the outcome. *)
Definition starts (o : nat → ∀ c, reply c) (daemon : string) (steps : C → list call) (p : path) :
    list call * result (start_error E) C :=
  let onwards (reads : list call) (config : result (start_error E) C) :=
    match config with
    | Err e => (reads, Err e)
    | Ok cfg =>
      let i := length reads in
      let '(made, r) := until_failure o i (steps cfg ++ socket_calls o (i + length (steps cfg)) daemon) in
      (reads ++ made, match r with Ok _ => Ok cfg | Err e => Err (StartIo e) end)
    end in
  if o 0%nat (PathExists p) then
    onwards [PathExists p; ReadToString p]
      match o 1%nat (ReadToString p) with
      | Err e => Err (StartIo e)
      | Ok raw => match parse raw with Ok cfg => Ok cfg | Err e => Err (StartParse e) end
      end
  else onwards [PathExists p] missing.

(** ** Lemmas *)

Lemma until_failure_app o i cs1 cs2 :
  until_failure o i (cs1 ++ cs2)
  = match until_failure o i cs1 with
    | (made, Ok _) => let '(made2, r) := until_failure o (i + length cs1) cs2 in (made ++ made2, r)
    | (made, Err e) => (made, Err e)
    end.
Proof.
  revert i. induction cs1 as [|c cs1 IH]; intros i; cbn [app until_failure length].
  { rewrite Nat.add_0_r. by destruct (until_failure o i cs2). }
  rewrite IH, Nat.add_succ_comm. destruct (until_failure o (S i) cs1) as [made [u|e]];
    [destruct (until_failure o _ cs2) as [made2 r]|].
  all: destruct c; try done; by destruct (o i (Act a)).
Qed.

Lemma run_act_all_until o i acts : run o i (act_all acts) = until_failure o i (Act <$> acts).
Proof.
  revert i. induction acts as [|a acts IH]; intros i; [done|]. cbn [act_all]. rewrite run_try. cbn.
  destruct (o i (Act a)) as [u|e]; [|done]. by rewrite IH, Nat.add_1_r.
Qed.

Lemma run_control_socket o i daemon :
  daemon ∈ daemons →
  run o i (control_socket (socket_path daemon)) = until_failure o i (socket_calls o i daemon).
Proof.
  intros Hd. unfold control_socket. rewrite run_seq. cbn [run path_exists call_os].
  rewrite socket_dir_parent, run_act_all_until by done. unfold socket_calls.
  cbn [until_failure]. change (as_bytes ("/var/run/hivebus/" +:+ daemon +:+ ".sock")) with (socket_path daemon).
  cbn [length]. rewrite Nat.add_1_r.
  by destruct (o i (PathExists (socket_path daemon))).
Qed.

(** A [main] that is a configuration and a body starts as its body says. *)
Lemma run_starts o daemon steps (body : C → prog (result (start_error E) C)) p :
  (∀ cfg i, run o i (body cfg)
     = let '(made, r) := until_failure o i (steps cfg ++ socket_calls o (i + length (steps cfg)) daemon) in
       (made, match r with Ok _ => Ok cfg | Err e => Err (StartIo e) end)) →
  run o 0 (cfg ←? read_config p; body cfg) = starts o daemon steps p.
Proof.
  intros Hbody. unfold starts, read_config. rewrite run_try, run_seq. cbn [run path_exists call_os].
  destruct (o 0%nat (PathExists p)).
  - rewrite run_try, run_map_err. cbn. destruct (o 1%nat (ReadToString p)) as [raw|e]; [|done]. cbn.
    destruct (parse raw) as [cfg|e]; [|done]. rewrite Hbody. by destruct (until_failure _ _ _).
  - cbn. destruct missing as [cfg|e]; [|done]. rewrite Hbody. by destruct (until_failure _ _ _).
Qed.

(** Where every checked call works, all are made. *)
Lemma until_failure_ok (o : nat → ∀ c, reply c) i cs :
  (∀ i a, o i (Act a) = Ok ()) → until_failure o i cs = (cs, Ok ()).
Proof.
  intros Hos. revert i. induction cs as [|c cs IH]; intros i; [done|]. cbn. rewrite IH.
  destruct c; try done. by rewrite Hos.
Qed.
End Config.
