(* ===== verification/Membership.v ===== *)
(** * The membership table (crates/hivebus/src/main.rs)

    The table of peers, the election of a master from it, the reaction to every
    discovery frame, and the failure detector's scan.  Each task body between
    two awaits of the table's lock is one definition; the clock readings and
    the hash-map orders it uses are arguments. *)

From S2P Require Import Prelude RustStd Wire Proto.
Local Open Scope Z_scope.

(** [HashMap<u16, NodeInfo>] *)
Abbreviation Members := (gmap Z NodeInfo) (only parsing).

Implicit Types (m : gmap Z NodeInfo) (n : NodeInfo).

(** Field updates of [NodeInfo]. *)
Definition set_state (s : NodeState) (n : NodeInfo) : NodeInfo := {|
  ni_node_id := ni_node_id n; ni_hostname := ni_hostname n;
  ni_control_addr := ni_control_addr n; ni_state := s; ni_incarnation := ni_incarnation n;
  ni_last_seen := ni_last_seen n; ni_is_master := ni_is_master n |}.
Definition set_incarnation (i : Z) (n : NodeInfo) : NodeInfo := {|
  ni_node_id := ni_node_id n; ni_hostname := ni_hostname n;
  ni_control_addr := ni_control_addr n; ni_state := ni_state n; ni_incarnation := i;
  ni_last_seen := ni_last_seen n; ni_is_master := ni_is_master n |}.
Definition set_last_seen (t : SystemTime) (n : NodeInfo) : NodeInfo := {|
  ni_node_id := ni_node_id n; ni_hostname := ni_hostname n;
  ni_control_addr := ni_control_addr n; ni_state := ni_state n;
  ni_incarnation := ni_incarnation n; ni_last_seen := t; ni_is_master := ni_is_master n |}.
Definition set_is_master (b : bool) (n : NodeInfo) : NodeInfo := {|
  ni_node_id := ni_node_id n; ni_hostname := ni_hostname n;
  ni_control_addr := ni_control_addr n; ni_state := ni_state n;
  ni_incarnation := ni_incarnation n; ni_last_seen := ni_last_seen n; ni_is_master := b |}.

(** [master_from]: the ids of the [Alive] peers and the node's own, sorted; the first. *)
Definition master_from {it : HashIter Z NodeInfo} (members : Members) (self_id : Z) : option Z :=
  let alive_ids := ni_node_id <$> filter (λ n, ni_state n = Alive) (hash_values members) in
  let alive_ids := alive_ids ++ [self_id] in
  head (merge_sort Z.le alive_ids).

(** ** Frames *)

(** [epoch_ms()] when the clock reads [now]; before the epoch it is 0. *)
Definition epoch_ms (now : SystemTime) : Z :=
  wrap 64 (as_millis (unwrap_or (duration_since now 0) 0)).

Inductive frame_error `{Bincode} :=
| PayloadError (e : EncodeError)
| FrameTooLarge (n : nat).

(** [encode_frame]: header, payload, at most 508 bytes together. *)
Definition encode_frame `{Bincode} `{!Codec P} (header : FrameHeader.t) (payload : P) :
    result frame_error bytes :=
  match encode_to_vec payload with
  | Err e => Err (PayloadError e)
  | Ok encoded =>
    let buf := FrameHeader.to_bytes header ++ encoded in
    if (508 <? length buf)%nat then Err (FrameTooLarge (length buf)) else Ok buf
  end.

(** ** The listener *)

(** What the listener logs about a peer. *)
Inductive event :=
| NodeAnnounced (node_id : Z) (hostname : string)
| DuplicateNodeId (node_id : Z) (previous_hostname : string) (previous_addr : SocketAddr)
    (new_hostname : string) (new_addr : SocketAddr)
| NodeLeaving (node_id : Z) (reason : string).

(** The name given to a peer that was heard before it announced itself. *)
Definition placeholder_hostname (nid : Z) : string := "node-" +:+ fmt_06x_alt nid.

(** HEARTBEAT: create the entry if there is none, then mark it alive. *)
Definition on_heartbeat (nid : Z) (from : SocketAddr) (pl : HeartbeatPayload)
    (now_insert now_seen : SystemTime) (m : Members) : Members :=
  let entry := default {|
    ni_node_id := nid; ni_hostname := placeholder_hostname nid; ni_control_addr := from;
    ni_state := Alive; ni_incarnation := hb_incarnation pl; ni_last_seen := now_insert;
    ni_is_master := false |} (m !! nid) in
  <[nid := set_last_seen now_seen (set_incarnation (hb_incarnation pl) (set_state Alive entry))]> m.

(** ANNOUNCE: replace the entry, with a warning when name or address change. *)
Definition on_announce (nid : Z) (pl : AnnouncePayload) (now : SystemTime) (m : Members) :
    Members * list event :=
  let warning :=
    match m !! nid with
    | Some existing =>
      if decide (ni_hostname existing ≠ an_hostname pl
                 ∨ ni_control_addr existing ≠ an_control_addr pl)
      then [DuplicateNodeId nid (ni_hostname existing) (ni_control_addr existing)
              (an_hostname pl) (an_control_addr pl)]
      else []
    | None => []
    end in
  (<[nid := {|
     ni_node_id := nid; ni_hostname := an_hostname pl; ni_control_addr := an_control_addr pl;
     ni_state := Alive; ni_incarnation := an_incarnation pl; ni_last_seen := now;
     ni_is_master := false |}]> m,
   NodeAnnounced nid (an_hostname pl) :: warning).

(** LEAVE: a known peer is marked dead. *)
Definition on_leave (nid : Z) (pl : LeavePayload) (m : Members) : Members * list event :=
  (match m !! nid with
   | Some e => <[nid := set_state Dead e]> m
   | None => m
   end, [NodeLeaving nid (lv_reason pl)]).

(** One entry of a GOSSIP frame. *)
Definition on_gossip_entry (self_id : Z) (from : SocketAddr) (now : SystemTime)
    (entry : GossipEntry) (m : Members) : Members :=
  if ge_node_id entry =? self_id then m
  else
    let e := default {|
      ni_node_id := ge_node_id entry; ni_hostname := placeholder_hostname (ge_node_id entry);
      ni_control_addr := from; ni_state := ge_state entry;
      ni_incarnation := ge_incarnation entry; ni_last_seen := now;
      ni_is_master := false |} (m !! ge_node_id entry) in
    <[ge_node_id entry :=
        if ni_incarnation e <=? ge_incarnation entry
        then set_incarnation (ge_incarnation entry) (set_state (ge_state entry) e)
        else e]> m.

(** GOSSIP: the entries in order; the [i]-th reads the clock as [clock i] if it inserts. *)
Fixpoint on_gossip (self_id : Z) (from : SocketAddr) (clock : nat → SystemTime)
    (entries : list GossipEntry) (m : Members) : Members :=
  match entries with
  | [] => m
  | entry :: entries =>
    on_gossip self_id from (λ i, clock (S i)) entries
      (on_gossip_entry self_id from (clock O) entry m)
  end.

Section Listener.
Context `{Bincode} `{!Codec HeartbeatPayload, !Codec AnnouncePayload,
                     !Codec LeavePayload, !Codec GossipPayload}.

(** The body of [listener_task] on one datagram: the receive buffer holds 576
    bytes and the kernel drops the rest. *)
Definition listener_frame (self_id : Z) (clock : nat → SystemTime) (from : SocketAddr)
    (datagram : bytes) (m : Members) : Members * list event :=
  let data := take 576 datagram in
  match FrameHeader.from_bytes data with
  | None => (m, [])
  | Some header =>
    let nid := FrameHeader.node_id header in
    if nid =? self_id then (m, [])
    else
      let payload_bytes := drop 4 data in
      match FrameHeader.msg_type header with
      | None => (m, [])
      | Some Heartbeat =>
        match decode_from_slice payload_bytes with
        | Ok (pl, _) => (on_heartbeat nid from pl (clock O) (clock 1%nat) m, [])
        | Err _ => (m, [])
        end
      | Some Announce =>
        match decode_from_slice payload_bytes with
        | Ok (pl, _) => on_announce nid pl (clock O) m
        | Err _ => (m, [])
        end
      | Some Leave =>
        match decode_from_slice payload_bytes with
        | Ok (pl, _) => on_leave nid pl m
        | Err _ => (m, [])
        end
      | Some Gossip =>
        match decode_from_slice payload_bytes with
        | Ok (pl, _) => (on_gossip self_id from clock (gp_entries pl) m, [])
        | Err _ => (m, [])
        end
      | Some VoteRequest | Some VoteGrant | Some Ack => (m, [])
      end
  end.
End Listener.

(** ** The failure detector *)

Definition cleanup_threshold : Duration := from_secs 300.

(** [now.duration_since(last_seen).unwrap_or(Duration::MAX)] *)
Definition node_age (now : SystemTime) (n : NodeInfo) : Duration :=
  unwrap_or (duration_since now (ni_last_seen n)) duration_max.

(** The state a scan leaves a node in. *)
Definition mark_node (suspect_threshold dead_threshold : Duration) (now : SystemTime)
    (n : NodeInfo) : NodeInfo :=
  let age := node_age now n in
  if dead_threshold <? age then set_state Dead n
  else if (suspect_threshold <? age) && bool_decide (ni_state n = Alive) then set_state Suspect n
  else n.

(** The retain and marking passes of a scan. *)
Definition fd_mark (suspect_threshold dead_threshold : Duration) (now : SystemTime)
    (m : Members) : Members :=
  mark_node suspect_threshold dead_threshold now <$>
    filter (λ '(_, n), node_age now n < cleanup_threshold) m.

(** One round of [failure_detector_task]; [now] was read before the lock was taken. *)
Definition fd_tick {it : HashIter Z NodeInfo} (self_id : Z)
    (suspect_threshold dead_threshold : Duration) (now : SystemTime) (m : Members) : Members :=
  let m := fd_mark suspect_threshold dead_threshold now m in
  let master_id := master_from m self_id in
  (λ n, set_is_master (bool_decide (Some (ni_node_id n) = master_id)) n) <$> m.

(** ** The elected master *)

(** The specification: the least id among the node's own and its alive peers'. *)
Definition is_master_of (m : Members) (self_id id : Z) : Prop :=
  (id = self_id ∨ ∃ k n, m !! k = Some n ∧ ni_state n = Alive ∧ ni_node_id n = id) ∧
  id ≤ self_id ∧ ∀ k n, m !! k = Some n → ni_state n = Alive → id ≤ ni_node_id n.

Lemma is_master_of_unique m self_id id id' :
  is_master_of m self_id id → is_master_of m self_id id' → id = id'.
Proof.
  intros (Hid & Hle & Hmin) (Hid' & Hle' & Hmin').
  assert (id ≤ id') by (destruct Hid' as [->|(k & n & ? & ? & <-)]; eauto).
  assert (id' ≤ id) by (destruct Hid as [->|(k & n & ? & ? & <-)]; eauto).
  lia.
Qed.

Section Master.
Context {it : HashIter Z NodeInfo} {Hit : HashIterOk it}.

Lemma elem_of_alive_ids m self_id id :
  id ∈ (ni_node_id <$> filter (λ n, ni_state n = Alive) (hash_values m)) ++ [self_id] ↔
  id = self_id ∨ ∃ k n, m !! k = Some n ∧ ni_state n = Alive ∧ ni_node_id n = id.
Proof.
  rewrite elem_of_app, list_elem_of_singleton, list_elem_of_fmap. split.
  - intros [(n & -> & Hn)| ->]; [right|by left].
    apply list_elem_of_filter in Hn as [? [k Hk]%elem_of_hash_values]. eauto.
  - intros [->|(k & n & Hk & Hs & <-)]; [by right|left]. exists n.
    rewrite list_elem_of_filter, elem_of_hash_values. eauto.
Qed.

Lemma master_from_is_master m self_id :
  ∃ id, master_from m self_id = Some id ∧ is_master_of m self_id id.
Proof.
  unfold master_from.
  set (ids := (ni_node_id <$> filter (λ n, ni_state n = Alive) (hash_values m)) ++ [self_id]).
  pose proof (merge_sort_Permutation Z.le ids) as Hperm.
  pose proof (StronglySorted_merge_sort Z.le ids) as Hsort.
  assert (self_id ∈ ids) as Hself by (apply elem_of_alive_ids; by left).
  destruct (merge_sort Z.le ids) as [|id rest].
  { rewrite <-Hperm in Hself. by apply not_elem_of_nil in Hself. }
  exists id. split; [done|].
  assert (∀ x, x ∈ ids → id ≤ x) as Hmin.
  { intros x Hx. rewrite <-Hperm in Hx. apply elem_of_cons in Hx as [->|Hx]; [done|].
    apply StronglySorted_inv in Hsort as [_ Hall]. rewrite Forall_forall in Hall. auto. }
  split_and!.
  - apply (elem_of_alive_ids m self_id). fold ids. rewrite <-Hperm. constructor.
  - by apply Hmin.
  - intros k n Hk Hn. apply Hmin, (elem_of_alive_ids m self_id). right. by exists k, n.
Qed.

Lemma master_from_eq m self_id id :
  master_from m self_id = Some id ↔ is_master_of m self_id id.
Proof.
  destruct (master_from_is_master m self_id) as (id' & -> & Hid'). split.
  - by intros [= <-].
  - intros Hid. by rewrite (is_master_of_unique m self_id id id').
Qed.
End Master.

(** The election always names a master, and it is exactly the least id among
    the node's own id and the ids of its [Alive] peers; in particular the order
    in which the hash map is walked does not matter. *)
Theorem master_from_spec (m : Members) self_id (it : HashIter Z NodeInfo) :
  HashIterOk it →
  (∀ id, master_from (it := it) m self_id = Some id ↔ is_master_of m self_id id) ∧
  master_from (it := it) m self_id ≠ None.
Proof.
  intros Hit. split; [intros id; apply master_from_eq|].
  destruct (master_from_is_master m self_id) as (? & -> & _). done.
Qed.

(** A table used by the witnesses: node 7's view of two peers. *)
Definition peer (id : Z) (s : NodeState) (seen : SystemTime) : NodeInfo := {|
  ni_node_id := id; ni_hostname := "peer"; ni_control_addr := V4 (ipv4 10 42 0 11) 7778;
  ni_state := s; ni_incarnation := 5; ni_last_seen := seen; ni_is_master := false |}.
Definition sample_members : Members := {[3 := peer 3 Alive 1000; 5 := peer 5 Suspect 0]}.

Lemma master_from_spec_witness :
  HashIterOk (map_iter (K := Z) (V := NodeInfo)) ∧
  master_from (it := map_iter) sample_members 7 = Some 3 ∧
  is_master_of sample_members 7 3.
Proof.
  assert (HashIterOk (map_iter (K := Z) (V := NodeInfo))) as Hit by apply _.
  assert (master_from (it := map_iter) sample_members 7 = Some 3) as Hm by by vm_compute.
  split_and!; [exact Hit|exact Hm|].
  apply (proj1 (master_from_spec sample_members 7 map_iter Hit)). exact Hm.
Defined.

(** ** Lookups after the handlers *)

Lemma lookup_on_heartbeat_ne nid from pl t1 t2 m k :
  k ≠ nid → on_heartbeat nid from pl t1 t2 m !! k = m !! k.
Proof. intros. unfold on_heartbeat. by rewrite lookup_insert_ne. Qed.

Lemma lookup_on_heartbeat nid from pl t1 t2 m :
  ∃ n, on_heartbeat nid from pl t1 t2 m !! nid = Some n ∧
    ni_state n = Alive ∧ ni_incarnation n = hb_incarnation pl ∧ ni_last_seen n = t2 ∧
    match m !! nid with
    | Some n0 => ni_node_id n = ni_node_id n0 ∧ ni_hostname n = ni_hostname n0
                 ∧ ni_control_addr n = ni_control_addr n0 ∧ ni_is_master n = ni_is_master n0
    | None => ni_node_id n = nid ∧ ni_hostname n = placeholder_hostname nid
              ∧ ni_control_addr n = from ∧ ni_is_master n = false
    end.
Proof.
  unfold on_heartbeat. eexists. rewrite lookup_insert_eq.
  split; [done|]. destruct (m !! nid); by split_and!.
Qed.

Lemma lookup_on_gossip_entry_ne self_id from now e m k :
  k ≠ ge_node_id e ∨ k = self_id → on_gossip_entry self_id from now e m !! k = m !! k.
Proof.
  intros Hk. unfold on_gossip_entry. destruct (Z.eqb_spec (ge_node_id e) self_id); [done|].
  destruct Hk as [?| ->]; by rewrite lookup_insert_ne.
Qed.

Lemma lookup_on_gossip_self self_id from clock es m :
  on_gossip self_id from clock es m !! self_id = m !! self_id.
Proof.
  revert clock m; induction es as [|e es IH]; intros clock m; cbn; [done|].
  rewrite IH. apply lookup_on_gossip_entry_ne. by right.
Qed.

(** What one gossip entry leaves at the node it names. *)
Lemma lookup_on_gossip_entry self_id from now e m :
  ge_node_id e ≠ self_id →
  ∃ n', on_gossip_entry self_id from now e m !! ge_node_id e = Some n' ∧
    match m !! ge_node_id e with
    | Some n => ni_node_id n' = ni_node_id n ∧ ni_hostname n' = ni_hostname n
                ∧ ni_control_addr n' = ni_control_addr n ∧ ni_last_seen n' = ni_last_seen n
                ∧ ni_is_master n' = ni_is_master n
                ∧ if ni_incarnation n <=? ge_incarnation e
                  then ni_incarnation n' = ge_incarnation e ∧ ni_state n' = ge_state e
                  else n' = n
    | None => n' = {|
        ni_node_id := ge_node_id e; ni_hostname := placeholder_hostname (ge_node_id e);
        ni_control_addr := from; ni_state := ge_state e; ni_incarnation := ge_incarnation e;
        ni_last_seen := now; ni_is_master := false |}
    end.
Proof.
  intros Hne. unfold on_gossip_entry. rewrite (proj2 (Z.eqb_neq _ _) Hne).
  eexists. rewrite lookup_insert_eq. split; [done|].
  destruct (m !! ge_node_id e) as [n|]; cbn.
  - destruct (_ <=? _); by split_and!.
  - by rewrite Z.leb_refl.
Qed.

(** ** The invariant of the table *)

(** An entry sits under its own id and holds values of the Rust types. *)
Definition entry_ok (k : Z) (n : NodeInfo) : Prop := ni_node_id n = k ∧ wire_ok n.

Record members_inv (self_id : Z) (m : gmap Z NodeInfo) : Prop := {
  (** keys are the ids, fields fit their types *)
  inv_entries : map_Forall entry_ok m;
  (** the node itself is not in its table *)
  inv_no_self : m !! self_id = None;
  (** at most one peer carries the master flag *)
  inv_one_master k1 k2 n1 n2 :
    m !! k1 = Some n1 → m !! k2 = Some n2 →
    ni_is_master n1 = true → ni_is_master n2 = true → k1 = k2;
}.

Lemma members_inv_empty self_id : members_inv self_id ∅.
Proof. split; [apply map_Forall_empty|apply lookup_empty|]. intros ????. by rewrite lookup_empty. Qed.

(** Inserting an entry that raises no new flag. *)
Lemma members_inv_insert self_id m k n' :
  members_inv self_id m → k ≠ self_id → entry_ok k n' →
  (ni_is_master n' = true → ∃ n, m !! k = Some n ∧ ni_is_master n = true) →
  members_inv self_id (<[k := n']> m).
Proof.
  intros [He Hs Hone] Hk Hn' Hflag. split.
  - by apply map_Forall_insert_2.
  - by rewrite lookup_insert_ne.
  - assert (∀ k1 n1, <[k := n']> m !! k1 = Some n1 → ni_is_master n1 = true →
              ∃ n, m !! k1 = Some n ∧ ni_is_master n = true) as Hold.
    { intros k1 n1 [[<- <-]|[_ Hk1]]%lookup_insert_Some Hm1; eauto. }
    intros k1 k2 n1 n2 H1 H2 Hm1 Hm2.
    destruct (Hold k1 n1) as (? & ? & ?); [done..|].
    destruct (Hold k2 n2) as (? & ? & ?); [done..|]. eauto.
Qed.

Lemma fmt_06x_alt_ascii nid :
  u16 nid → Forall (λ b, 48 ≤ b < 128) (as_bytes (fmt_06x_alt nid)).
Proof.
  intros Hn. unfold fmt_06x_alt.
  assert (∀ b, u8 b → Forall (λ c, 48 ≤ c < 128) (fmt_02x b)) as Hb.
  { intros b Hb. eapply Forall_impl; [by apply fmt_02x_ascii|]. cbn. lia. }
  assert (Forall (λ c, 48 ≤ c < 128)
    ([48; 120] ++ fmt_02x (nid `div` 256) ++ fmt_02x (nid `mod` 256))) as Hall.
  { apply Forall_app; split; [repeat constructor; lia|].
    apply Forall_app; split; apply Hb; fits_lia. }
  rewrite as_string_of_bytes; [done|].
  eapply Forall_impl; [exact Hall|]. cbn. intros. fits_lia.
Qed.

Lemma placeholder_hostname_ok nid : u16 nid → str_ok (placeholder_hostname nid).
Proof.
  intros Hn. unfold str_ok, placeholder_hostname. rewrite as_bytes_app.
  apply utf8_valid_ascii, Forall_app. split; [by vm_compute; repeat constructor|].
  eapply Forall_impl; [by apply fmt_06x_alt_ascii|]. cbn. lia.
Qed.

Section Preservation.
Context (self_id : Z).

Lemma on_heartbeat_inv nid from pl t1 t2 m :
  nid ≠ self_id → u16 nid → addr_ok from → wire_ok pl →
  members_inv self_id m → members_inv self_id (on_heartbeat nid from pl t1 t2 m).
Proof.
  intros Hne Hnid Hfrom [Hinc _] Hinv. unfold on_heartbeat.
  apply members_inv_insert; [done..| |].
  - destruct (m !! nid) as [n|] eqn:Hn; cbn.
    + destruct (inv_entries _ _ Hinv _ _ Hn) as [Hk (?&?&?&?)]. by split_and!.
    + repeat split; try done; try apply Hnid; try apply Hinc. by apply placeholder_hostname_ok.
  - destruct (m !! nid) as [n|]; cbn; eauto. done.
Qed.

Lemma on_announce_inv nid pl t m :
  nid ≠ self_id → u16 nid → wire_ok pl →
  members_inv self_id m → members_inv self_id (on_announce nid pl t m).1.
Proof.
  intros Hne Hnid (?&?&?&_) Hinv. apply members_inv_insert; [done..| |done].
  split_and!; done.
Qed.

Lemma on_leave_inv nid pl m :
  nid ≠ self_id → members_inv self_id m → members_inv self_id (on_leave nid pl m).1.
Proof.
  intros Hne Hinv. unfold on_leave; cbn. destruct (m !! nid) as [n|] eqn:Hn; [|done].
  apply members_inv_insert; [done..|apply (inv_entries _ _ Hinv _ _ Hn)|]. cbn. eauto.
Qed.

Lemma on_gossip_entry_inv from t e m :
  addr_ok from → wire_ok e →
  members_inv self_id m → members_inv self_id (on_gossip_entry self_id from t e m).
Proof.
  intros Hfrom (Hid & Hinc & _) Hinv. unfold on_gossip_entry.
  destruct (Z.eqb_spec (ge_node_id e) self_id) as [|Hne]; [done|].
  set (fresh := {| ni_node_id := ge_node_id e |}).
  assert (entry_ok (ge_node_id e) (default fresh (m !! ge_node_id e))) as [Hk (?&?&?&?)].
  { destruct (m !! ge_node_id e) as [n|] eqn:Hn; cbn; [by apply (inv_entries _ _ Hinv)|].
    split; [done|]. repeat split; try apply Hid; try apply Hinc; [done|].
    by apply placeholder_hostname_ok. }
  apply members_inv_insert; [done..| |].
  - destruct (_ <=? _); by split_and!.
  - destruct (m !! ge_node_id e) as [n|]; cbn; destruct (_ <=? _); cbn; eauto; done.
Qed.

Lemma on_gossip_inv from clock es m :
  addr_ok from → Forall wire_ok es →
  members_inv self_id m → members_inv self_id (on_gossip self_id from clock es m).
Proof.
  intros Hfrom Hes. revert clock m.
  induction Hes as [|e es He _ IH]; intros clock m Hinv; cbn; [done|].
  by apply IH, on_gossip_entry_inv.
Qed.

Context {it : HashIter Z NodeInfo}.

Lemma mark_node_fields s d now n :
  mark_node s d now n = set_state (ni_state (mark_node s d now n)) n.
Proof. unfold mark_node. destruct n; repeat case_match; done. Qed.

Lemma lookup_fd_mark s d now m k :
  fd_mark s d now m !! k
  = n ← m !! k; if decide (node_age now n < cleanup_threshold)
                then Some (mark_node s d now n) else None.
Proof.
  unfold fd_mark. rewrite lookup_fmap. destruct (m !! k) as [n|] eqn:Hk; cbn.
  - case_decide.
    + by rewrite (map_lookup_filter_Some_2 _ _ _ n).
    + rewrite map_lookup_filter_None_2; [done|]. right. intros n' Hn'. by simplify_eq.
  - by rewrite map_lookup_filter_None_2 by by left.
Qed.

Lemma lookup_fd_tick s d now m k :
  fd_tick (it := it) self_id s d now m !! k
  = n ← m !! k; if decide (node_age now n < cleanup_threshold)
    then Some (set_is_master
                 (bool_decide (Some (ni_node_id n)
                    = master_from (it := it) (fd_mark s d now m) self_id))
                 (mark_node s d now n))
    else None.
Proof.
  unfold fd_tick. rewrite lookup_fmap, lookup_fd_mark.
  destruct (m !! k) as [n|]; cbn; [|done]. case_decide; [|done]. cbn.
  by rewrite (mark_node_fields s d now n).
Qed.

Lemma fd_tick_inv s d now m :
  members_inv self_id m → members_inv self_id (fd_tick (it := it) self_id s d now m).
Proof.
  intros Hinv. split.
  - intros k n'. rewrite lookup_fd_tick. destruct (m !! k) as [n|] eqn:Hk; cbn; [|done].
    case_decide; [|done]. intros [= <-].
    destruct (inv_entries _ _ Hinv _ _ Hk) as [? (?&?&?&?)].
    rewrite mark_node_fields. by split_and!.
  - by rewrite lookup_fd_tick, (inv_no_self _ _ Hinv).
  - intros k1 k2 n1' n2'. rewrite !lookup_fd_tick.
    destruct (m !! k1) as [n1|] eqn:Hk1; cbn; [|done]. case_decide; [|done]. intros [= <-].
    destruct (m !! k2) as [n2|] eqn:Hk2; cbn; [|done]. case_decide; [|done]. intros [= <-].
    cbn. rewrite !bool_decide_eq_true. intros H1 H2.
    destruct (inv_entries _ _ Hinv _ _ Hk1) as [<- _].
    destruct (inv_entries _ _ Hinv _ _ Hk2) as [<- _]. congruence.
Qed.
End Preservation.

(** ** The failure detector *)

Section Detector.
Context {it : HashIter Z NodeInfo} {Hit : HashIterOk it}.
Context (self_id : Z) (suspect dead : Duration).

Lemma fd_tick_Some m now k n' :
  fd_tick (it := it) self_id suspect dead now m !! k = Some n' ↔
  ∃ n, n' = set_is_master (bool_decide (Some (ni_node_id n)
              = master_from (it := it) (fd_mark suspect dead now m) self_id)) n
       ∧ fd_mark suspect dead now m !! k = Some n.
Proof.
  unfold fd_tick. rewrite lookup_fmap_Some.
  split; intros (n & Heq & Hk); exists n; by split.
Qed.

(** [is_master_of] reads the states only. *)
Lemma is_master_of_flags m now id :
  is_master_of (fd_tick (it := it) self_id suspect dead now m) self_id id ↔
  is_master_of (fd_mark suspect dead now m) self_id id.
Proof.
  unfold is_master_of. setoid_rewrite fd_tick_Some. split.
  - intros (Hid & Hle & Hmin). split_and!; [|done|].
    + destruct Hid as [->|(k & ? & (n & -> & Hk) & ? & ?)]; [by left|right].
      exists k, n. by split_and!.
    + intros k n Hk Hn. apply (Hmin k _ (ex_intro _ n (conj eq_refl Hk)) Hn).
  - intros (Hid & Hle & Hmin). split_and!; [|done|].
    + destruct Hid as [->|(k & n & Hk & ? & ?)]; [by left|right].
      exists k. eexists. split; [exists n; split; [reflexivity|done]|]. done.
    + intros k ? (n & -> & Hk) Hn. by apply (Hmin k n).
Qed.

(** Clock readings that are not earlier than the last sign of life give the
    time since it. *)
Lemma node_age_elapsed now n :
  ni_last_seen n ≤ now → node_age now n = now - ni_last_seen n.
Proof. intros H. unfold node_age, duration_since. by rewrite decide_True. Qed.

Lemma node_age_regressed now n : now < ni_last_seen n → node_age now n = duration_max.
Proof. intros H. unfold node_age, duration_since. by rewrite decide_False by lia. Qed.

(** Scans do not touch the time a node was last heard. *)
Lemma fd_tick_last_seen now m k n' :
  fd_tick (it := it) self_id suspect dead now m !! k = Some n' →
  ∃ n, m !! k = Some n ∧ ni_last_seen n' = ni_last_seen n ∧ ni_node_id n' = ni_node_id n
       ∧ node_age now n < cleanup_threshold
       ∧ ni_state n' = ni_state (mark_node suspect dead now n).
Proof.
  rewrite lookup_fd_tick. destruct (m !! k) as [n|]; cbn; [|done].
  case_decide; [|done]. intros [= <-]. exists n.
  rewrite (mark_node_fields suspect dead now n). by split_and!.
Qed.

Lemma mark_node_state now n :
  ni_state (mark_node suspect dead now n)
  = if dead <? node_age now n then Dead
    else if (suspect <? node_age now n) && bool_decide (ni_state n = Alive) then Suspect
    else ni_state n.
Proof. unfold mark_node. by repeat case_match. Qed.
End Detector.

(** What one scan does to a peer depends only on the time since it was last
    heard.  From 300 s on it is forgotten; otherwise it stays, with its name,
    address, incarnation and last contact, and it is [Dead] beyond the dead
    threshold, [Suspect] beyond the suspect threshold if it was [Alive], and in
    its old state within both. *)
Theorem fd_tick_classifies (it : HashIter Z NodeInfo) self_id suspect dead now m k n :
  m !! k = Some n → ni_last_seen n ≤ now →
  let age := now - ni_last_seen n in
  let m' := fd_tick (it := it) self_id suspect dead now m in
  (cleanup_threshold ≤ age → m' !! k = None) ∧
  (age < cleanup_threshold →
   ∃ s b, m' !! k = Some (set_is_master b (set_state s n)) ∧
     (dead < age → s = Dead) ∧
     (age ≤ dead → suspect < age → s = match ni_state n with Alive => Suspect | s0 => s0 end) ∧
     (age ≤ dead → age ≤ suspect → s = ni_state n)).
Proof.
  intros Hk Hseen age m'. subst m'. rewrite lookup_fd_tick, Hk. cbn.
  rewrite node_age_elapsed by done. fold age. split.
  - intros ?. by rewrite decide_False by lia.
  - intros ?. rewrite decide_True by done. rewrite mark_node_fields.
    eexists _, _. split; [done|]. rewrite mark_node_state, node_age_elapsed by done. fold age.
    split_and!.
    + intros ?. by rewrite (proj2 (Z.ltb_lt _ _)).
    + intros ??. rewrite (proj2 (Z.ltb_ge dead age)), (proj2 (Z.ltb_lt suspect age)) by done.
      cbn. by destruct (ni_state n).
    + intros ??. by rewrite (proj2 (Z.ltb_ge dead age)), (proj2 (Z.ltb_ge suspect age)).
Qed.

(** Node 3 of the sample, heard one second ago and scanned with the default thresholds. *)
Lemma fd_tick_classifies_witness :
  let now := from_secs 1 + 1000 in
  sample_members !! 3 = Some (peer 3 Alive 1000) ∧ 1000 ≤ now ∧
  ∃ b, fd_tick (it := map_iter) 7 (from_millis 450) (from_secs 30) now sample_members !! 3
       = Some (set_is_master b (set_state Suspect (peer 3 Alive 1000))).
Proof.
  intros now.
  assert (sample_members !! 3 = Some (peer 3 Alive 1000)) as Hk by by vm_compute.
  assert (1000 ≤ now) as Hnow by by vm_compute.
  split_and!; [exact Hk|exact Hnow|].
  destruct (fd_tick_classifies map_iter 7 (from_millis 450) (from_secs 30) now _ _ _ Hk Hnow)
    as [_ Hstay].
  destruct Hstay as (s & b & Hlook & _ & Hsusp & _); [by vm_compute|].
  exists b. rewrite Hlook. rewrite Hsusp; [done|vm_compute; congruence|by vm_compute].
Defined.

(** After a scan the master flags are exact: a peer carries the flag if and
    only if it is the elected master of the scanned table. *)
Theorem fd_tick_flags_exact (it : HashIter Z NodeInfo) self_id suspect dead now m k n' :
  HashIterOk it →
  let m' := fd_tick (it := it) self_id suspect dead now m in
  m' !! k = Some n' →
  (ni_is_master n' = true ↔ is_master_of m' self_id (ni_node_id n')).
Proof.
  intros Hit m' Hn'. subst m'. rewrite is_master_of_flags, <-master_from_eq.
  rewrite lookup_fd_tick in Hn'. destruct (m !! k) as [n|]; cbn in Hn'; [|done].
  case_decide; [|done]. injection Hn' as <-. cbn.
  rewrite (mark_node_fields suspect dead now n). cbn. rewrite bool_decide_eq_true. done.
Qed.

Lemma fd_tick_flags_exact_witness :
  let m' := fd_tick (it := map_iter) 7 (from_millis 450) (from_secs 30) 2000 sample_members in
  is_master_of m' 7 3.
Proof.
  intros m'. apply (fd_tick_flags_exact map_iter 7 (from_millis 450) (from_secs 30) 2000
                      sample_members 3 (set_is_master true (peer 3 Alive 1000)) _);
    by vm_compute.
Defined.

(** Scans at the given times, one after the other. *)
Definition fd_ticks {it : HashIter Z NodeInfo} (self_id : Z) (suspect dead : Duration)
    (times : list SystemTime) (m : Members) : Members :=
  foldl (λ m now, fd_tick self_id suspect dead now m) m times.

Lemma fd_ticks_last_seen {it : HashIter Z NodeInfo} self_id suspect dead times m k n' :
  fd_ticks self_id suspect dead times m !! k = Some n' →
  ∃ n, m !! k = Some n ∧ ni_last_seen n' = ni_last_seen n.
Proof.
  revert m; induction times as [|t times IH]; intros m; cbn; [by eauto|].
  intros (n1 & Hn1 & ->)%IH. apply fd_tick_last_seen in Hn1 as (n & ? & -> & _). eauto.
Qed.

(** C14: a peer that stays silent is suspected, then dead, then forgotten: after
    any sequence of scans without frames in between, the last one at time [now],
    the peer is not [Alive] beyond the suspect threshold, is [Dead] or gone beyond
    the dead threshold, and is gone from 300 s of silence on. *)
Theorem silent_node_fate (it : HashIter Z NodeInfo) self_id suspect dead times now m k n :
  m !! k = Some n → ni_last_seen n ≤ now →
  let silence := now - ni_last_seen n in
  let m' := fd_ticks (it := it) self_id suspect dead (times ++ [now]) m in
  (suspect < silence → ∀ n', m' !! k = Some n' → ni_state n' ≠ Alive) ∧
  (dead < silence → ∀ n', m' !! k = Some n' → ni_state n' = Dead) ∧
  (cleanup_threshold ≤ silence → m' !! k = None).
Proof.
  intros Hk Hnow silence m'. subst m'. unfold fd_ticks. rewrite foldl_app. cbn.
  set (m1 := foldl _ m times).
  assert (∀ n', fd_tick (it := it) self_id suspect dead now m1 !! k = Some n' →
    ∃ n1, node_age now n1 = silence ∧ silence < cleanup_threshold
          ∧ ni_state n' = ni_state (mark_node suspect dead now n1)) as Hlast.
  { intros n' (n1 & Hn1 & _ & _ & Hage & Hst)%fd_tick_last_seen.
    assert (node_age now n1 = silence) as Heq.
    { apply (fd_ticks_last_seen self_id suspect dead times) in Hn1 as (n0 & Hn0 & Hseen).
      simplify_eq. rewrite node_age_elapsed; rewrite Hseen; done. }
    exists n1. rewrite Heq in Hage. done. }
  split_and!.
  - intros Hs n' (n1 & Hage & _ & ->)%Hlast. rewrite mark_node_state, Hage.
    rewrite (proj2 (Z.ltb_lt suspect silence)) by done.
    destruct (dead <? silence); [done|]. cbn. by case_bool_decide.
  - intros Hd n' (n1 & Hage & _ & ->)%Hlast. rewrite mark_node_state, Hage.
    by rewrite (proj2 (Z.ltb_lt _ _)).
  - intros Hc. apply eq_None_not_Some. intros [n' (_ & _ & Hlt & _)%Hlast]. lia.
Qed.

Lemma silent_node_fate_witness :
  fd_ticks (it := map_iter) 7 (from_millis 450) (from_secs 30)
    ([from_secs 1; from_secs 31] ++ [from_secs 301]) sample_members !! 3 = None.
Proof.
  apply (silent_node_fate map_iter 7 (from_millis 450) (from_secs 30) [from_secs 1; from_secs 31]
           (from_secs 301) sample_members 3 (peer 3 Alive 1000)); by vm_compute.
Defined.

Lemma fd_ticks_keeps_alive {it : HashIter Z NodeInfo} self_id suspect dead times m k n :
  m !! k = Some n → ni_state n = Alive →
  suspect ≤ dead → suspect < cleanup_threshold →
  Forall (λ t, ni_last_seen n ≤ t ≤ ni_last_seen n + suspect) times →
  ∃ b, fd_ticks self_id suspect dead times m !! k = Some (set_is_master b n).
Proof.
  intros Hk Hst Hsd Hsc Htimes. revert m n Hk Hst Htimes.
  induction times as [|t times IH]; intros m n Hk Hst Htimes; unfold fd_ticks in *; cbn [foldl].
  { exists (ni_is_master n). rewrite Hk. by destruct n. }
  inversion_clear Htimes as [|? ? Ht Hts].
  destruct (IH (fd_tick self_id suspect dead t m)
              (set_is_master (bool_decide (Some (ni_node_id n)
                 = master_from (fd_mark suspect dead t m) self_id)) n)) as [b Hb];
    [|done|done|exists b; rewrite Hb; by destruct n].
  rewrite lookup_fd_tick, Hk. cbn. rewrite node_age_elapsed, decide_True by lia.
  f_equal. f_equal. unfold mark_node. rewrite node_age_elapsed by lia.
  by rewrite (proj2 (Z.ltb_ge dead _)), (proj2 (Z.ltb_ge suspect _)) by lia.
Qed.

(** A peer that keeps sending is never suspected: as long as every scan
    happens within the suspect threshold of the last heartbeat, the entry stays in
    the table, [Alive], and unchanged but for the master flag. *)
Theorem heard_peer_stays_alive (it : HashIter Z NodeInfo) self_id suspect dead nid from pl
    t_insert t_seen times m :
  suspect ≤ dead → suspect < cleanup_threshold →
  Forall (λ t, t_seen ≤ t ≤ t_seen + suspect) times →
  ∃ n b, on_heartbeat nid from pl t_insert t_seen m !! nid = Some n ∧ ni_state n = Alive ∧
    fd_ticks (it := it) self_id suspect dead times (on_heartbeat nid from pl t_insert t_seen m)
      !! nid = Some (set_is_master b n).
Proof.
  intros Hsd Hsc Htimes. destruct (lookup_on_heartbeat nid from pl t_insert t_seen m)
    as (n & Hn & Hst & _ & Hseen & _).
  destruct (fd_ticks_keeps_alive self_id suspect dead times _ nid n Hn Hst Hsd Hsc) as [b Hb];
    [by rewrite Hseen|]. by exists n, b.
Qed.

Lemma heard_peer_stays_alive_witness :
  ∃ n b, ni_state n = Alive ∧
    fd_ticks (it := map_iter) 7 (from_millis 450) (from_secs 30) [from_millis 100; from_millis 440]
      (on_heartbeat 9 (V4 0 7777) {| hb_incarnation := 6; hb_epoch_ms := 0 |} 0 0 sample_members)
      !! 9 = Some (set_is_master b n).
Proof.
  destruct (heard_peer_stays_alive map_iter 7 (from_millis 450) (from_secs 30) 9 (V4 0 7777)
    {| hb_incarnation := 6; hb_epoch_ms := 0 |} 0 0 [from_millis 100; from_millis 440]
    sample_members ltac:(by vm_compute) ltac:(by vm_compute) ltac:(by_compute))
    as (n & b & _ & Hst & Hb). exists n, b. split; [exact Hst|exact Hb].
Defined.

(** The scan reads the clock before it takes the lock.  If a heartbeat is
    recorded in between, the peer's last contact lies after the scan's time, its
    age counts as the maximum, and the scan forgets the peer that was just heard. *)
Theorem fresh_peer_dropped (it : HashIter Z NodeInfo) self_id suspect dead nid from pl
    t_insert t_seen now m :
  now < t_seen →
  fd_tick (it := it) self_id suspect dead now
    (on_heartbeat nid from pl t_insert t_seen m) !! nid = None.
Proof.
  intros Hlt. destruct (lookup_on_heartbeat nid from pl t_insert t_seen m)
    as (n & Hn & _ & _ & Hseen & _).
  rewrite lookup_fd_tick, Hn. cbn. rewrite node_age_regressed by lia.
  rewrite decide_False; [done|]. pose proof duration_max_large. unfold cleanup_threshold. lia.
Qed.

Lemma fresh_peer_dropped_witness :
  1000 < 1001 ∧
  fd_tick (it := map_iter) 7 (from_millis 450) (from_secs 30) 1000
    (on_heartbeat 3 (V4 0 7777) {| hb_incarnation := 6; hb_epoch_ms := 0 |} 1001 1001
       sample_members) !! 3 = None.
Proof.
  split; [by vm_compute|].
  apply (fresh_peer_dropped map_iter 7 (from_millis 450) (from_secs 30) 3). by vm_compute.
Defined.
