(* ===== verification/Gossip.v ===== *)
(** * Merging gossip (crates/hivebus/src/main.rs)

    What a gossip frame makes of a table: for each node it names, the report of the largest
    incarnation, the last one of those with equal incarnations.  The theorems say when frames
    commute, what repeating one does, and what a report that is not newer can do. *)

From S2P Require Import Prelude RustStd Wire Proto Membership.
Local Open Scope Z_scope.
Implicit Types (m : gmap Z NodeInfo) (n : NodeInfo).

(** ** The entries about one node *)

(** The entries of a frame that name a node. *)
Definition entries_for (k : Z) (es : list GossipEntry) : list GossipEntry :=
  filter (λ e, ge_node_id e = k) es.

Lemma entries_for_cons k e es :
  entries_for k (e :: es) = if decide (ge_node_id e = k) then e :: entries_for k es
                            else entries_for k es.
Proof. unfold entries_for. by rewrite filter_cons. Qed.

(** What the entries for one node do to its table entry. *)
Definition merge_entry (n : NodeInfo) (e : GossipEntry) : NodeInfo :=
  if ni_incarnation n <=? ge_incarnation e
  then set_incarnation (ge_incarnation e) (set_state (ge_state e) n) else n.
Definition merge_entries (es : list GossipEntry) (n : NodeInfo) : NodeInfo :=
  foldl merge_entry n es.

Lemma on_gossip_entry_known self_id from now e m n :
  ge_node_id e ≠ self_id → m !! ge_node_id e = Some n →
  on_gossip_entry self_id from now e m !! ge_node_id e = Some (merge_entries [e] n).
Proof.
  intros Hne Hn. unfold on_gossip_entry. rewrite (proj2 (Z.eqb_neq _ _) Hne), Hn. cbn.
  by rewrite lookup_insert_eq.
Qed.

(** The entry a frame creates for a peer it is the first to name. *)
Definition fresh_entry (from : SocketAddr) (now : SystemTime) (e : GossipEntry) : NodeInfo := {|
  ni_node_id := ge_node_id e; ni_hostname := placeholder_hostname (ge_node_id e);
  ni_control_addr := from; ni_state := ge_state e; ni_incarnation := ge_incarnation e;
  ni_last_seen := now; ni_is_master := false |}.

Lemma on_gossip_entry_unknown self_id from now e m :
  ge_node_id e ≠ self_id → m !! ge_node_id e = None →
  on_gossip_entry self_id from now e m !! ge_node_id e = Some (fresh_entry from now e).
Proof.
  intros Hne Hn. destruct (lookup_on_gossip_entry self_id from now e m Hne) as (n & Hlook & Hc).
  rewrite Hn in Hc. by subst n.
Qed.

(** For a known peer, a frame is the merge of its entries. *)
Lemma on_gossip_known self_id from clock es m k n :
  k ≠ self_id → m !! k = Some n →
  on_gossip self_id from clock es m !! k = Some (merge_entries (entries_for k es) n).
Proof.
  intros Hk. revert clock m n; induction es as [|e es IH]; intros clock m n Hn; [done|].
  cbn [on_gossip]. rewrite entries_for_cons. case_decide as He.
  - subst k. by rewrite (IH _ _ _ (on_gossip_entry_known _ _ _ _ _ _ Hk Hn)).
  - apply IH. rewrite lookup_on_gossip_entry_ne; [done|]. by left.
Qed.

(** For an unknown peer, the first entry that names it creates it. *)
Lemma on_gossip_unknown self_id from clock es m k :
  k ≠ self_id → m !! k = None →
  match entries_for k es with
  | [] => on_gossip self_id from clock es m !! k = None
  | e :: rest => ∃ now, on_gossip self_id from clock es m !! k
                        = Some (merge_entries rest (fresh_entry from now e))
  end.
Proof.
  intros Hk. revert clock m; induction es as [|e es IH]; intros clock m Hn; [done|].
  cbn [on_gossip]. rewrite entries_for_cons. case_decide as He.
  - subst k. exists (clock O).
    by rewrite (on_gossip_known _ _ _ _ _ _ _ Hk (on_gossip_entry_unknown _ _ _ _ _ Hk Hn)).
  - apply IH. rewrite lookup_on_gossip_entry_ne; [done|]. by left.
Qed.

(** The last entry with a given incarnation. *)
Definition last_with (i : Z) (es : list GossipEntry) : option GossipEntry :=
  last (filter (λ e, ge_incarnation e = i) es).

Lemma last_with_snoc i es e :
  last_with i (es ++ [e]) = if decide (ge_incarnation e = i) then Some e else last_with i es.
Proof.
  unfold last_with. rewrite filter_app, filter_cons. cbn.
  case_decide; [by rewrite last_snoc|by rewrite app_nil_r].
Qed.

Lemma last_with_app i es1 es2 :
  last_with i (es1 ++ es2)
  = match last_with i es2 with Some e => Some e | None => last_with i es1 end.
Proof. unfold last_with. by rewrite filter_app, last_app. Qed.

Lemma last_with_Some i es e : last_with i es = Some e → e ∈ es ∧ ge_incarnation e = i.
Proof.
  unfold last_with. intros [l Hl]%last_Some.
  assert (e ∈ filter (λ e, ge_incarnation e = i) es) as [? ?]%list_elem_of_filter; [|done].
  rewrite Hl. apply elem_of_app. right. constructor.
Qed.

Lemma foldl_max_ge l : ∀ i, i ≤ foldl Z.max i l ∧ Forall (λ x, x ≤ foldl Z.max i l) l.
Proof.
  induction l as [|x l IH]; intros i; cbn; [done|].
  destruct (IH (Z.max i x)) as [H1 H2]. split; [lia|]. constructor; [lia|done].
Qed.

Lemma foldl_max_snoc i l x : foldl Z.max i (l ++ [x]) = Z.max (foldl Z.max i l) x.
Proof. by rewrite foldl_app. Qed.

Lemma foldl_max_swap l1 l2 i : foldl Z.max i (l1 ++ l2) = foldl Z.max i (l2 ++ l1).
Proof.
  assert (∀ l j k, foldl Z.max (Z.max j k) l = Z.max k (foldl Z.max j l)) as Hout.
  { induction l as [|x l IH]; intros j k; cbn; [lia|]. rewrite <-IH. f_equal. lia. }
  rewrite !foldl_app. revert i. induction l2 as [|x l2 IH]; intros i; cbn; [done|].
  rewrite <-IH. f_equal. rewrite Hout. lia.
Qed.

(** Merging takes the largest incarnation and the state that came last with it. *)
Lemma merge_entries_spec es n :
  let n' := merge_entries es n in
  ni_incarnation n' = foldl Z.max (ni_incarnation n) (ge_incarnation <$> es) ∧
  n' = set_incarnation (ni_incarnation n')
         (set_state match last_with (ni_incarnation n') es with
                    | Some e => ge_state e | None => ni_state n end n).
Proof.
  induction es as [|e es IH] using rev_ind; cbn zeta; [split; [done|by destruct n]|].
  destruct IH as [Hinc Hn]. unfold merge_entries in *. rewrite foldl_app, fmap_app. cbn [foldl].
  change (ge_incarnation <$> [e]) with [ge_incarnation e].
  rewrite foldl_max_snoc, <-Hinc. set (n1 := foldl merge_entry n es) in *.
  unfold merge_entry. destruct (Z.leb_spec (ni_incarnation n1) (ge_incarnation e)); cbn.
  - split; [lia|]. rewrite last_with_snoc, decide_True by done. rewrite Hn. by destruct n.
  - split; [lia|]. rewrite last_with_snoc, decide_False by lia. done.
Qed.

Lemma merge_entries_state es n :
  ni_state (merge_entries es n)
  = match last_with (ni_incarnation (merge_entries es n)) es with
    | Some e => ge_state e | None => ni_state n end.
Proof. destruct (merge_entries_spec es n) as [_ H]. by rewrite H at 1. Qed.

Lemma merge_entries_fields es n :
  merge_entries es n
  = set_incarnation (ni_incarnation (merge_entries es n))
      (set_state (ni_state (merge_entries es n)) n).
Proof. rewrite merge_entries_state. apply merge_entries_spec. Qed.

Lemma merge_entries_app es1 es2 n :
  merge_entries (es1 ++ es2) n = merge_entries es2 (merge_entries es1 n).
Proof. unfold merge_entries. by rewrite foldl_app. Qed.

(** Merging the same entries again changes nothing. *)
Lemma merge_entries_idem es n : merge_entries es (merge_entries es n) = merge_entries es n.
Proof.
  destruct (merge_entries_spec es n) as [Hi Hn].
  destruct (merge_entries_spec es (merge_entries es n)) as [Hi' Hn'].
  set (n1 := merge_entries es n) in *. set (n2 := merge_entries es n1) in *.
  assert (ni_incarnation n2 = ni_incarnation n1) as Heq.
  { rewrite Hi'. destruct (foldl_max_ge (ge_incarnation <$> es) (ni_incarnation n)) as [_ Hall].
    rewrite <-Hi in Hall. clear -Hall. induction Hall as [|x l Hx _ IH]; cbn; [done|].
    by rewrite Z.max_l. }
  rewrite Hn', Heq. rewrite Hn at 3. rewrite Hn.
  destruct (last_with _ es); cbn; by destruct n.
Qed.

Lemma foldl_max_attained l : ∀ i, foldl Z.max i l = i ∨ foldl Z.max i l ∈ l.
Proof.
  induction l as [|x l IH]; intros i; cbn; [by left|].
  destruct (IH (Z.max i x)) as [Heq|Hin]; [|right; by right].
  rewrite Heq. destruct (Z.max_spec i x) as [[? ->]|[? ->]]; [right; by left|by left].
Qed.

Lemma last_with_None i es : last_with i es = None → i ∉ (ge_incarnation <$> es).
Proof.
  unfold last_with. intros Hl%last_None (e & -> & He)%list_elem_of_fmap.
  assert (e ∈ filter (λ e0, ge_incarnation e0 = ge_incarnation e) es) as Hin
    by (apply list_elem_of_filter; done).
  rewrite Hl in Hin. by apply not_elem_of_nil in Hin.
Qed.

(** C10: after a GOSSIP frame, a peer other than the node itself is unknown only if
    it was unknown and no entry names it; otherwise its incarnation is the largest
    of the known one and the reported ones, its state is the one reported last
    with that incarnation (the old one if none was), and the name, address, last
    contact and master flag of a known peer are untouched. *)
Theorem gossip_merge_spec self_id from clock es m k :
  k ≠ self_id → Forall wire_ok es →
  let es_k := entries_for k es in
  match on_gossip self_id from clock es m !! k with
  | None => m !! k = None ∧ es_k = []
  | Some n' =>
    ni_incarnation n' = foldl Z.max (from_option ni_incarnation 0 (m !! k)) (ge_incarnation <$> es_k)
    ∧ Some (ni_state n') = match last_with (ni_incarnation n') es_k with
                           | Some e => Some (ge_state e)
                           | None => ni_state <$> m !! k
                           end
    ∧ ∀ n, m !! k = Some n → n' = set_incarnation (ni_incarnation n') (set_state (ni_state n') n)
  end.
Proof.
  intros Hk Hes es_k. destruct (m !! k) as [n|] eqn:Hn.
  - rewrite (on_gossip_known _ _ _ _ _ _ _ Hk Hn). cbn. fold es_k.
    split_and!; [apply merge_entries_spec| |].
    + rewrite merge_entries_state at 1. by destruct (last_with _ _).
    + intros ? [= <-]. apply merge_entries_fields.
  - pose proof (on_gossip_unknown self_id from clock es m k Hk Hn) as Hres. fold es_k in Hres.
    destruct es_k as [|e rest] eqn:Hes_k; [by rewrite Hres|].
    destruct Hres as [now ->].
    assert (wire_ok e) as (_ & [He _] & _).
    { rewrite Forall_forall in Hes. apply Hes.
      assert (e ∈ entries_for k es) as [_ ?]%list_elem_of_filter by (fold es_k; rewrite Hes_k; constructor).
      done. }
    destruct (merge_entries_spec rest (fresh_entry from now e)) as [Hinc _].
    pose proof (merge_entries_state rest (fresh_entry from now e)) as Hst.
    set (n' := merge_entries rest (fresh_entry from now e)) in *. cbn in *.
    split_and!; [| |done].
    + rewrite Hinc. f_equal. lia.
    + rewrite Hst. change (e :: rest) with ([e] ++ rest). rewrite last_with_app.
      destruct (last_with (ni_incarnation n') rest) as [e'|] eqn:Hlast; [done|].
      apply last_with_None in Hlast.
      destruct (foldl_max_attained (ge_incarnation <$> rest) (ge_incarnation e)) as [Heq|Hin];
        rewrite <-Hinc in *; [|done].
      unfold last_with. by rewrite filter_cons, decide_True.
Qed.

(** Two conflicting reports about peer 5 and one about an unknown peer 9. *)
Definition sample_gossip : list GossipEntry :=
  [{| ge_node_id := 5; ge_incarnation := 6; ge_state := Alive; ge_epoch_ms := 0 |};
   {| ge_node_id := 9; ge_incarnation := 2; ge_state := Suspect; ge_epoch_ms := 0 |};
   {| ge_node_id := 5; ge_incarnation := 4; ge_state := Dead; ge_epoch_ms := 0 |}].

Lemma gossip_merge_spec_witness :
  match on_gossip 7 (V4 0 7777) (λ _, 50) sample_gossip sample_members !! 5 with
  | None => False
  | Some n' => ni_incarnation n' = 6 ∧ Some (ni_state n') = Some Alive
               ∧ n' = set_incarnation 6 (set_state Alive (peer 5 Suspect 0))
  end.
Proof.
  assert (Forall wire_ok sample_gossip) as Hok by by_compute.
  pose proof (gossip_merge_spec 7 (V4 0 7777) (λ _, 50) sample_gossip sample_members 5
                ltac:(done) Hok) as H.
  vm_compute in H. destruct H as (_ & _ & H). vm_compute. split_and!; [done|done|].
  exact (H _ eq_refl).
Defined.

(** Receiving a GOSSIP frame a second time, whenever and from whomever,
    changes nothing. *)
Theorem gossip_idempotent self_id from from' clock clock' es m :
  on_gossip self_id from' clock' es (on_gossip self_id from clock es m)
  = on_gossip self_id from clock es m.
Proof.
  apply map_eq. intros k. destruct (decide (k = self_id)) as [->|Hk].
  { by rewrite !lookup_on_gossip_self. }
  destruct (m !! k) as [n|] eqn:Hn.
  - rewrite (on_gossip_known _ _ _ _ _ _ (merge_entries (entries_for k es) n)) by
      (done || by apply on_gossip_known).
    by rewrite merge_entries_idem, (on_gossip_known _ _ _ _ _ _ _ Hk Hn).
  - pose proof (on_gossip_unknown self_id from clock es m k Hk Hn) as Hres.
    destruct (entries_for k es) as [|e rest] eqn:Hes.
    + rewrite Hres. pose proof (on_gossip_unknown self_id from' clock' es
        (on_gossip self_id from clock es m) k Hk Hres) as Hres'. by rewrite Hes in Hres'.
    + destruct Hres as [now Hres].
      rewrite (on_gossip_known _ _ _ _ _ _ _ Hk Hres), Hres, Hes. f_equal.
      assert (merge_entries rest (fresh_entry from now e)
              = merge_entries (e :: rest) (fresh_entry from now e)) as Hcons.
      { unfold merge_entries. cbn. unfold merge_entry at 3. cbn. by rewrite Z.leb_refl. }
      rewrite Hcons. apply merge_entries_idem.
Qed.

(** C27: two GOSSIP frames leave a known peer in the same entry in either order,
    provided they do not report different states of it under the same incarnation. *)
Theorem gossip_commutes self_id from1 from2 clock1 clock2 es1 es2 m k n :
  k ≠ self_id → m !! k = Some n →
  (∀ e1 e2, e1 ∈ entries_for k es1 → e2 ∈ entries_for k es2 →
     ge_incarnation e1 = ge_incarnation e2 → ge_state e1 = ge_state e2) →
  on_gossip self_id from2 clock2 es2 (on_gossip self_id from1 clock1 es1 m) !! k
  = on_gossip self_id from1 clock1 es1 (on_gossip self_id from2 clock2 es2 m) !! k.
Proof.
  intros Hk Hn Hagree.
  rewrite !(on_gossip_known _ _ _ _ _ _ _ Hk (on_gossip_known _ _ _ _ _ _ _ Hk Hn)).
  rewrite <-!merge_entries_app. set (a := entries_for k es1) in *. set (b := entries_for k es2) in *.
  destruct (merge_entries_spec (a ++ b) n) as [Hi1 H1].
  destruct (merge_entries_spec (b ++ a) n) as [Hi2 H2].
  rewrite fmap_app in Hi1, Hi2. rewrite foldl_max_swap, <-Hi2 in Hi1.
  rewrite H1, H2, Hi1, !last_with_app. do 3 f_equal.
  destruct (last_with _ a) as [e1|] eqn:Ha, (last_with _ b) as [e2|] eqn:Hb; try done.
  apply last_with_Some in Ha as [? ?]. apply last_with_Some in Hb as [? ?].
  symmetry. apply Hagree; [done..|congruence].
Qed.

(** Two frames that both report peer 5 at incarnation 6, one of them after an older report,
    and each of which alone changes its entry. *)
Definition report (k inc : Z) (st : NodeState) : GossipEntry :=
  {| ge_node_id := k; ge_incarnation := inc; ge_state := st; ge_epoch_ms := 0 |}.
Definition gossip1 : list GossipEntry := [report 3 9 Suspect; report 5 6 Dead].
Definition gossip2 : list GossipEntry := [report 5 5 Alive; report 5 6 Dead; report 5 4 Suspect].

Lemma gossip_commutes_witness :
  on_gossip 7 (V4 0 2) (λ _, 2) gossip2 (on_gossip 7 (V4 0 1) (λ _, 1) gossip1 sample_members) !! 5
  = on_gossip 7 (V4 0 1) (λ _, 1) gossip1 (on_gossip 7 (V4 0 2) (λ _, 2) gossip2 sample_members) !! 5
  ∧ entries_for 5 gossip1 ≠ [] ∧ entries_for 5 gossip2 ≠ []
  ∧ on_gossip 7 (V4 0 1) (λ _, 1) gossip1 sample_members !! 5 ≠ sample_members !! 5
  ∧ on_gossip 7 (V4 0 2) (λ _, 2) gossip2 sample_members !! 5 ≠ sample_members !! 5.
Proof.
  split; [|by_compute].
  apply (gossip_commutes 7 (V4 0 1) (V4 0 2) (λ _, 1) (λ _, 2) gossip1 gossip2
           sample_members 5 (peer 5 Suspect 0)); [done|by vm_compute|].
  assert (Forall (λ e1, Forall (λ e2, ge_incarnation e1 = ge_incarnation e2 → ge_state e1 = ge_state e2)
    (entries_for 5 gossip2)) (entries_for 5 gossip1)) as Hall by by_compute.
  intros e1 e2 H1 H2. rewrite Forall_forall in Hall. specialize (Hall e1 H1).
  rewrite Forall_forall in Hall. exact (Hall e2 H2).
Defined.

(** A report with the incarnation already known replaces the state, whatever
    it is: a peer that is [Alive] is declared [Dead], and a [Dead] one revived, by
    a report that is not newer. *)
Theorem gossip_equal_incarnation_overrides self_id from clock m k n s t :
  k ≠ self_id → m !! k = Some n →
  on_gossip self_id from clock
    [{| ge_node_id := k; ge_incarnation := ni_incarnation n; ge_state := s; ge_epoch_ms := t |}] m
    !! k = Some (set_state s n).
Proof.
  intros Hk Hn. rewrite (on_gossip_known _ _ _ _ _ _ _ Hk Hn).
  rewrite entries_for_cons, decide_True by done. cbn. unfold merge_entry. cbn.
  rewrite Z.leb_refl. by destruct n.
Qed.

Lemma gossip_equal_incarnation_overrides_witness :
  on_gossip 7 (V4 0 1) (λ _, 1)
    [{| ge_node_id := 3; ge_incarnation := 5; ge_state := Dead; ge_epoch_ms := 0 |}]
    sample_members !! 3 = Some (set_state Dead (peer 3 Alive 1000)).
Proof.
  apply (gossip_equal_incarnation_overrides 7 (V4 0 1) (λ _, 1) sample_members 3
           (peer 3 Alive 1000)); [done|by vm_compute].
Defined.

(** A node that comes back with a smaller incarnation is heard, but the first report that
    still carries its earlier incarnation declares it [Dead], and no report of its present
    one is taken any more; only its own next frame brings it back. *)
Theorem restarted_peer_overruled self_id from clock nid pl now_insert now_seen m old t fresh :
  nid ≠ self_id → hb_incarnation pl < old →
  Forall (λ e, ge_node_id e = nid → ge_incarnation e = hb_incarnation pl) fresh →
  let m1 := on_heartbeat nid from pl now_insert now_seen m in
  let stale := {| ge_node_id := nid; ge_incarnation := old; ge_state := Dead; ge_epoch_ms := t |} in
  let m2 := on_gossip self_id from clock (stale :: fresh) m1 in
  ni_state <$> m1 !! nid = Some Alive ∧ ni_state <$> m2 !! nid = Some Dead ∧
  ni_state <$> on_heartbeat nid from pl now_insert now_seen m2 !! nid = Some Alive.
Proof.
  intros Hnid Hold Hfresh. cbv zeta. set (m1 := on_heartbeat nid from pl now_insert now_seen m).
  assert (∃ n, m1 !! nid = Some n ∧ ni_state n = Alive ∧ ni_incarnation n = hb_incarnation pl)
    as (n & Hn & Halive & Hinc) by (eexists; split; [apply lookup_insert_eq|done]).
  split; [by rewrite Hn; cbn; rewrite Halive|].
  split; [|unfold on_heartbeat at 1; by rewrite lookup_insert_eq].
  rewrite (on_gossip_known _ _ _ _ _ _ _ Hnid Hn), entries_for_cons, decide_True by done.
  cbn [merge_entries foldl]. unfold merge_entry at 2. cbn [ge_incarnation ge_state].
  rewrite Hinc, (proj2 (Z.leb_le _ _)) by lia.
  assert (∀ n', ni_incarnation n' = old → ni_state n' = Dead →
    ni_state (merge_entries (entries_for nid fresh) n') = Dead) as Hstay; [|cbn; f_equal; by apply Hstay].
  induction Hfresh as [|e es He _ IH]; [done|]. intros n' Hi Hs. rewrite entries_for_cons.
  case_decide as Heq; [|by apply IH]. cbn [merge_entries foldl]. unfold merge_entry at 2.
  rewrite (He Heq), Hi, (proj2 (Z.leb_gt _ _)) by done. by apply IH.
Qed.

Lemma restarted_peer_overruled_witness :
  ni_state <$> on_gossip 7 (V4 0 1) (λ _, 1)
    [{| ge_node_id := 3; ge_incarnation := 5; ge_state := Dead; ge_epoch_ms := 0 |};
     {| ge_node_id := 3; ge_incarnation := 4; ge_state := Alive; ge_epoch_ms := 0 |}]
    (on_heartbeat 3 (V4 0 1) {| hb_incarnation := 4; hb_epoch_ms := 9 |} 9 9 sample_members) !! 3
  = Some Dead.
Proof.
  apply (restarted_peer_overruled 7 (V4 0 1) (λ _, 1) 3 {| hb_incarnation := 4; hb_epoch_ms := 9 |} 9 9
    sample_members 5 0 [{| ge_node_id := 3; ge_incarnation := 4; ge_state := Alive; ge_epoch_ms := 0 |}]);
    [done|done|by repeat constructor].
Defined.
