(* ===== verification/Hivebus.v ===== *)
(** * The hivebus daemon (crates/hivebus/src/main.rs)

    The periodic senders, the control operations, start-up, and the daemon as a
    transition system: every task runs between two awaits of the table's lock as
    one step, in any order.  The table itself is in [Membership]. *)

From S2P Require Import Prelude RustStd Wire Proto Control ControlSocket Membership Gossip.
Local Open Scope Z_scope.
Implicit Types (m : gmap Z NodeInfo) (n : NodeInfo).

(** ** Configuration and start-up *)

Record Config := {
  cfg_cluster_iface : string;
  cfg_cluster_addr : Ipv4Addr;
  cfg_node_id : option Z;
  cfg_hostname : option string;
  cfg_heartbeat_interval_ms : Z;
  cfg_suspect_misses : Z;
  cfg_dead_secs : Z;
}.

Definition default_hb_interval : Z := 150.
Definition default_suspect_misses : Z := 3.
Definition default_dead_secs : Z := 30.

Inductive config_error (E : Type) :=
| ReadingConfig
| ParsingConfig (e : E).
Arguments ReadingConfig {E}.
Arguments ParsingConfig {E}.

(** [Config::load]: [raw] is what reading the file gives; the parser is the TOML
    library's. *)
Definition config_load {E} (parse : string → result E Config) (raw : option string) :
    result (config_error E) Config :=
  match raw with
  | None => Err ReadingConfig
  | Some raw => match parse raw with Ok cfg => Ok cfg | Err e => Err (ParsingConfig e) end
  end.

Inductive derive_error := ReadingMac | ParsingMac | UnexpectedMacLength.

(** [derive_node_id] on the contents of the interface's address file: trim,
    split at colons, parse every piece as a hexadecimal byte, fold. *)
Definition derive_node_id (mac_str : bytes) : result derive_error Z :=
  match mapM u8_from_str_radix_16 (split_byte 58 (trim mac_str)) with
  | None => Err ParsingMac
  | Some [o0; o1; o2; o3; o4; o5] => Ok (node_id_from_mac (mkMac o0 o1 o2 o3 o4 o5))
  | Some _ => Err UnexpectedMacLength
  end.

(** The choice of the node id in [main]; the address file may be unreadable. *)
Definition main_node_id (cfg : Config) (mac_file : option bytes) : result derive_error Z :=
  match cfg_node_id cfg with
  | Some id => Ok id
  | None => match mac_file with Some mac_str => derive_node_id mac_str | None => Err ReadingMac end
  end.

(** The host name in [main]: configured, the system's, or "unknown". *)
Definition main_hostname (cfg : Config) (system : option string) : string :=
  match cfg_hostname cfg with Some h => h | None => default "unknown"%string system end.

(** [format!("{}:{}", cfg.cluster_addr, DISCOVERY_PORT + 1)], parsed. *)
Definition main_control_addr (cfg : Config) : SocketAddr :=
  V4 (cfg_cluster_addr cfg) (DISCOVERY_PORT + 1).

(** The suspect threshold of [main], in milliseconds: the product of two [u64]
    overflows with a panic when overflow checks are on and wraps otherwise. *)
Definition suspect_threshold_ms (overflow_checks : bool) (cfg : Config) : outcome Z :=
  let p := cfg_heartbeat_interval_ms cfg * cfg_suspect_misses cfg in
  if decide (fits 64 p) then Done p
  else if overflow_checks then Panicked else Done (wrap 64 p).

Definition dead_threshold (cfg : Config) : Duration := from_secs (cfg_dead_secs cfg).

(** What the tasks know of the node itself. *)
Record Local := {
  l_node_id : Z;
  l_hostname : string;
  l_control_addr : SocketAddr;
  l_incarnation : Z;
}.

(** [main] up to the announcement: the node itself and the thresholds of its failure
    detector, an error that ends the program, or a panic. *)
Definition main_start (overflow_checks : bool) (cfg : Config) (system : option string)
    (mac_file : option bytes) (now : SystemTime) :
    outcome (result derive_error (Local * Duration * Duration)) :=
  match main_node_id cfg mac_file with
  | Err e => Done (Err e)
  | Ok node_id =>
    let l := {| l_node_id := node_id; l_hostname := main_hostname cfg system;
                l_control_addr := main_control_addr cfg;
                l_incarnation := wrap 32 (epoch_ms now) |} in
    suspect_ms ← suspect_threshold_ms overflow_checks cfg;
    Done (Ok (l, from_millis suspect_ms, dead_threshold cfg))
  end.

(** The fields of a configuration are values of the Rust types. *)
Definition cfg_ok (cfg : Config) : Prop :=
  (∀ id, cfg_node_id cfg = Some id → u16 id) ∧ u32 (cfg_cluster_addr cfg) ∧
  (∀ h, cfg_hostname cfg = Some h → str_ok h) ∧
  u64 (cfg_heartbeat_interval_ms cfg) ∧ u32 (cfg_suspect_misses cfg) ∧ u64 (cfg_dead_secs cfg).

(** A configured daemon: its fields are values of the Rust types. *)
Definition local_ok (l : Local) : Prop :=
  u16 (l_node_id l) ∧ u32 (l_incarnation l) ∧ addr_ok (l_control_addr l) ∧ str_ok (l_hostname l).

#[export] Instance local_ok_dec (l : Local) : Decision (local_ok l).
Proof. unfold local_ok. apply _. Defined.

(** Parsed octets are bytes. *)
Lemma u8_from_str_radix_u8 bs b : u8_from_str_radix_16 bs = Some b → u8 b.
Proof.
  assert (u8 0) as H0 by by_compute. unfold u8_from_str_radix_16.
  repeat case_match; try done; by apply parse_hex_digits_u8.
Qed.

Lemma derive_node_id_mac mac_str id :
  derive_node_id mac_str = Ok id → ∃ mac, mac_ok mac ∧ id = node_id_from_mac mac.
Proof.
  unfold derive_node_id. destruct (mapM _ _) as [octets|] eqn:Hm; [|done].
  assert (Forall u8 octets) as Hok.
  { apply mapM_Some in Hm. induction Hm as [|x y xs ys Hx _ IH]; constructor; [|done].
    by eapply u8_from_str_radix_u8. }
  destruct octets as [|o0 [|o1 [|o2 [|o3 [|o4 [|o5 [|]]]]]]]; try done.
  intros [= <-]. eexists. split; [|done]. exact Hok.
Qed.

(** Every way a daemon can start: with valid settings [main] comes up with a node
    whose fields are valid, its id the configured one or the fold of an address, and
    with the thresholds of the configuration; the program ends with an error only
    when no id is configured, and panics only when the product that gives the suspect
    threshold overflows in a checked build. *)
Theorem main_start_spec overflow_checks cfg system mac_file now :
  cfg_ok cfg → (∀ h, system = Some h → str_ok h) →
  let suspect_ms := cfg_heartbeat_interval_ms cfg * cfg_suspect_misses cfg in
  match main_start overflow_checks cfg system mac_file now with
  | Done (Ok (l, suspect, dead)) =>
      local_ok l ∧ dead = from_secs (cfg_dead_secs cfg) ∧
      (suspect_ms < 2 ^ 64 → suspect = from_millis suspect_ms) ∧
      match cfg_node_id cfg with
      | Some id => l_node_id l = id
      | None => ∃ mac, mac_ok mac ∧ l_node_id l = node_id_from_mac mac
      end
  | Done (Err _) => cfg_node_id cfg = None
  | Panicked => overflow_checks = true ∧ 2 ^ 64 ≤ suspect_ms
  end.
Proof.
  intros (Hid & Hip & Hhost & Hhb & Hmiss & Hdead) Hsys suspect_ms. unfold main_start.
  destruct (main_node_id cfg mac_file) as [id|e] eqn:Hn; unfold main_node_id in Hn; cycle 1.
  { by destruct (cfg_node_id cfg). }
  assert (0 ≤ suspect_ms) as Hpos by (unfold suspect_ms, fits in *; nia).
  assert (match cfg_node_id cfg with
          | Some id' => id = id'
          | None => ∃ mac, mac_ok mac ∧ id = node_id_from_mac mac
          end ∧ u16 id) as [Hsrc Hid16].
  { destruct (cfg_node_id cfg) as [id'|]; [injection Hn as ->; split; [done|by apply Hid]|].
    destruct mac_file as [mac_str|]; [|done].
    destruct (derive_node_id_mac mac_str id Hn) as (mac & Hmac & ->).
    split; [by exists mac|by apply node_id_from_mac_u16]. }
  assert (local_ok {| l_node_id := id; l_hostname := main_hostname cfg system;
    l_control_addr := main_control_addr cfg; l_incarnation := wrap 32 (epoch_ms now) |}) as Hl.
  { split; [done|]. split; [by apply fits_wrap|]. split; [by split|]. unfold main_hostname, l_hostname.
    destruct (cfg_hostname cfg) as [h|]; [by apply Hhost|].
    destruct system as [h|]; [by apply Hsys|reflexivity]. }
  unfold suspect_threshold_ms. fold suspect_ms. case_decide as Hfit; cbn [mbind outcome_bind].
  - split_and!; done.
  - assert (2 ^ 64 ≤ suspect_ms) as Hover by (unfold fits in Hfit; lia).
    destruct overflow_checks; cbn [mbind outcome_bind]; [done|]. split_and!; [done..|lia|done].
Qed.

(** A daemon started later may carry the smaller incarnation: its start time is cut to 32
    bits, which 49.7 days use up.  [Gossip.restarted_peer_overruled] has what the peers
    then make of it. *)
Theorem restart_lowers_incarnation before :
  0 ≤ before → as_millis before < 2 ^ 64 - 2 ^ 32 → wrap 32 (epoch_ms before) ≠ 0 →
  wrap 32 (epoch_ms (before + from_millis (2 ^ 32 - 1))) = wrap 32 (epoch_ms before) - 1.
Proof.
  assert (∀ now, 0 ≤ now → as_millis now < 2 ^ 64 → epoch_ms now = as_millis now) as Hms.
  { intros now Hpos Hlt. unfold epoch_ms, duration_since. rewrite decide_True by done. cbn.
    rewrite Z.sub_0_r. unfold wrap. apply Z.mod_small. split; [|done]. by apply Z.div_pos. }
  intros Hpos Hlt. assert (as_millis (before + from_millis (2 ^ 32 - 1)) = as_millis before + (2 ^ 32 - 1)) as Hafter.
  { unfold as_millis, from_millis. by rewrite Z.div_add. }
  rewrite (Hms before) by (done || lia).
  rewrite (Hms (before + _)), Hafter by first [rewrite Hafter; lia|unfold from_millis; lia]. unfold wrap.
  generalize (as_millis before). intros ms Hne.
  replace (ms + (2 ^ 32 - 1)) with (ms - 1 + 1 * 2 ^ 32) by lia. rewrite Z_mod_plus_full. 
  pose proof (Z.mod_pos_bound ms (2 ^ 32) ltac:(lia)) as Hr.
  symmetry. apply (Z.mod_unique _ _ (ms `div` 2 ^ 32)); [lia|].
  pose proof (Z.div_mod ms (2 ^ 32) ltac:(lia)). lia.
Qed.

(** [local_node_info] *)
Definition local_node_info (l : Local) (now : SystemTime) (is_master : bool) : NodeInfo := {|
  ni_node_id := l_node_id l; ni_hostname := l_hostname l; ni_control_addr := l_control_addr l;
  ni_state := Alive; ni_incarnation := l_incarnation l; ni_last_seen := now;
  ni_is_master := is_master |}.

(** ** The senders *)

Definition broadcast : SocketAddr := V4 (ipv4 255 255 255 255) DISCOVERY_PORT.
Definition mcast_addr : SocketAddr := V4 (ipv4 224 0 133 7) DISCOVERY_PORT.

(** [seq.wrapping_add(1) & 0x0F] *)
Definition next_seq (seq : Z) : Z := Z.land (wrap 8 (seq + 1)) 15.

Abbreviation sends := (list (SocketAddr * bytes)) (only parsing).

Section Senders.
Context `{Bincode} `{!Codec HeartbeatPayload, !Codec AnnouncePayload,
                     !Codec LeavePayload, !Codec GossipPayload}.

(** One round of [heartbeat_task]: the datagrams sent and the next sequence number. *)
Definition heartbeat_tick (l : Local) (now : SystemTime) (seq : Z) : sends * Z :=
  let payload := {| hb_incarnation := l_incarnation l; hb_epoch_ms := epoch_ms now |} in
  let header := FrameHeader.new Heartbeat seq (l_node_id l) in
  (match encode_frame header payload with
   | Ok buf => [(broadcast, buf); (mcast_addr, buf)]
   | Err _ => []
   end, next_seq seq).

(** The entries of a gossip frame; the [i]-th reads the clock as [clock i]. *)
Definition gossip_entries {it : HashIter Z NodeInfo} (clock : nat → SystemTime) (m : Members) :
    list GossipEntry :=
  imap (λ i n, {| ge_node_id := ni_node_id n; ge_incarnation := ni_incarnation n;
                  ge_state := ni_state n; ge_epoch_ms := epoch_ms (clock i) |})
    (hash_values m).

(** One round of [gossip_task]; an empty table sends nothing and keeps the
    sequence number. *)
Definition gossip_tick {it : HashIter Z NodeInfo} (l : Local) (clock : nat → SystemTime)
    (m : Members) (seq : Z) : sends * Z :=
  let entries := gossip_entries clock m in
  match entries with
  | [] => ([], seq)
  | _ =>
    let payload := {| gp_entries := entries |} in
    let header := FrameHeader.new Gossip seq (l_node_id l) in
    (match encode_frame header payload with
     | Ok buf => [(mcast_addr, buf)]
     | Err _ => []
     end, next_seq seq)
  end.

(** The announcement [main] sends before it starts the tasks. *)
Definition initial_announce (l : Local) (version : string) : sends :=
  let payload := {| an_incarnation := l_incarnation l; an_hostname := l_hostname l;
                    an_control_addr := l_control_addr l; an_version := version |} in
  let header := FrameHeader.new Announce 0 (l_node_id l) in
  match encode_frame header payload with
  | Ok buf => [(broadcast, buf); (mcast_addr, buf)]
  | Err _ => []
  end.
End Senders.

(** ** The control operations *)

(** The order of [sort_unstable_by_key(|node| node.node_id)]. *)
Definition by_node_id (a b : NodeInfo) : Prop := ni_node_id a ≤ ni_node_id b.
#[export] Instance by_node_id_dec : RelDecision by_node_id.
Proof. intros a b. unfold by_node_id. apply _. Defined.
#[export] Instance by_node_id_total : Total by_node_id.
Proof. intros a b. unfold by_node_id. lia. Qed.
#[export] Instance by_node_id_trans : Transitive by_node_id.
Proof. intros a b c. unfold by_node_id. lia. Qed.

(** What a control handler reads besides the table. *)
Record ControlEnv := {
  ce_iter : HashIter Z NodeInfo;
  ce_now : SystemTime;
  ce_local : Local;
}.

(** GetNodes: every peer and the node itself, sorted by id.  The key of the sort
    is unique in every reachable table, so any sort gives this list. *)
Definition get_nodes (env : ControlEnv) (m : Members) : list NodeInfo :=
  let self_id := l_node_id (ce_local env) in
  let master_id := master_from (it := ce_iter env) m self_id in
  let nodes := hash_values (it := ce_iter env) m
    ++ [local_node_info (ce_local env) (ce_now env) (bool_decide (master_id = Some self_id))] in
  merge_sort by_node_id nodes.

(** GetMaster *)
Definition get_master (env : ControlEnv) (m : Members) : option NodeInfo :=
  let self_id := l_node_id (ce_local env) in
  let master_id := master_from (it := ce_iter env) m self_id in
  id ← master_id;
  if id =? self_id then Some (local_node_info (ce_local env) (ce_now env) true)
  else m !! id.

#[global] Instance hivebus_service : ControlService ControlEnv (gmap Z NodeInfo) := λ env m op,
  match op with
  | Ping => (m, Reply ReplyOk)
  | GetNodes => (m, Reply (ReplyNodes (get_nodes env m)))
  | GetMaster => (m, Reply (ReplyMaster (get_master env m)))
  | Shutdown => (m, ExitProcess)
  | StepDown | Custom _ _ => (m, Reply (ReplyError "unsupported op"))
  end.

#[global] Instance hivebus_service_ok : ControlServiceOk hivebus_service.
Proof. split; [done..|solve_exit hivebus_service]. Qed.

(** Every operation of the daemon reads the table under one lock, and is over with it. *)
#[global] Instance hivebus_stages : ControlStages hivebus_service := one_stage _.
#[global] Instance hivebus_locked_part : LockedPart hivebus_stages (λ st, st) := one_stage_locked _.

(** [control_plane_task]'s handler of one connection. *)
Definition control_plane_connection `{Bincode} `{!Codec ControlOp, !Codec ControlReply}
    (env : ControlEnv) (m : Members) (stream : bytes) : Members * conn_end :=
  serve_connection env m stream.

(** ** The daemon as a transition system *)

(** The shared table and the senders' local sequence numbers. *)
Record Hivebus := {
  hv_members : gmap Z NodeInfo;
  hv_hb_seq : Z;
  hv_gossip_seq : Z;
}.

Definition hivebus_init : Hivebus := {| hv_members := ∅; hv_hb_seq := 0; hv_gossip_seq := 0 |}.

Section Daemon.
Context `{Bincode} `{!Codec HeartbeatPayload, !Codec AnnouncePayload,
                     !Codec LeavePayload, !Codec GossipPayload}.
Context `{!Codec ControlOp, !Codec ControlReply}.
Context (l : Local) (suspect dead : Duration).

(** A step of the daemon's own tasks and the datagrams it sends.  Clock readings,
    connections and hash orders are the environment's. *)
Inductive internal_step : Hivebus → sends → Hivebus → Prop :=
| StepScan h (it : HashIter Z NodeInfo) now :
  HashIterOk it →
  internal_step h []
    {| hv_members := fd_tick (l_node_id l) suspect dead now (hv_members h);
       hv_hb_seq := hv_hb_seq h; hv_gossip_seq := hv_gossip_seq h |}
| StepHeartbeat h now :
  internal_step h (heartbeat_tick l now (hv_hb_seq h)).1
    {| hv_members := hv_members h;
       hv_hb_seq := (heartbeat_tick l now (hv_hb_seq h)).2; hv_gossip_seq := hv_gossip_seq h |}
| StepGossip h (it : HashIter Z NodeInfo) clock :
  HashIterOk it →
  internal_step h (gossip_tick l clock (hv_members h) (hv_gossip_seq h)).1
    {| hv_members := hv_members h; hv_hb_seq := hv_hb_seq h;
       hv_gossip_seq := (gossip_tick l clock (hv_members h) (hv_gossip_seq h)).2 |}
| StepControl h env stream :
  ce_local env = l → HashIterOk (ce_iter env) →
  internal_step h []
    {| hv_members := (control_plane_connection env (hv_members h) stream).1;
       hv_hb_seq := hv_hb_seq h; hv_gossip_seq := hv_gossip_seq h |}.

(** The listener's step on a datagram. *)
Definition listen (clock : nat → SystemTime) (from : SocketAddr) (datagram : bytes)
    (h : Hivebus) : Hivebus := {|
  hv_members := (listener_frame (l_node_id l) clock from datagram (hv_members h)).1;
  hv_hb_seq := hv_hb_seq h; hv_gossip_seq := hv_gossip_seq h |}.

(** A step of the daemon against an arbitrary network. *)
Inductive step : Hivebus → sends → Hivebus → Prop :=
| StepInternal h s h' : internal_step h s h' → step h s h'
| StepListen h clock from datagram :
  bytes_ok datagram → addr_ok from → step h [] (listen clock from datagram h).

Inductive reachable : Hivebus → Prop :=
| reachable_init : reachable hivebus_init
| reachable_step h s h' : reachable h → step h s h' → reachable h'.
End Daemon.

(** ** Frames *)

Section Frames.
Context `{Bincode} {P : Type} `{!Codec P}.

Lemma encode_frame_Ok header (payload : P) buf :
  encode_frame header payload = Ok buf ↔
  ∃ encoded, encode_to_vec payload = Ok encoded
             ∧ buf = FrameHeader.to_bytes header ++ encoded ∧ (length buf ≤ 508)%nat.
Proof.
  unfold encode_frame. destruct (encode_to_vec payload) as [encoded|e].
  - destruct (Nat.ltb_spec 508 (length (FrameHeader.to_bytes header ++ encoded))); split; try done.
    + intros (? & [= <-] & -> & ?). lia.
    + intros [= <-]. by exists encoded.
    + by intros (? & [= <-] & -> & _).
  - split; [done|]. by intros (? & ? & _).
Qed.

(** A discovery frame is built exactly when the payload can be encoded and
    header and encoding together are at most 508 bytes; it is then the header
    followed by the encoding, and anything longer is an error, never a
    truncated frame. *)
Theorem encode_frame_bound header (payload : P) :
  match encode_frame header payload with
  | Ok buf => ∃ encoded, encode_to_vec payload = Ok encoded
              ∧ buf = FrameHeader.to_bytes header ++ encoded ∧ (length buf ≤ 508)%nat
  | Err (PayloadError e) => encode_to_vec payload = Err e
  | Err (FrameTooLarge n) => ∃ encoded, encode_to_vec payload = Ok encoded
              ∧ n = (4 + length encoded)%nat ∧ (508 < n)%nat
  end.
Proof.
  destruct (encode_frame header payload) as [buf|err] eqn:Hf; [by apply encode_frame_Ok|].
  unfold encode_frame in Hf. destruct (encode_to_vec payload) as [encoded|e]; [|by simplify_eq].
  destruct (Nat.ltb_spec 508 (length (FrameHeader.to_bytes header ++ encoded))); [|done].
  simplify_eq. exists encoded. rewrite length_app in *. done.
Qed.
End Frames.

(** What the listener sees of a frame built by [encode_frame]. *)
Section Delivery.
Context `{Bincode} `{!Codec HeartbeatPayload, !Codec AnnouncePayload,
                     !Codec LeavePayload, !Codec GossipPayload}.
Context (self_id : Z) (clock : nat → SystemTime) (from : SocketAddr).

Lemma listener_frame_built {P} `{!Codec P} t seq id (payload : P) buf :
  u16 id → encode_frame (FrameHeader.new t seq id) payload = Ok buf →
  ∃ encoded, encode_to_vec payload = Ok encoded ∧ take 576 buf = buf
    ∧ drop 4 buf = encoded
    ∧ FrameHeader.from_bytes buf = Some (FrameHeader.new t seq id)
    ∧ FrameHeader.msg_type (FrameHeader.new t seq id) = Some t
    ∧ FrameHeader.node_id (FrameHeader.new t seq id) = id.
Proof.
  intros Hid (encoded & Henc & -> & Hlen)%encode_frame_Ok. exists encoded.
  destruct (header_new_fields t seq id Hid) as (? & _ & ? & _).
  split_and!; try done.
  apply take_ge. lia.
Qed.

Lemma deliver_heartbeat `{!CodecLaws HeartbeatPayload} seq id (pl : HeartbeatPayload) buf m :
  u16 id → id ≠ self_id → wire_ok pl →
  encode_frame (FrameHeader.new Heartbeat seq id) pl = Ok buf →
  listener_frame self_id clock from buf m
  = (on_heartbeat id from pl (clock O) (clock 1%nat) m, []).
Proof.
  intros Hid Hne Hok Hf.
  destruct (listener_frame_built _ _ _ _ _ Hid Hf) as (enc & Henc & Htake & Hdrop & Hhdr & Ht & Hnid).
  unfold listener_frame. rewrite Htake, Hhdr, Hnid, (proj2 (Z.eqb_neq _ _) Hne), Ht, Hdrop.
  by erewrite codec_roundtrip.
Qed.

Lemma deliver_announce `{!CodecLaws AnnouncePayload} seq id (pl : AnnouncePayload) buf m :
  u16 id → id ≠ self_id → wire_ok pl →
  encode_frame (FrameHeader.new Announce seq id) pl = Ok buf →
  listener_frame self_id clock from buf m = on_announce id pl (clock O) m.
Proof.
  intros Hid Hne Hok Hf.
  destruct (listener_frame_built _ _ _ _ _ Hid Hf) as (enc & Henc & Htake & Hdrop & Hhdr & Ht & Hnid).
  unfold listener_frame. rewrite Htake, Hhdr, Hnid, (proj2 (Z.eqb_neq _ _) Hne), Ht, Hdrop.
  by erewrite codec_roundtrip.
Qed.

Lemma deliver_gossip `{!CodecLaws GossipPayload} seq id (pl : GossipPayload) buf m :
  u16 id → id ≠ self_id → wire_ok pl →
  encode_frame (FrameHeader.new Gossip seq id) pl = Ok buf →
  listener_frame self_id clock from buf m
  = (on_gossip self_id from clock (gp_entries pl) m, []).
Proof.
  intros Hid Hne Hok Hf.
  destruct (listener_frame_built _ _ _ _ _ Hid Hf) as (enc & Henc & Htake & Hdrop & Hhdr & Ht & Hnid).
  unfold listener_frame. rewrite Htake, Hhdr, Hnid, (proj2 (Z.eqb_neq _ _) Hne), Ht, Hdrop.
  by erewrite codec_roundtrip.
Qed.

(** The datagrams the listener drops: no header, the node's own id, a type it
    does not know or handle, or a payload that does not decode. *)
Definition frame_ignored (datagram : bytes) : Prop :=
  let data := take 576 datagram in
  match FrameHeader.from_bytes data with
  | None => True
  | Some h =>
    FrameHeader.node_id h = self_id ∨
    match FrameHeader.msg_type h with
    | None | Some VoteRequest | Some VoteGrant | Some Ack => True
    | Some Heartbeat =>
      is_ok (decode_from_slice (A := HeartbeatPayload) (drop 4 data)) = false
    | Some Announce => is_ok (decode_from_slice (A := AnnouncePayload) (drop 4 data)) = false
    | Some Leave => is_ok (decode_from_slice (A := LeavePayload) (drop 4 data)) = false
    | Some Gossip => is_ok (decode_from_slice (A := GossipPayload) (drop 4 data)) = false
    end
  end.

(** Datagrams without a valid header, with the node's own id, of an unknown
    or unhandled type, or with a payload that does not decode leave the table
    unchanged and log nothing about a peer. *)
Theorem listener_ignores datagram m :
  frame_ignored datagram → listener_frame self_id clock from datagram m = (m, []).
Proof.
  unfold frame_ignored, listener_frame. cbv zeta.
  destruct (FrameHeader.from_bytes _) as [h|]; [|done].
  destruct (Z.eqb_spec (FrameHeader.node_id h) self_id); [done|].
  intros [|Ht]; [done|]. destruct (FrameHeader.msg_type h) as [[]|]; try done;
    by destruct (decode_from_slice _) as [[]|].
Qed.
End Delivery.


(** ** The control operations *)

Section Queries.
Context (env : ControlEnv) {Hit : HashIterOk (ce_iter env)}.
Let self_id : Z := l_node_id (ce_local env).

(** The node's own entry in a GetNodes reply. *)
Definition own_entry (m : Members) : NodeInfo :=
  local_node_info (ce_local env) (ce_now env)
    (bool_decide (master_from (it := ce_iter env) m self_id = Some self_id)).

Lemma get_nodes_perm m : get_nodes env m ≡ₚ own_entry m :: (map_to_list m).*2.
Proof.
  unfold get_nodes. rewrite merge_sort_Permutation, hash_values_perm.
  by rewrite Permutation_app_comm.
Qed.

Lemma get_nodes_keys m :
  members_inv self_id m → NoDup (ni_node_id <$> get_nodes env m).
Proof.
  intros Hinv. rewrite get_nodes_perm. cbn.
  assert (ni_node_id <$> (map_to_list m).*2 = (map_to_list m).*1) as ->.
  { rewrite <-list_fmap_compose. apply list_fmap_ext. intros i [k n] Hi. cbn.
    apply list_elem_of_lookup_2, elem_of_map_to_list in Hi.
    by destruct (inv_entries _ _ Hinv _ _ Hi). }
  apply NoDup_cons_2; [|apply NoDup_fst_map_to_list].
  intros ((k & n) & Heq & Hin)%list_elem_of_fmap. apply elem_of_map_to_list in Hin.
  cbn in Heq. subst k. pose proof (inv_no_self _ _ Hinv) as Hno. unfold self_id in Hno.
  by rewrite Hno in Hin.
Qed.

Lemma get_nodes_sorted m : StronglySorted by_node_id (get_nodes env m).
Proof. apply StronglySorted_merge_sort; apply _. Qed.

Lemma get_master_spec m :
  members_inv self_id m →
  ∃ n, get_master env m = Some n ∧ is_master_of m self_id (ni_node_id n)
       ∧ ni_state n = Alive
       ∧ (n = local_node_info (ce_local env) (ce_now env) true ∨ m !! ni_node_id n = Some n).
Proof.
  intros Hinv. destruct (master_from_is_master (it := ce_iter env) m self_id) as (id & Hm & Hid).
  unfold get_master. fold self_id. rewrite Hm. cbn. destruct (Z.eqb_spec id self_id) as [->|Hne].
  - eexists. split; [done|]. cbn. split_and!; [done|done|by left].
  - destruct (proj1 Hid) as [|(k & n & Hk & Hst & Hn)]; [done|].
    destruct (inv_entries _ _ Hinv _ _ Hk) as [Hkey _].
    assert (k = id) as -> by congruence.
    exists n. rewrite Hn. split_and!; [done|done|done|by right].
Qed.
End Queries.

Lemma local_node_info_wire l now b : local_ok l → wire_ok (local_node_info l now b).
Proof. by intros (? & ? & ? & ?). Qed.

(** The answers to the two queries are values of the wire type. *)
Lemma get_nodes_wire (env : ControlEnv) m :
  HashIterOk (ce_iter env) → local_ok (ce_local env) → members_inv (l_node_id (ce_local env)) m →
  wire_ok (ReplyNodes (get_nodes env m)).
Proof.
  intros Hit Hl Hinv. apply Forall_forall. intros n. rewrite (get_nodes_perm env m).
  intros [->|([k n'] & -> & Hin)%list_elem_of_fmap]%elem_of_cons.
  - by apply local_node_info_wire.
  - apply elem_of_map_to_list in Hin. exact (proj2 (inv_entries _ _ Hinv _ _ Hin)).
Qed.

(** The reply to GetNodes is strictly sorted by node id, lists every peer and
    the node itself exactly once, and does not depend on the order in which the
    hash map is walked. *)
Theorem get_nodes_spec (env : ControlEnv) m :
  HashIterOk (ce_iter env) → members_inv (l_node_id (ce_local env)) m →
  get_nodes env m ≡ₚ own_entry env m :: (map_to_list m).*2 ∧
  StronglySorted (λ a b, ni_node_id a < ni_node_id b) (get_nodes env m) ∧
  ∀ it', HashIterOk it' →
    get_nodes {| ce_iter := it'; ce_now := ce_now env; ce_local := ce_local env |} m
    = get_nodes env m.
Proof.
  intros Hit Hinv. split_and!; [by apply get_nodes_perm| |].
  - pose proof (get_nodes_keys env m Hinv) as Hnd.
    pose proof (get_nodes_sorted env m) as Hs.
    induction Hs as [|n ns Hs IH Hall]; constructor.
    + apply IH. by inversion_clear Hnd.
    + apply NoDup_cons in Hnd as [Hnin _]. apply Forall_forall. intros n' Hn'.
      rewrite Forall_forall in Hall. specialize (Hall n' Hn'). unfold by_node_id in Hall.
      assert (ni_node_id n ≠ ni_node_id n'); [|lia].
      intros Heq. apply Hnin, list_elem_of_fmap. eauto.
  - intros it' Hit'. symmetry. apply (sorted_perm_unique ni_node_id); try apply get_nodes_sorted.
    + by apply get_nodes_keys.
    + rewrite !get_nodes_perm by done. apply Permutation_cons; [|done].
      unfold own_entry. cbn. f_equal. apply bool_decide_ext. by rewrite !master_from_eq.
Qed.

(** GetMaster always answers with a node: the one with the least id among the
    node itself and its [Alive] peers, [Alive] in the answer, taken from the table
    or made up for the node itself. *)
Theorem get_master_answers (env : ControlEnv) m :
  HashIterOk (ce_iter env) → members_inv (l_node_id (ce_local env)) m →
  ∃ n, dispatch env m GetMaster = (m, Reply (ReplyMaster (Some n)))
    ∧ is_master_of m (l_node_id (ce_local env)) (ni_node_id n) ∧ ni_state n = Alive
    ∧ (n = local_node_info (ce_local env) (ce_now env) true ∨ m !! ni_node_id n = Some n).
Proof.
  intros Hit Hinv. destruct (get_master_spec env m Hinv) as (n & Hn & Hrest).
  exists n. split; [|done]. cbn. by rewrite Hn.
Qed.

(** When the peer that carries the master flag leaves, the table keeps the
    flag on its [Dead] entry until the next scan: in between GetNodes reports a
    dead node as master, next to a second one if the node itself takes over,
    while GetMaster names another node. *)
Theorem leave_keeps_master_flag (env : ControlEnv) m k n pl :
  HashIterOk (ce_iter env) → members_inv (l_node_id (ce_local env)) m →
  m !! k = Some n → ni_is_master n = true →
  let m' := (on_leave k pl m).1 in
  set_state Dead n ∈ get_nodes env m' ∧ ni_is_master (set_state Dead n) = true
  ∧ (∃ n', get_master env m' = Some n' ∧ ni_node_id n' ≠ k)
  ∧ ((∀ k' n', m !! k' = Some n' → k' < l_node_id (ce_local env) → k' = k ∨ ni_state n' ≠ Alive) →
     ∃ own, own ∈ get_nodes env m' ∧ ni_node_id own = l_node_id (ce_local env)
            ∧ ni_is_master own = true).
Proof.
  intros Hit Hinv Hk Hflag m'. set (self := l_node_id (ce_local env)) in *.
  assert (k ≠ self) as Hne by (intros ->; by rewrite (inv_no_self _ _ Hinv) in Hk).
  assert (m' = <[k := set_state Dead n]> m) as Hm' by (unfold m', on_leave; by rewrite Hk).
  assert (members_inv self m') as Hinv' by by apply on_leave_inv.
  assert (∀ j n', m' !! j = Some n' → ni_state n' = Alive → j ≠ k ∧ m !! j = Some n') as Halive.
  { rewrite Hm'. intros j n' [[<- <-]|[? ?]]%lookup_insert_Some Hst; [done|done]. }
  split_and!; [|done| |].
  - rewrite (get_nodes_perm env). right. apply list_elem_of_fmap. exists (k, set_state Dead n).
    split; [done|]. apply elem_of_map_to_list. by rewrite Hm', lookup_insert_eq.
  - destruct (get_master_spec env m' Hinv') as (n' & Hn' & _ & Hst & Hfrom).
    exists n'. split; [done|]. destruct Hfrom as [->|Hlook]; [done|].
    by destruct (Halive _ _ Hlook Hst).
  - intros Hleast. exists (own_entry env m').
    rewrite (get_nodes_perm env). split_and!; [constructor|done|]. cbn.
    apply bool_decide_eq_true, master_from_eq. split_and!; [by left|done|].
    intros j n' Hj Hst. destruct (Halive _ _ Hj Hst) as [Hjk Hj'].
    destruct (inv_entries _ _ Hinv' _ _ Hj) as [-> _].
    destruct (decide (j < self)) as [Hlt|]; [|subst self; lia].
    by destruct (Hleast j n' Hj' Hlt).
Qed.

(** ** The reachable states *)

Lemma header_node_id_u16 b h :
  bytes_ok b → FrameHeader.from_bytes b = Some h → u16 (FrameHeader.node_id h).
Proof.
  intros Hb (_ & _ & Hh)%from_bytes_Some. apply (from_be_bytes_fits [_; _]).
  assert (bytes_ok (FrameHeader.to_bytes h)) as Hok by (rewrite Hh; by apply Forall_take).
  unfold FrameHeader.to_bytes in Hok. apply (Forall_drop _ 2) in Hok. exact Hok.
Qed.

Lemma next_seq_range seq : 0 ≤ next_seq seq < 16.
Proof. unfold next_seq. rewrite land_15. lia. Qed.

Section Reachable.
Context `{Bincode} `{!Codec HeartbeatPayload, !Codec AnnouncePayload,
                     !Codec LeavePayload, !Codec GossipPayload}.
Context `{!Codec ControlOp, !Codec ControlReply}.
Context `{!CodecLaws HeartbeatPayload, !CodecLaws AnnouncePayload,
          !CodecLaws LeavePayload, !CodecLaws GossipPayload}.

Lemma listener_frame_inv self_id clock from datagram m :
  bytes_ok datagram → addr_ok from →
  members_inv self_id m →
  members_inv self_id (listener_frame self_id clock from datagram m).1.
Proof.
  intros Hb Hfrom Hinv. unfold listener_frame.
  destruct (FrameHeader.from_bytes _) as [h|] eqn:Hh; [|done].
  apply header_node_id_u16 in Hh; [|by apply Forall_take].
  destruct (Z.eqb_spec (FrameHeader.node_id h) self_id); [done|].
  destruct (FrameHeader.msg_type h) as [[]|]; try done;
    destruct (decode_from_slice _) as [[pl k]|] eqn:Hd; try done; apply codec_sound in Hd.
  - by apply on_heartbeat_inv.
  - by apply on_announce_inv.
  - by apply on_leave_inv.
  - by apply on_gossip_inv.
Qed.

Lemma control_members env m stream : (control_plane_connection env m stream).1 = m.
Proof.
  unfold control_plane_connection, serve_connection, handle_payload.
  destruct (read_control_frame stream); [|done]. destruct (decode_control _) as [[]|]; done.
Qed.

Context (l : Local) (suspect dead : Duration).

Definition hivebus_inv (h : Hivebus) : Prop :=
  members_inv (l_node_id l) (hv_members h) ∧ 0 ≤ hv_hb_seq h < 16 ∧ 0 ≤ hv_gossip_seq h < 16.

Lemma hivebus_inv_init : hivebus_inv hivebus_init.
Proof. split; [apply members_inv_empty|]. cbn. lia. Qed.

Lemma internal_step_inv h s h' :
  internal_step l suspect dead h s h' → hivebus_inv h → hivebus_inv h'.
Proof.
  intros Hstep (Hinv & Hhb & Hgs). inversion Hstep; subst; (split; cbn).
  - by apply fd_tick_inv.
  - done.
  - done.
  - split; [apply next_seq_range|done].
  - done.
  - split; [done|]. unfold gossip_tick.
    destruct (gossip_entries _ _); [done|]. pose proof (next_seq_range (hv_gossip_seq h)). done.
  - by rewrite control_members.
  - done.
Qed.

Lemma listen_inv clock from datagram h :
  bytes_ok datagram → addr_ok from → hivebus_inv h → hivebus_inv (listen l clock from datagram h).
Proof. intros Hb Hf (Hinv & ?). split; [by apply listener_frame_inv|done]. Qed.

Lemma reachable_inv h : reachable l suspect dead h → hivebus_inv h.
Proof.
  induction 1 as [|h s h' _ Hinv Hstep]; [apply hivebus_inv_init|].
  destruct Hstep; [by eapply internal_step_inv|by apply listen_inv].
Qed.

(** C1: in every state the daemon can reach, whatever datagrams, clock readings,
    scans and control connections came in whatever order, every table entry sits
    under its own id and holds values of its types, the node itself is not in
    the table, at most one peer carries the master flag, and both sequence
    numbers are below 16. *)
Theorem reachable_invariant h :
  reachable l suspect dead h →
  members_inv (l_node_id l) (hv_members h)
  ∧ 0 ≤ hv_hb_seq h < 16 ∧ 0 ≤ hv_gossip_seq h < 16.
Proof.
  apply reachable_inv.
Qed.

Lemma built_frame_ignored {P} `{!Codec P} t seq (payload : P) buf clock from m :
  u16 (l_node_id l) → encode_frame (FrameHeader.new t seq (l_node_id l)) payload = Ok buf →
  (length buf ≤ 508)%nat
  ∧ (∃ hd, FrameHeader.from_bytes buf = Some hd ∧ FrameHeader.node_id hd = l_node_id l
           ∧ FrameHeader.msg_type hd = Some t ∧ FrameHeader.seq hd = seq `mod` 16)
  ∧ listener_frame (l_node_id l) clock from buf m = (m, []).
Proof.
  intros Hid Hf.
  destruct (listener_frame_built _ _ _ _ _ Hid Hf) as (enc & Henc & Htake & Hdrop & Hhdr & Ht & Hnid).
  destruct (header_new_fields t seq (l_node_id l) Hid) as (_ & Hseq & _).
  apply encode_frame_Ok in Hf as (_ & _ & _ & Hlen).
  split_and!; [done|eauto|].
  unfold listener_frame. by rewrite Htake, Hhdr, Hnid, Z.eqb_refl.
Qed.

(** C28: every datagram the tasks of a reachable daemon send is at most 508 bytes, starts
    with a header of type HEARTBEAT or GOSSIP with the node's own id and the current
    sequence number of its kind, and has no effect on the sender if the network loops it
    back.  The ANNOUNCE that [main] sends before the tasks run is not one of them. *)
Theorem sent_frames_wellformed h s h' dst buf clock from m :
  u16 (l_node_id l) → reachable l suspect dead h → step l suspect dead h s h' →
  (dst, buf) ∈ s →
  (length buf ≤ 508)%nat
  ∧ (∃ hd, FrameHeader.from_bytes buf = Some hd ∧ FrameHeader.node_id hd = l_node_id l
       ∧ (FrameHeader.msg_type hd = Some Heartbeat ∧ FrameHeader.seq hd = hv_hb_seq h
          ∨ FrameHeader.msg_type hd = Some Gossip ∧ FrameHeader.seq hd = hv_gossip_seq h))
  ∧ listener_frame (l_node_id l) clock from buf m = (m, []).
Proof.
  intros Hid (_ & Hhb & Hgs)%reachable_inv Hstep Hin.
  destruct Hstep as [h s h' Hstep|]; [|by apply not_elem_of_nil in Hin].
  inversion Hstep; subst; cbn in Hin; try by apply not_elem_of_nil in Hin.
  - destruct (encode_frame _ _) as [buf'|] eqn:Hf; [|by apply not_elem_of_nil in Hin].
    assert (buf = buf') as -> by set_solver.
    destruct (built_frame_ignored _ _ _ _ clock from m Hid Hf) as (? & (hd & ? & ? & ? & Hs) & ?).
    split_and!; [done| |done]. exists hd. split_and!; [done..|left].
    rewrite Hs. split; [done|]. by apply Z.mod_small.
  - unfold gossip_tick in Hin. destruct (gossip_entries _ _); [by apply not_elem_of_nil in Hin|].
    cbn in Hin. destruct (encode_frame _ _) as [buf'|] eqn:Hf; [|by apply not_elem_of_nil in Hin].
    assert (buf = buf') as -> by set_solver.
    destruct (built_frame_ignored _ _ _ _ clock from m Hid Hf) as (? & (hd & ? & ? & ? & Hs) & ?).
    split_and!; [done| |done]. exists hd. split_and!; [done..|right].
    rewrite Hs. split; [done|]. by apply Z.mod_small.
Qed.
End Reachable.

(** ** From one daemon to another *)

Lemma epoch_ms_u64 now : u64 (epoch_ms now).
Proof. by apply fits_wrap. Qed.

Section EndToEnd.
Context `{Bincode} `{!Codec HeartbeatPayload, !Codec AnnouncePayload,
                     !Codec LeavePayload, !Codec GossipPayload}.
Context `{!CodecLaws HeartbeatPayload, !CodecLaws AnnouncePayload, !CodecLaws GossipPayload}.

(** A heartbeat that one daemon sends and another receives makes the sender
    [Alive] at the receiver, with the sender's incarnation and the receiver's
    clock as last contact, and changes no other entry. *)
Theorem heartbeat_delivery (sender : Local) now seq dst buf self_id clock from m :
  u16 (l_node_id sender) → u32 (l_incarnation sender) → l_node_id sender ≠ self_id →
  (dst, buf) ∈ (heartbeat_tick sender now seq).1 →
  let m' := (listener_frame self_id clock from buf m).1 in
  (∃ n, m' !! l_node_id sender = Some n ∧ ni_state n = Alive
        ∧ ni_incarnation n = l_incarnation sender ∧ ni_last_seen n = clock 1%nat)
  ∧ ∀ k, k ≠ l_node_id sender → m' !! k = m !! k.
Proof.
  intros Hid Hinc Hne Hin m'. cbn in Hin.
  destruct (encode_frame _ _) as [buf'|] eqn:Hf; [|by apply not_elem_of_nil in Hin].
  assert (buf = buf') as -> by set_solver.
  assert (wire_ok {| hb_incarnation := l_incarnation sender; hb_epoch_ms := epoch_ms now |})
    as Hok by (split; [done|apply epoch_ms_u64]).
  subst m'. rewrite (deliver_heartbeat _ _ _ _ _ _ _ _ Hid Hne Hok Hf). cbn [fst].
  split; [|intros k Hk; by apply lookup_on_heartbeat_ne].
  edestruct lookup_on_heartbeat as (n & Hn & ? & ? & ? & _). exists n. by rewrite Hn.
Qed.

(** An announcement that one daemon sends and another receives replaces the
    sender's entry by what it announced, and a duplicate node id is reported
    exactly when the entry it replaces had another name or address. *)
Theorem announce_delivery (sender : Local) version dst buf self_id clock from m :
  u16 (l_node_id sender) → u32 (l_incarnation sender) → addr_ok (l_control_addr sender) →
  str_ok (l_hostname sender) → str_ok version → l_node_id sender ≠ self_id →
  (dst, buf) ∈ initial_announce sender version →
  let '(m', log) := listener_frame self_id clock from buf m in
  m' = <[l_node_id sender := local_node_info sender (clock O) false]> m
  ∧ ((∃ h a, DuplicateNodeId (l_node_id sender) h a (l_hostname sender) (l_control_addr sender) ∈ log)
     ↔ ∃ n, m !! l_node_id sender = Some n
            ∧ (ni_hostname n ≠ l_hostname sender ∨ ni_control_addr n ≠ l_control_addr sender)).
Proof.
  intros Hid Hinc Haddr Hhost Hver Hne Hin. unfold initial_announce in Hin.
  destruct (encode_frame _ _) as [buf'|] eqn:Hf; [|by apply not_elem_of_nil in Hin].
  assert (buf = buf') as -> by set_solver.
  match type of Hf with encode_frame _ ?p = _ => assert (wire_ok p) as Hok by by split_and! end.
  rewrite (deliver_announce _ _ _ _ _ _ _ _ Hid Hne Hok Hf).
  unfold on_announce. split; [done|]. cbn [an_hostname an_control_addr].
  destruct (m !! l_node_id sender) as [n|].
  - case_decide as Hd; split.
    + intros _. eauto.
    + intros _. eexists _, _. right. left.
    + intros (h & a & Hl). set_solver.
    + intros (? & [= <-] & ?). done.
  - split; [intros (h & a & Hl); set_solver|by intros (? & ? & _)].
Qed.

(** The gossip entries of a table name its peers with their incarnation and state. *)
Lemma elem_of_gossip_entries (it : HashIter Z NodeInfo) {Hit : HashIterOk it} clock m e :
  e ∈ gossip_entries (it := it) clock m →
  ∃ k n, m !! k = Some n ∧ ge_node_id e = ni_node_id n ∧ ge_incarnation e = ni_incarnation n
         ∧ ge_state e = ni_state n ∧ u64 (ge_epoch_ms e).
Proof.
  unfold gossip_entries. intros (i & n & -> & Hi)%elem_of_lookup_imap.
  apply list_elem_of_lookup_2, elem_of_hash_values in Hi as [k Hk].
  exists k, n. split_and!; try done; apply epoch_ms_u64.
Qed.

Lemma gossip_entries_complete (it : HashIter Z NodeInfo) {Hit : HashIterOk it} clock m k n :
  m !! k = Some n →
  ∃ e, e ∈ gossip_entries (it := it) clock m ∧ ge_node_id e = ni_node_id n
       ∧ ge_incarnation e = ni_incarnation n.
Proof.
  intros Hk. assert (n ∈ hash_values m) as Hin by (apply elem_of_hash_values; eauto).
  apply list_elem_of_lookup in Hin as [i Hi].
  exists {| ge_node_id := ni_node_id n; ge_incarnation := ni_incarnation n;
            ge_state := ni_state n; ge_epoch_ms := epoch_ms (clock i) |}.
  split; [|done]. apply elem_of_lookup_imap. by exists i, n.
Qed.

Lemma merge_entries_same i s es n :
  Forall (λ e, ge_incarnation e = i ∧ ge_state e = s) es →
  es ≠ [] →
  merge_entries es n
  = if ni_incarnation n <=? i then set_incarnation i (set_state s n) else n.
Proof.
  intros Hall. revert n. unfold merge_entries.
  induction Hall as [|e es [<- <-] Hall IH]; intros n Hne; [done|]. cbn.
  destruct es as [|e' es]; [done|]. rewrite IH by done. unfold merge_entry.
  destruct (Z.leb_spec (ni_incarnation n) (ge_incarnation e)) as [Hle|Hgt]; cbn.
  - rewrite Z.leb_refl. by destruct n.
  - by rewrite (proj2 (Z.leb_gt _ _)).
Qed.

(** The entries of a gossip frame are rows of the sender's table. *)
Lemma gossip_entries_reflect (it : HashIter Z NodeInfo) self_s clock_s m_s e :
  HashIterOk it → members_inv self_s m_s → e ∈ gossip_entries (it := it) clock_s m_s →
  ∃ n, m_s !! ge_node_id e = Some n ∧ ge_incarnation e = ni_incarnation n
       ∧ ge_state e = ni_state n ∧ wire_ok e.
Proof.
  intros Hit Hinv (j & n & Hn & Hi & Hinc & Hst & Hms)%elem_of_gossip_entries; [|done].
  destruct (inv_entries _ _ Hinv _ _ Hn) as [Hkey (?&?&_)]. rewrite Hi, Hkey.
  exists n. split_and!; try done. unfold wire_ok, GossipEntry_wire. rewrite Hi, Hinc. done.
Qed.

(** The entries about one node: none if the sender does not know it, else what the
    sender knows. *)
Lemma gossip_entries_about (it : HashIter Z NodeInfo) self_s clock_s m_s k :
  HashIterOk it → members_inv self_s m_s →
  let es_k := entries_for k (gossip_entries (it := it) clock_s m_s) in
  match m_s !! k with
  | Some n => es_k ≠ [] ∧ Forall (λ e, ge_node_id e = k) es_k ∧
      Forall (λ e, ge_incarnation e = ni_incarnation n ∧ ge_state e = ni_state n) es_k
  | None => es_k = []
  end.
Proof.
  intros Hit Hinv es_k.
  assert (∀ e, e ∈ es_k → ge_node_id e = k ∧ ∃ n, m_s !! k = Some n
            ∧ ge_incarnation e = ni_incarnation n ∧ ge_state e = ni_state n) as Hall.
  { intros e [He Hin]%list_elem_of_filter. split; [done|].
    destruct (gossip_entries_reflect it self_s clock_s m_s e Hit Hinv Hin) as (n & Hn & ? & ? & _).
    rewrite He in Hn. by exists n. }
  destruct (m_s !! k) as [n|] eqn:Hn; cycle 1.
  { destruct es_k as [|e es_k]; [done|].
    destruct (Hall e ltac:(by left)) as (_ & ? & ? & _). done. }
  split.
  - intros Hnil. destruct (gossip_entries_complete it clock_s m_s k n Hn) as (e & He & Hi & _).
    destruct (inv_entries _ _ Hinv _ _ Hn) as [Hkey _].
    assert (e ∈ es_k) as Hin by (apply list_elem_of_filter; split; [congruence|done]).
    rewrite Hnil in Hin. by apply not_elem_of_nil in Hin.
  - split; apply Forall_forall; intros e He; destruct (Hall e He) as (? & n' & [= <-] & ? & ?); done.
Qed.

(** The receiver of a gossip frame merges the sender's entries. *)
Lemma gossip_received (it : HashIter Z NodeInfo) (sender : Local) clock_s m_s seq dst buf
    self_id clock from m :
  HashIterOk it → members_inv (l_node_id sender) m_s →
  u16 (l_node_id sender) → l_node_id sender ≠ self_id →
  (dst, buf) ∈ (gossip_tick (it := it) sender clock_s m_s seq).1 →
  (listener_frame self_id clock from buf m).1
  = on_gossip self_id from clock (gossip_entries (it := it) clock_s m_s) m.
Proof.
  intros Hit Hinv Hid Hne Hin. unfold gossip_tick in Hin.
  pose proof (gossip_entries_reflect it (l_node_id sender) clock_s m_s) as Hes.
  destruct (gossip_entries clock_s m_s) as [|e0 es0] eqn:Hes0; [by apply not_elem_of_nil in Hin|].
  cbn in Hin. destruct (encode_frame _ _) as [buf'|] eqn:Hf; [|by apply not_elem_of_nil in Hin].
  assert (buf = buf') as -> by set_solver.
  assert (wire_ok {| gp_entries := e0 :: es0 |}) as Hok.
  { apply Forall_forall. intros e He. by destruct (Hes e Hit Hinv He) as (? & _ & _ & _ & ?). }
  by rewrite (deliver_gossip _ _ _ _ _ _ _ _ Hid Hne Hok Hf).
Qed.

(** After a gossip frame travels from one daemon to another, the receiver
    knows every peer of the sender other than itself: with the sender's state
    and incarnation unless it already had a larger incarnation, in which case
    its entry is unchanged; and peers the sender does not know are untouched. *)
Theorem gossip_delivery (it : HashIter Z NodeInfo) (sender : Local) clock_s m_s seq dst buf
    self_id clock from m k :
  HashIterOk it → members_inv (l_node_id sender) m_s →
  u16 (l_node_id sender) → l_node_id sender ≠ self_id → k ≠ self_id →
  (dst, buf) ∈ (gossip_tick (it := it) sender clock_s m_s seq).1 →
  let m' := (listener_frame self_id clock from buf m).1 in
  match m_s !! k with
  | Some n_s => ∃ n', m' !! k = Some n' ∧
      match m !! k with
      | Some n => n' = if ni_incarnation n <=? ni_incarnation n_s
                       then set_incarnation (ni_incarnation n_s) (set_state (ni_state n_s) n)
                       else n
      | None => ni_state n' = ni_state n_s ∧ ni_incarnation n' = ni_incarnation n_s
                ∧ ni_node_id n' = k
      end
  | None => m' !! k = m !! k
  end.
Proof.
  intros Hit Hinv Hid Hne Hk Hin m'. subst m'.
  rewrite (gossip_received it sender clock_s m_s seq dst buf) by done. clear Hin.
  pose proof (gossip_entries_about it (l_node_id sender) clock_s m_s k Hit Hinv) as Habout. cbv zeta in Habout.
  set (es := gossip_entries clock_s m_s) in *.
  destruct (m !! k) as [n|] eqn:Hn.
  - rewrite (on_gossip_known _ _ _ _ _ _ _ Hk Hn). destruct (m_s !! k) as [n_s|].
    + destruct Habout as (Hnil & _ & Hsame). eexists. split; [done|]. by apply merge_entries_same.
    + by rewrite Habout.
  - pose proof (on_gossip_unknown self_id from clock es m k Hk Hn) as Hres.
    destruct (m_s !! k) as [n_s|]; [|by rewrite Habout in Hres].
    destruct Habout as (Hnil & Hid_k & Hsame).
    destruct (entries_for k es) as [|e rest]; [done|]. destruct Hres as [now ->].
    eexists. split; [done|].
    inversion_clear Hsame as [|? ? [Hi Hst] Hrest]. inversion_clear Hid_k as [|? ? He _].
    destruct rest as [|e' rest]; [done|]. rewrite (merge_entries_same _ _ _ _ Hrest) by done. cbn.
    by rewrite Hi, Z.leb_refl.
Qed.
End EndToEnd.

(** A table whose gossip does not fit a discovery frame is not gossiped at
    all: nothing is sent, not even a part of it, and the sequence number moves on
    as if it had been. *)
Theorem oversize_gossip_not_sent `{Bincode} `{!Codec GossipPayload} (it : HashIter Z NodeInfo)
    (l : Local) clock m seq encoded :
  encode_to_vec {| gp_entries := gossip_entries (it := it) clock m |} = Ok encoded →
  (504 < length encoded)%nat →
  (gossip_tick (it := it) l clock m seq).1 = [] ∧
  (m ≠ ∅ → HashIterOk it → (gossip_tick (it := it) l clock m seq).2 = next_seq seq).
Proof.
  intros Henc Hlen. unfold gossip_tick.
  destruct (gossip_entries clock m) as [|e es] eqn:Hes.
  - split; [done|]. intros Hne Hit. exfalso. apply Hne, map_empty. intros k.
    apply eq_None_not_Some. intros [n Hk].
    destruct (gossip_entries_complete it clock m k n Hk) as (e & He & _).
    rewrite Hes in He. by apply not_elem_of_nil in He.
  - unfold encode_frame. rewrite Henc.
    match goal with |- context [(508 <? ?n)%nat] => assert ((508 <? n)%nat = true) as -> end; [|done].
    apply Nat.ltb_lt. rewrite length_app. cbn. lia.
Qed.

(** ** Witnesses *)

Module Witnesses.
Import Simple.

Definition node (id : Z) : Local := {|
  l_node_id := id; l_hostname := "a"; l_control_addr := V4 0 7778; l_incarnation := 5 |}.
Definition env : ControlEnv := {| ce_iter := map_iter; ce_now := 4; ce_local := node 7 |}.
Definition flagged : gmap Z NodeInfo := {[3 := set_is_master true (peer 3 Alive 1000)]}.

Lemma sample_inv : members_inv 7 sample_members.
Proof.
  split; [by_compute|by vm_compute|].
  assert (map_Forall (λ _ n, ni_is_master n = false) sample_members) as Hall by by_compute.
  intros k1 k2 n1 n2 H1 _ Hm1 _. by rewrite (Hall _ _ H1) in Hm1.
Qed.

Lemma flagged_inv : members_inv 7 flagged.
Proof.
  split; [by_compute|by vm_compute|]. unfold flagged.
  intros k1 k2 n1 n2 [<- _]%lookup_singleton_Some [<- _]%lookup_singleton_Some. done.
Qed.

Definition default_cfg : Config := {|
  cfg_cluster_iface := "eth1"; cfg_cluster_addr := ipv4 10 0 0 1; cfg_node_id := None;
  cfg_hostname := Some "alpha"%string; cfg_heartbeat_interval_ms := default_hb_interval;
  cfg_suspect_misses := default_suspect_misses; cfg_dead_secs := default_dead_secs |}.

Lemma main_start_spec_witness :
  match main_start true default_cfg None (Some (as_bytes "08:00:27:01:02:03" ++ [10])) 5 with
  | Done (Ok (l, suspect, dead)) =>
    l_node_id l = 11522 ∧ local_ok l ∧ suspect = from_millis 450 ∧ dead = from_secs 30
  | _ => False
  end.
Proof.
  assert (cfg_ok default_cfg) as Hcfg.
  { split_and!; try by_compute; [done|intros h [= <-]; by_compute]. }
  pose proof (main_start_spec true default_cfg None
    (Some (as_bytes "08:00:27:01:02:03" ++ [10])) 5 Hcfg ltac:(done)) as H.
  destruct H as (Hl & Hd & Hs & _). split; [by vm_compute|]. split; [exact Hl|].
  split; [by apply Hs|exact Hd].
Defined.

Lemma listener_ignores_witness :
  listener_frame 7 (λ _, 0) (V4 0 1) [202; 112; 0; 9; 1] sample_members = (sample_members, []).
Proof. apply (listener_ignores 7 (λ _, 0) (V4 0 1)). vm_compute. by right. Defined.

Lemma get_nodes_spec_witness :
  ni_node_id <$> get_nodes env sample_members = [3; 5; 7] ∧
  StronglySorted (λ a b, ni_node_id a < ni_node_id b) (get_nodes env sample_members).
Proof.
  split; [by vm_compute|].
  exact (proj1 (proj2 (get_nodes_spec env sample_members map_iter_ok sample_inv))).
Defined.

Lemma get_master_answers_witness :
  ∃ n, dispatch env sample_members GetMaster = (sample_members, Reply (ReplyMaster (Some n)))
       ∧ is_master_of sample_members 7 (ni_node_id n) ∧ ni_state n = Alive.
Proof.
  destruct (get_master_answers env sample_members map_iter_ok sample_inv)
    as (n & Hd & Hm & Hs & _). exists n. split_and!; [exact Hd|exact Hm|exact Hs].
Defined.

Lemma leave_keeps_master_flag_witness :
  ∃ own, own ∈ get_nodes env (on_leave 3 {| lv_incarnation := 5; lv_reason := "" |} flagged).1
         ∧ ni_node_id own = 7 ∧ ni_is_master own = true.
Proof.
  destruct (leave_keeps_master_flag env flagged 3 (set_is_master true (peer 3 Alive 1000))
              {| lv_incarnation := 5; lv_reason := "" |} map_iter_ok flagged_inv)
    as (_ & _ & _ & Hown); [by vm_compute|done|].
  apply Hown. unfold flagged. intros k n [<- _]%lookup_singleton_Some _. by left.
Defined.

(** The frames of three daemons, as bytes. *)
Definition heartbeat_frame : bytes := from_option snd [] (head (heartbeat_tick (node 3) 0 2).1).
Definition announce_frame : bytes := from_option snd [] (head (initial_announce (node 3) "1")).
Definition gossip_frame : bytes :=
  from_option snd [] (head (gossip_tick (it := map_iter) (node 7) (λ _, 0) flagged 2).1).

Lemma heartbeat_sent : (broadcast, heartbeat_frame) ∈ (heartbeat_tick (node 3) 0 2).1.
Proof. by_compute. Qed.
Lemma announce_sent : (broadcast, announce_frame) ∈ initial_announce (node 3) "1".
Proof. by_compute. Qed.
Lemma gossip_sent :
  (mcast_addr, gossip_frame) ∈ (gossip_tick (it := map_iter) (node 7) (λ _, 0) flagged 2).1.
Proof. by_compute. Qed.

Lemma one_step_reachable :
  reachable (node 7) 450 30000 (listen (node 7) (λ _, 0) (V4 0 1) heartbeat_frame hivebus_init).
Proof.
  eapply reachable_step; [apply reachable_init|]. apply StepListen; by_compute.
Qed.

Lemma reachable_invariant_witness :
  members_inv 7
    (hv_members (listen (node 7) (λ _, 0) (V4 0 1) heartbeat_frame hivebus_init)).
Proof. apply (reachable_invariant (node 7) 450 30000 _ one_step_reachable). Defined.

Lemma after_beat h :
  reachable (node 3) 450 30000 h →
  reachable (node 3) 450 30000 {| hv_members := hv_members h;
    hv_hb_seq := next_seq (hv_hb_seq h); hv_gossip_seq := hv_gossip_seq h |}.
Proof.
  intros Hh. eapply reachable_step; [exact Hh|]. exact (StepInternal _ _ _ _ _ _ (StepHeartbeat _ _ _ h 0)).
Qed.

Lemma sent_frames_wellformed_witness : (length heartbeat_frame ≤ 508)%nat.
Proof.
  refine (proj1 (sent_frames_wellformed (node 3) 450 30000 _ _ _ broadcast heartbeat_frame
    (λ _, 0) (V4 0 1) ∅ _ _ (StepInternal _ _ _ _ _ _ (StepHeartbeat _ _ _
      {| hv_members := ∅; hv_hb_seq := 2; hv_gossip_seq := 0 |} 0)) _)).
  - by_compute.
  - exact (after_beat _ (after_beat _ (reachable_init _ _ _))).
  - exact heartbeat_sent.
Defined.

Lemma heartbeat_delivery_witness :
  ∃ n, (listener_frame 7 (λ _, 9) (V4 0 1) heartbeat_frame ∅).1 !! 3 = Some n
       ∧ ni_state n = Alive ∧ ni_incarnation n = 5 ∧ ni_last_seen n = 9.
Proof.
  apply (heartbeat_delivery (node 3) 0 2 broadcast heartbeat_frame 7 (λ _, 9) (V4 0 1) ∅);
    [by_compute|by_compute|done|exact heartbeat_sent].
Defined.

Lemma announce_delivery_witness :
  (listener_frame 7 (λ _, 9) (V4 0 1) announce_frame ∅).1
  = <[3 := local_node_info (node 3) 9 false]> ∅.
Proof.
  pose proof (announce_delivery (node 3) "1" broadcast announce_frame 7 (λ _, 9) (V4 0 1) ∅
    ltac:(by_compute) ltac:(by_compute) ltac:(by_compute) ltac:(by_compute) ltac:(by_compute)
    ltac:(done) announce_sent) as H.
  destruct (listener_frame 7 _ _ _ _) as [m' log]. exact (proj1 H).
Defined.

Lemma gossip_delivery_witness :
  ∃ n', (listener_frame 5 (λ _, 9) (V4 0 1) gossip_frame ∅).1 !! 3 = Some n'
        ∧ ni_state n' = Alive ∧ ni_incarnation n' = 5 ∧ ni_node_id n' = 3.
Proof.
  exact (gossip_delivery map_iter (node 7) (λ _, 0) flagged 2 mcast_addr gossip_frame 5 (λ _, 9)
    (V4 0 1) ∅ 3 map_iter_ok flagged_inv ltac:(by_compute) ltac:(done) ltac:(done) gossip_sent).
Defined.

(** Forty peers are too many for one frame of this format. *)
Definition crowd : gmap Z NodeInfo :=
  list_to_map ((λ i, (Z.of_nat i, peer (Z.of_nat i) Alive 0)) <$> seq 10 40).

Lemma oversize_gossip_not_sent_witness :
  (gossip_tick (it := map_iter) (node 7) (λ _, 0) crowd 2).1 = [].
Proof.
  pose (encoded := bits_of_pos (encode
    {| gp_entries := gossip_entries (it := map_iter) (λ _, 0) crowd |})).
  refine (proj1 (oversize_gossip_not_sent map_iter (node 7) (λ _, 0) crowd 2 encoded eq_refl _)).
  by_compute.
Defined.

(** Ping over the control socket, and frames that are refused. *)
Lemma rejected_frame_no_effect_witness :
  serve_connection env sample_members [2; 0; 0] = (sample_members, Closed).
Proof.
  apply rejected_frame_no_effect. right. eexists _, _, _, _. split; [done|]. by left.
Defined.

Lemma control_exchange_witness :
  send_op (λ request, received (serve_connection env sample_members request).2) GetMaster
  = Done (Ok (ReplyMaster (get_master env sample_members))).
Proof.
  exact (proj2 (control_exchange env sample_members sample_members GetMaster _
    (ReplyMaster (get_master env sample_members)) _ ltac:(by_compute) eq_refl ltac:(by_compute)
    eq_refl ltac:(by_compute) eq_refl)).
Defined.

Lemma plain_operations_witness :
  (serve_connection env sample_members (frame (bits_of_pos (encode Shutdown)) [])).2 = Exited
  ∧ send_op (λ request, received (serve_connection env sample_members request).2) Shutdown
    = Done (Err HeaderRead).
Proof.
  refine (proj2 (plain_operations env sample_members Shutdown (bits_of_pos (encode Shutdown))
    _ eq_refl _ _)).
  - right. by right.
  - by_compute.
  - intros r [-> | ->]; eexists; (split; [reflexivity|by_compute]).
Defined.
End Witnesses.
