(* ===== verification/Hostname.v ===== *)
(** * The host name of a node (crates/hivebus/src/main.rs, [mod hostname])

    What the daemon makes of the buffer the C library fills in.  The call to libc is a
    parameter: it fails, or answers with the 256 bytes of the buffer. *)

From S2P Require Import Prelude RustStd Text Os Proto Membership Hivebus.
Local Open Scope Z_scope.

Definition hostname_buffer : nat := 256.

(** [hostname::get]: the bytes up to the first zero, decoded with replacements.  [None]
    when there is no zero in the buffer: [CStr::from_ptr] then reads past its end, which
    is undefined. *)
Definition hostname_get (gethostname : result io_error bytes) : option (result io_error string) :=
  match gethostname with
  | Err e => Some (Err e)
  | Ok buf =>
    n ← position (λ b, b =? 0) buf;
    Some (Ok (string_of_bytes (from_utf8_lossy (take n buf))))
  end.

(** What [main] takes from it when no name is configured; the name is decoded once more. *)
Definition system_hostname (gethostname : result io_error bytes) : option (option string) :=
  h ← hostname_get gethostname;
  Some (match h with Ok h => Some (string_of_bytes (from_utf8_lossy (as_bytes h))) | Err _ => None end).

(** The buffer as POSIX has it: the name, cut off if it does not fit, and a zero if there
    is room for one; what comes after it is left as it was. *)
Definition posix_buffer (name : bytes) : bytes :=
  take hostname_buffer (name ++ replicate hostname_buffer 0).

Lemma lossy_str_ok bs : bytes_ok bs → str_ok (string_of_bytes (from_utf8_lossy bs)).
Proof.
  intros Hbs. unfold str_ok. rewrite as_string_of_bytes by by apply from_utf8_lossy_bytes.
  apply from_utf8_lossy_spec.
Qed.

Lemma lossy_id s : str_ok s → string_of_bytes (from_utf8_lossy (as_bytes s)) = s.
Proof. intros Hs. by rewrite (proj2 (from_utf8_lossy_spec _) Hs), string_of_as_bytes. Qed.

(** The second decoding changes nothing. *)
Lemma system_hostname_get r :
  (∀ buf, r = Ok buf → bytes_ok buf) → system_hostname r = ok <$> hostname_get r.
Proof.
  intros Hbuf. unfold system_hostname, hostname_get. destruct r as [buf|e]; [|done]. cbn.
  destruct (position _ buf) as [n|]; [|done]. cbn.
  rewrite lossy_id; [done|]. apply lossy_str_ok, Forall_take. by apply Hbuf.
Qed.

Lemma posix_buffer_position name :
  Forall (λ b, b ≠ 0) name →
  position (λ b, b =? 0) (posix_buffer name)
  = if decide (length name < hostname_buffer)%nat then Some (length name) else None.
Proof.
  intros Hz. assert (Forall (λ b, (b =? 0) = false) name) as Hf.
  { eapply Forall_impl; [exact Hz|]. cbn. intros b ?. by apply Z.eqb_neq. }
  unfold posix_buffer. case_decide as Hlen.
  - rewrite take_app_ge by lia. destruct (hostname_buffer - length name)%nat as [|k] eqn:Hk; [lia|].
    change (replicate hostname_buffer 0) with (0 :: replicate 255 0). cbn [take].
    by apply position_app_cons.
  - rewrite take_app_le by lia. apply position_None. by apply Forall_take.
Qed.

(** C37: the host name: with a configured name, or whatever the library answers as long as
    there is a zero in the buffer, the daemon has a name that is valid text; a system name
    of at most 255 bytes is taken as it is if it is valid text, and with replaced parts
    otherwise; and a failing call gives "unknown".  With a name of 256 bytes or more the code
    reads past its buffer. *)
Theorem hostname_spec (cfg : Config) (r : result io_error bytes) :
  cfg_ok cfg → (∀ buf, r = Ok buf → bytes_ok buf) →
  match system_hostname r with
  | Some system => str_ok (main_hostname cfg system)
      ∧ (cfg_hostname cfg = None → ∀ e, r = Err e → main_hostname cfg system = "unknown"%string)
  | None => ∃ buf, r = Ok buf ∧ 0 ∉ buf
  end ∧
  ∀ name, Forall (λ b, b ≠ 0) name → bytes_ok name → r = Ok (posix_buffer name) →
    cfg_hostname cfg = None →
    if decide (length name < hostname_buffer)%nat
    then main_hostname cfg <$> system_hostname r = Some (string_of_bytes (from_utf8_lossy name))
         ∧ (utf8_valid name = true →
            main_hostname cfg <$> system_hostname r = Some (string_of_bytes name))
    else system_hostname r = None.
Proof.
  intros (_ & _ & Hhost & _) Hbuf. rewrite system_hostname_get by done. split.
  - destruct r as [buf|e]; cbn.
    + destruct (position (λ b, b =? 0) buf) as [n|] eqn:Hn; cbn.
      * split; [|done]. unfold main_hostname. destruct (cfg_hostname cfg) as [h|]; [by apply Hhost|].
        apply lossy_str_ok, Forall_take. by apply Hbuf.
      * exists buf. split; [done|]. apply position_None in Hn. rewrite Forall_forall in Hn.
        intros Hin. by specialize (Hn 0 Hin).
    + unfold main_hostname. destruct (cfg_hostname cfg) as [h|]; [by split; [apply Hhost|]|].
      split; [reflexivity|done].
  - intros name Hz Hname -> Hcfg. unfold hostname_get. rewrite posix_buffer_position by done.
    case_decide as Hlen; [|done]. cbn [mbind option_bind fmap option_fmap option_map ok].
    unfold main_hostname. rewrite Hcfg. cbn [default]. unfold posix_buffer.
    rewrite take_take, Nat.min_l, take_app_length by lia. split; [done|].
    intros Hv. by rewrite (proj2 (from_utf8_lossy_spec _) Hv).
Qed.

(** ** Witness *)

Module Witnesses.
Definition cfg : Config := {|
  cfg_cluster_iface := "eth1"; cfg_cluster_addr := ipv4 10 0 0 1; cfg_node_id := None;
  cfg_hostname := None; cfg_heartbeat_interval_ms := 150; cfg_suspect_misses := 3; cfg_dead_secs := 30 |}.

(** A Latin-1 name: the byte 233 is not UTF-8 there. *)
Lemma hostname_spec_witness :
  main_hostname cfg <$> system_hostname (Ok (posix_buffer [110; 233; 49]))
  = Some (string_of_bytes [110; 239; 191; 189; 49]).
Proof.
  assert (cfg_ok cfg) as Hcfg by (split_and!; try by_compute; by intros ? [=]).
  assert (∀ buf, Ok (E := io_error) (posix_buffer [110; 233; 49]) = Ok buf → bytes_ok buf) as Hbuf
    by (intros buf [= <-]; by_compute).
  refine (proj1 (proj2 (hostname_spec cfg (Ok (posix_buffer [110; 233; 49])) Hcfg Hbuf)
    [110; 233; 49] _ _ eq_refl eq_refl)); by_compute.
Defined.
End Witnesses.
