(* ===== verification/HivebusMain.v ===== *)
(** * Starting hivebus (crates/hivebus/src/main.rs, [main])

    The program [main] up to the accept loop, as the calls it makes: reading the
    configuration, the host name, the address file and the clock, setting up the UDP
    socket, announcing the node, spawning the four tasks and opening the control
    socket.  The decisions are those of [Hivebus.main_start]. *)

From S2P Require Import Prelude RustStd Os Wire Proto Control ControlSocket Membership Hivebus.
Local Open Scope Z_scope.
Local Open Scope prog_scope.

Inductive start_error (E : Type) :=
| StartConfig (e : config_error E)
| StartMac (e : derive_error)
| StartIo (e : io_error)
| StartPanic.
Arguments StartConfig {E} e.
Arguments StartMac {E} e.
Arguments StartIo {E} e.
Arguments StartPanic {E}.

(** [format!("/sys/class/net/{iface}/address")] *)
Definition address_file (iface : string) : path :=
  as_bytes ("/sys/class/net/" +:+ iface +:+ "/address").

(** [MULTICAST_ADDR.parse()], the address with this text. *)
Definition MULTICAST_ADDR : string := "224.0.133.7".
Definition mcast : Ipv4Addr := ipv4 224 0 133 7.

Example mcast_text : fmt_ipv4 mcast = MULTICAST_ADDR.
Proof. by vm_compute. Qed.

(** [build_udp_socket], one checked call after the other. *)
Definition udp_socket_calls (iface_addr : Ipv4Addr) : list sysop :=
  [SocketNew; SetReuseAddress true; SetReusePort true; SetBroadcast true;
   SocketBind (V4 0 DISCOVERY_PORT); JoinMulticastV4 mcast iface_addr; SetMulticastLoopV4 false].
Definition build_udp_socket (iface_addr : Ipv4Addr) : prog (result io_error unit) :=
  act_all (udp_socket_calls iface_addr).

(** The tasks of a node, in the order in which they are spawned. *)
Definition main_tasks (l : Local) (cfg : Config) (suspect dead : Duration) : list task :=
  [HeartbeatTask (l_node_id l) (cfg_heartbeat_interval_ms cfg); ListenerTask (l_node_id l);
   FailureDetectorTask (l_node_id l) suspect dead; GossipTask (l_node_id l)].

(** The head of [control_plane_task]. *)
Definition control_plane_open : prog (result io_error unit) :=
  control_socket (socket_path "hivebus").

Section Main.
Context `{Bincode} `{!Codec AnnouncePayload}.
Context {E : Type} (parse : string → result E Config).
Context (overflow_checks : bool) (version : string).

(** The system's host name, asked for only when none is configured. *)
Definition read_hostname (cfg : Config) : prog (option string) :=
  match cfg_hostname cfg with
  | Some _ => Ret None
  | None => h ←! get_hostname; Ret (ok h)
  end.

(** The address file, read only when no id is configured. *)
Definition read_mac_file (cfg : Config) : prog (option bytes) :=
  match cfg_node_id cfg with
  | Some _ => Ret None
  | None => mac_str ←! read_to_string (address_file (cfg_cluster_iface cfg));
            Ret (as_bytes <$> ok mac_str)
  end.

(** [main] from the socket on, for a node whose readings are made. *)
Definition main_serve (cfg : Config) (l : Local) : prog (result (start_error E) Local) :=
  _ ←? map_err StartIo (build_udp_socket (cfg_cluster_addr cfg));
  _ ←? map_err StartIo (act_all [SetNonblocking true; FromStd]);
  match suspect_threshold_ms overflow_checks cfg with
  | Panicked => Ret (Err StartPanic)
  | Done suspect_ms =>
    _ ←! act_each ((λ '(dst, buf), SendTo buf dst) <$> initial_announce l version);
    _ ←! spawn_all (main_tasks l cfg (from_millis suspect_ms) (dead_threshold cfg));
    _ ←? map_err StartIo control_plane_open;
    Ret (Ok l)
  end.

(** [main] up to the accept loop: the node it runs, or why it ended. *)
Definition main_program (config_path : path) : prog (result (start_error E) Local) :=
  raw ←! read_to_string config_path;
  match config_load parse (ok raw) with
  | Err e => Ret (Err (StartConfig e))
  | Ok cfg =>
    system ←! read_hostname cfg;
    mac_file ←! read_mac_file cfg;
    match main_node_id cfg mac_file with
    | Err e => Ret (Err (StartMac e))
    | Ok node_id =>
      now ←! system_time;
      main_serve cfg {| l_node_id := node_id; l_hostname := main_hostname cfg system;
                        l_control_addr := main_control_addr cfg;
                        l_incarnation := wrap 32 (epoch_ms now) |}
    end
  end.

(** ** What the program does *)

(** The readings of a configured node and the calls that make them. *)
Definition main_reads (config_path : path) (cfg : Config) : list call :=
  ReadToString config_path
  :: match cfg_hostname cfg with Some _ => [] | None => [GetHostname] end
  ++ match cfg_node_id cfg with
     | Some _ => []
     | None => [ReadToString (address_file (cfg_cluster_iface cfg))]
     end.

Definition system_reading (o : nat → ∀ c, reply c) (cfg : Config) : option string :=
  match cfg_hostname cfg with Some _ => None | None => ok (o 1%nat GetHostname) end.

Definition mac_reading (o : nat → ∀ c, reply c) (cfg : Config) : option bytes :=
  match cfg_node_id cfg with
  | Some _ => None
  | None => as_bytes <$> ok (o (match cfg_hostname cfg with Some _ => 1%nat | None => 2%nat end)
                               (ReadToString (address_file (cfg_cluster_iface cfg))))
  end.

(** The socket, the announcement and the tasks of a node that starts. *)
Definition setup_calls (cfg : Config) : list sysop :=
  udp_socket_calls (cfg_cluster_addr cfg) ++ [SetNonblocking true; FromStd].

Definition announce_calls (l : Local) : list sysop :=
  (λ '(dst, buf), SendTo buf dst) <$> initial_announce l version.

(** From the [i]-th call on: the calls made and the result, for what [main_start] says. *)
Definition serve_outcome (o : nat → ∀ c, reply c) (i : nat) (cfg : Config)
    (started : outcome (result derive_error (Local * Duration * Duration)))
    (made : list call) (r : result (start_error E) Local) : Prop :=
  (∃ before a after e, setup_calls cfg = before ++ a :: after ∧ made = Act <$> before ++ [a]
     ∧ o (i + length before)%nat (Act a) = Err e ∧ r = Err (StartIo e)) ∨
  match started with
  | Done (Ok (l, suspect, dead)) => ∃ ctl ctl_r,
      let announced := (Act <$> setup_calls cfg ++ announce_calls l)
                       ++ (Spawn <$> main_tasks l cfg suspect dead) in
      run o (i + length announced) control_plane_open = (ctl, ctl_r)
      ∧ made = announced ++ ctl
      ∧ r = match ctl_r with Ok _ => Ok l | Err e => Err (StartIo e) end
  | _ => made = Act <$> setup_calls cfg ∧ r = Err StartPanic
  end.

Lemma run_main_serve (o : nat → ∀ c, reply c) i cfg l :
  let '(made, r) := run o i (main_serve cfg l) in
  serve_outcome o i cfg
    (ms ← suspect_threshold_ms overflow_checks cfg;
     Done (Ok (l, from_millis ms, dead_threshold cfg))) made r.
Proof.
  unfold main_serve. rewrite run_try, run_map_err.
  destruct (run_act_all o i (setup_calls cfg)) as (made & r & Hrun & Hout).
  unfold setup_calls in Hrun. rewrite run_act_all_app, run_try in Hrun. unfold build_udp_socket.
  assert (serve_outcome o i cfg (ms ← suspect_threshold_ms overflow_checks cfg;
     Done (Ok (l, from_millis ms, dead_threshold cfg))) (Act <$> made)
     match r with Ok _ => Err StartPanic | Err e => Err (StartIo e) end ∨ ∃ u, r = Ok u) as Hfail.
  { destruct r as [u|e]; [right; by exists u|left; left].
    destruct Hout as (before & a & after & Hs & -> & _ & He). by exists before, a, after, e. }
  destruct (run o i (act_all (udp_socket_calls _))) as [cs1 [u|e]].
  2: { injection Hrun as -> <-. destruct Hfail as [Hf|[? ?]]; [exact Hf|done]. }
  rewrite run_try, run_map_err.
  destruct (run o (i + length cs1) (act_all [_; _])) as [cs2 r2].
  injection Hrun as Hmade ->. destruct r as [u2|e]; cycle 1.
  { rewrite Hmade. destruct Hfail as [Hf|[? ?]]; [exact Hf|done]. }
  clear Hfail. destruct Hout as [-> _].
  assert (length cs1 + length cs2 = length (setup_calls cfg))%nat as Hlen
    by by rewrite <-length_app, Hmade, length_fmap.
  destruct (suspect_threshold_ms overflow_checks cfg) as [ms|]; cbn [mbind outcome_bind]; cycle 1.
  { cbn [run]. rewrite app_nil_r, Hmade. by right. }
  rewrite !run_seq, run_act_each. rewrite !run_seq, run_spawn_all, run_try, run_map_err.
  fold (announce_calls l).
  match goal with |- context [run o ?k control_plane_open] => 
    set (index := k); destruct (run o index control_plane_open) as [ctl ctl_r] eqn:Hctl end.
  cbv beta iota zeta.
  assert (index = (i + length ((Act <$> setup_calls cfg ++ announce_calls l)
    ++ (Spawn <$> main_tasks l cfg (from_millis ms) (dead_threshold cfg))))%nat) as Hindex.
  { subst index. rewrite fmap_app, !length_app, !length_fmap. lia. }
  destruct ctl_r as [v|e]; right; eexists ctl, _; (split; [rewrite <-Hindex; exact Hctl|]).
  all: split; [|done]; rewrite fmap_app, <-Hmade, <-!app_assoc; cbn [app]; by rewrite ?app_nil_r.
Qed.

(** C15: the program makes the decisions of [main_start] on what it reads, and in this
    order: it reads, without side effects, and an error then leaves no trace; it sets
    up the UDP socket, any failure of which ends the program before anything is sent;
    it announces the node, whether or not the sends succeed, and spawns the four tasks
    with the node's id, interval and thresholds; and it opens the control socket.  A
    failure of this last step ends a daemon that has been announced to the cluster. *)
Theorem main_program_refines (o : nat → ∀ c, reply c) config_path :
  match config_load parse (ok (o 0%nat (ReadToString config_path))) with
  | Err e => run o 0 (main_program config_path) = ([ReadToString config_path], Err (StartConfig e))
  | Ok cfg =>
    let reads := main_reads config_path cfg in
    let now := o (length reads) Now in
    match main_start overflow_checks cfg (system_reading o cfg) (mac_reading o cfg) now with
    | Done (Err e) => run o 0 (main_program config_path) = (reads, Err (StartMac e))
    | started => ∃ made r, run o 0 (main_program config_path) = (reads ++ Now :: made, r)
        ∧ serve_outcome o (S (length reads)) cfg started made r
    end
  end.
Proof.
  unfold main_program. rewrite run_seq. cbn [run read_to_string call_os length Nat.add app].
  destruct (config_load parse _) as [cfg|e]; [|done]. cbv zeta.
  set (reads := main_reads config_path cfg). rewrite !run_seq.
  assert (run o 1 (read_hostname cfg)
    = (match cfg_hostname cfg with Some _ => [] | None => [GetHostname] end, system_reading o cfg)) as ->.
  { unfold read_hostname, system_reading. by destruct (cfg_hostname cfg). }
  rewrite run_seq. set (hs := match cfg_hostname cfg with Some _ => [] | None => _ end).
  assert (run o (1 + length hs) (read_mac_file cfg)
    = (match cfg_node_id cfg with Some _ => [] | None => [ReadToString (address_file (cfg_cluster_iface cfg))] end,
       mac_reading o cfg)) as ->.
  { unfold read_mac_file, mac_reading, hs. by destruct (cfg_node_id cfg), (cfg_hostname cfg). }
  set (ms := match cfg_node_id cfg with Some _ => [] | None => _ end).
  assert (ReadToString config_path :: hs ++ ms = reads) as Hreads by done.
  unfold main_start. destruct (main_node_id cfg (mac_reading o cfg)) as [id|e]; cycle 1.
  { cbn [run]. by rewrite !app_nil_r, Hreads. }
  rewrite run_seq. cbn [run system_time call_os].
  assert (1 + length hs + length ms = length reads)%nat as Hlen
    by (rewrite <-Hreads; cbn; rewrite length_app; lia).
  rewrite Hlen. cbn [length]. rewrite Nat.add_1_r.
  set (l := {| l_node_id := id |}).
  pose proof (run_main_serve o (S (length reads)) cfg l) as Hs.
  destruct (run o (S (length reads)) (main_serve cfg l)) as [made r].
  assert (∀ A (x : list call) (y : A), (ReadToString config_path :: hs ++ ms ++ [Now] ++ x, y)
    = (reads ++ Now :: x, y)) as Hshape by by intros; rewrite <-Hreads, !app_comm_cons, <-app_assoc.
  destruct (suspect_threshold_ms overflow_checks cfg) as [t|];
    exists made, r; (split; [|exact Hs]); apply Hshape.
Qed.
End Main.

(** ** Witness *)

Module Witnesses.
Import Simple.
Import Hivebus.Witnesses.

(** A system on which everything works but the control socket's directory. *)
Definition no_socket_dir (i : nat) (c : call) : reply c :=
  match c with
  | Act (CreateDirAll _) => Err (IoError "read-only file system")
  | Act _ => Ok ()
  | ReadToString _ => Ok "08:00:27:01:02:03"%string
  | PathExists _ => false
  | GetHostname => Ok "n"%string
  | Now => 5
  | Spawn _ => ()
  | Command _ _ => Ok 0
  end.

(** A daemon that cannot open its control socket has announced itself and started its
    tasks before it ends, and nothing tells the cluster that it has left. *)
Lemma announced_without_control_socket :
  let main := main_program (λ _, @Ok unit _ default_cfg) true "1" [] in
  let announced := {| l_node_id := 11522; l_hostname := "alpha";
    l_control_addr := V4 (ipv4 10 0 0 1) 7778; l_incarnation := 0 |} in
  returns no_socket_dir main = Err (StartIo (IoError "read-only file system"))
  ∧ Forall (λ a, Act a ∈ calls no_socket_dir main) (announce_calls "1" announced)
  ∧ announce_calls "1" announced ≠ []
  ∧ Spawn (HeartbeatTask 11522 150) ∈ calls no_socket_dir main.
Proof. split; [by vm_compute|]. split; [|split]; by_compute. Qed.
End Witnesses.
