(* ===== verification/Tasks.v ===== *)
(** * The tasks of hivebus as loops (crates/hivebus/src/main.rs)

    [Hivebus] takes one turn of a task at a time.  Here are the tasks themselves, from
    the timer they make to the end of any number of rounds, with their own variables; a
    round finds the shared table as the other tasks left it and leaves it for them.  The
    theorems say that the rounds are the steps of [Hivebus], and what the sequence
    numbers are. *)

From S2P Require Import Prelude RustStd Os Wire Proto Control Membership Hivebus.
Local Open Scope Z_scope.
Implicit Types (m : gmap Z NodeInfo).

Section Tasks.
Context `{Bincode} `{!Codec HeartbeatPayload, !Codec AnnouncePayload,
                     !Codec LeavePayload, !Codec GossipPayload}.

(** tokio's timer constructor. *)
Context (interval : Duration → outcome unit).

(** The loop of [heartbeat_task] from sequence number [seq]: what each tick sends. *)
Fixpoint heartbeat_loop (l : Local) (seq : Z) (ticks : list SystemTime) : list sends :=
  match ticks with
  | [] => []
  | now :: ticks =>
    let '(s, seq) := heartbeat_tick l now seq in s :: heartbeat_loop l seq ticks
  end.

Definition heartbeat_task (l : Local) (interval_ms : Z) (ticks : list SystemTime) :
    outcome (list sends) :=
  _ ← interval (from_millis interval_ms); Done (heartbeat_loop l 0 ticks).

(** What a round of [gossip_task] finds: the table, in some order, and the clock. *)
Definition view : Type := HashIter Z NodeInfo * (nat → SystemTime) * gmap Z NodeInfo.

Fixpoint gossip_loop (l : Local) (seq : Z) (views : list view) : list sends :=
  match views with
  | [] => []
  | (it, clock, m) :: views =>
    let '(s, seq) := gossip_tick (it := it) l clock m seq in s :: gossip_loop l seq views
  end.

Definition gossip_task (l : Local) (views : list view) : outcome (list sends) :=
  _ ← interval (from_millis 500); Done (gossip_loop l 0 views).

(** A round of [failure_detector_task] reads the clock and then gets hold of the table;
    the result is what it leaves there. *)
Definition failure_detector_task (self_id : Z) (suspect dead : Duration)
    (rounds : list (HashIter Z NodeInfo * SystemTime * gmap Z NodeInfo)) :
    outcome (list (gmap Z NodeInfo)) :=
  _ ← interval (from_millis 100);
  Done ((λ '(it, now, m), fd_tick (it := it) self_id suspect dead now m) <$> rounds).

(** What [recv_from] gives, with the clock readings of the handling. *)
Definition arrival : Type := result io_error ((nat → SystemTime) * SocketAddr * bytes).

(** [listener_task]: an error is logged and the loop goes on. *)
Definition listener_task (self_id : Z) (rounds : list (arrival * gmap Z NodeInfo)) :
    list (gmap Z NodeInfo) :=
  (λ '(a, m), match a with
              | Ok (clock, from, datagram) => (listener_frame self_id clock from datagram m).1
              | Err _ => m
              end) <$> rounds.

(** ** The rounds are the steps *)

Context `{!Codec ControlOp, !Codec ControlReply}.
Context (l : Local) (suspect dead : Duration).

(** [n] rounds of a sender, each a step that leaves the table alone: the state after a
    round differs from the state before the next one at most in the table and in the
    other sender's number. *)
Inductive sender_rounds (own : Hivebus → Z) : Z → list sends → Prop :=
| rounds_nil seq : sender_rounds own seq []
| rounds_cons h s h' rest :
  internal_step l suspect dead h s h' → hv_members h' = hv_members h →
  sender_rounds own (own h') rest → sender_rounds own (own h) (s :: rest).

Lemma heartbeat_rounds seq ticks : sender_rounds hv_hb_seq seq (heartbeat_loop l seq ticks).
Proof.
  revert seq. induction ticks as [|now ticks IH]; intros seq; [constructor|].
  set (h := {| hv_members := ∅; hv_hb_seq := seq; hv_gossip_seq := 0 |}).
  pose proof (StepHeartbeat l suspect dead h now) as Hstep.
  change (heartbeat_loop l seq (now :: ticks))
    with ((heartbeat_tick l now (hv_hb_seq h)).1 :: heartbeat_loop l (heartbeat_tick l now (hv_hb_seq h)).2 ticks).
  exact (rounds_cons hv_hb_seq h _ _ _ Hstep eq_refl (IH _)).
Qed.

Lemma gossip_rounds seq views :
  Forall (λ v : view, HashIterOk v.1.1) views →
  sender_rounds hv_gossip_seq seq (gossip_loop l seq views).
Proof.
  intros Hviews. revert seq. induction Hviews as [|[[it clock] m] views Hit _ IH]; intros seq; [constructor|].
  set (h := {| hv_members := m; hv_hb_seq := 0; hv_gossip_seq := seq |}).
  pose proof (StepGossip l suspect dead h it clock Hit) as Hstep.
  cbn [gossip_loop]. change (gossip_tick (it := it) l clock m seq)
    with (gossip_tick (it := it) l clock (hv_members h) (hv_gossip_seq h)).
  destruct (gossip_tick _ _ _ _) as [s seq'].
  exact (rounds_cons hv_gossip_seq h s _ _ Hstep eq_refl (IH seq')).
Qed.

(** The sequence number of the [i]-th heartbeat. *)
Lemma heartbeat_loop_lookup seq ticks i now :
  0 ≤ seq < 16 → ticks !! i = Some now →
  heartbeat_loop l seq ticks !! i = Some (heartbeat_tick l now ((seq + Z.of_nat i) `mod` 16)).1.
Proof.
  revert seq i. induction ticks as [|t ticks IH]; intros seq i Hseq; [done|].
  destruct i as [|i]; cbn [lookup list_lookup heartbeat_loop].
  - intros [= ->]. rewrite Z.add_0_r, Z.mod_small by done. by destruct (heartbeat_tick _ _ _).
  - intros Hi. destruct (heartbeat_tick l t seq) as [s seq'] eqn:Ht.
    assert (seq' = next_seq seq) as -> by by injection Ht.
    cbn. rewrite (IH (next_seq seq)) by (done || apply next_seq_range).
    assert ((next_seq seq + Z.of_nat i) `mod` 16 = (seq + Z.of_nat (S i)) `mod` 16) as ->; [|done].
    unfold next_seq, wrap. rewrite land_15, (Z.mod_small (seq + 1) (2 ^ 8)) by lia.
    rewrite Z.add_mod_idemp_l by lia. f_equal. lia.
Qed.

(** C38: the heartbeat task: the [i]-th tick sends a frame with sequence number [i] modulo
    16, the node's id and incarnation and the time of the tick, to the broadcast and the
    multicast address, and is a step of the daemon; unless the configured interval is zero:
    the timer cannot be made, and the daemon never sends a heartbeat although its
    configuration was accepted. *)
Theorem heartbeat_task_spec interval_ms ticks :
  interval 0 = Panicked → (∀ d, 0 < d → interval d = Done ()) → 0 ≤ interval_ms →
  match heartbeat_task l interval_ms ticks with
  | Panicked => interval_ms = 0
  | Done rounds => interval_ms ≠ 0 ∧ length rounds = length ticks ∧ sender_rounds hv_hb_seq 0 rounds ∧
      ∀ i now, ticks !! i = Some now →
      let frame := encode_frame (FrameHeader.new Heartbeat (Z.of_nat i `mod` 16) (l_node_id l))
                     {| hb_incarnation := l_incarnation l; hb_epoch_ms := epoch_ms now |} in
      rounds !! i = Some match frame with Ok buf => [(broadcast, buf); (mcast_addr, buf)] | Err _ => [] end
  end.
Proof.
  intros Hzero Hpos Hms. unfold heartbeat_task. destruct (decide (interval_ms = 0)) as [->|Hne].
  { change (from_millis 0) with 0. by rewrite Hzero. }
  rewrite Hpos by (unfold from_millis; lia). cbn [mbind outcome_bind]. split; [done|]. split.
  { generalize 0. induction ticks as [|t ticks IH]; intros seq; cbn; [done|]. by rewrite IH. }
  split; [apply heartbeat_rounds|]. intros i now Hi.
  rewrite (heartbeat_loop_lookup 0 ticks i now) by (lia || done). by rewrite Z.add_0_l.
Qed.

(** The other tasks always get their timer, and each of their rounds is a step: a scan, a
    datagram received or, for an error of the socket, nothing. *)
Theorem task_rounds_step scans arrivals views :
  (∀ d, 0 < d → interval d = Done ()) →
  Forall (λ v : view, HashIterOk v.1.1) views →
  (∃ rounds, gossip_task l views = Done rounds ∧ sender_rounds hv_gossip_seq 0 rounds) ∧
  (∃ left, failure_detector_task (l_node_id l) suspect dead scans = Done left ∧
     ∀ i it now m m', scans !! i = Some (it, now, m) → left !! i = Some m' → HashIterOk it →
     ∀ a b, internal_step l suspect dead {| hv_members := m; hv_hb_seq := a; hv_gossip_seq := b |} []
              {| hv_members := m'; hv_hb_seq := a; hv_gossip_seq := b |}) ∧
  ∀ i ar m m', arrivals !! i = Some (ar, m) → listener_task (l_node_id l) arrivals !! i = Some m' →
    match ar with
    | Err _ => m' = m
    | Ok (clock, from, datagram) => bytes_ok datagram → addr_ok from →
        ∀ a b, step l suspect dead {| hv_members := m; hv_hb_seq := a; hv_gossip_seq := b |} []
                 {| hv_members := m'; hv_hb_seq := a; hv_gossip_seq := b |}
    end.
Proof.
  intros Hpos Hviews. split; [|split].
  - exists (gossip_loop l 0 views). unfold gossip_task. rewrite Hpos by by vm_compute.
    split; [done|]. by apply gossip_rounds.
  - unfold failure_detector_task. rewrite Hpos by by vm_compute. eexists. split; [reflexivity|].
    intros i it now m m' Hi Hm' Hit a b. rewrite list_lookup_fmap, Hi in Hm'. injection Hm' as <-.
    exact (StepScan l suspect dead {| hv_members := m; hv_hb_seq := a; hv_gossip_seq := b |} it now Hit).
  - intros i ar m m' Hi Hm'. apply list_lookup_fmap_Some in Hm' as ([ar' m0] & -> & Hi').
    injection (eq_trans (eq_sym Hi) Hi') as <- <-. destruct ar as [[[clock from] datagram]|e]; [|done]. intros Hb Hfrom a b.
    exact (StepListen l suspect dead {| hv_members := m; hv_hb_seq := a; hv_gossip_seq := b |}
             clock from datagram Hb Hfrom).
Qed.
End Tasks.

(** ** Witnesses *)

Module Witnesses.
Import Simple.
Import Hivebus.Witnesses.

(** A timer that behaves as documented. *)
Definition timer (d : Duration) : outcome unit := if d =? 0 then Panicked else Done ().

Lemma timer_positive d : 0 < d → timer d = Done ().
Proof. intros Hd. unfold timer. by rewrite (proj2 (Z.eqb_neq d 0)) by lia. Qed.

Lemma heartbeat_task_spec_witness :
  (∃ rounds, heartbeat_task timer (node 7) 150 [10; 20; 30] = Done rounds ∧ length rounds = 3%nat
     ∧ sender_rounds (node 7) 450 30000 hv_hb_seq 0 rounds)
  ∧ heartbeat_task timer (node 7) 0 [10; 20; 30] = Panicked.
Proof.
  split; [|by vm_compute].
  pose proof (heartbeat_task_spec timer (node 7) 450 30000 150 [10; 20; 30] eq_refl timer_positive
    ltac:(done)) as Hspec.
  destruct (heartbeat_task timer (node 7) 150 [10; 20; 30]) as [rounds|] eqn:Ht; [|by vm_compute in Ht].
  destruct Hspec as (_ & Hlen & Hsteps & _). exists rounds. split_and!; [done|exact Hlen|exact Hsteps].
Defined.

Lemma task_rounds_step_witness :
  ∃ rounds, gossip_task timer (node 7) [(map_iter, λ _, 10, sample_members)] = Done rounds
    ∧ sender_rounds (node 7) 450 30000 hv_gossip_seq 0 rounds.
Proof.
  refine (proj1 (task_rounds_step timer (node 7) 450 30000 [] []
    [(map_iter, λ _, 10, sample_members)] timer_positive _)).
  constructor; [exact map_iter_ok|constructor].
Defined.
End Witnesses.
