(* ===== verification/Cluster.v ===== *)
(** * Several hivebus daemons on one network

    The daemons of [Hivebus] next to each other, with the datagrams they have
    sent so far.  The network may lose, duplicate, delay and reorder datagrams,
    and daemons may stop and start again at any time; nobody else sends. *)

From S2P Require Import Prelude RustStd Wire Proto Control Membership Gossip Hivebus.
Local Open Scope Z_scope.
Implicit Types (m : gmap Z NodeInfo) (n : NodeInfo) (l : Local).

Record Node := {
  nd_local : Local;
  nd_hive : Hivebus;
}.

(** The running daemons by node id, and every datagram sent so far. *)
Record Cluster := {
  cl_nodes : gmap Z Node;
  cl_net : list bytes;
}.

Definition cluster_init : Cluster := {| cl_nodes := ∅; cl_net := [] |}.

Section Cluster.
Context `{Bincode} `{!Codec HeartbeatPayload, !Codec AnnouncePayload,
                     !Codec LeavePayload, !Codec GossipPayload}.
Context `{!Codec ControlOp, !Codec ControlReply}.
Context (suspect dead : Duration) (version : string) (ids : gset Z).

Inductive cluster_step : Cluster → Cluster → Prop :=
(** [main]: a daemon with a configured id starts, or starts again, with an empty
    table, and announces itself. *)
| ClusterStart c l :
  l_node_id l ∈ ids → local_ok l →
  cluster_step c {|
    cl_nodes := <[l_node_id l := {| nd_local := l; nd_hive := hivebus_init |}]> (cl_nodes c);
    cl_net := (initial_announce l version).*2 ++ cl_net c |}
(** A daemon exits, on a Shutdown operation or by a crash. *)
| ClusterStop c id :
  cluster_step c {| cl_nodes := delete id (cl_nodes c); cl_net := cl_net c |}
(** A daemon's own task runs. *)
| ClusterRun c id nd s h' :
  cl_nodes c !! id = Some nd →
  internal_step (nd_local nd) suspect dead (nd_hive nd) s h' →
  cluster_step c {|
    cl_nodes := <[id := {| nd_local := nd_local nd; nd_hive := h' |}]> (cl_nodes c);
    cl_net := s.*2 ++ cl_net c |}
(** A daemon's listener receives a datagram that was sent at some point. *)
| ClusterDeliver c id nd clock from datagram :
  cl_nodes c !! id = Some nd → datagram ∈ cl_net c → addr_ok from →
  cluster_step c {|
    cl_nodes := <[id := {| nd_local := nd_local nd;
                           nd_hive := listen (nd_local nd) clock from datagram (nd_hive nd) |}]>
                  (cl_nodes c);
    cl_net := cl_net c |}.

Inductive cluster_reachable : Cluster → Prop :=
| cluster_reachable_init : cluster_reachable cluster_init
| cluster_reachable_step c c' :
  cluster_reachable c → cluster_step c c' → cluster_reachable c'.
End Cluster.

(** ** The frames on the network *)

(** The ids of a table are configured ids. *)
Definition known (ids : gset Z) (m : gmap Z NodeInfo) : Prop := ∀ k, is_Some (m !! k) → k ∈ ids.

Lemma known_insert ids m k n : known ids m → k ∈ ids → known ids (<[k := n]> m).
Proof.
  intros Hm Hk j [n' Hj]. apply lookup_insert_Some in Hj as [[<- _]|[_ Hj]]; [done|].
  by apply Hm; exists n'.
Qed.

Section Frames.
Context `{Bincode} `{!Codec HeartbeatPayload, !Codec AnnouncePayload,
                     !Codec LeavePayload, !Codec GossipPayload}.
Context (ids : gset Z).

(** What holds of every datagram of the cluster: it is a frame of one of the
    three types that are sent, from a configured id, about configured ids. *)
Definition frame_known (datagram : bytes) : Prop :=
  bytes_ok datagram ∧
  ∃ h, FrameHeader.from_bytes (take 576 datagram) = Some h ∧ FrameHeader.node_id h ∈ ids ∧
  match FrameHeader.msg_type h with
  | Some Heartbeat | Some Announce => True
  | Some Gossip => ∀ pl k,
    decode_from_slice (A := GossipPayload) (drop 4 (take 576 datagram)) = Ok (pl, k) →
    Forall (λ e, ge_node_id e ∈ ids) (gp_entries pl)
  | _ => False
  end.

Lemma frame_bytes_ok {P} `{!Codec P, !WireOk P, !CodecLaws P} t seq id (payload : P) buf :
  u16 id → encode_frame (FrameHeader.new t seq id) payload = Ok buf → bytes_ok buf.
Proof.
  intros Hid (encoded & Henc & -> & _)%encode_frame_Ok.
  apply Forall_app. split; [by apply header_new_fields|by eapply codec_bytes].
Qed.

Lemma built_frame_known {P} `{!Codec P, !WireOk P, !CodecLaws P} t seq id (payload : P) buf :
  u16 id → id ∈ ids → encode_frame (FrameHeader.new t seq id) payload = Ok buf →
  match t with
  | Heartbeat | Announce => True
  | Gossip => ∀ pl k, decode_from_slice (A := GossipPayload) (drop 4 buf) = Ok (pl, k) →
              Forall (λ e, ge_node_id e ∈ ids) (gp_entries pl)
  | _ => False
  end → frame_known buf.
Proof.
  intros Hid Hin Hf Ht. split; [by eapply frame_bytes_ok|].
  destruct (listener_frame_built _ _ _ _ _ Hid Hf) as (enc & _ & -> & _ & Hhdr & Hmt & Hnid).
  eexists. split; [done|]. rewrite Hnid. split; [done|]. rewrite Hmt. by destruct t.
Qed.

Context `{!CodecLaws HeartbeatPayload, !CodecLaws AnnouncePayload, !CodecLaws GossipPayload}.

Lemma announce_known l version :
  local_ok l → l_node_id l ∈ ids → Forall frame_known (initial_announce l version).*2.
Proof.
  intros (Hid & _) Hin. unfold initial_announce.
  destruct (encode_frame _ _) as [buf|] eqn:Hf; [|constructor].
  assert (frame_known buf) by by apply (built_frame_known _ _ _ _ _ Hid Hin Hf). cbn.
  apply Forall_cons_2; [done|]. by apply Forall_singleton.
Qed.

Lemma heartbeat_known l now seq :
  local_ok l → l_node_id l ∈ ids → Forall frame_known (heartbeat_tick l now seq).1.*2.
Proof.
  intros (Hid & _) Hin. cbn.
  destruct (encode_frame _ _) as [buf|] eqn:Hf; [|constructor].
  assert (frame_known buf) by by apply (built_frame_known _ _ _ _ _ Hid Hin Hf). cbn.
  apply Forall_cons_2; [done|]. by apply Forall_singleton.
Qed.

Lemma gossip_known (it : HashIter Z NodeInfo) l clock m seq :
  HashIterOk it → local_ok l → l_node_id l ∈ ids →
  members_inv (l_node_id l) m → known ids m →
  Forall frame_known (gossip_tick (it := it) l clock m seq).1.*2.
Proof.
  intros Hit (Hid & _) Hin Hinv Hknown. unfold gossip_tick.
  destruct (gossip_entries clock m) as [|e0 es0] eqn:Hes; [constructor|]. cbn.
  destruct (encode_frame _ _) as [buf|] eqn:Hf; [|constructor].
  apply Forall_singleton, (built_frame_known _ _ _ _ _ Hid Hin Hf).
  intros pl k Hd.
  destruct (listener_frame_built _ _ _ _ _ Hid Hf) as (enc & Henc & _ & Hdrop & _).
  assert (∀ e, e ∈ e0 :: es0 → ge_node_id e ∈ ids ∧ wire_ok e) as Hall.
  { intros e He. rewrite <-Hes in He.
    apply elem_of_gossip_entries in He as (j & n & Hj & Hge & Hinc & Hst & Hms); [|done].
    destruct (inv_entries _ _ Hinv _ _ Hj) as [Hkey (? & ? & _)].
    rewrite Hge, Hkey. split; [by apply Hknown; exists n|].
    unfold wire_ok, GossipEntry_wire. by rewrite Hge, Hinc. }
  assert (pl = {| gp_entries := e0 :: es0 |}) as ->.
  { assert (wire_ok {| gp_entries := e0 :: es0 |}) as Hok
      by (apply Forall_forall; intros e He; exact (proj2 (Hall e He))).
    rewrite Hdrop, (codec_roundtrip _ _ Hok Henc) in Hd. by simplify_eq. }
  apply Forall_forall. intros e He. exact (proj1 (Hall e He)).
Qed.

(** What the listener does with such a datagram. *)
Lemma on_gossip_known_ids self_id from clock es m :
  Forall (λ e, ge_node_id e ∈ ids) es → known ids m →
  known ids (on_gossip self_id from clock es m).
Proof.
  intros Hes. revert clock m. induction Hes as [|e es He _ IH]; intros clock m Hm; cbn; [done|].
  apply IH. unfold on_gossip_entry. case_match; [done|]. by apply known_insert.
Qed.

Lemma listener_known self_id clock from datagram m :
  frame_known datagram → known ids m →
  known ids (listener_frame self_id clock from datagram m).1.
Proof.
  intros (_ & h & Hh & Hid & Ht) Hm. unfold listener_frame. rewrite Hh.
  destruct (FrameHeader.node_id h =? self_id); [done|].
  destruct (FrameHeader.msg_type h) as [[]|]; try done.
  - destruct (decode_from_slice _) as [[]|]; [|done]. by apply known_insert.
  - destruct (decode_from_slice _) as [[]|]; [|done]. by apply known_insert.
  - destruct (decode_from_slice _) as [[pl k]|] eqn:Hd; [|done].
    apply on_gossip_known_ids; [by eapply Ht|done].
Qed.

Lemma fd_tick_known (it : HashIter Z NodeInfo) self_id suspect dead now m :
  known ids m → known ids (fd_tick (it := it) self_id suspect dead now m).
Proof.
  intros Hm k [n' Hn']. apply fd_tick_last_seen in Hn' as (n & Hn & _). by apply Hm; exists n.
Qed.
End Frames.

(** ** What holds in every reachable cluster *)

Section Safety.
Context `{Bincode} `{!Codec HeartbeatPayload, !Codec AnnouncePayload,
                     !Codec LeavePayload, !Codec GossipPayload}.
Context `{!Codec ControlOp, !Codec ControlReply}.
Context `{!CodecLaws HeartbeatPayload, !CodecLaws AnnouncePayload,
          !CodecLaws LeavePayload, !CodecLaws GossipPayload}.
Context (suspect dead : Duration) (version : string) (ids : gset Z).

(** A running daemon is the configured one, satisfies its own invariant, and
    knows configured ids only. *)
Definition node_inv (id : Z) (nd : Node) : Prop :=
  l_node_id (nd_local nd) = id ∧ id ∈ ids ∧ local_ok (nd_local nd) ∧
  hivebus_inv (nd_local nd) (nd_hive nd) ∧ known ids (hv_members (nd_hive nd)).

Definition cluster_inv (c : Cluster) : Prop :=
  map_Forall node_inv (cl_nodes c) ∧ Forall (frame_known ids) (cl_net c).

Lemma internal_step_known nd s h' :
  node_inv (l_node_id (nd_local nd)) nd →
  internal_step (nd_local nd) suspect dead (nd_hive nd) s h' →
  known ids (hv_members h') ∧ Forall (frame_known ids) s.*2.
Proof.
  intros (_ & Hin & Hok & (Hinv & _) & Hknown) Hstep.
  inversion Hstep; subst; cbn [hv_members].
  - split; [by apply fd_tick_known|constructor].
  - split; [done|by apply heartbeat_known].
  - split; [done|by apply gossip_known].
  - rewrite control_members. split; [done|constructor].
Qed.

Lemma cluster_step_inv c c' :
  cluster_step suspect dead version ids c c' → cluster_inv c → cluster_inv c'.
Proof.
  intros Hstep [Hnodes Hnet].
  destruct Hstep as [c l Hl Hok|c id|c id nd s h' Hnd Hstep|c id nd clock from dg Hnd Hdg Hfrom];
    (split; cbn [cl_nodes cl_net]).
  - apply map_Forall_insert_2; [|done]. do 3 (split; [done|]). split; [apply hivebus_inv_init|].
    intros k [n Hn]. cbn in Hn. by rewrite lookup_empty in Hn.
  - apply Forall_app. split; [by apply announce_known|done].
  - by apply map_Forall_delete.
  - done.
  - destruct (Hnodes _ _ Hnd) as (<- & Hin & Hok & Hinv & Hknown).
    apply map_Forall_insert_2; [|done].
    destruct (internal_step_known nd s h') as [? _]; [done|done|].
    do 3 (split; [done|]). split; [by eapply internal_step_inv|done].
  - destruct (Hnodes _ _ Hnd) as (<- & Hin & Hok & Hinv & Hknown).
    apply Forall_app. split; [|done]. by eapply internal_step_known.
  - destruct (Hnodes _ _ Hnd) as (<- & Hin & Hok & Hinv & Hknown).
    rewrite Forall_forall in Hnet. pose proof (Hnet dg Hdg) as Hdg'.
    apply map_Forall_insert_2; [|done]. do 3 (split; [done|]). split.
    + apply listen_inv; [by destruct Hdg'|done..].
    + by apply listener_known.
  - done.
Qed.

Lemma cluster_reachable_inv c :
  cluster_reachable suspect dead version ids c → cluster_inv c.
Proof.
  induction 1 as [|c c' _ IH Hstep]; [|by eapply cluster_step_inv].
  split; [apply map_Forall_empty|constructor].
Qed.

(** C2: a daemon only ever knows, and only ever elects, configured nodes: in every
    reachable cluster, whatever the network loses, repeats or reorders and
    whichever daemons stop and start again, the ids in a daemon's table are
    configured ids other than its own, and the master it elects is a configured
    node with an id not above its own. *)
Theorem cluster_no_phantoms c id nd (it : HashIter Z NodeInfo) :
  HashIterOk it → cluster_reachable suspect dead version ids c → cl_nodes c !! id = Some nd →
  (∀ k, is_Some (hv_members (nd_hive nd) !! k) → k ∈ ids ∧ k ≠ id) ∧
  ∃ master, master_from (it := it) (hv_members (nd_hive nd)) id = Some master
            ∧ master ∈ ids ∧ master ≤ id.
Proof.
  intros Hit [Hnodes _]%cluster_reachable_inv Hnd.
  destruct (Hnodes _ _ Hnd) as (<- & Hin & _ & (Hinv & _) & Hknown). split.
  - intros k Hk. split; [by apply Hknown|]. intros ->.
    rewrite (inv_no_self _ _ Hinv) in Hk. by destruct Hk.
  - destruct (master_from_is_master (it := it) (hv_members (nd_hive nd))
      (l_node_id (nd_local nd))) as (master & Hm & Hof & Hle & _).
    exists master. split_and!; [done| |done].
    destruct Hof as [->|(k & n & Hk & _ & <-)]; [done|].
    destruct (inv_entries _ _ Hinv _ _ Hk) as [-> _]. by apply Hknown; exists n.
Qed.

(** No daemon ever says goodbye: on every reachable network there is no LEAVE
    frame, although daemons exit.  Each datagram is a HEARTBEAT, an ANNOUNCE or a
    GOSSIP of a configured node. *)
Theorem cluster_no_leave c datagram :
  cluster_reachable suspect dead version ids c → datagram ∈ cl_net c →
  ∃ h, FrameHeader.from_bytes (take 576 datagram) = Some h ∧ FrameHeader.node_id h ∈ ids
       ∧ (FrameHeader.msg_type h = Some Heartbeat ∨ FrameHeader.msg_type h = Some Announce
          ∨ FrameHeader.msg_type h = Some Gossip).
Proof.
  intros [_ Hnet]%cluster_reachable_inv Hin. rewrite Forall_forall in Hnet.
  destruct (Hnet _ Hin) as (_ & h & Hh & Hid & Ht). exists h. split_and!; [done..|].
  destruct (FrameHeader.msg_type h) as [[]|]; auto; done.
Qed.
End Safety.

(** ** Agreement *)

Section Agreement.
Context `{Bincode} `{!Codec HeartbeatPayload, !Codec AnnouncePayload,
                     !Codec LeavePayload, !Codec GossipPayload}.
Context `{!CodecLaws HeartbeatPayload}.

(** The table after a sequence of datagrams, each with its clock and source. *)
Definition hear (self_id : Z)
    (arrivals : list ((nat → SystemTime) * SocketAddr * bytes)) (m : Members) : Members :=
  foldl (λ m '(clock, from, datagram), (listener_frame self_id clock from datagram m).1)
    m arrivals.

(** A heartbeat frame of a daemon. *)
Definition heartbeat_of (s : Local) (datagram : bytes) : Prop :=
  ∃ now seq dst, (dst, datagram) ∈ (heartbeat_tick s now seq).1.

(** One round at [l]: heartbeats of the others only, and at least one of each. *)
Definition heartbeat_round (nodes : list Local) (l : Local)
    (arrivals : list ((nat → SystemTime) * SocketAddr * bytes)) : Prop :=
  Forall (λ a, addr_ok a.1.2 ∧ ∃ s, s ∈ nodes ∧ l_node_id s ≠ l_node_id l ∧ heartbeat_of s a.2)
    arrivals ∧
  ∀ s, s ∈ nodes → l_node_id s ≠ l_node_id l → Exists (λ a, heartbeat_of s a.2) arrivals.

Lemma hear_heartbeat self_id s clock from datagram m :
  local_ok s → l_node_id s ≠ self_id → heartbeat_of s datagram →
  ∃ pl, wire_ok pl ∧ (listener_frame self_id clock from datagram m).1
        = on_heartbeat (l_node_id s) from pl (clock O) (clock 1%nat) m.
Proof.
  intros (Hid & Hinc & _) Hne (now & sq & dst & Hin). cbn in Hin.
  destruct (encode_frame _ _) as [buf|] eqn:Hf; [|by apply not_elem_of_nil in Hin].
  assert (datagram = buf) as -> by set_solver.
  match type of Hf with encode_frame _ ?p = _ =>
    assert (wire_ok p) as Hok by (split; [done|apply epoch_ms_u64]); exists p end.
  split; [done|]. by rewrite (deliver_heartbeat _ _ _ _ _ _ _ _ Hid Hne Hok Hf).
Qed.

(** A heartbeat keeps the alive peers, and adds its sender. *)
Definition alive_in (m : Members) (k : Z) : Prop := ∃ n, m !! k = Some n ∧ ni_state n = Alive.

Lemma alive_on_heartbeat nid from pl t1 t2 m k :
  alive_in (on_heartbeat nid from pl t1 t2 m) k ↔ k = nid ∨ alive_in m k.
Proof.
  unfold alive_in. destruct (decide (k = nid)) as [->|Hne].
  - destruct (lookup_on_heartbeat nid from pl t1 t2 m) as (n & Hn & Hs & _).
    rewrite Hn. split; [by left|]. intros _. by exists n.
  - rewrite lookup_on_heartbeat_ne by done. split; [by right|]. by intros [?|?].
Qed.

Lemma hear_round nodes l arrivals m :
  Forall local_ok nodes →
  Forall (λ a, addr_ok a.1.2 ∧ ∃ s, s ∈ nodes ∧ l_node_id s ≠ l_node_id l ∧ heartbeat_of s a.2)
    arrivals →
  members_inv (l_node_id l) m →
  (∀ k, alive_in m k → ∃ s, s ∈ nodes ∧ l_node_id s = k) →
  let m' := hear (l_node_id l) arrivals m in
  members_inv (l_node_id l) m' ∧
  (∀ k, alive_in m' k → ∃ s, s ∈ nodes ∧ l_node_id s = k) ∧
  (∀ k, alive_in m k → alive_in m' k) ∧
  Forall (λ a, ∃ s, s ∈ nodes ∧ heartbeat_of s a.2 ∧ alive_in m' (l_node_id s)) arrivals.
Proof.
  intros Hnodes Hall. revert m.
  induction Hall as [|[[clock from] dg] arrivals (Hfrom & s & Hs & Hne & Hhb) _ IH];
    intros m Hinv Halive; [done|]. cbn in Hfrom, Hhb |- *.
  pose proof Hnodes as Hok. rewrite Forall_forall in Hok. pose proof (Hok s Hs) as Hsok.
  destruct (hear_heartbeat (l_node_id l) s clock from dg m Hsok Hne Hhb) as (pl & Hpl & Hstep).
  rewrite Hstep. set (m1 := on_heartbeat _ _ _ _ _ m).
  assert (∀ k, alive_in m1 k ↔ k = l_node_id s ∨ alive_in m k) as H1
    by (intros k; apply alive_on_heartbeat).
  destruct (IH m1) as (Hinv' & Honly & Hkeep & Hheard).
  - apply on_heartbeat_inv; try done. apply Hsok.
  - intros k [->|Hk]%H1; [by exists s|by apply Halive].
  - split_and!; [done|done| |].
    + intros k Hk. apply Hkeep, H1. by right.
    + apply Forall_cons_2; [|done]. exists s. split_and!; [done..|]. apply Hkeep, H1. by left.
Qed.

(** A heartbeat frame carries the id of its sender. *)
Lemma heartbeat_of_id s datagram :
  local_ok s → heartbeat_of s datagram →
  FrameHeader.node_id <$> FrameHeader.from_bytes datagram = Some (l_node_id s).
Proof.
  intros (Hid & _) (now & sq & dst & Hin). cbn in Hin.
  destruct (encode_frame _ _) as [buf|] eqn:Hf; [|by apply not_elem_of_nil in Hin].
  assert (datagram = buf) as -> by set_solver.
  destruct (listener_frame_built _ _ _ _ _ Hid Hf) as (_ & _ & _ & _ & -> & _ & Hnid).
  cbn. by rewrite Hnid.
Qed.

(** After one round of heartbeats the daemons agree.  Whatever their tables
    were, as long as no outside node is [Alive] in them, and in whatever order and
    however often the others' heartbeats arrive, every daemon of the cluster elects
    the same node: the one with the least id. *)
Theorem heartbeat_round_agreement (nodes : list Local) (lowest l : Local)
    (it : HashIter Z NodeInfo) arrivals m :
  HashIterOk it → Forall local_ok nodes →
  lowest ∈ nodes → (∀ s, s ∈ nodes → l_node_id lowest ≤ l_node_id s) →
  l ∈ nodes → members_inv (l_node_id l) m →
  (∀ k, alive_in m k → ∃ s, s ∈ nodes ∧ l_node_id s = k) →
  heartbeat_round nodes l arrivals →
  master_from (it := it) (hear (l_node_id l) arrivals m) (l_node_id l)
  = Some (l_node_id lowest).
Proof.
  intros Hit Hnodes Hlow Hleast Hl Hinv Halive [Harr Hcomplete].
  destruct (hear_round nodes l arrivals m Hnodes Harr Hinv Halive)
    as (Hinv' & Honly & _ & Hheard).
  set (m' := hear (l_node_id l) arrivals m) in *. rewrite Forall_forall in Hnodes.
  assert (∀ s, s ∈ nodes → l_node_id s ≠ l_node_id l → alive_in m' (l_node_id s)) as Hall.
  { intros s Hs Hne.
    destruct (proj1 (Exists_exists _ _) (Hcomplete s Hs Hne)) as (a & Ha & Hhb).
    rewrite Forall_forall in Hheard. destruct (Hheard a Ha) as (s' & Hs' & Hhb' & Ha').
    apply heartbeat_of_id in Hhb; [|by apply Hnodes].
    apply heartbeat_of_id in Hhb'; [|by apply Hnodes].
    assert (l_node_id s = l_node_id s') as -> by congruence. done. }
  apply master_from_eq. split_and!.
  - destruct (decide (l_node_id lowest = l_node_id l)) as [->|Hne]; [by left|right].
    destruct (Hall lowest Hlow Hne) as (n & Hn & Hst).
    destruct (inv_entries _ _ Hinv' _ _ Hn) as [Hkey _]. by exists (l_node_id lowest), n.
  - by apply Hleast.
  - intros k n Hk Hst. destruct (Honly k) as (s & Hs & <-); [by exists n|].
    destruct (inv_entries _ _ Hinv' _ _ Hk) as [-> _]. by apply Hleast.
Qed.
End Agreement.

(** ** Forgotten nodes *)

(** A forgotten node comes back: when a scan has removed a peer that was silent
    for 300 s, the next gossip of a daemon that still lists it inserts it again as
    if it had just been heard, under a made-up name and the gossiping daemon's
    address, and scans keep it for another 300 s. *)
Theorem forgotten_node_returns (it : HashIter Z NodeInfo) self_id suspect dead now from clock
    m k n e times :
  k ≠ self_id → m !! k = Some n → ni_last_seen n ≤ now →
  cleanup_threshold ≤ now - ni_last_seen n → ge_node_id e = k →
  Forall (λ t, clock O ≤ t < clock O + cleanup_threshold) times →
  let forgotten := fd_tick (it := it) self_id suspect dead now m in
  forgotten !! k = None ∧
  ∃ n', fd_ticks (it := it) self_id suspect dead times
          (on_gossip self_id from clock [e] forgotten) !! k = Some n' ∧
    ni_last_seen n' = clock O ∧ ni_hostname n' = placeholder_hostname k ∧ ni_control_addr n' = from.
Proof.
  intros Hk Hn Hseen Hold He Htimes forgotten.
  assert (forgotten !! k = None) as Hgone.
  { unfold forgotten. rewrite lookup_fd_tick, Hn. cbn.
    rewrite node_age_elapsed by done. by rewrite decide_False by lia. }
  split; [done|]. cbn [on_gossip]. subst k.
  pose proof (on_gossip_entry_unknown self_id from (clock O) e forgotten Hk Hgone) as Hlook.
  set (m1 := on_gossip_entry _ _ _ _ _) in *.
  assert (∃ n', m1 !! ge_node_id e = Some n' ∧ ni_last_seen n' = clock O
    ∧ ni_hostname n' = placeholder_hostname (ge_node_id e) ∧ ni_control_addr n' = from) as Hm1
    by by exists (fresh_entry from (clock O) e).
  clearbody m1. clear Hlook Hgone forgotten.
  unfold fd_ticks. revert m1 Hm1.
  induction Htimes as [|t times Ht _ IH]; intros m1 (n' & Hn' & Hls & Hh & Ha); cbn; [by exists n'|].
  apply IH. eexists. rewrite lookup_fd_tick, Hn'. cbn.
  rewrite node_age_elapsed, decide_True by lia. split; [done|].
  rewrite (mark_node_fields suspect dead t n'). by split_and!.
Qed.

(** ** Witnesses *)

Module Witnesses.
Import Simple.
Import Hivebus.Witnesses.

Definition ids : gset Z := {[3; 7]}.

(** Node 7 starts, then node 3; node 3's announcement reaches node 7. *)
Definition c1 : Cluster := {|
  cl_nodes := <[7 := {| nd_local := node 7; nd_hive := hivebus_init |}]> ∅;
  cl_net := (initial_announce (node 7) "1").*2 ++ [] |}.
Definition c2 : Cluster := {|
  cl_nodes := <[3 := {| nd_local := node 3; nd_hive := hivebus_init |}]> (cl_nodes c1);
  cl_net := (initial_announce (node 3) "1").*2 ++ cl_net c1 |}.
Definition nd7 : Node := {|
  nd_local := node 7;
  nd_hive := listen (node 7) (λ _, 9) (V4 0 1) announce_frame hivebus_init |}.
Definition c3 : Cluster := {| cl_nodes := <[7 := nd7]> (cl_nodes c2); cl_net := cl_net c2 |}.

Lemma c3_reachable : cluster_reachable 450 30000 "1" ids c3.
Proof.
  apply (cluster_reachable_step _ _ _ _ c2).
  - apply (cluster_reachable_step _ _ _ _ c1).
    + apply (cluster_reachable_step _ _ _ _ cluster_init); [apply cluster_reachable_init|].
      apply ClusterStart; by_compute.
    + apply ClusterStart; by_compute.
  - apply (ClusterDeliver _ _ _ _ c2 7 {| nd_local := node 7; nd_hive := hivebus_init |});
      [by vm_compute| |by_compute].
    change (announce_frame ∈ cl_net c2). by_compute.
Qed.

Lemma cluster_no_phantoms_witness :
  ∃ master, master_from (it := map_iter) (hv_members (nd_hive nd7)) 7 = Some master
            ∧ master ∈ ids ∧ master ≤ 7.
Proof.
  exact (proj2 (cluster_no_phantoms 450 30000 "1" ids c3 7 nd7 map_iter map_iter_ok c3_reachable
           ltac:(by vm_compute))).
Defined.

Lemma cluster_no_leave_witness :
  ∃ h, FrameHeader.from_bytes (take 576 announce_frame) = Some h ∧ FrameHeader.node_id h ∈ ids
       ∧ (FrameHeader.msg_type h = Some Heartbeat ∨ FrameHeader.msg_type h = Some Announce
          ∨ FrameHeader.msg_type h = Some Gossip).
Proof.
  apply (cluster_no_leave 450 30000 "1" ids c3 announce_frame c3_reachable). by_compute.
Defined.

Lemma heartbeat_round_agreement_witness :
  master_from (it := map_iter) (hear 7 [((λ _, 9), V4 0 1, heartbeat_frame)] ∅) 7 = Some 3.
Proof.
  apply (heartbeat_round_agreement [node 3; node 7] (node 3) (node 7)); try by_compute.
  - apply map_iter_ok.
  - set_solver.
  - intros s [->|[->| ?%not_elem_of_nil]%elem_of_cons]%elem_of_cons; by_compute || done.
  - set_solver.
  - apply members_inv_empty.
  - intros k (n & Hn & _). by rewrite lookup_empty in Hn.
  - assert (heartbeat_of (node 3) heartbeat_frame) as Hhb
      by (exists 0, 2, broadcast; exact heartbeat_sent).
    split.
    + apply Forall_singleton. split; [by_compute|]. exists (node 3).
      split_and!; [constructor|done|exact Hhb].
    + intros s [->|[->| ?%not_elem_of_nil]%elem_of_cons]%elem_of_cons Hne; try done.
      apply Exists_cons_hd. exact Hhb.
Defined.

Lemma forgotten_node_returns_witness :
  ∃ n', fd_ticks (it := map_iter) 7 (from_millis 450) (from_secs 30) [from_secs 600]
          (on_gossip 7 (V4 0 1) (λ _, from_secs 301)
             [{| ge_node_id := 3; ge_incarnation := 5; ge_state := Dead; ge_epoch_ms := 0 |}]
             (fd_tick (it := map_iter) 7 (from_millis 450) (from_secs 30) (from_secs 301)
                sample_members)) !! 3 = Some n'
        ∧ ni_last_seen n' = from_secs 301 ∧ ni_hostname n' = placeholder_hostname 3
        ∧ ni_control_addr n' = V4 0 1.
Proof.
  refine (proj2 (forgotten_node_returns map_iter 7 (from_millis 450) (from_secs 30)
    (from_secs 301) (V4 0 1) (λ _, from_secs 301) sample_members 3 (peer 3 Alive 1000)
    {| ge_node_id := 3; ge_incarnation := 5; ge_state := Dead; ge_epoch_ms := 0 |}
    [from_secs 600] _ _ _ _ _ _)); try done; try by_compute; by vm_compute.
Defined.
End Witnesses.
