(* ===== verification/Calm.v ===== *)
(** * Calm periods of a cluster

    The daemons of [Cluster] during a period in which none starts or stops and every
    datagram that arrives was sent in the period.  A run is a list of what the daemons do
    one after the other, with the clock readings, datagrams and hash orders the
    environment chose; it is compared with the steps of [Cluster].  [calm_run] is what
    such a run keeps as long as heartbeats arrive in time; the theorems it serves are in
    [Stability]. *)

From S2P Require Import Prelude RustStd Wire Proto Control Membership Hivebus Cluster.
Local Open Scope Z_scope.
Implicit Types (m : gmap Z NodeInfo) (n : NodeInfo) (l : Local) (c : Cluster).

(** ** Runs *)

(** What a daemon does: one turn of one of its tasks. *)
Inductive activity :=
| Scan (it : HashIter Z NodeInfo) (now : SystemTime)
| Beat (now : SystemTime)
| Talk (it : HashIter Z NodeInfo) (clock : nat → SystemTime)
| Hear (clock : nat → SystemTime) (from : SocketAddr) (datagram : bytes)
| Serve (env : ControlEnv) (stream : bytes).

Record turn := { tn_node : Z; tn_does : activity }.

(** The node whose heartbeat a datagram is. *)
Definition heartbeat_from (datagram : bytes) : option Z :=
  h ← FrameHeader.from_bytes (take 576 datagram);
  match FrameHeader.msg_type h with Some Heartbeat => Some (FrameHeader.node_id h) | _ => None end.

Section Runs.
Context `{Bincode} `{!Codec HeartbeatPayload, !Codec AnnouncePayload,
                     !Codec LeavePayload, !Codec GossipPayload}.
Context `{!Codec ControlOp, !Codec ControlReply}.
Context (suspect dead : Duration).

(** The datagrams a daemon sends in a turn, and its state afterwards. *)
Definition does (l : Local) (a : activity) (h : Hivebus) : list bytes * Hivebus :=
  match a with
  | Scan it now =>
    ([], {| hv_members := fd_tick (it := it) (l_node_id l) suspect dead now (hv_members h);
            hv_hb_seq := hv_hb_seq h; hv_gossip_seq := hv_gossip_seq h |})
  | Beat now =>
    let '(s, seq) := heartbeat_tick l now (hv_hb_seq h) in
    (s.*2, {| hv_members := hv_members h; hv_hb_seq := seq; hv_gossip_seq := hv_gossip_seq h |})
  | Talk it clock =>
    let '(s, seq) := gossip_tick (it := it) l clock (hv_members h) (hv_gossip_seq h) in
    (s.*2, {| hv_members := hv_members h; hv_hb_seq := hv_hb_seq h; hv_gossip_seq := seq |})
  | Hear clock from datagram => ([], listen l clock from datagram h)
  | Serve env stream =>
    ([], {| hv_members := (control_plane_connection env (hv_members h) stream).1;
            hv_hb_seq := hv_hb_seq h; hv_gossip_seq := hv_gossip_seq h |})
  end.

(** One turn; an id that does not run does nothing. *)
Definition happens (c : Cluster) (t : turn) : Cluster :=
  match cl_nodes c !! tn_node t with
  | None => c
  | Some nd =>
    let '(s, h) := does (nd_local nd) (tn_does t) (nd_hive nd) in
    {| cl_nodes := <[tn_node t := {| nd_local := nd_local nd; nd_hive := h |}]> (cl_nodes c);
       cl_net := s ++ cl_net c |}
  end.

Definition run (c : Cluster) (turns : list turn) : Cluster := foldl happens c turns.

(** The cluster with its network emptied: what was sent before has arrived or is lost. *)
Definition quiet (c : Cluster) : Cluster := {| cl_nodes := cl_nodes c; cl_net := [] |}.

(** What the environment may choose: any enumeration of a hash map, and any datagram
    that was sent. *)
Definition possible (c : Cluster) (t : turn) : Prop :=
  match tn_does t with
  | Scan it _ | Talk it _ => HashIterOk it
  | Beat _ => True
  | Hear _ from datagram => datagram ∈ cl_net c ∧ addr_ok from
  | Serve env _ => HashIterOk (ce_iter env)
      ∧ ∀ nd, cl_nodes c !! tn_node t = Some nd → ce_local env = nd_local nd
  end.

(** ** Hearing heartbeats in time

    [seen j k] is what daemon [j]'s clock read when it last heard a heartbeat of [k]. *)

Definition heard (seen : Z → Z → SystemTime) (t : turn) (j k : Z) : SystemTime :=
  match tn_does t with
  | Hear clock _ datagram =>
    if decide (tn_node t = j ∧ heartbeat_from datagram = Some k) then clock 1%nat else seen j k
  | _ => seen j k
  end.

(** What the tables say at the start. *)
Definition start_seen (c : Cluster) (j k : Z) : SystemTime :=
  default 0 (nd ← cl_nodes c !! j; n ← hv_members (nd_hive nd) !! k; Some (ni_last_seen n)).

(** A scan of [j] comes in time: its clock has not gone back, no node of [known] was
    silent for as long as 300 s, and no node of [live] for longer than the suspect
    threshold. *)
Definition in_time (live known : gset Z) (seen : Z → Z → SystemTime) (t : turn) : Prop :=
  match tn_does t with
  | Scan _ now => ∀ k, k ∈ known → k ≠ tn_node t →
      seen (tn_node t) k ≤ now < seen (tn_node t) k + cleanup_threshold
      ∧ (k ∈ live → now ≤ seen (tn_node t) k + suspect)
  | _ => True
  end.

(** A calm run: every turn is possible and every scan comes in time. *)
Fixpoint calm (live known : gset Z) (seen : Z → Z → SystemTime) (c : Cluster)
    (turns : list turn) : Prop :=
  match turns with
  | [] => True
  | t :: turns => possible c t ∧ in_time live known seen t
      ∧ calm live known (heard seen t) (happens c t) turns
  end.

(** A run is calm when its parts are. *)
Lemma calm_app live known seen c turns1 turns2 :
  calm live known seen c (turns1 ++ turns2) ↔
  calm live known seen c turns1
  ∧ calm live known (foldl heard seen turns1) (run c turns1) turns2.
Proof.
  revert seen c. induction turns1 as [|t turns1 IH]; intros seen c; cbn; [tauto|].
  rewrite IH. unfold run. tauto.
Qed.

Lemma happens_lookup c t j nd :
  cl_nodes (happens c t) !! j = Some nd →
  ∃ nd0, cl_nodes c !! j = Some nd0 ∧ nd_local nd = nd_local nd0 ∧
    nd_hive nd = if decide (j = tn_node t)
                 then (does (nd_local nd0) (tn_does t) (nd_hive nd0)).2
                 else nd_hive nd0.
Proof.
  unfold happens. destruct (cl_nodes c !! tn_node t) as [nd0|] eqn:Ht.
  - destruct (does _ _ _) as [s h] eqn:Hd. cbn.
    intros [[<- <-]|[Hne Hj]]%lookup_insert_Some.
    + exists nd0. rewrite decide_True by done. by rewrite Hd.
    + exists nd. by rewrite decide_False by congruence.
  - intros Hj. exists nd. by rewrite decide_False by congruence.
Qed.

Lemma happens_dom c t : dom (cl_nodes (happens c t)) = dom (cl_nodes c).
Proof.
  unfold happens. destruct (cl_nodes c !! tn_node t) as [nd|] eqn:Ht; [|done].
  destruct (does _ _ _). cbn. rewrite dom_insert_L.
  apply elem_of_dom_2 in Ht. set_solver.
Qed.

Lemma run_dom c turns : dom (cl_nodes (run c turns)) = dom (cl_nodes c).
Proof.
  unfold run. revert c. induction turns as [|t turns IH]; intros c; cbn; [done|].
  rewrite IH. apply happens_dom.
Qed.

(** ** Runs are runs of the cluster *)

Context (version : string) (ids : gset Z).

Lemma happens_step c t :
  possible c t → happens c t = c ∨ cluster_step suspect dead version ids c (happens c t).
Proof.
  intros Hp. unfold happens, possible in *. destruct t as [j a]. cbn [tn_node tn_does] in *.
  destruct (cl_nodes c !! j) as [nd|] eqn:Hj; [right|by left].
  destruct a as [it now|now|it clock|clock from dg|env stream]; cbn [does].
  - apply (ClusterRun _ _ _ _ c j nd [] _ Hj). by apply (StepScan _ _ _ _ it now).
  - pose proof (StepHeartbeat (nd_local nd) suspect dead (nd_hive nd) now) as Hstep.
    destruct (heartbeat_tick _ _ _) as [s seq]. exact (ClusterRun _ _ _ _ c j nd s _ Hj Hstep).
  - pose proof (StepGossip (nd_local nd) suspect dead (nd_hive nd) it clock Hp) as Hstep.
    destruct (gossip_tick _ _ _ _) as [s seq]. exact (ClusterRun _ _ _ _ c j nd s _ Hj Hstep).
  - destruct Hp as [Hin Hfrom]. exact (ClusterDeliver _ _ _ _ c j nd clock from dg Hj Hin Hfrom).
  - destruct Hp as [Hit Henv].
    apply (ClusterRun _ _ _ _ c j nd [] _ Hj). apply StepControl; [by apply Henv|done].
Qed.
End Runs.

(** ** What a calm run keeps

    [Φ k s] is what is wanted of every report that node [k] is in state [s], in a table
    or in a gossip frame. *)

Section Keeps.
Context `{Bincode} `{!Codec HeartbeatPayload, !Codec AnnouncePayload,
                     !Codec LeavePayload, !Codec GossipPayload}.
Context `{!CodecLaws HeartbeatPayload, !CodecLaws AnnouncePayload,
          !CodecLaws LeavePayload, !CodecLaws GossipPayload}.
Context `{!Codec ControlOp, !Codec ControlReply}.
Context (suspect dead : Duration) (version : string) (ids live known : gset Z).
Context (Φ : Z → NodeState → Prop).
Hypothesis Φ_live : ∀ k s, k ∈ live → Φ k s ↔ s = Alive.
Hypothesis Φ_gone : ∀ k s, k ∉ live → Φ k s → Φ k Suspect ∧ Φ k Dead.
Hypothesis thresholds : suspect ≤ dead ∧ suspect < cleanup_threshold.

(** A datagram of the period: a heartbeat or a gossip frame of a living node. *)
Definition calm_frame (datagram : bytes) : Prop :=
  ∃ h, FrameHeader.from_bytes (take 576 datagram) = Some h ∧ FrameHeader.node_id h ∈ live ∧
  match FrameHeader.msg_type h with
  | Some Heartbeat =>
    is_ok (decode_from_slice (A := HeartbeatPayload) (drop 4 (take 576 datagram))) = true
  | Some Gossip => ∀ pl r,
    decode_from_slice (A := GossipPayload) (drop 4 (take 576 datagram)) = Ok (pl, r) →
    Forall (λ e, Φ (ge_node_id e) (ge_state e)) (gp_entries pl)
  | _ => False
  end.

(** A table of [j]: its reports are wanted ones, and the nodes of [known] are in it,
    last heard when [seen] says. *)
Definition calm_table (j : Z) (seen : Z → SystemTime) (m : gmap Z NodeInfo) : Prop :=
  map_Forall (λ k n, Φ k (ni_state n)) m ∧
  ∀ k, k ∈ known → k ≠ j → ∃ n, m !! k = Some n ∧ ni_last_seen n = seen k.

Lemma calm_table_insert j seen seen' m k n' :
  calm_table j seen m → Φ k (ni_state n') → (k ∈ known → ni_last_seen n' = seen' k) →
  (∀ i, i ≠ k → i ≠ j → seen' i = seen i) →
  calm_table j seen' (<[k := n']> m).
Proof.
  intros [Hst Hseen] Hn' Hk Hi. split; [by apply map_Forall_insert_2|].
  intros i Hin Hne. destruct (decide (i = k)) as [->|Hik].
  - exists n'. rewrite lookup_insert_eq. split; [done|by apply Hk].
  - rewrite lookup_insert_ne, Hi by done. by apply Hseen.
Qed.

Lemma calm_heartbeat j seen seen' m k from pl t1 t2 :
  k ∈ live → seen' k = t2 → (∀ i, i ≠ k → i ≠ j → seen' i = seen i) →
  calm_table j seen m → calm_table j seen' (on_heartbeat k from pl t1 t2 m).
Proof.
  intros Hk Ht Hi Hm. unfold on_heartbeat. eapply calm_table_insert; [done| | |done].
  - by apply Φ_live.
  - by intros _.
Qed.

Lemma calm_gossip j seen m from clock es :
  Forall (λ e, Φ (ge_node_id e) (ge_state e)) es →
  calm_table j seen m → calm_table j seen (on_gossip j from clock es m).
Proof.
  intros Hes. revert clock m. induction Hes as [|e es He _ IH]; intros clock m Hm; cbn; [done|].
  apply IH. unfold on_gossip_entry. destruct (Z.eqb_spec (ge_node_id e) j) as [|Hne]; [done|].
  eapply (calm_table_insert _ seen); [done| | |done].
  - destruct (m !! ge_node_id e) as [n|] eqn:Hn; cbn.
    + destruct (_ <=? _); cbn; [done|]. by apply (proj1 Hm).
    + by rewrite Z.leb_refl.
  - intros Hk. destruct (proj2 Hm _ Hk Hne) as (n & -> & Hseen). cbn. by destruct (_ <=? _).
Qed.

(** A scan finds no node of [live] silent for longer than the suspect threshold and no
    node of [known] silent for 300 s. *)
Definition punctual_scan (j : Z) (seen : Z → SystemTime) (now : SystemTime)
    (m : gmap Z NodeInfo) : Prop :=
  (∀ k n, k ∈ live → m !! k = Some n → ni_last_seen n ≤ now ≤ ni_last_seen n + suspect) ∧
  ∀ k, k ∈ known → k ≠ j → seen k ≤ now < seen k + cleanup_threshold.

Lemma calm_scan (it : HashIter Z NodeInfo) j seen m now :
  punctual_scan j seen now m → calm_table j seen m →
  calm_table j seen (fd_tick (it := it) j suspect dead now m).
Proof.
  intros [Hlive Hknown] [Hst Hseen]. split.
  - intros k n' (n & Hn & _ & _ & _ & ->)%fd_tick_last_seen. pose proof (Hst _ _ Hn) as HΦ.
    cbn in HΦ. rewrite mark_node_state. destruct (decide (k ∈ live)) as [Hk|Hk].
    + destruct (Hlive k n Hk Hn) as [Hle Hlate]. rewrite node_age_elapsed by done.
      by rewrite (proj2 (Z.ltb_ge dead _)), (proj2 (Z.ltb_ge suspect _)) by lia.
    + destruct (Φ_gone _ _ Hk HΦ). by repeat case_match.
  - intros k Hk Hne. destruct (Hseen k Hk Hne) as (n & Hn & Hs). pose proof (Hknown k Hk Hne).
    eexists. rewrite lookup_fd_tick, Hn. cbn [mbind option_bind].
    rewrite node_age_elapsed, decide_True by lia. split; [done|].
    by rewrite (mark_node_fields suspect dead now n).
Qed.

(** Scans in time are punctual. *)
Lemma in_time_punctual j seen it now m :
  live ⊆ known → m !! j = None → calm_table j (seen j) m →
  in_time suspect live known seen {| tn_node := j; tn_does := Scan it now |} →
  punctual_scan j (seen j) now m.
Proof.
  intros Hsub Hself [_ Hseen] Htime. unfold in_time in Htime. cbn in Htime. split.
  - intros k n Hk Hn. assert (k ≠ j) as Hne by congruence.
    destruct (Hseen k (Hsub _ Hk) Hne) as (n' & Hn' & Hs). simplify_eq. rewrite Hs.
    destruct (Htime k (Hsub _ Hk) Hne) as [[? _] Hlate]. auto.
  - intros k Hk Hne. by apply Htime.
Qed.

Lemma calm_hear j seen seen' m clock from dg :
  calm_frame dg → calm_table j seen m →
  (∀ k, k ≠ j → seen' k = if decide (heartbeat_from dg = Some k) then clock 1%nat else seen k) →
  calm_table j seen' (listener_frame j clock from dg m).1.
Proof.
  intros (h & Hh & Hlive & Hty) Hm Hseen.
  assert (∀ m', calm_table j seen m' → (∀ k, k ≠ j → heartbeat_from dg ≠ Some k) →
            calm_table j seen' m') as Hsame.
  { intros m' [Hst' Hk'] Hno. split; [done|]. intros k Hk Hne.
    rewrite Hseen, decide_False by auto. by apply Hk'. }
  unfold listener_frame. rewrite Hh. unfold heartbeat_from in *. rewrite Hh in *.
  cbn [mbind option_bind] in *.
  destruct (Z.eqb_spec (FrameHeader.node_id h) j) as [Hj|Hj].
  { apply Hsame; [done|]. intros k Hk. repeat case_match; congruence. }
  destruct (FrameHeader.msg_type h) as [[]|]; try done.
  - destruct (decode_from_slice _) as [[pl r]|]; [|done]. cbn [fst].
    apply (calm_heartbeat _ seen); [done| | |done].
    + by rewrite Hseen, decide_True.
    + intros i Hi Hij. by rewrite Hseen, decide_False by congruence.
  - apply Hsame; [|done]. destruct (decode_from_slice _) as [[pl r]|]; [|done].
    apply calm_gossip; [by eapply Hty|done].
Qed.

(** The frames a daemon of the period sends. *)
Lemma calm_frame_built {P} `{!Codec P, !WireOk P, !CodecLaws P} t seq id (payload : P) buf :
  u16 id → id ∈ live → wire_ok payload →
  encode_frame (FrameHeader.new t seq id) payload = Ok buf →
  match t with
  | Heartbeat => is_ok (decode_from_slice (A := HeartbeatPayload) (drop 4 buf)) = true
  | Gossip => ∀ pl r, decode_from_slice (A := GossipPayload) (drop 4 buf) = Ok (pl, r) →
      Forall (λ e, Φ (ge_node_id e) (ge_state e)) (gp_entries pl)
  | _ => False
  end → calm_frame buf.
Proof.
  intros Hid Hin Hok Hf Ht.
  destruct (listener_frame_built _ _ _ _ _ Hid Hf) as (enc & _ & Htake & _ & Hhdr & Hmt & Hnid).
  eexists. rewrite Htake. split; [done|]. rewrite Hnid. split; [done|]. rewrite Hmt. by destruct t.
Qed.

Lemma calm_beat l now seq :
  local_ok l → l_node_id l ∈ live → Forall calm_frame (heartbeat_tick l now seq).1.*2.
Proof.
  intros (Hid & Hinc & _) Hin. cbn.
  destruct (encode_frame _ _) as [buf|] eqn:Hf; [|constructor].
  assert (calm_frame buf).
  { match type of Hf with encode_frame _ ?p = _ =>
      assert (wire_ok p) as Hok by (split; [done|apply epoch_ms_u64]) end.
    apply (calm_frame_built _ _ _ _ _ Hid Hin Hok Hf).
    destruct (listener_frame_built _ _ _ _ _ Hid Hf) as (enc & Henc & _ & -> & _).
    by rewrite (codec_roundtrip _ _ Hok Henc). }
  cbn. by repeat constructor.
Qed.

Lemma calm_talk (it : HashIter Z NodeInfo) l clock m seq seen :
  HashIterOk it → local_ok l → l_node_id l ∈ live →
  members_inv (l_node_id l) m → calm_table (l_node_id l) seen m →
  Forall calm_frame (gossip_tick (it := it) l clock m seq).1.*2.
Proof.
  intros Hit (Hid & _) Hin Hinv [Hst _]. unfold gossip_tick.
  destruct (gossip_entries clock m) as [|e0 es0] eqn:Hes; [constructor|]. cbn.
  destruct (encode_frame _ _) as [buf|] eqn:Hf; [|constructor]. apply Forall_singleton.
  assert (Forall (λ e, Φ (ge_node_id e) (ge_state e) ∧ wire_ok e) (e0 :: es0)) as [Hall Hok]%Forall_and.
  { apply Forall_forall. intros e He. rewrite <-Hes in He.
    apply elem_of_gossip_entries in He as (k & n & Hk & Hge & Hinc & Hs & Hms); [|done].
    destruct (inv_entries _ _ Hinv _ _ Hk) as [Hkey (? & ? & _)].
    rewrite Hge, Hs, Hkey. split; [exact (Hst _ _ Hk)|].
    unfold wire_ok, GossipEntry_wire. by rewrite Hge, Hinc. }
  apply (calm_frame_built _ _ _ {| gp_entries := e0 :: es0 |} _ Hid Hin Hok Hf).
  destruct (listener_frame_built _ _ _ _ _ Hid Hf) as (enc & Henc & _ & -> & _).
  intros pl r. rewrite (codec_roundtrip {| gp_entries := e0 :: es0 |} _ Hok Henc). by intros [= <- _].
Qed.

(** ** The invariant of a calm run *)

Record calm_cluster (seen : Z → Z → SystemTime) (c : Cluster) : Prop := {
  cc_inv : cluster_inv ids c;
  cc_live : dom (cl_nodes c) = live;
  cc_net : Forall calm_frame (cl_net c);
  cc_tables j nd : cl_nodes c !! j = Some nd → calm_table j (seen j) (hv_members (nd_hive nd));
}.

(** What is asked of a turn: a scan is punctual. *)
Definition punctual (seen : Z → Z → SystemTime) (c : Cluster) (t : turn) : Prop :=
  match tn_does t with
  | Scan _ now => ∀ nd, cl_nodes c !! tn_node t = Some nd →
      punctual_scan (tn_node t) (seen (tn_node t)) now (hv_members (nd_hive nd))
  | _ => True
  end.

Lemma in_time_turn seen c t :
  live ⊆ known → calm_cluster seen c → in_time suspect live known seen t → punctual seen c t.
Proof.
  intros Hsub Hc Htime. unfold punctual. destruct t as [j [it now| | | |]]; try done. intros nd Hj.
  destruct (proj1 (cc_inv _ _ Hc) _ _ Hj) as (Hid & _ & _ & (Hm & _) & _). rewrite Hid in Hm.
  eapply in_time_punctual; [done|apply (inv_no_self _ _ Hm)|by apply (cc_tables _ _ Hc)|done].
Qed.

(** One turn at the daemon whose turn it is. *)
Lemma calm_does seen t c nd :
  calm_cluster seen c → possible c t → punctual seen c t →
  cl_nodes c !! tn_node t = Some nd →
  let '(s, h) := does suspect dead (nd_local nd) (tn_does t) (nd_hive nd) in
  Forall calm_frame s ∧ calm_table (tn_node t) (heard seen t (tn_node t)) (hv_members h).
Proof.
  intros [[Hnodes _] Hdom Hnet Htab] Hp Hin Hj. pose proof (Htab _ _ Hj) as Hm.
  destruct (Hnodes _ _ Hj) as (Hid & _ & Hok & (Hinv & _) & _).
  assert (l_node_id (nd_local nd) ∈ live) as Hlive
    by (rewrite <-Hdom, Hid; by eapply elem_of_dom_2).
  destruct t as [j a]. cbn [tn_node tn_does] in *. subst j.
  destruct a as [it now|now|it clock|clock from dg|env stream]; unfold possible, punctual in *;
    cbn [does tn_does tn_node] in *.
  - split; [constructor|]. apply calm_scan; [by apply Hin|exact Hm].
  - pose proof (calm_beat (nd_local nd) now (hv_hb_seq (nd_hive nd)) Hok Hlive) as Hs.
    destruct (heartbeat_tick _ _ _) as [s seq]. by split.
  - pose proof (calm_talk it (nd_local nd) clock _ (hv_gossip_seq (nd_hive nd)) _ Hp Hok Hlive Hinv Hm) as Hs.
    destruct (gossip_tick _ _ _ _) as [s seq]. by split.
  - split; [constructor|]. destruct Hp as [Hdg Hfrom]. rewrite Forall_forall in Hnet.
    unfold listen. cbn [hv_members]. eapply calm_hear; [by apply Hnet|exact Hm|].
    intros k Hk. unfold heard. cbn. destruct (decide (heartbeat_from dg = Some k)).
    + by rewrite decide_True.
    + by rewrite decide_False by tauto.
  - split; [constructor|]. cbn [hv_members]. by rewrite control_members.
Qed.

Lemma calm_happens seen t c :
  calm_cluster seen c → possible c t → punctual seen c t →
  calm_cluster (heard seen t) (happens suspect dead c t).
Proof.
  intros Hc Hp Hin. pose proof Hc as [Hinv Hdom Hnet Htab]. split.
  - destruct (happens_step suspect dead version ids c t Hp) as [->|Hstep]; [done|].
    by eapply cluster_step_inv.
  - by rewrite happens_dom.
  - unfold happens. destruct (cl_nodes c !! tn_node t) as [nd|] eqn:Ht; [|done].
    pose proof (calm_does seen t c nd Hc Hp Hin Ht) as Hd.
    destruct (does _ _ _ _ _) as [s h]. destruct Hd as [Hd _]. apply Forall_app. by split.
  - intros j nd (nd0 & Hj & _ & ->)%happens_lookup. case_decide as Heq; [subst j|].
    + pose proof (calm_does seen t c nd0 Hc Hp Hin Hj) as Hd.
      destruct (does _ _ _ _ _) as [s h]. by destruct Hd.
    + destruct (Htab _ _ Hj) as [Hst Hseen]. split; [done|]. intros k Hk Hne.
      destruct (Hseen k Hk Hne) as (n & Hn & Hs). exists n. split; [done|]. rewrite Hs.
      unfold heard. destruct (tn_does t); try done. by rewrite decide_False by (intros [? _]; congruence).
Qed.

Lemma calm_run seen c turns :
  live ⊆ known → calm_cluster seen c → calm suspect dead live known seen c turns →
  calm_cluster (foldl heard seen turns) (run suspect dead c turns).
Proof.
  intros Hsub. revert seen c. induction turns as [|t turns IH]; intros seen c Hc; cbn; [done|].
  intros (Hp & Hin & Hrest). apply IH; [|done]. apply calm_happens; [done..|by apply in_time_turn].
Qed.
End Keeps.
