(* ===== verification/Ghost.v ===== *)
(** * A leader that is gone

    [Stability] has what the daemons agree on right after their scans.  Between scans a
    daemon that has stopped can be elected again: a report of its last incarnation makes it
    [Alive] wherever it arrives, whatever the scans found there before, and the report can
    be relayed from table to table for as long as the daemons talk to each other. *)

From S2P Require Import Prelude RustStd Wire Proto Control Membership Gossip Hivebus Cluster Calm.
Local Open Scope Z_scope.
Implicit Types (m : gmap Z NodeInfo) (n : NodeInfo) (l : Local) (c : Cluster).

Section Ghost.
Context `{Bincode} `{!Codec HeartbeatPayload, !Codec AnnouncePayload,
                     !Codec LeavePayload, !Codec GossipPayload}.
Context `{!Codec ControlOp, !Codec ControlReply}.
Context (suspect dead : Duration).

(** ** Rumours *)

(** What a daemon sends in a turn. *)
Definition said (c : Cluster) (t : turn) : list bytes :=
  match cl_nodes c !! tn_node t with
  | Some nd => (does suspect dead (nd_local nd) (tn_does t) (nd_hive nd)).1
  | None => []
  end.

(** In [rumour i c k turns] a report goes from the table of [i] to the table of [k]: in
    each leg of the way a daemon gossips, anything may happen, and the next daemon then
    receives that gossip. *)
Inductive rumour : Z → Cluster → Z → list turn → Prop :=
| RumourHere i c : rumour i c i []
| RumourLeg i j k c it clock_t mid clock_h from datagram rest :
  i ≠ j → j ∈ dom (cl_nodes c) →
  let talk := {| tn_node := i; tn_does := Talk it clock_t |} in
  datagram ∈ said c talk →
  let leg := talk :: mid ++ [{| tn_node := j; tn_does := Hear clock_h from datagram |}] in
  rumour j (run suspect dead c leg) k rest →
  rumour i c k (leg ++ rest).

(** ** Reports about a node that does not run *)

Context `{!CodecLaws HeartbeatPayload, !CodecLaws AnnouncePayload,
          !CodecLaws LeavePayload, !CodecLaws GossipPayload}.
Context (version : string) (ids : gset Z) (ghost inc : Z).

Definition entries_upto (es : list GossipEntry) : Prop :=
  Forall (λ e, ge_node_id e = ghost → ge_incarnation e ≤ inc) es.

(** A heartbeat or gossip frame of another node, with no larger incarnation of [ghost]. *)
Definition frame_upto (datagram : bytes) : Prop :=
  ∃ h, FrameHeader.from_bytes (take 576 datagram) = Some h ∧ FrameHeader.node_id h ≠ ghost ∧
  match FrameHeader.msg_type h with
  | Some Heartbeat => True
  | Some Gossip => ∀ pl r,
    decode_from_slice (A := GossipPayload) (drop 4 (take 576 datagram)) = Ok (pl, r) →
    entries_upto (gp_entries pl)
  | _ => False
  end.

Definition table_upto m : Prop := ∀ n, m !! ghost = Some n → ni_incarnation n ≤ inc.

(** The table holds [ghost] [Alive] with that incarnation. *)
Definition haunted m : Prop :=
  ∃ n, m !! ghost = Some n ∧ ni_state n = Alive ∧ ni_incarnation n = inc.

Record upto (c : Cluster) : Prop := {
  up_inv : cluster_inv ids c;
  up_gone : ghost ∉ dom (cl_nodes c);
  up_net : Forall frame_upto (cl_net c);
  up_tables j nd : cl_nodes c !! j = Some nd → table_upto (hv_members (nd_hive nd));
}.

Lemma merge_entries_upto es n :
  Forall (λ e, ge_incarnation e ≤ inc) es → ni_incarnation n ≤ inc →
  ni_incarnation (merge_entries es n) ≤ inc.
Proof.
  intros Hes. revert n. induction Hes as [|e es He _ IH]; intros n Hn; [done|].
  apply IH. unfold merge_entry. by destruct (_ <=? _).
Qed.

Lemma gossip_upto self_id from clock es m :
  ghost ≠ self_id → entries_upto es → table_upto m → table_upto (on_gossip self_id from clock es m).
Proof.
  intros Hne Hes Hm n' Hn'.
  assert (Forall (λ e, ge_incarnation e ≤ inc) (entries_for ghost es)) as Hall.
  { apply Forall_forall. intros e [He Hin]%list_elem_of_filter. unfold entries_upto in Hes.
    rewrite Forall_forall in Hes. by apply Hes. }
  destruct (m !! ghost) as [n|] eqn:Hn.
  - rewrite (on_gossip_known _ _ _ _ _ _ _ Hne Hn) in Hn'. injection Hn' as <-.
    apply merge_entries_upto; [done|by apply Hm].
  - pose proof (on_gossip_unknown self_id from clock es m ghost Hne Hn) as Hres.
    destruct (entries_for ghost es) as [|e rest]; [congruence|].
    destruct Hres as [now Hres]. rewrite Hres in Hn'. injection Hn' as <-.
    apply Forall_cons in Hall as [He Hall]. by apply merge_entries_upto.
Qed.

Lemma hear_upto self_id clock from datagram m :
  ghost ≠ self_id → frame_upto datagram → table_upto m →
  table_upto (listener_frame self_id clock from datagram m).1.
Proof.
  intros Hne (h & Hh & Hnid & Hty) Hm. unfold listener_frame. rewrite Hh.
  destruct (_ =? _); [done|]. destruct (FrameHeader.msg_type h) as [[]|]; try done.
  - destruct (decode_from_slice _) as [[pl r]|]; [|done]. intros n. cbn. unfold on_heartbeat.
    rewrite lookup_insert_ne by done. apply Hm.
  - destruct (decode_from_slice _) as [[pl r]|]; [|done]. apply gossip_upto; [done|by eapply Hty|done].
Qed.

Lemma scan_upto (it : HashIter Z NodeInfo) self_id now m :
  table_upto m → table_upto (fd_tick (it := it) self_id suspect dead now m).
Proof.
  intros Hm n'. rewrite lookup_fd_tick. destruct (m !! ghost) as [n|] eqn:Hn; [|done]. cbn.
  case_decide; [|done]. intros [= <-]. rewrite (mark_node_fields suspect dead now n). exact (Hm n Hn).
Qed.

Lemma built_upto {P} `{!Codec P} t seq id (payload : P) buf :
  u16 id → id ≠ ghost → encode_frame (FrameHeader.new t seq id) payload = Ok buf →
  match t with
  | Heartbeat => True
  | Gossip => ∀ pl r, decode_from_slice (A := GossipPayload) (drop 4 buf) = Ok (pl, r) →
              entries_upto (gp_entries pl)
  | _ => False
  end → frame_upto buf.
Proof.
  intros Hid Hne Hf Ht.
  destruct (listener_frame_built _ _ _ _ _ Hid Hf) as (enc & _ & Htake & _ & Hhdr & Hmt & Hnid).
  eexists. rewrite Htake. split; [done|]. rewrite Hnid. split; [done|]. rewrite Hmt. by destruct t.
Qed.

Lemma talk_upto (it : HashIter Z NodeInfo) l clock m seq :
  HashIterOk it → u16 (l_node_id l) → l_node_id l ≠ ghost → members_inv (l_node_id l) m →
  table_upto m → Forall frame_upto (gossip_tick (it := it) l clock m seq).1.*2.
Proof.
  intros Hit Hid Hne Hinv Hm. pose proof (gossip_entries_reflect it (l_node_id l) clock m) as Hes.
  unfold gossip_tick. destruct (gossip_entries clock m) as [|e0 es0]; [constructor|]. cbn.
  destruct (encode_frame _ _) as [buf|] eqn:Hf; [|constructor]. apply Forall_singleton.
  assert (wire_ok {| gp_entries := e0 :: es0 |}) as Hok.
  { apply Forall_forall. intros e He. by destruct (Hes e Hit Hinv He) as (? & _ & _ & _ & ?). }
  apply (built_upto _ _ _ _ _ Hid Hne Hf).
  destruct (listener_frame_built _ _ _ _ _ Hid Hf) as (enc & Henc & _ & -> & _).
  intros pl r. rewrite (codec_roundtrip _ _ Hok Henc). intros [= <- _]. apply Forall_forall.
  intros e He Heq. destruct (Hes e Hit Hinv He) as (n & Hn & -> & _). apply Hm. by rewrite <-Heq.
Qed.

Lemma upto_does c t nd :
  upto c → possible c t → cl_nodes c !! tn_node t = Some nd →
  let '(s, h) := does suspect dead (nd_local nd) (tn_does t) (nd_hive nd) in
  Forall frame_upto s ∧ table_upto (hv_members h).
Proof.
  intros [[Hnodes _] Hgone Hnet Htab] Hp Hj. pose proof (Htab _ _ Hj) as Hm.
  destruct (Hnodes _ _ Hj) as (Hid & _ & (Hu16 & _) & (Hinv & _) & _).
  assert (l_node_id (nd_local nd) ≠ ghost) as Hne
    by (rewrite Hid; intros <-; by eapply Hgone, elem_of_dom_2).
  destruct t as [j a]. cbn [tn_node tn_does] in *.
  destruct a as [it now|now|it clock|clock from dg|env stream]; unfold possible in *;
    cbn [does tn_does tn_node] in *.
  - split; [constructor|by apply scan_upto].
  - cbn. destruct (encode_frame _ _) as [buf|] eqn:Hf; [|by split].
    pose proof (built_upto _ _ _ _ _ Hu16 Hne Hf I). split; [by repeat constructor|done].
  - pose proof (talk_upto it (nd_local nd) clock _ (hv_gossip_seq (nd_hive nd)) Hp Hu16 Hne Hinv Hm) as Hs.
    destruct (gossip_tick _ _ _ _) as [s seq]. by split.
  - split; [constructor|]. destruct Hp as [Hdg _]. rewrite Forall_forall in Hnet.
    apply hear_upto; [done|by apply Hnet|done].
  - split; [constructor|]. cbn [hv_members]. by rewrite control_members.
Qed.

Lemma upto_happens c t : upto c → possible c t → upto (happens suspect dead c t).
Proof.
  intros Hc Hp. split.
  - destruct (happens_step suspect dead version ids c t Hp) as [->|Hstep]; [by apply Hc|].
    eapply cluster_step_inv; [exact Hstep|apply Hc].
  - rewrite happens_dom. apply Hc.
  - pose proof (up_net _ Hc) as Hnet. unfold happens.
    destruct (cl_nodes c !! tn_node t) as [nd|] eqn:Ht; [|done].
    pose proof (upto_does c t nd Hc Hp Ht) as Hd.
    destruct (does _ _ _ _ _) as [s h]. destruct Hd as [Hd _]. apply Forall_app. by split.
  - intros j nd (nd0 & Hj & _ & ->)%happens_lookup. case_decide as Heq; [subst j|by eapply up_tables].
    pose proof (upto_does c t nd0 Hc Hp Hj) as Hd. destruct (does _ _ _ _ _) as [s h]. by destruct Hd.
Qed.

Lemma upto_run live known seen c turns :
  upto c → calm suspect dead live known seen c turns → upto (run suspect dead c turns).
Proof.
  revert seen c. induction turns as [|t turns IH]; intros seen c Hc; [done|]. cbn.
  intros (Hp & _ & Hrest). eapply IH; [by apply upto_happens|done].
Qed.

(** ** The way of a rumour *)

Definition haunts (c : Cluster) (j : Z) : Prop :=
  ∃ nd, cl_nodes c !! j = Some nd ∧ haunted (hv_members (nd_hive nd)).

(** Who receives the gossip of a haunted table is haunted, whatever happened since it was
    sent. *)
Lemma hear_haunted (it : HashIter Z NodeInfo) l clock_t m_s seq dst datagram self_id clock from m :
  HashIterOk it → members_inv (l_node_id l) m_s → u16 (l_node_id l) → l_node_id l ≠ self_id →
  ghost ≠ self_id → (dst, datagram) ∈ (gossip_tick (it := it) l clock_t m_s seq).1 →
  haunted m_s → table_upto m → haunted (listener_frame self_id clock from datagram m).1.
Proof.
  intros Hit Hinv Hid Hne Hgh Hin (n_s & Hn_s & Hst & Hi) Hm.
  pose proof (gossip_delivery it l clock_t m_s seq dst datagram self_id clock from m ghost
    Hit Hinv Hid Hne Hgh Hin) as Hd. cbv zeta in Hd. rewrite Hn_s in Hd.
  destruct Hd as (n' & Hn' & Hd). exists n'. split; [done|].
  destruct (m !! ghost) as [n|] eqn:Hn.
  - specialize (Hm n Hn). rewrite (proj2 (Z.leb_le _ _)) in Hd by lia. subst n'. by rewrite <-Hst, <-Hi.
  - destruct Hd as (-> & -> & _). done.
Qed.

Lemma leg_haunts live known seen c i j it clock_t mid clock_h from datagram :
  let talk := {| tn_node := i; tn_does := Talk it clock_t |} in
  let leg := talk :: mid ++ [{| tn_node := j; tn_does := Hear clock_h from datagram |}] in
  upto c → calm suspect dead live known seen c leg → haunts c i →
  i ≠ j → j ∈ dom (cl_nodes c) → datagram ∈ said c talk →
  haunts (run suspect dead c leg) j.
Proof.
  intros talk leg Hc Hcalm (nd & Hi & Hhaunted) Hij Hj Hsaid.
  assert (upto (run suspect dead (happens suspect dead c talk) mid)) as Hup.
  { unfold leg in Hcalm. cbn in Hcalm. destruct Hcalm as (Hp & _ & [Hmid _]%calm_app).
    eapply upto_run; [by apply upto_happens|done]. }
  assert (run suspect dead c leg = happens suspect dead (run suspect dead (happens suspect dead c talk) mid)
    {| tn_node := j; tn_does := Hear clock_h from datagram |}) as ->.
  { unfold leg, run. cbn. by rewrite foldl_app. }
  set (c1 := run suspect dead (happens suspect dead c talk) mid) in *.
  assert (is_Some (cl_nodes c1 !! j)) as [nd1 Hj1].
  { apply elem_of_dom. unfold c1. by rewrite run_dom, happens_dom. }
  unfold haunts, happens. cbn [tn_node tn_does]. rewrite Hj1. cbn [does].
  eexists. split; [apply lookup_insert_eq|]. cbn [nd_hive hv_members listen].
  destruct (proj1 (up_inv _ Hc) _ _ Hi) as (Hid & _ & (Hu16 & _) & (Hinv & _) & _).
  destruct (proj1 (up_inv _ Hup) _ _ Hj1) as (Hid1 & _).
  unfold said, talk in Hsaid. cbn [tn_node tn_does] in Hsaid. rewrite Hi in Hsaid. cbn [does] in Hsaid.
  destruct (gossip_tick (it := it) _ _ _ _) as [s seq] eqn:Hs.
  apply list_elem_of_fmap in Hsaid as ([dst dg] & -> & Hin).
  eapply (hear_haunted it); [..|done|by eapply up_tables].
  - by destruct Hcalm as (Hp & _).
  - exact Hinv.
  - done.
  - by rewrite Hid, Hid1.
  - rewrite Hid1. intros <-. by eapply (up_gone _ Hup), elem_of_dom_2.
  - by rewrite Hs.
Qed.

Lemma rumour_haunts live known seen c i k turns :
  upto c → calm suspect dead live known seen c turns → haunts c i → rumour i c k turns →
  haunts (run suspect dead c turns) k.
Proof.
  intros Hc Hcalm Hi Hr. revert seen Hc Hcalm Hi.
  induction Hr as [i c|i j k c it clock_t mid clock_h from datagram rest Hij Hj talk Hsaid leg Hr IH];
    intros seen Hc Hcalm Hi; [done|].
  apply calm_app in Hcalm as [Hleg Hrest]. unfold run in *. rewrite foldl_app.
  eapply IH; [by eapply upto_run|exact Hrest|by eapply leg_haunts].
Qed.

(** C8: a leader that is gone can lead on: as long as gossip is relayed, a daemon that
    has stopped stays elected.  If some daemon holds it [Alive], with the incarnation it had
    when it stopped, then wherever a chain of gossip from there arrives, however long
    the chain is and however late and however often the daemons on its way have scanned
    their tables in between, the daemon it arrives at elects the stopped one, or another
    with a smaller id that does not run either. *)
Theorem ghost_leader live known seen c i k turns nd (it : HashIter Z NodeInfo) :
  cluster_reachable suspect dead version ids c →
  ghost ∉ dom (cl_nodes c) → (∀ j, j ∈ dom (cl_nodes c) → ghost < j) →
  (∀ j nd, cl_nodes c !! j = Some nd → table_upto (hv_members (nd_hive nd))) →
  haunts c i → calm suspect dead live known seen (quiet c) turns → rumour i (quiet c) k turns →
  cl_nodes (run suspect dead (quiet c) turns) !! k = Some nd → HashIterOk it →
  ∃ boss, master_from (it := it) (hv_members (nd_hive nd)) k = Some boss ∧ boss ≤ ghost
          ∧ boss ∉ dom (cl_nodes (run suspect dead (quiet c) turns)).
Proof.
  intros Hreach Hgone Hleast Htab Hi Hcalm Hr Hk Hit.
  assert (upto (quiet c)) as Hup.
  { split; [|done..|exact Htab]. split; [|constructor]. apply (cluster_reachable_inv _ _ _ _ _ Hreach). }
  destruct (rumour_haunts live known seen _ i k turns Hup Hcalm Hi Hr) as (nd' & Hk' & n & Hn & Hst & _).
  rewrite Hk in Hk'. injection Hk' as <-.
  destruct (master_from_is_master (hv_members (nd_hive nd)) k) as (boss & -> & (_ & _ & Hleq)).
  exists boss. split; [done|].
  pose proof (upto_run live known seen _ turns Hup Hcalm) as Hup'.
  destruct (proj1 (up_inv _ Hup') _ _ Hk) as (Hid & _ & _ & (Hinv & _) & _).
  destruct (inv_entries _ _ Hinv _ _ Hn) as [Hkey _].
  assert (boss ≤ ghost) as Hle by (rewrite <-Hkey; by eapply Hleq).
  split; [done|]. rewrite run_dom. cbn [quiet cl_nodes].
  intros Hb%Hleast. lia.
Qed.
End Ghost.

(** ** Witness *)

Module Witnesses.
Import Simple.
Import Hivebus.Witnesses.
Import Cluster.Witnesses (c1, c2, nd7, c3).

Definition ids : gset Z := {[3; 7; 9]}.

(** Node 7 has heard the announcement of node 3; node 9 starts, and node 3 stops. *)
Definition c4 : Cluster := {|
  cl_nodes := <[9 := {| nd_local := node 9; nd_hive := hivebus_init |}]> (cl_nodes c3);
  cl_net := (initial_announce (node 9) "1").*2 ++ cl_net c3 |}.
Definition stopped : Cluster := {| cl_nodes := delete 3 (cl_nodes c4); cl_net := cl_net c4 |}.

Lemma stopped_reachable : cluster_reachable 450 30000 "1" ids stopped.
Proof.
  apply (cluster_reachable_step _ _ _ _ c4); [|apply ClusterStop].
  apply (cluster_reachable_step _ _ _ _ c3); [|apply ClusterStart; by_compute].
  apply (cluster_reachable_step _ _ _ _ c2).
  - apply (cluster_reachable_step _ _ _ _ c1); [|apply ClusterStart; by_compute].
    apply (cluster_reachable_step _ _ _ _ cluster_init); [apply cluster_reachable_init|].
    apply ClusterStart; by_compute.
  - apply (ClusterDeliver _ _ _ _ c2 7 {| nd_local := node 7; nd_hive := hivebus_init |});
      [by vm_compute| |by_compute].
    change (announce_frame ∈ cl_net c2). by_compute.
Qed.

(** Node 7 tells node 9, and node 9 tells node 7 again, which has forgotten node 3 since. *)
Definition talk_7 : turn := {| tn_node := 7; tn_does := Talk map_iter (λ _, 10) |}.
Definition talk_9 : turn := {| tn_node := 9; tn_does := Talk map_iter (λ _, 20) |}.
Definition forget : list turn :=
  [{| tn_node := 7; tn_does := Scan map_iter (from_secs 400) |};
   {| tn_node := 9; tn_does := Scan map_iter (from_secs 500) |}].
Definition gossip_7 : bytes := default [] (head (said 450 30000 (quiet stopped) talk_7)).
Definition leg_7 : list turn :=
  talk_7 :: [] ++ [{| tn_node := 9; tn_does := Hear (λ _, 15) (V4 0 1) gossip_7 |}].
Definition told : Cluster := run 450 30000 (quiet stopped) leg_7.
Definition gossip_9 : bytes := default [] (head (said 450 30000 told talk_9)).
Definition leg_9 : list turn :=
  talk_9 :: forget ++ [{| tn_node := 7; tn_does := Hear (λ _, from_secs 600) (V4 0 2) gossip_9 |}].

Lemma stopped_nodes : cl_nodes stopped
  = {[7 := nd7; 9 := {| nd_local := node 9; nd_hive := hivebus_init |}]}.
Proof. by vm_compute. Qed.

Lemma legs_rumour : rumour 450 30000 7 (quiet stopped) 7 (leg_7 ++ leg_9 ++ []).
Proof.
  apply (RumourLeg _ _ _ 9); [done|by_compute|by_compute|].
  apply (RumourLeg _ _ _ 7); [done|by_compute|by_compute|]. apply RumourHere.
Qed.

Lemma ghost_leader_witness :
  master_from (it := map_iter)
    (default ∅ (hv_members ∘ nd_hive <$>
       cl_nodes (run 450 30000 (quiet stopped) (leg_7 ++ leg_9 ++ [])) !! 7)) 7 = Some 3
  ∧ 3 ∉ dom (cl_nodes (run 450 30000 (quiet stopped) (leg_7 ++ leg_9 ++ []))).
Proof.
  destruct (cl_nodes (run 450 30000 (quiet stopped) (leg_7 ++ leg_9 ++ [])) !! 7) as [nd|] eqn:Hnd;
    [|by vm_compute in Hnd].
  destruct (ghost_leader 450 30000 "1" ids 3 5 ∅ ∅ (λ _ _, 0) stopped 7 7 (leg_7 ++ leg_9 ++ []) nd map_iter)
    as (boss & Hm & _ & Hgone).
  - exact stopped_reachable.
  - by_compute.
  - assert (set_Forall (λ j, 3 < j) (dom (cl_nodes stopped))) as Hall by by_compute. exact Hall.
  - intros j nd'. rewrite stopped_nodes.
    intros [[<- <-]|[_ [<- <-]%lookup_singleton_Some]]%lookup_insert_Some n Hn.
    + vm_compute in Hn. by injection Hn as <-.
    + by vm_compute in Hn.
  - exists nd7. split; [by vm_compute|]. eexists. split; [by vm_compute|done].
  - repeat (split; [first [exact map_iter_ok|split; by_compute]|]; split; [try done|]); done.
  - exact legs_rumour.
  - exact Hnd.
  - exact map_iter_ok.
  - assert (boss = 3) as ->; [|split; [exact Hm|exact Hgone]].
    vm_compute in Hnd. injection Hnd as <-. vm_compute in Hm. by injection Hm as <-.
Defined.
End Witnesses.
