(* ===== verification/Stability.v ===== *)
(** * Forming, keeping and changing the leader

    What the daemons of a cluster agree on in the calm periods of [Calm]: a cluster that
    was just started agrees after every daemon has heard every other; daemons that agree
    go on agreeing as long as heartbeats arrive in time, and only that; when daemons have
    stopped, the others elect one of themselves and agree again. *)

From S2P Require Import Prelude RustStd Wire Proto Control Membership Hivebus Cluster Calm.
Local Open Scope Z_scope.
Implicit Types (m : gmap Z NodeInfo) (n : NodeInfo) (l : Local) (c : Cluster).

(** ** Agreement and fail-over *)

Section Elections.
Context `{Bincode} `{!Codec HeartbeatPayload, !Codec AnnouncePayload,
                     !Codec LeavePayload, !Codec GossipPayload}.
Context `{!CodecLaws HeartbeatPayload, !CodecLaws AnnouncePayload,
          !CodecLaws LeavePayload, !CodecLaws GossipPayload}.
Context `{!Codec ControlOp, !Codec ControlReply}.
Context (suspect dead : Duration) (version : string) (ids : gset Z).

Definition least (live : gset Z) (boss : Z) : Prop := boss ∈ live ∧ ∀ k, k ∈ live → boss ≤ k.

(** Every running daemon holds exactly the other running daemons [Alive]. *)
Definition agreed_at (c : Cluster) (j : Z) : Prop :=
  ∀ nd, cl_nodes c !! j = Some nd →
  ∀ k, alive_in (hv_members (nd_hive nd)) k ↔ k ∈ dom (cl_nodes c) ∧ k ≠ j.
Definition agreed (c : Cluster) : Prop := ∀ j, agreed_at c j.

(** Then they elect the same one. *)
Lemma agreed_master (it : HashIter Z NodeInfo) (live : gset Z) j m boss :
  HashIterOk it → members_inv j m → j ∈ live → least live boss →
  (∀ k, alive_in m k ↔ k ∈ live ∧ k ≠ j) → master_from (it := it) m j = Some boss.
Proof.
  intros Hit Hinv Hj [Hboss Hleast] Halive. apply master_from_eq. split_and!.
  - destruct (decide (boss = j)) as [|Hne]; [by left|right].
    destruct (proj2 (Halive boss) (conj Hboss Hne)) as (n & Hn & Hs). exists boss, n.
    by destruct (inv_entries _ _ Hinv _ _ Hn).
  - by apply Hleast.
  - intros k n Hk Hs. destruct (inv_entries _ _ Hinv _ _ Hk) as [-> _].
    apply Hleast, (Halive k). by exists n.
Qed.

(** The start of a period as [calm_cluster] wants it. *)
Lemma calm_start (live known : gset Z) Φ c :
  cluster_inv ids c → dom (cl_nodes c) = live →
  (∀ j nd, cl_nodes c !! j = Some nd →
     map_Forall (λ k n, Φ k (ni_state n)) (hv_members (nd_hive nd)) ∧
     ∀ k, k ∈ known → k ≠ j → is_Some (hv_members (nd_hive nd) !! k)) →
  calm_cluster ids live known Φ (start_seen c) (quiet c).
Proof.
  intros [Hnodes _] Hlive Htab. split; [by split|done|done|].
  intros j nd Hj. destruct (Htab j nd Hj) as [Hst Hknown]. split; [done|].
  intros k Hk Hne. destruct (Hknown k Hk Hne) as [n Hn]. exists n. split; [done|].
  unfold start_seen. cbn in Hj. by rewrite Hj; cbn; rewrite Hn.
Qed.

(** A run of the emptied network is a run of the cluster. *)
Lemma run_reachable live known seen c turns :
  cluster_reachable suspect dead version ids c →
  calm suspect dead live known seen (quiet c) turns →
  let c' := run suspect dead (quiet c) turns in
  cluster_reachable suspect dead version ids
    {| cl_nodes := cl_nodes c'; cl_net := cl_net c' ++ cl_net c |}.
Proof.
  intros Hc.
  assert (∀ old seen c, cluster_reachable suspect dead version ids
      {| cl_nodes := cl_nodes c; cl_net := cl_net c ++ old |} →
    calm suspect dead live known seen c turns →
    cluster_reachable suspect dead version ids
      {| cl_nodes := cl_nodes (run suspect dead c turns);
         cl_net := cl_net (run suspect dead c turns) ++ old |}) as Hgen; cycle 1.
  { intros Hcalm. apply (Hgen (cl_net c) seen (quiet c)); [by destruct c|done]. }
  clear c Hc seen. intros old. induction turns as [|t turns IH]; intros seen c Hc; cbn; [done|].
  intros (Hp & _ & Hrest). eapply IH; [|exact Hrest].
  set (c1 := {| cl_nodes := cl_nodes c; cl_net := cl_net c ++ old |}) in *.
  assert (possible c1 t) as Hp1.
  { unfold possible in *. destruct (tn_does t); try done. cbn [c1 cl_net].
    destruct Hp. split; [set_solver|done]. }
  assert (happens suspect dead c1 t = {| cl_nodes := cl_nodes (happens suspect dead c t);
            cl_net := cl_net (happens suspect dead c t) ++ old |}) as <-.
  { unfold happens, c1. cbn [cl_nodes cl_net].
    destruct (cl_nodes c !! tn_node t); [|done]. destruct (does _ _ _ _ _). cbn. by rewrite app_assoc. }
  destruct (happens_step suspect dead version ids c1 t Hp1) as [->|Hstep]; [done|].
  by eapply cluster_reachable_step.
Qed.

(** What each daemon knows in a calm cluster that agreed at the start. *)
Lemma stable_view c turns j nd :
  cluster_reachable suspect dead version ids c → agreed c →
  suspect ≤ dead ∧ suspect < cleanup_threshold →
  calm suspect dead (dom (cl_nodes c)) (dom (cl_nodes c)) (start_seen c) (quiet c) turns →
  cl_nodes (run suspect dead (quiet c) turns) !! j = Some nd →
  l_node_id (nd_local nd) = j ∧ local_ok (nd_local nd) ∧ members_inv j (hv_members (nd_hive nd))
  ∧ j ∈ dom (cl_nodes c)
  ∧ ∀ k, alive_in (hv_members (nd_hive nd)) k ↔ k ∈ dom (cl_nodes c) ∧ k ≠ j.
Proof.
  intros Hreach Hagreed Hthr Hcalm Hj.
  pose proof (cluster_reachable_inv _ _ _ _ _ Hreach) as Hinv.
  set (live := dom (cl_nodes c)) in *. set (Φ := λ k s, k ∈ live ↔ s = Alive).
  assert (calm_cluster ids live live Φ (start_seen c) (quiet c)) as Hstart.
  { apply calm_start; [done|done|]. intros i nd0 Hi. pose proof (Hagreed i nd0 Hi) as Ha.
    destruct (proj1 Hinv _ _ Hi) as (Hid & _ & _ & (Hm & _) & _). rewrite Hid in Hm. split.
    - intros k n Hk. assert (k ≠ i) as Hne by (intros ->; by rewrite (inv_no_self _ _ Hm) in Hk).
      split.
      + intros Hlive. destruct (proj2 (Ha k) (conj Hlive Hne)) as (n' & ? & ?). by simplify_eq.
      + intros Hs. apply (Ha k). by exists n.
    - intros k Hk Hne. destruct (proj2 (Ha k) (conj Hk Hne)) as (n & ? & _). by exists n. }
  assert (calm_cluster ids live live Φ (foldl heard (start_seen c) turns)
    (run suspect dead (quiet c) turns)) as [[Hnodes _] Hdom _ Htab].
  { apply (calm_run suspect dead version); try done; unfold Φ; naive_solver. }
  destruct (Htab _ _ Hj) as [Hst Hseen].
  destruct (Hnodes _ _ Hj) as (Hid & _ & Hok & (Hm & _) & _). rewrite Hid in Hm.
  split_and!; [done..|by rewrite <-Hdom; eapply elem_of_dom_2|]. intros k. split.
  - intros (n & Hn & Hs). split; [by apply (Hst k n Hn)|]. intros ->.
    by rewrite (inv_no_self _ _ Hm) in Hn.
  - intros [Hk Hne]. destruct (Hseen k Hk Hne) as (n & Hn & _). exists n. split; [done|].
    by apply (Hst k n Hn).
Qed.

Lemma leader_kept c turns boss :
  cluster_reachable suspect dead version ids c → agreed c →
  suspect ≤ dead ∧ suspect < cleanup_threshold → least (dom (cl_nodes c)) boss →
  calm suspect dead (dom (cl_nodes c)) (dom (cl_nodes c)) (start_seen c) (quiet c) turns →
  let c' := run suspect dead (quiet c) turns in
  agreed c' ∧
  ∀ j nd (it : HashIter Z NodeInfo), HashIterOk it → cl_nodes c' !! j = Some nd →
    master_from (it := it) (hv_members (nd_hive nd)) j = Some boss.
Proof.
  intros Hreach Hagreed Hthr Hboss Hcalm c'. split.
  - intros j nd Hj k. unfold c'. rewrite (run_dom suspect dead (quiet c)).
    destruct (stable_view c turns j nd) as (_ & _ & _ & _ & Halive); [done..|]. apply Halive.
  - intros j nd it Hit Hj.
    destruct (stable_view c turns j nd) as (_ & _ & Hm & Hlive & Halive); try done.
    by apply (agreed_master it (dom (cl_nodes c))).
Qed.

(** C3: a leader stays: once the running daemons agree on who is alive, they go on
    agreeing, and all elect the least of them at every later moment, however their tasks
    are interleaved and whatever the network loses, repeats or reorders, as long as no
    daemon starts or stops, no datagram from before arrives, and no scan finds that the
    last heartbeat of a running daemon came in longer than the suspect threshold ago.  The
    suspect threshold must be no longer than the dead threshold and shorter than the 300 s
    after which a scan drops entries. *)
Theorem leader_stable c turns boss :
  cluster_reachable suspect dead version ids c → agreed c →
  suspect ≤ dead ∧ suspect < cleanup_threshold → least (dom (cl_nodes c)) boss →
  calm suspect dead (dom (cl_nodes c)) (dom (cl_nodes c)) (start_seen c) (quiet c) turns →
  let c' := run suspect dead (quiet c) turns in
  cluster_reachable suspect dead version ids
    {| cl_nodes := cl_nodes c'; cl_net := cl_net c' ++ cl_net c |} ∧
  dom (cl_nodes c') = dom (cl_nodes c) ∧ agreed c' ∧
  ∀ j nd (it : HashIter Z NodeInfo), HashIterOk it → cl_nodes c' !! j = Some nd →
    master_from (it := it) (hv_members (nd_hive nd)) j = Some boss.
Proof.
  intros Hreach Hagreed Hthr Hboss Hcalm c'.
  split; [by eapply run_reachable|]. split; [apply (run_dom suspect dead (quiet c))|].
  by apply leader_kept.
Qed.

(** In a calm run nobody hears a heartbeat of a node that does not run. *)
Lemma calm_seen_gone (live known : gset Z) Φ seen c turns j k :
  (∀ k s, k ∈ live → Φ k s ↔ s = Alive) → (∀ k s, k ∉ live → Φ k s → Φ k Suspect ∧ Φ k Dead) →
  live ⊆ known → suspect ≤ dead ∧ suspect < cleanup_threshold →
  calm_cluster ids live known Φ seen c → calm suspect dead live known seen c turns → k ∉ live →
  foldl heard seen turns j k = seen j k.
Proof.
  intros Hl Hg Hsub Hthr. revert seen c. induction turns as [|t turns IH]; intros seen c Hc; [done|].
  cbn. intros (Hp & Hin & Hrest) Hk. rewrite (IH (heard seen t) (happens suspect dead c t)); try done.
  - unfold heard, possible in *. destruct (tn_does t) as [| | |clock from dg|]; try done.
    rewrite decide_False; [done|]. intros [_ Hfrom].
    destruct (proj1 (Forall_forall _ _) (cc_net _ _ _ _ _ _ Hc) dg (proj1 Hp)) as (h & Hh & Hlive & _).
    unfold heartbeat_from in Hfrom. rewrite Hh in Hfrom. cbn in Hfrom. by repeat case_match; simplify_eq.
  - apply (calm_happens suspect dead version); try done. by eapply in_time_turn.
Qed.

(** What a scan leaves of a node that was not heard for too long. *)
Lemma scan_gone (it : HashIter Z NodeInfo) j now m k n n' :
  m !! k = Some n → ni_last_seen n + suspect < now → ni_last_seen n ≤ now →
  fd_tick (it := it) j suspect dead now m !! k = Some n' → ni_state n' ≠ Alive.
Proof.
  intros Hn Hlate Hle (n0 & Hn0 & _ & _ & _ & ->)%fd_tick_last_seen. simplify_eq.
  rewrite mark_node_state, node_age_elapsed, (proj2 (Z.ltb_lt suspect _)) by lia.
  destruct (dead <? _); [done|]. cbn. by case_bool_decide.
Qed.

(** A scan at a daemon that has not heard the stopped nodes for too long leaves the
    running ones [Alive] and no other. *)
Lemma survivors_scan (live : gset Z) Φ seen c j (it : HashIter Z NodeInfo) now nd :
  (∀ k s, k ∈ live → Φ k s ↔ s = Alive) → (∀ k s, k ∉ live → Φ k s → Φ k Suspect ∧ Φ k Dead) →
  live ⊆ ids → suspect ≤ dead ∧ suspect < cleanup_threshold →
  calm_cluster ids live ids Φ seen c → cl_nodes c !! j = Some nd →
  in_time suspect live ids seen {| tn_node := j; tn_does := Scan it now |} →
  (∀ k, k ∈ ids → k ∉ live → seen j k + suspect < now) →
  let m' := fd_tick (it := it) j suspect dead now (hv_members (nd_hive nd)) in
  members_inv j m' ∧ (∀ k n, m' !! k = Some n → ni_state n = Alive ↔ k ∈ live)
  ∧ ∀ k, alive_in m' k ↔ k ∈ live ∧ k ≠ j.
Proof.
  intros Hl Hg Hsub Hthr Hc Hj Htime Hgone m'. unfold in_time in Htime. cbn in Htime.
  pose proof (cc_tables _ _ _ _ _ _ Hc _ _ Hj) as Htab.
  destruct (proj1 (cc_inv _ _ _ _ _ _ Hc) _ _ Hj) as (Hid & _ & _ & (Hm & _) & Hknown).
  rewrite Hid in Hm. assert (members_inv j m') as Hm' by by apply fd_tick_inv.
  assert (calm_table ids Φ j (seen j) m') as [Hst' Hseen']
    by (apply (calm_scan suspect dead live); try done; eapply in_time_punctual; try done;
        apply (inv_no_self _ _ Hm)).
  assert (∀ k, k ≠ j ∨ m' !! k = None) as Hself.
  { intros k. destruct (decide (k = j)) as [->|]; [right; apply (inv_no_self _ _ Hm')|by left]. }
  assert (∀ k n, m' !! k = Some n → ni_state n = Alive ↔ k ∈ live) as Hstates.
  { intros k n Hk. split; [|intros Hlive; by apply (Hl k); [|apply (Hst' k n Hk)]].
    intros Hs. destruct (decide (k ∈ live)) as [|Hno]; [done|exfalso]. revert Hs.
    destruct (fd_tick_last_seen _ _ _ _ _ _ _ Hk) as (n0 & Hn0 & _).
    assert (k ∈ ids) as Hin by (apply Hknown; by exists n0).
    assert (k ≠ j) as Hne by (destruct (Hself k); congruence).
    destruct (proj2 Htab k Hin Hne) as (n1 & Hn1 & Hseen).
    apply (scan_gone it j now _ k n1 n Hn1); rewrite ?Hseen; [by apply Hgone|by apply Htime|done]. }
  split; [done|]. split; [done|]. intros k. split.
  - intros (n & Hk & Hs). split; [by apply (Hstates k n)|]. destruct (Hself k); congruence.
  - intros [Hlive Hne]. destruct (Hseen' k (Hsub _ Hlive) Hne) as (n & Hk & _).
    exists n. split; [done|]. by apply (Hstates k n).
Qed.

(** The setting in which daemons have stopped: those that run know all configured nodes
    and hold each other [Alive]. *)
Definition survivors (c : Cluster) : Prop :=
  ∀ i nd, cl_nodes c !! i = Some nd → ∀ k, k ≠ i →
    (k ∈ dom (cl_nodes c) → ∀ n, hv_members (nd_hive nd) !! k = Some n → ni_state n = Alive) ∧
    (k ∈ ids → is_Some (hv_members (nd_hive nd) !! k)).

(** The reports wanted then. *)
Definition alive_when (live : gset Z) (k : Z) (s : NodeState) : Prop := k ∈ live → s = Alive.

Lemma alive_when_live live k s : k ∈ live → alive_when live k s ↔ s = Alive.
Proof. unfold alive_when. tauto. Qed.

Lemma alive_when_gone live k s :
  k ∉ live → alive_when live k s → alive_when live k Suspect ∧ alive_when live k Dead.
Proof. unfold alive_when. tauto. Qed.

#[local] Hint Resolve alive_when_live alive_when_gone : hive.

Lemma running_configured c : cluster_inv ids c → dom (cl_nodes c) ⊆ ids.
Proof. intros [Hinv _] k [nd Hk]%elem_of_dom. by destruct (Hinv _ _ Hk) as (_ & ? & _). Qed.

Lemma survivors_run c turns :
  cluster_reachable suspect dead version ids c → survivors c →
  suspect ≤ dead ∧ suspect < cleanup_threshold →
  calm suspect dead (dom (cl_nodes c)) ids (start_seen c) (quiet c) turns →
  calm_cluster ids (dom (cl_nodes c)) ids (alive_when (dom (cl_nodes c)))
    (foldl heard (start_seen c) turns) (run suspect dead (quiet c) turns) ∧
  ∀ j k, k ∉ dom (cl_nodes c) → foldl heard (start_seen c) turns j k = start_seen c j k.
Proof.
  intros Hreach Hview Hthr Hcalm. pose proof (cluster_reachable_inv _ _ _ _ _ Hreach) as Hinv.
  pose proof (running_configured c Hinv) as Hsub.
  assert (calm_cluster ids (dom (cl_nodes c)) ids (alive_when (dom (cl_nodes c))) (start_seen c) (quiet c))
    as Hstart.
  { apply calm_start; [done|done|]. intros i nd Hi. split; [|intros k Hk Hne; by apply (Hview i)].
    destruct (proj1 Hinv _ _ Hi) as (Hid & _ & _ & (Hm & _) & _). rewrite Hid in Hm.
    intros k n Hk Hlive. eapply (Hview i nd Hi k); [|done|done].
    intros ->. by rewrite (inv_no_self _ _ Hm) in Hk. }
  split; [apply (calm_run suspect dead version); eauto with hive|].
  intros j k Hk. eapply calm_seen_gone; eauto with hive.
Qed.

(** C5: the others take over: when daemons have stopped, every scan that comes at a daemon
    later than the suspect threshold, and before 300 s, after it last heard each of them
    elects the least of the daemons that still run, flags that one alone, and leaves no
    stopped daemon [Alive], whatever gossip about the stopped ones still goes round.  The
    daemons must have known all configured nodes and held each other [Alive] when the
    period began, and the scans come in time. *)
Theorem failover c turns boss j (it : HashIter Z NodeInfo) now nd :
  cluster_reachable suspect dead version ids c → survivors c →
  suspect ≤ dead ∧ suspect < cleanup_threshold → least (dom (cl_nodes c)) boss →
  let turns' := turns ++ [{| tn_node := j; tn_does := Scan it now |}] in
  calm suspect dead (dom (cl_nodes c)) ids (start_seen c) (quiet c) turns' →
  (∀ k, k ∈ ids → k ∉ dom (cl_nodes c) → start_seen c j k + suspect < now) →
  cl_nodes (run suspect dead (quiet c) turns') !! j = Some nd →
  (∀ it', HashIterOk it' → master_from (it := it') (hv_members (nd_hive nd)) j = Some boss) ∧
  ∀ k n, hv_members (nd_hive nd) !! k = Some n →
    (ni_is_master n = true ↔ k = boss) ∧ (ni_state n = Alive ↔ k ∈ dom (cl_nodes c)).
Proof.
  intros Hreach Hview Hthr Hboss turns' Hcalm Hgone Hnd.
  pose proof (running_configured c (cluster_reachable_inv _ _ _ _ _ Hreach)) as Hsub.
  apply calm_app in Hcalm as [Hcalm (Hit & Htime & _)]. unfold possible in Hit. cbn in Hit.
  destruct (survivors_run c turns Hreach Hview Hthr Hcalm) as [Hc Hseen_gone].
  revert Hnd. unfold turns', run. rewrite foldl_app. fold (run suspect dead (quiet c) turns).
  set (live := dom (cl_nodes c)) in *. set (c1 := run _ _ _ turns) in *. cbn [foldl].
  intros (nd1 & Hj & _ & Hhive)%happens_lookup. cbn [tn_node tn_does] in Hhive.
  rewrite decide_True in Hhive by done. cbn [does snd] in Hhive.
  destruct (proj1 (cc_inv _ _ _ _ _ _ Hc) _ _ Hj) as (Hid & _). rewrite Hid in Hhive.
  rewrite Hhive. cbn [hv_members].
  destruct (survivors_scan live (alive_when live) (foldl heard (start_seen c) turns) c1 j it now nd1)
    as (Hm' & Hstates & Halive); eauto with hive.
  { intros k Hk Hno. rewrite Hseen_gone by done. by apply Hgone. }
  set (m' := fd_tick _ _ _ _ _) in *.
  assert (∀ it', HashIterOk it' → master_from (it := it') m' j = Some boss) as Hmaster.
  { intros it' Hit'. apply (agreed_master it' live); try done.
    rewrite <-(cc_live _ _ _ _ _ _ Hc). by eapply elem_of_dom_2. }
  split; [done|]. intros k n Hk. split; [|by apply Hstates].
  pose proof (fd_tick_flags_exact it _ suspect dead now _ k n Hit Hk) as Hflag.
  fold m' in Hflag. destruct (inv_entries _ _ Hm' _ _ Hk) as [Hkey _].
  rewrite Hkey in Hflag. rewrite Hflag, <-(master_from_eq (it := it) (Hit := Hit)).
  rewrite (Hmaster it Hit). naive_solver.
Qed.

(** A turn that only scans, later than the suspect threshold after the stopped nodes were heard. *)
Definition late_scan (c : Cluster) (t : turn) : Prop :=
  match tn_does t with
  | Scan _ now => ∀ k, k ∈ ids → k ∉ dom (cl_nodes c) → start_seen c (tn_node t) k + suspect < now
  | _ => False
  end.

Lemma late_scan_agrees c turns t :
  cluster_reachable suspect dead version ids c → survivors c →
  suspect ≤ dead ∧ suspect < cleanup_threshold → late_scan c t →
  calm suspect dead (dom (cl_nodes c)) ids (start_seen c) (quiet c) (turns ++ [t]) →
  ∀ j, j = tn_node t ∨ agreed_at (run suspect dead (quiet c) turns) j →
  agreed_at (run suspect dead (quiet c) (turns ++ [t])) j.
Proof.
  intros Hreach Hview Hthr Hlate Hcalm j Hor nd.
  pose proof (running_configured c (cluster_reachable_inv _ _ _ _ _ Hreach)) as Hsub.
  apply calm_app in Hcalm as [Hcalm (_ & Htime & _)].
  destruct (survivors_run c turns Hreach Hview Hthr Hcalm) as [Hc Hseen_gone].
  unfold run. rewrite foldl_app. fold (run suspect dead (quiet c) turns).
  set (live := dom (cl_nodes c)) in *. set (c1 := run _ _ _ turns) in *. cbn [foldl].
  rewrite happens_dom. intros (nd1 & Hj & _ & Hhive)%happens_lookup. rewrite Hhive.
  case_decide as Ht; [|destruct Hor as [|Hag]; [done|by apply Hag]].
  destruct t as [j' [it now| | | |]]; try done. cbn in Ht. subst j'. cbn [does tn_does snd hv_members].
  destruct (proj1 (cc_inv _ _ _ _ _ _ Hc) _ _ Hj) as (Hid & _). rewrite Hid.
  rewrite (cc_live _ _ _ _ _ _ Hc).
  eapply survivors_scan; eauto with hive.
  intros k Hk Hno. rewrite Hseen_gone by done. by apply Hlate.
Qed.

Lemma scans_agree c turns scans :
  cluster_reachable suspect dead version ids c → survivors c →
  suspect ≤ dead ∧ suspect < cleanup_threshold →
  calm suspect dead (dom (cl_nodes c)) ids (start_seen c) (quiet c) (turns ++ scans) →
  Forall (late_scan c) scans → dom (cl_nodes c) ⊆ list_to_set (tn_node <$> scans) →
  agreed (run suspect dead (quiet c) (turns ++ scans)).
Proof.
  intros Hreach Hview Hthr Hcalm Hscans Hall.
  assert (∀ j, j ∈ tn_node <$> scans → agreed_at (run suspect dead (quiet c) (turns ++ scans)) j)
    as Hagreed.
  { clear Hall. induction scans as [|t scans IH] using rev_ind; [by intros j Hj%not_elem_of_nil|].
    apply Forall_app in Hscans as [Hscans [Ht _]%Forall_cons_1]. rewrite app_assoc in Hcalm |- *.
    pose proof (proj1 (proj1 (calm_app _ _ _ _ _ _ _ _) Hcalm)) as Hcalm'.
    intros j Hj. rewrite fmap_app in Hj.
    assert (j = tn_node t ∨ agreed_at (run suspect dead (quiet c) (turns ++ scans)) j) as Hor.
    { apply elem_of_app in Hj as [Hj|Hj%list_elem_of_singleton]; [right; by apply IH|by left]. }
    by apply late_scan_agrees. }
  intros j nd Hj. apply Hagreed; [|done].
  destruct (survivors_run c (turns ++ scans) Hreach Hview Hthr Hcalm) as [Hc _].
  apply elem_of_dom_2 in Hj. rewrite (cc_live _ _ _ _ _ _ Hc) in Hj.
  apply Hall, elem_of_list_to_set in Hj. done.
Qed.

(** C6: agreement comes back: let daemons have stopped while the ones that run know all
    configured nodes and hold each other [Alive].  When, in a period in which heartbeats of
    running daemons arrive in time, every one of them has scanned its table, later than the
    suspect threshold and before 300 s after it last heard each stopped one, and nothing
    but these scans happened meanwhile, then the running daemons agree again on who is
    alive.  From then on, as long as heartbeats arrive in time, none starts or stops and no
    datagram from before arrives (old gossip could still call a stopped daemon [Alive]),
    they go on agreeing and all elect the least of the running daemons at every moment.  The
    suspect threshold must not exceed the dead threshold and be under 300 s. *)
Theorem agreement_restored c turns scans :
  cluster_reachable suspect dead version ids c → survivors c →
  suspect ≤ dead ∧ suspect < cleanup_threshold →
  calm suspect dead (dom (cl_nodes c)) ids (start_seen c) (quiet c) (turns ++ scans) →
  Forall (late_scan c) scans → dom (cl_nodes c) ⊆ list_to_set (tn_node <$> scans) →
  let c1 := run suspect dead (quiet c) (turns ++ scans) in
  agreed c1 ∧
  ∀ more boss, least (dom (cl_nodes c)) boss →
    calm suspect dead (dom (cl_nodes c)) (dom (cl_nodes c)) (start_seen c1) (quiet c1) more →
    let c2 := run suspect dead (quiet c1) more in
    agreed c2 ∧
    ∀ j nd (it : HashIter Z NodeInfo), HashIterOk it → cl_nodes c2 !! j = Some nd →
      master_from (it := it) (hv_members (nd_hive nd)) j = Some boss.
Proof.
  intros Hreach Hview Hthr Hcalm Hscans Hall c1.
  assert (agreed c1) as Hagreed by by apply scans_agree. split; [done|]. intros more boss Hboss Hmore.
  assert (dom (cl_nodes c1) = dom (cl_nodes c)) as Hdom by apply (run_dom suspect dead (quiet c)).
  rewrite <-Hdom in Hboss, Hmore.
  exact (leader_kept {| cl_nodes := cl_nodes c1; cl_net := cl_net c1 ++ cl_net c |} more boss
    (run_reachable _ _ _ c _ Hreach Hcalm) Hagreed Hthr Hboss Hmore).
Qed.

(** When every configured daemon runs and holds every other [Alive], they agree. *)
Lemma all_alive_agreed c boss :
  cluster_inv ids c → dom (cl_nodes c) = ids → least ids boss →
  (∀ j k nd, k ∈ ids → k ≠ j → cl_nodes c !! j = Some nd → alive_in (hv_members (nd_hive nd)) k) →
  agreed c ∧
  ∀ j nd (it : HashIter Z NodeInfo), HashIterOk it → cl_nodes c !! j = Some nd →
    master_from (it := it) (hv_members (nd_hive nd)) j = Some boss.
Proof.
  intros [Hnodes _] Hdom Hboss Halive. assert (agreed c) as Hagreed.
  { intros j nd Hj k. rewrite Hdom. destruct (Hnodes _ _ Hj) as (Hid & Hin & _ & (Hm & _) & Hknown).
    rewrite Hid in Hm. split; [|by intros [? ?]; apply (Halive j)].
    intros (n & Hk & _). split; [apply Hknown; by exists n|]. intros ->.
    by rewrite (inv_no_self _ _ Hm) in Hk. }
  split; [done|]. intros j nd it Hit Hj.
  destruct (Hnodes _ _ Hj) as (Hid & Hin & _ & (Hm & _) & _). rewrite Hid in Hm.
  apply (agreed_master it ids); try done. intros k. by rewrite (Hagreed j nd Hj k), Hdom.
Qed.

(** ** Forming a cluster *)

(** A scan finds no running daemon in the table that was silent for longer than the
    suspect threshold. *)
Definition heard_lately (c : Cluster) (t : turn) : Prop :=
  match tn_does t with
  | Scan _ now => ∀ nd k n, cl_nodes c !! tn_node t = Some nd → k ∈ dom (cl_nodes c) →
      hv_members (nd_hive nd) !! k = Some n → ni_last_seen n ≤ now ≤ ni_last_seen n + suspect
  | _ => True
  end.

Fixpoint forming (c : Cluster) (turns : list turn) : Prop :=
  match turns with
  | [] => True
  | t :: turns => possible c t ∧ heard_lately c t ∧ forming (happens suspect dead c t) turns
  end.

(** Daemon [j] has [k] in its table. *)
Definition lists (c : Cluster) (j k : Z) : Prop :=
  ∀ nd, cl_nodes c !! j = Some nd → is_Some (hv_members (nd_hive nd) !! k).

(** The listener never removes a node. *)
Lemma on_gossip_lists self_id from clock es m k :
  is_Some (m !! k) → is_Some (on_gossip self_id from clock es m !! k).
Proof.
  revert clock m. induction es as [|e es IH]; intros clock m Hk; cbn; [done|].
  apply IH. unfold on_gossip_entry. case_match; [done|]. rewrite lookup_insert_is_Some'. by right.
Qed.

Lemma listener_lists self_id clock from dg m k :
  is_Some (m !! k) → is_Some ((listener_frame self_id clock from dg m).1 !! k).
Proof.
  intros Hk. unfold listener_frame.
  destruct (FrameHeader.from_bytes _) as [h|]; [|done].
  destruct (_ =? self_id); [done|]. destruct (FrameHeader.msg_type h) as [[]|]; try done;
    destruct (decode_from_slice _) as [[pl r]|]; try done; cbn [fst].
  - unfold on_heartbeat. rewrite lookup_insert_is_Some'. by right.
  - unfold on_announce. cbn. rewrite lookup_insert_is_Some'. by right.
  - unfold on_leave. cbn. destruct (m !! FrameHeader.node_id h); [|done].
    rewrite lookup_insert_is_Some'. by right.
  - by apply on_gossip_lists.
Qed.

Section Forming.
Context (live : gset Z) (Φ : Z → NodeState → Prop).
Hypothesis thresholds : suspect ≤ dead ∧ suspect < cleanup_threshold.

Lemma happens_lists seen c t j k :
  calm_cluster ids live ∅ Φ seen c → heard_lately c t → k ∈ live →
  lists c j k → lists (happens suspect dead c t) j k.
Proof.
  intros Hc Hlately Hk Hl nd (nd0 & Hj & _ & ->)%happens_lookup. specialize (Hl nd0 Hj).
  case_decide as Ht; [|done]. subst j. destruct t as [j a]. unfold heard_lately in Hlately.
  cbn [tn_node tn_does] in *. destruct a as [it now|now|it clock|clock from dg|env stream]; cbn [does].
  - cbn [snd hv_members]. destruct Hl as [n Hn]. rewrite lookup_fd_tick, Hn. cbn.
    assert (ni_last_seen n ≤ now ≤ ni_last_seen n + suspect) as [? ?]
      by (apply (Hlately nd0 k); [done|by rewrite (cc_live _ _ _ _ _ _ Hc)|done]).
    rewrite node_age_elapsed, decide_True by lia. by eexists.
  - by destruct (heartbeat_tick _ _ _).
  - by destruct (gossip_tick _ _ _ _).
  - cbn [snd listen hv_members]. by apply listener_lists.
  - cbn [snd hv_members]. by rewrite control_members.
Qed.

Lemma hears_lists seen c j k clock from dg :
  calm_cluster ids live ∅ Φ seen c → dg ∈ cl_net c → heartbeat_from dg = Some k → k ≠ j →
  lists (happens suspect dead c {| tn_node := j; tn_does := Hear clock from dg |}) j k.
Proof.
  intros Hc Hin Hfrom Hne nd (nd0 & Hj & _ & ->)%happens_lookup. rewrite decide_True by done.
  cbn [tn_does does snd listen hv_members].
  destruct (proj1 (cc_inv _ _ _ _ _ _ Hc) _ _ Hj) as (-> & _).
  destruct (proj1 (Forall_forall _ _) (cc_net _ _ _ _ _ _ Hc) dg Hin) as (h & Hh & _ & Hty).
  unfold heartbeat_from in Hfrom. rewrite Hh in Hfrom. cbn in Hfrom.
  unfold listener_frame. rewrite Hh. destruct (FrameHeader.msg_type h) as [[]|]; try done.
  injection Hfrom as Hid. rewrite Hid, (proj2 (Z.eqb_neq _ _) Hne).
  destruct (decode_from_slice _) as [[pl r]|]; [|done]. cbn [fst]. unfold on_heartbeat.
  rewrite lookup_insert_eq. by eexists.
Qed.
End Forming.

(** Daemon [j] hears a heartbeat of [k]. *)
Definition hears (j k : Z) (t : turn) : Prop :=
  tn_node t = j ∧ match tn_does t with
                  | Hear _ _ datagram => heartbeat_from datagram = Some k
                  | _ => False
                  end.

Lemma forming_run live seen c turns :
  suspect ≤ dead ∧ suspect < cleanup_threshold →
  calm_cluster ids live ∅ (alive_when live) seen c → forming c turns →
  calm_cluster ids live ∅ (alive_when live) (foldl heard seen turns) (run suspect dead c turns) ∧
  ∀ j k, k ∈ live → k ≠ j → lists c j k ∨ Exists (hears j k) turns →
    lists (run suspect dead c turns) j k.
Proof.
  intros Hthr. revert seen c. induction turns as [|t turns IH]; intros seen c Hc; cbn.
  { intros _. split; [done|]. by intros j k _ _ [|?%Exists_nil]. }
  intros (Hp & Hlately & Hrest).
  assert (calm_cluster ids live ∅ (alive_when live) (heard seen t) (happens suspect dead c t)) as Hc'.
  { apply (calm_happens suspect dead version); eauto with hive. unfold punctual.
    unfold heard_lately in Hlately. destruct (tn_does t); try done. intros nd Hj.
    split; [|set_solver]. intros k n Hk. apply (Hlately nd k n Hj).
    by rewrite (cc_live _ _ _ _ _ _ Hc). }
  destruct (IH _ _ Hc' Hrest) as [Hrun Hlists]. split; [done|].
  intros j k Hk Hne Hor. apply Hlists; [done..|].
  destruct Hor as [Hl|Hex]; [left; by eapply happens_lists|].
  apply Exists_cons in Hex as [[Hj Hhb]|Hex]; [left|by right].
  destruct t as [j' [| | |clock from dg|]]; try done. cbn in Hj, Hhb. subst j'.
  destruct Hp as [Hin _]. by eapply hears_lists.
Qed.

(** C4: a cluster forms: when all configured daemons run, none starts or stops and every
    daemon hears a heartbeat of every other, they agree on who is alive and elect the least
    configured id, however this is interleaved with scans, gossip and requests, as long
    as nobody was held dead when the period began and no scan finds a peer silent for
    longer than the suspect threshold. *)
Theorem cluster_forms c turns boss :
  cluster_reachable suspect dead version ids c → dom (cl_nodes c) = ids → least ids boss →
  (∀ j nd k n, cl_nodes c !! j = Some nd → hv_members (nd_hive nd) !! k = Some n → ni_state n = Alive) →
  suspect ≤ dead ∧ suspect < cleanup_threshold → forming (quiet c) turns →
  (∀ j k, j ∈ ids → k ∈ ids → j ≠ k → Exists (hears j k) turns) →
  let c' := run suspect dead (quiet c) turns in
  agreed c' ∧
  ∀ j nd (it : HashIter Z NodeInfo), HashIterOk it → cl_nodes c' !! j = Some nd →
    master_from (it := it) (hv_members (nd_hive nd)) j = Some boss.
Proof.
  intros Hreach Hall Hboss Halive Hthr Hforming Hhears c'.
  assert (calm_cluster ids ids ∅ (alive_when ids) (start_seen c) (quiet c)) as Hstart.
  { apply calm_start; [by eapply cluster_reachable_inv|done|]. intros j nd Hj.
    split; [|set_solver]. intros k n Hk _. by eapply Halive. }
  destruct (forming_run ids _ _ turns Hthr Hstart Hforming) as [Hc Hlists]. fold c' in Hc, Hlists.
  destruct Hc as [Hinv Hdom _ Htab]. apply all_alive_agreed; [done..|]. intros j k nd Hk Hne Hj.
  destruct (Hlists j k Hk Hne) with (nd := nd) as [n Hn]; [|done|].
  { right. apply Hhears; [|done..]. rewrite <-Hdom. by eapply elem_of_dom_2. }
  exists n. split; [done|]. by apply (proj1 (Htab _ _ Hj) k n Hn).
Qed.
End Elections.

(** ** Witnesses *)

Module Witnesses.
Import Simple.
Import Hivebus.Witnesses Cluster.Witnesses.

(** Nodes 3 and 7 have heard each other's announcements. *)
Definition announce_7 : bytes := default [] (head (initial_announce (node 7) "1").*2).
Definition nd3 : Node := {|
  nd_local := node 3;
  nd_hive := listen (node 3) (λ _, 8) (V4 0 2) announce_7 hivebus_init |}.
Definition pair : Cluster := {| cl_nodes := <[3 := nd3]> (cl_nodes c3); cl_net := cl_net c3 |}.

Lemma pair_reachable : cluster_reachable 450 30000 "1" ids pair.
Proof.
  apply (cluster_reachable_step _ _ _ _ c3); [exact c3_reachable|].
  apply (ClusterDeliver _ _ _ _ c3 3 {| nd_local := node 3; nd_hive := hivebus_init |});
    [by vm_compute|by_compute|by_compute].
Qed.

Lemma pair_nodes : cl_nodes pair = {[3 := nd3; 7 := nd7]}.
Proof. by vm_compute. Qed.

Lemma pair_dom : dom (cl_nodes pair) = ids.
Proof. rewrite pair_nodes. by vm_compute. Qed.

Lemma pair_lookup j nd : cl_nodes pair !! j = Some nd → (j = 3 ∧ nd = nd3) ∨ (j = 7 ∧ nd = nd7).
Proof.
  rewrite pair_nodes. intros [[<- <-]|[_ H]]%lookup_insert_Some; [by left|right].
  by apply lookup_singleton_Some in H as [<- <-].
Qed.

Lemma alive_in_singleton i n k : ni_state n = Alive → alive_in {[i := n]} k ↔ k = i.
Proof.
  intros Hn. unfold alive_in. split.
  - by intros (n' & [<- _]%lookup_singleton_Some & _).
  - intros ->. exists n. by rewrite lookup_singleton_eq.
Qed.

(** Each table has the other one only. *)
Definition heard_3 : NodeInfo := local_node_info (node 3) 9 false.
Definition heard_7 : NodeInfo := local_node_info (node 7) 8 false.

Lemma table_7 : hv_members (nd_hive nd7) = {[3 := heard_3]}.
Proof. by vm_compute. Qed.

Lemma table_3 : hv_members (nd_hive nd3) = {[7 := heard_7]}.
Proof. by vm_compute. Qed.

Lemma pair_agreed : agreed pair.
Proof.
  intros j nd [[-> ->]|[-> ->]]%pair_lookup k; rewrite pair_dom, ?table_3, ?table_7;
    rewrite alive_in_singleton by done; unfold ids; set_solver.
Qed.

Lemma least_pair : least (dom (cl_nodes pair)) 3.
Proof. rewrite pair_dom. unfold least, ids. split; [set_solver|]. intros k. set_solver by lia. Qed.

(** Node 3 sends a heartbeat, node 7 hears it when its clock reads 400, scans at 800 and
    tells what it knows. *)
Definition beat_3 : bytes := default [] (head (heartbeat_tick (node 3) 390 0).1.*2).
Definition pair_turns : list turn := [
  {| tn_node := 3; tn_does := Beat 390 |};
  {| tn_node := 7; tn_does := Hear (λ _, 400) (V4 0 1) beat_3 |};
  {| tn_node := 7; tn_does := Scan map_iter 800 |};
  {| tn_node := 7; tn_does := Talk map_iter (λ _, 810) |}].

Lemma pair_calm : calm 450 30000 ids ids (start_seen pair) (quiet pair) pair_turns.
Proof.
  split; [done|]. split; [done|]. split; [split; by_compute|]. split; [done|].
  split; [exact map_iter_ok|]. split; [|split; [exact map_iter_ok|by split]].
  intros k Hk Hne. assert (k = 3) as -> by (cbn in Hne; unfold ids in Hk; set_solver).
  split; [by_compute|]. intros _. by_compute.
Qed.

Lemma leader_stable_witness :
  let c' := run 450 30000 (quiet pair) pair_turns in
  master_from (it := map_iter) (default ∅ (hv_members ∘ nd_hive <$> cl_nodes c' !! 7)) 7 = Some 3
  ∧ ni_last_seen <$> default ∅ (hv_members ∘ nd_hive <$> cl_nodes c' !! 7) !! 3 = Some 400
  ∧ agreed c'.
Proof.
  intros c'.
  destruct (leader_stable 450 30000 "1" ids pair pair_turns 3 pair_reachable pair_agreed
    ltac:(by split; by_compute) least_pair ltac:(rewrite pair_dom; exact pair_calm)) as (_ & _ & Hag & Hm).
  destruct (cl_nodes c' !! 7) as [nd|] eqn:Hnd; [|by vm_compute in Hnd].
  split; [exact (Hm 7 nd map_iter map_iter_ok Hnd)|]. split; [|exact Hag].
  vm_compute in Hnd. injection Hnd as <-. by vm_compute.
Defined.

(** Both daemons have just started, with empty tables; each sends one heartbeat. *)
Definition beat_7 : bytes := default [] (head (heartbeat_tick (node 7) 30 0).1.*2).
Definition first_turns : list turn := [
  {| tn_node := 7; tn_does := Beat 30 |};
  {| tn_node := 3; tn_does := Beat 390 |};
  {| tn_node := 3; tn_does := Hear (λ _, 400) (V4 0 2) beat_7 |};
  {| tn_node := 3; tn_does := Talk map_iter (λ _, 405) |};
  {| tn_node := 7; tn_does := Hear (λ _, 40) (V4 0 1) beat_3 |};
  {| tn_node := 7; tn_does := Scan map_iter 50 |}].

Lemma c2_reachable : cluster_reachable 450 30000 "1" ids c2.
Proof.
  apply (cluster_reachable_step _ _ _ _ c1); [|apply ClusterStart; by_compute].
  apply (cluster_reachable_step _ _ _ _ cluster_init); [apply cluster_reachable_init|].
  apply ClusterStart; by_compute.
Qed.

Lemma cluster_forms_witness :
  dom (cl_nodes c2) = ids ∧ hv_members <$> (nd_hive <$> cl_nodes c2 !! 7) = Some ∅ ∧
  agreed (run 450 30000 (quiet c2) first_turns).
Proof.
  split; [by vm_compute|]. split; [by vm_compute|].
  refine (proj1 (cluster_forms 450 30000 "1" ids c2 first_turns 3 c2_reachable _ _ _ _ _ _)).
  - by vm_compute.
  - rewrite <-pair_dom. exact least_pair.
  - assert (map_Forall (λ _ nd, hv_members (nd_hive nd) = ∅) (cl_nodes c2)) as Hempty by by_compute.
    intros j nd k n Hj. by rewrite (Hempty j nd Hj), lookup_empty.
  - split; by_compute.
  - split; [done|]. split; [done|]. split; [done|]. split; [done|].
    split; [split; by_compute|]. split; [done|]. split; [exact map_iter_ok|]. split; [done|].
    split; [split; by_compute|]. split; [done|]. split; [exact map_iter_ok|]. split; [|done].
    intros nd k n Hj _ Hn. vm_compute in Hj. injection Hj as Hj.
    assert (map_Forall (λ _ n, ni_last_seen n ≤ 50 ≤ ni_last_seen n + 450) (hv_members (nd_hive nd)))
      as Hall by (rewrite <-Hj; by_compute).
    exact (Hall k n Hn).
  - intros j k Hj Hk Hne. unfold ids in Hj, Hk.
    assert ((j = 3 ∧ k = 7) ∨ (j = 7 ∧ k = 3)) as [[-> ->]|[-> ->]] by set_solver.
    + do 2 apply Exists_cons_tl. apply Exists_cons_hd. split; [done|by vm_compute].
    + do 4 apply Exists_cons_tl. apply Exists_cons_hd. split; [done|by vm_compute].
Defined.

(** Node 3 stops; node 7 last heard it when its clock read 9. *)
Definition alone : Cluster := {| cl_nodes := delete 3 (cl_nodes pair); cl_net := cl_net pair |}.
Definition late : turn := {| tn_node := 7; tn_does := Scan map_iter 500 |}.

Lemma alone_reachable : cluster_reachable 450 30000 "1" ids alone.
Proof. apply (cluster_reachable_step _ _ _ _ pair); [exact pair_reachable|apply ClusterStop]. Qed.

Lemma alone_nodes : cl_nodes alone = {[7 := nd7]}.
Proof. by vm_compute. Qed.

Lemma alone_dom : dom (cl_nodes alone) = {[7]}.
Proof. rewrite alone_nodes. by vm_compute. Qed.

Lemma alone_survivors : survivors ids alone.
Proof.
  intros i nd. rewrite alone_nodes. intros [<- <-]%lookup_singleton_Some k Hk.
  rewrite dom_singleton_L. split; [intros ->%elem_of_singleton; done|].
  intros Hin. assert (k = 3) as -> by (unfold ids in Hin; set_solver). rewrite table_7. by eexists.
Qed.

Lemma alone_late : late_scan 450 ids alone late.
Proof.
  intros k Hk Hno. rewrite alone_dom in Hno. assert (k = 3) as -> by (unfold ids in Hk; set_solver).
  by vm_compute.
Qed.

Lemma alone_calm : calm 450 30000 (dom (cl_nodes alone)) ids (start_seen alone) (quiet alone)
  ([{| tn_node := 7; tn_does := Talk map_iter (λ _, 20) |}] ++ [late]).
Proof.
  split; [exact map_iter_ok|]. split; [done|]. split; [exact map_iter_ok|]. split; [|done].
  intros k Hk Hne. assert (k = 3) as -> by (cbn in Hne; unfold ids in Hk; set_solver).
  split; [by_compute|]. rewrite alone_dom. intros ?%elem_of_singleton. done.
Qed.

Lemma failover_witness :
  master_from (it := map_iter) (hv_members (nd_hive nd7)) 7 = Some 3 ∧
  ∃ nd, cl_nodes (run 450 30000 (quiet alone)
          ([{| tn_node := 7; tn_does := Talk map_iter (λ _, 20) |}] ++ [late])) !! 7 = Some nd
    ∧ master_from (it := map_iter) (hv_members (nd_hive nd)) 7 = Some 7.
Proof.
  split; [by vm_compute|].
  destruct (cl_nodes (run 450 30000 (quiet alone) _) !! 7) as [nd|] eqn:Hnd; [|by vm_compute in Hnd].
  exists nd. split; [done|].
  refine (proj1 (failover 450 30000 "1" ids alone _ 7 7 map_iter 500 nd alone_reachable alone_survivors
    _ _ alone_calm _ Hnd) map_iter map_iter_ok).
  - split; by_compute.
  - rewrite alone_dom. split; [by apply elem_of_singleton|]. intros k ->%elem_of_singleton. done.
  - exact alone_late.
Defined.

(** Node 7 alone scans, and a later scan finds node 3 still gone. *)
Definition alone_again : Cluster := run 450 30000 (quiet alone)
  ([{| tn_node := 7; tn_does := Talk map_iter (λ _, 20) |}] ++ [late]).

Lemma agreement_restored_witness :
  agreed alone_again ∧
  ∃ nd, cl_nodes (run 450 30000 (quiet alone_again) [{| tn_node := 7; tn_does := Scan map_iter 800 |}]) !! 7
      = Some nd
    ∧ master_from (it := map_iter) (hv_members (nd_hive nd)) 7 = Some 7.
Proof.
  destruct (agreement_restored 450 30000 "1" ids alone
    [{| tn_node := 7; tn_does := Talk map_iter (λ _, 20) |}] [late] alone_reachable alone_survivors)
    as [Hagreed Hlater].
  - split; by_compute.
  - exact alone_calm.
  - constructor; [exact alone_late|constructor].
  - rewrite alone_dom. by_compute.
  - split; [exact Hagreed|].
    destruct (cl_nodes (run 450 30000 (quiet alone_again) _) !! 7) as [nd|] eqn:Hnd; [|by vm_compute in Hnd].
    exists nd. split; [done|]. rewrite alone_dom in Hlater.
    refine (proj2 (Hlater [{| tn_node := 7; tn_does := Scan map_iter 800 |}] 7 _ _) 7 nd map_iter map_iter_ok Hnd).
    + split; [by apply elem_of_singleton|]. intros k ->%elem_of_singleton. done.
    + split; [exact map_iter_ok|]. split; [|done]. intros k Hk Hne. cbn in Hne. by apply elem_of_singleton in Hk.
Defined.
End Witnesses.
