(* ===== verification/Healing.v ===== *)
(** * Agreement from any state

    What is left of a partition of the network, of restarts and of rumours ([Ghost]) goes
    away by itself: tables may hold running daemons [Dead] or not at all, but once every
    daemon has heard every other again, without gossip in between, all agree.  From then on
    [Stability] applies. *)

From S2P Require Import Prelude RustStd Wire Proto Control Membership Hivebus Cluster Calm Stability.
Local Open Scope Z_scope.
Implicit Types (m : gmap Z NodeInfo) (n : NodeInfo) (l : Local) (c : Cluster).

Section Healing.
Context `{Bincode} `{!Codec HeartbeatPayload, !Codec AnnouncePayload,
                     !Codec LeavePayload, !Codec GossipPayload}.
Context `{!CodecLaws HeartbeatPayload, !CodecLaws AnnouncePayload,
          !CodecLaws LeavePayload, !CodecLaws GossipPayload}.
Context `{!Codec ControlOp, !Codec ControlReply}.
Context (suspect dead : Duration) (version : string) (ids : gset Z).

(** ** Heartbeats can be read *)

Definition beat_decodes (datagram : bytes) : Prop :=
  ∀ h, FrameHeader.from_bytes (take 576 datagram) = Some h → FrameHeader.msg_type h = Some Heartbeat →
  is_ok (decode_from_slice (A := HeartbeatPayload) (drop 4 (take 576 datagram))) = true.

Lemma built_beat_decodes {P} `{!Codec P} t seq id (payload : P) buf :
  u16 id → encode_frame (FrameHeader.new t seq id) payload = Ok buf →
  (t = Heartbeat → is_ok (decode_from_slice (A := HeartbeatPayload) (drop 4 buf)) = true) →
  beat_decodes buf.
Proof.
  intros Hid Hf Ht h Hh Hmt.
  destruct (listener_frame_built _ _ _ _ _ Hid Hf) as (enc & _ & Htake & _ & Hhdr & Hmt' & _).
  rewrite Htake in *. rewrite Hhdr in Hh. injection Hh as <-. rewrite Hmt' in Hmt. injection Hmt as ->.
  by apply Ht.
Qed.

Lemma step_beats_decode c c' :
  cluster_inv ids c → Forall beat_decodes (cl_net c) →
  cluster_step suspect dead version ids c c' → Forall beat_decodes (cl_net c').
Proof.
  intros [Hnodes _] Hnet Hstep. destruct Hstep as [c l _ (Hid & _)|c id|c id nd s h' Hj Hint|]; try done;
    cbn [cl_net]; apply Forall_app; (split; [|done]).
  - unfold initial_announce. destruct (encode_frame _ _) as [buf|] eqn:Hf; [|constructor].
    assert (beat_decodes buf) by by apply (built_beat_decodes _ _ _ _ _ Hid Hf). by repeat constructor.
  - destruct (Hnodes _ _ Hj) as (_ & _ & (Hu16 & Hinc & _) & _).
    inversion Hint; subst; [constructor| | |constructor].
    + cbn. destruct (encode_frame _ _) as [buf|] eqn:Hf; [|constructor].
      assert (beat_decodes buf); [|by repeat constructor].
      apply (built_beat_decodes _ _ _ _ _ Hu16 Hf). intros _.
      match type of Hf with encode_frame _ ?p = _ =>
        assert (wire_ok p) as Hok by (split; [done|apply epoch_ms_u64]) end.
      destruct (listener_frame_built _ _ _ _ _ Hu16 Hf) as (enc & Henc & _ & -> & _).
      by rewrite (codec_roundtrip _ _ Hok Henc).
    + unfold gossip_tick. destruct (gossip_entries _ _); [constructor|]. cbn.
      destruct (encode_frame _ _) as [buf|] eqn:Hf; [|constructor]. apply Forall_singleton.
      by apply (built_beat_decodes _ _ _ _ _ Hu16 Hf).
Qed.

Lemma reachable_beats_decode c :
  cluster_reachable suspect dead version ids c → Forall beat_decodes (cl_net c).
Proof.
  induction 1 as [|c c' Hc IH Hstep]; [constructor|].
  eapply step_beats_decode; [by eapply cluster_reachable_inv|done|done].
Qed.

(** ** Hearing without gossip *)

Definition holds_alive (c : Cluster) (j k : Z) : Prop :=
  ∀ nd, cl_nodes c !! j = Some nd → alive_in (hv_members (nd_hive nd)) k.

(** Any datagram may arrive but gossip. *)
Definition no_gossip (t : turn) : Prop :=
  match tn_does t with
  | Hear _ _ datagram => ∀ h, FrameHeader.from_bytes (take 576 datagram) = Some h →
      FrameHeader.msg_type h ≠ Some Gossip
  | _ => True
  end.

(** A scan finds none of the daemons heard since the beginning silent for longer than the
    suspect threshold. *)
Definition heard_in_time (past : list turn) (c : Cluster) (t : turn) : Prop :=
  match tn_does t with
  | Scan _ now => ∀ nd k n, cl_nodes c !! tn_node t = Some nd → Exists (hears (tn_node t) k) past →
      hv_members (nd_hive nd) !! k = Some n → ni_last_seen n ≤ now ≤ ni_last_seen n + suspect
  | _ => True
  end.

Fixpoint healing (past : list turn) (c : Cluster) (turns : list turn) : Prop :=
  match turns with
  | [] => True
  | t :: turns => possible c t ∧ no_gossip t ∧ heard_in_time past c t
      ∧ healing (past ++ [t]) (happens suspect dead c t) turns
  end.

Hypothesis thresholds : suspect ≤ dead ∧ suspect < cleanup_threshold.

(** A frame that is not gossip holds nobody [Dead] but a node that leaves. *)
Lemma listener_keeps_alive self_id clock from dg m k :
  frame_known ids dg → no_gossip {| tn_node := self_id; tn_does := Hear clock from dg |} →
  alive_in m k → alive_in (listener_frame self_id clock from dg m).1 k.
Proof.
  intros (_ & h & Hh & _ & Hty) Hno Hk. unfold no_gossip in Hno. cbn in Hno. specialize (Hno h Hh).
  unfold listener_frame. rewrite Hh. destruct (_ =? self_id); [done|].
  destruct (FrameHeader.msg_type h) as [[]|]; try done; destruct (decode_from_slice _) as [[pl r]|]; try done.
  - cbn. unfold alive_in, on_heartbeat. destruct (decide (FrameHeader.node_id h = k)) as [->|Hne].
    + rewrite lookup_insert_eq. by eexists.
    + by rewrite lookup_insert_ne.
  - unfold on_announce. cbn. unfold alive_in. destruct (decide (FrameHeader.node_id h = k)) as [->|Hne].
    + rewrite lookup_insert_eq. by eexists.
    + by rewrite lookup_insert_ne.
Qed.

Lemma heartbeat_makes_alive self_id clock from dg m k :
  beat_decodes dg → heartbeat_from dg = Some k → k ≠ self_id →
  alive_in (listener_frame self_id clock from dg m).1 k.
Proof.
  intros Hdec Hfrom Hne. unfold heartbeat_from in Hfrom.
  destruct (FrameHeader.from_bytes _) as [h|] eqn:Hh; [|done]. cbn in Hfrom.
  destruct (FrameHeader.msg_type h) as [[]|] eqn:Hmt; try done. injection Hfrom as Hid.
  specialize (Hdec h Hh Hmt). unfold listener_frame. rewrite Hh, Hid, (proj2 (Z.eqb_neq _ _)), Hmt by done.
  destruct (decode_from_slice _) as [[pl r]|]; [|done]. cbn. unfold alive_in, on_heartbeat.
  rewrite lookup_insert_eq. by eexists.
Qed.

Lemma scan_keeps_alive (it : HashIter Z NodeInfo) self_id now m k :
  (∀ n, m !! k = Some n → ni_last_seen n ≤ now ≤ ni_last_seen n + suspect) →
  alive_in m k → alive_in (fd_tick (it := it) self_id suspect dead now m) k.
Proof.
  intros Hlate (n & Hn & Hst). destruct (Hlate n Hn) as [Hle Hage]. unfold alive_in.
  eexists. rewrite lookup_fd_tick, Hn. cbn [mbind option_bind].
  rewrite node_age_elapsed, decide_True by lia. split; [done|].
  cbn. rewrite mark_node_state, node_age_elapsed by done.
  by rewrite (proj2 (Z.ltb_ge dead _)), (proj2 (Z.ltb_ge suspect _)) by lia.
Qed.

(** One turn. *)
Lemma happens_heard past c t j k :
  cluster_inv ids c → Forall beat_decodes (cl_net c) → k ≠ j →
  possible c t → no_gossip t → heard_in_time past c t →
  (Exists (hears j k) past → holds_alive c j k) →
  Exists (hears j k) (past ++ [t]) → holds_alive (happens suspect dead c t) j k.
Proof.
  intros [Hnodes Hknown] Hdec Hne Hp Hno Htime Hpast Hex nd (nd0 & Hj & _ & ->)%happens_lookup.
  assert (hears j k t ∨ Exists (hears j k) past) as Hor
    by (apply Exists_app in Hex as [?|[?|?%Exists_nil]%Exists_cons]; tauto).
  case_decide as Ht; cycle 1.
  { destruct Hor as [[? _]|Hold]; [congruence|]. by apply Hpast. }
  subst j. destruct (Hnodes _ _ Hj) as (Hid & _). destruct t as [j a].
  unfold hears, possible, no_gossip, heard_in_time in *. cbn [tn_node tn_does] in *.
  destruct a as [it now|now|it clock|clock from dg|env stream]; cbn [does].
  - destruct Hor as [[_ []]|Hold]. cbn [snd hv_members]. apply scan_keeps_alive; [|by apply Hpast].
    intros n. by apply (Htime nd0).
  - destruct Hor as [[_ []]|Hold]. destruct (heartbeat_tick _ _ _). by apply Hpast.
  - destruct Hor as [[_ []]|Hold]. destruct (gossip_tick _ _ _ _). by apply Hpast.
  - cbn [snd listen hv_members]. destruct Hp as [Hin _]. rewrite Forall_forall in Hknown, Hdec. rewrite Hid.
    destruct Hor as [[_ Hhb]|Hold]; [by apply heartbeat_makes_alive; [apply Hdec| |]|].
    by apply listener_keeps_alive; [apply Hknown| |apply Hpast].
  - destruct Hor as [[_ []]|Hold]. cbn [snd hv_members]. rewrite control_members. by apply Hpast.
Qed.

Lemma healing_run past c turns :
  cluster_reachable suspect dead version ids c → healing past c turns →
  (∀ j k, k ≠ j → Exists (hears j k) past → holds_alive c j k) →
  cluster_reachable suspect dead version ids (run suspect dead c turns) ∧
  ∀ j k, k ≠ j → Exists (hears j k) (past ++ turns) → holds_alive (run suspect dead c turns) j k.
Proof.
  revert past c. induction turns as [|t turns IH]; intros past c Hreach Hheal Hpast.
  { split; [done|]. by rewrite app_nil_r. }
  destruct Hheal as (Hp & Hno & Htime & Hrest). cbn [run foldl].
  rewrite (app_assoc past [t] turns : past ++ t :: turns = _). apply IH; [|done|].
  - destruct (happens_step suspect dead version ids c t Hp) as [->|Hstep]; [done|].
    by eapply cluster_reachable_step.
  - intros j k Hne. eapply happens_heard; [by eapply cluster_reachable_inv|by apply reachable_beats_decode|done..|].
    by apply Hpast.
Qed.

(** C7: the cluster heals: from any state it can reach, whatever partitions, restarts, losses
    and rumours have made of the tables, once all configured daemons run and every daemon
    has heard a heartbeat of every other, all agree on who is alive and elect the least
    configured id; in between daemons may scan, send, answer requests and receive any old
    heartbeat or announcement, as long as no gossip arrives and no scan finds a daemon
    that was heard since then silent for longer than the suspect threshold. *)
Theorem partition_heals c turns boss :
  cluster_reachable suspect dead version ids c → dom (cl_nodes c) = ids → least ids boss →
  healing [] c turns → (∀ j k, j ∈ ids → k ∈ ids → j ≠ k → Exists (hears j k) turns) →
  let c' := run suspect dead c turns in
  cluster_reachable suspect dead version ids c' ∧ agreed c' ∧
  ∀ j nd (it : HashIter Z NodeInfo), HashIterOk it → cl_nodes c' !! j = Some nd →
    master_from (it := it) (hv_members (nd_hive nd)) j = Some boss.
Proof.
  intros Hreach Hall Hboss Hheal Hhears c'.
  destruct (healing_run [] c turns Hreach Hheal) as [Hreach' Halive]; [by intros j k _ ?%Exists_nil|].
  fold c' in Hreach', Halive. split; [done|].
  assert (dom (cl_nodes c') = ids) as Hdom by (unfold c'; by rewrite run_dom).
  apply (all_alive_agreed ids); [by eapply cluster_reachable_inv|done..|]. intros j k nd Hk Hne Hj.
  apply (Halive j k Hne); [|done]. apply Hhears; [|done..]. rewrite <-Hdom. by eapply elem_of_dom_2.
Qed.
End Healing.

(** ** Witness *)

Module Witnesses.
Import Simple.
Import Hivebus.Witnesses Cluster.Witnesses Stability.Witnesses.

(** The pair of [Stability], long out of touch: each holds the other [Dead]. *)
Definition silence : list turn := [
  {| tn_node := 3; tn_does := Scan map_iter 40000 |};
  {| tn_node := 7; tn_does := Scan map_iter 40000 |}].
Definition parted : Cluster := run 450 30000 pair silence.

Lemma parted_reachable : cluster_reachable 450 30000 "1" ids parted.
Proof.
  assert (healing 450 30000 [] pair silence) as Hheal.
  { split; [exact map_iter_ok|]. split; [done|]. split; [by intros nd k n _ ?%Exists_nil|].
    split; [exact map_iter_ok|]. split; [done|]. split; [|done].
    by intros nd k n _ [[? _]|?%Exists_nil]%Exists_cons. }
  apply (healing_run 450 30000 "1" ids ltac:(split; by_compute) [] pair silence pair_reachable Hheal).
  by intros j k _ ?%Exists_nil.
Qed.

Definition late_beat_3 : bytes := default [] (head (heartbeat_tick (node 3) 50000 0).1.*2).
Definition late_beat_7 : bytes := default [] (head (heartbeat_tick (node 7) 50000 0).1.*2).
Definition reunion : list turn := [
  {| tn_node := 3; tn_does := Beat 50000 |};
  {| tn_node := 7; tn_does := Beat 50000 |};
  {| tn_node := 7; tn_does := Hear (λ _, 50100) (V4 0 1) late_beat_3 |};
  {| tn_node := 7; tn_does := Scan map_iter 50200 |};
  {| tn_node := 3; tn_does := Hear (λ _, 50300) (V4 0 2) late_beat_7 |}].

Lemma partition_heals_witness :
  let state c i k := ni_state <$> default ∅ (hv_members ∘ nd_hive <$> cl_nodes c !! i) !! k in
  state parted 3 7 = Some Dead ∧ state parted 7 3 = Some Dead ∧
  agreed (run 450 30000 parted reunion).
Proof.
  intros state. split; [by vm_compute|]. split; [by vm_compute|].
  refine (proj1 (proj2 (partition_heals 450 30000 "1" ids ltac:(split; by_compute) parted reunion 3
    parted_reachable _ _ _ _))).
  - by vm_compute.
  - rewrite <-pair_dom. exact least_pair.
  - split; [done|]. split; [done|]. split; [done|]. split; [done|]. split; [done|]. split; [done|].
    split; [split; by_compute|]. split; [by intros h [= <-]|]. split; [done|].
    split; [exact map_iter_ok|]. split; [done|]. split.
    { intros nd k n Hj _ Hn. vm_compute in Hj. injection Hj as Hj.
      assert (map_Forall (λ _ n, ni_last_seen n ≤ 50200 ≤ ni_last_seen n + 450) (hv_members (nd_hive nd)))
        as Hall by (rewrite <-Hj; by_compute).
      exact (Hall k n Hn). }
    split; [split; by_compute|]. split; [by intros h [= <-]|]. done.
  - intros j k Hj Hk Hne. unfold ids in Hj, Hk.
    assert ((j = 3 ∧ k = 7) ∨ (j = 7 ∧ k = 3)) as [[-> ->]|[-> ->]] by set_solver.
    + do 4 apply Exists_cons_tl. apply Exists_cons_hd. split; [done|by vm_compute].
    + do 2 apply Exists_cons_tl. apply Exists_cons_hd. split; [done|by vm_compute].
Defined.
End Witnesses.
