(* ===== verification/Tftp.v ===== *)
(** * The TFTP server of pxeboot (crates/pxeboot/src/main.rs)

    Path sanitising, the packets, the request handler, and one read transfer as
    a machine that sends the current block and then waits: each step consumes
    what one send and one wait ended in.  The file system and the socket are the
    environment's. *)

From S2P Require Import Prelude RustStd.
Local Open Scope Z_scope.

(** ** Constants *)

Definition TFTP_RRQ : Z := 1.
Definition TFTP_DATA : Z := 3.
Definition TFTP_ACK : Z := 4.
Definition TFTP_ERROR : Z := 5.
Definition TFTP_BLOCK_SIZE : nat := 512.
Definition TFTP_MAX_RETRIES : nat := 5.

(** ** Paths *)

(** The loop of [sanitize_tftp_path]. *)
Fixpoint push_components (p : path) (cs : list component) : option path :=
  match cs with
  | [] => Some p
  | Normal segment :: cs => push_components (push p segment) cs
  | CurDir :: cs => push_components p cs
  | ParentDir :: _ | RootDir :: _ => None
  end.

Definition sanitize_tftp_path (root : path) (requested : string) : option path :=
  push_components root (components (as_bytes requested)).

(** ** Packets *)

(** [parse_tftp_rrq]: file name and lower-cased mode. *)
Definition parse_tftp_rrq (packet : bytes) : option (string * string) :=
  match packet with
  | b0 :: b1 :: payload =>
    if (length packet <? 4)%nat || negb (from_be_bytes [b0; b1] =? TFTP_RRQ) then None
    else
      file_end ← position (λ b, b =? 0) payload;
      let mode_start := S file_end in
      if (length payload <? mode_start)%nat then None
      else
        mode_len ← position (λ b, b =? 0) (drop mode_start payload);
        filename ← from_utf8 (take file_end payload);
        mode ← from_utf8 (take mode_len (drop mode_start payload));
        Some (filename, to_ascii_lowercase mode)
  | _ => None
  end.

Definition build_tftp_data (block : Z) (data : bytes) : bytes :=
  to_be_bytes 2 TFTP_DATA ++ to_be_bytes 2 block ++ data.

Definition build_tftp_error (code : Z) (message : string) : bytes :=
  to_be_bytes 2 TFTP_ERROR ++ to_be_bytes 2 code ++ as_bytes message ++ [0].

(** ** One transfer *)

(** How many bytes a read of up to [TFTP_BLOCK_SIZE] bytes at an offset returns,
    or an input error: the operating system may return less than asked for. *)
Class FileRead := read_len : bytes → nat → option nat.

(** Reads that fill the buffer unless the file ends, as for regular files. *)
Definition full_reads : FileRead := λ file off, Some (length (take TFTP_BLOCK_SIZE (drop off file))).

(** What one [send_to] and the wait for an acknowledgement end in. *)
Inductive attempt :=
| SendFailed
| Received (from : SocketAddr) (datagram : bytes)
| ReceiveFailed
| TimedOut.

#[export] Instance attempt_eq_dec : EqDecision attempt.
Proof. solve_decision. Defined.

(** A transfer between two attempts, and the ways it ends. *)
Inductive transfer :=
| Sending (block : Z) (offset : nat) (data : bytes) (retries : nat)
| Complete (block : Z)
| SendError
| GaveUp
| ReadFailed.

(** The read at the top of the outer loop: [offset] is where the file stands. *)
Definition next_block {reads : FileRead} (file : bytes) (block : Z) (offset : nat) :
    transfer * list bytes :=
  match read_len file offset with
  | Some n => (Sending block (offset + n) (take n (drop offset file)) 0, [])
  | None => (ReadFailed, [build_tftp_error 0 "read failed"])
  end.

(** An acknowledgement of [block] from the client; the receive buffer holds four bytes. *)
Definition is_ack (client : SocketAddr) (block : Z) (from : SocketAddr) (datagram : bytes) : bool :=
  match take 4 datagram with
  | [b0; b1; b2; b3] =>
    bool_decide (from = client)
    && ((from_be_bytes [b0; b1] =? TFTP_ACK) && (from_be_bytes [b2; b3] =? block))
  | _ => false
  end.

(** One round of the inner loop, and what follows it when it breaks out. *)
Definition transfer_step {reads : FileRead} (client : SocketAddr) (file : bytes)
    (st : transfer) (a : attempt) : transfer * list bytes :=
  match st with
  | Sending block offset data retries =>
    match a with
    | SendFailed => (SendError, [])
    | _ =>
      let packet := build_tftp_data block data in
      let acked := match a with Received from dg => is_ack client block from dg | _ => false end in
      if acked then
        if (length data <? TFTP_BLOCK_SIZE)%nat then (Complete block, [packet])
        else
          let '(st', sent) := next_block file (wrap 16 (block + 1)) offset in
          (st', packet :: sent)
      else if (TFTP_MAX_RETRIES <=? S retries)%nat then (GaveUp, [packet])
      else (Sending block offset data (S retries), [packet])
    end
  | _ => (st, [])
  end.

(** A whole transfer against a sequence of attempts: the packets sent and the
    state reached. *)
Fixpoint transfer_run {reads : FileRead} (client : SocketAddr) (file : bytes)
    (st : transfer) (attempts : list attempt) : transfer * list bytes :=
  match attempts with
  | [] => (st, [])
  | a :: attempts =>
    let '(st1, sent1) := transfer_step client file st a in
    let '(st2, sent2) := transfer_run client file st1 attempts in
    (st2, sent1 ++ sent2)
  end.

(** ** The request handler *)

(** The files under their paths, as [File::open] sees them. *)
Abbreviation Disk := (gmap (list Z) (list Z)) (only parsing).

(** What a request leads to: nothing (a socket could not be bound), one error
    packet from a fresh socket, or a transfer that has made its first read. *)
Inductive served :=
| NoSocket
| Refused (packet : bytes)
| Started (file : bytes) (st : transfer) (sent : list bytes).

(** [serve_tftp_read] up to its first attempt to send; [bound] tells whether the
    one socket it binds could be bound. *)
Definition serve_tftp_read {reads : FileRead} (disk : Disk) (bound : bool) (root : path)
    (requested : string) : served :=
  let refuse packet := if bound then Refused packet else NoSocket in
  match sanitize_tftp_path root requested with
  | None => refuse (build_tftp_error 2 "invalid path")
  | Some p =>
    match disk !! p with
    | None => refuse (build_tftp_error 1 "file not found")
    | Some file =>
      if bound then let '(st, sent) := next_block file 1 0 in Started file st sent else NoSocket
    end
  end.

(** [tftp_server] on one datagram (the receive buffer holds 1500 bytes): an error
    packet from the server socket, or a new task. *)
Inductive tftp_action :=
| ServerError (packet : bytes)
| Spawn (requested : string).

Definition tftp_datagram (datagram : bytes) : tftp_action :=
  match parse_tftp_rrq (take 1500 datagram) with
  | None => ServerError (build_tftp_error 4 "unsupported operation")
  | Some (requested, mode) =>
    if negb (mode =? "octet")%string && negb (mode =? "netascii")%string
    then ServerError (build_tftp_error 0 "unsupported transfer mode")
    else Spawn requested
  end.

(** ** Confinement *)

Lemma push_components_spec p cs :
  Forall (λ c, ∀ s, c = Normal s → normal_segment s) cs →
  match push_components p cs with
  | Some p' => (RootDir ∉ cs) ∧ (ParentDir ∉ cs)
      ∧ components p' = components p ++ filter (λ c, c ≠ CurDir) cs
  | None => RootDir ∈ cs ∨ ParentDir ∈ cs
  end.
Proof.
  intros Hcs. revert p. induction Hcs as [|c cs Hc _ IH]; intros p; cbn [push_components].
  - rewrite app_nil_r. split_and!; [apply not_elem_of_nil..|done].
  - destruct c as [| | |s].
    + left. constructor.
    + specialize (IH p). destruct (push_components p cs) as [p'|].
      * destruct IH as (? & ? & ->). rewrite filter_cons_False by naive_solver.
        split_and!; [by apply not_elem_of_cons..|done].
      * destruct IH; [left|right]; by constructor.
    + right. constructor.
    + specialize (IH (push p s)). destruct (push_components _ cs) as [p'|].
      * destruct IH as (? & ? & ->). rewrite filter_cons_True by done.
        rewrite components_push by by apply Hc.
        split_and!; [by apply not_elem_of_cons..|]. by rewrite <-app_assoc.
      * destruct IH; [left|right]; by constructor.
Qed.

(** C31: a TFTP client cannot leave the root directory: a requested path is refused
    exactly when it is absolute or contains a parent-directory component, and an
    accepted one names the root's own components followed by the request's normal
    segments, none of which is empty, a dot, two dots, or contains a slash. *)
Theorem sanitize_confined root requested :
  match sanitize_tftp_path root requested with
  | Some p => ∃ segments, Forall normal_segment segments
      ∧ components p = components root ++ (Normal <$> segments)
      ∧ filter (λ c, c ≠ CurDir) (components (as_bytes requested)) = Normal <$> segments
  | None => RootDir ∈ components (as_bytes requested) ∨ ParentDir ∈ components (as_bytes requested)
  end.
Proof.
  unfold sanitize_tftp_path. pose proof (components_Normal (as_bytes requested)) as Hcs.
  pose proof (push_components_spec root _ Hcs) as Hspec.
  destruct (push_components _ _) as [p|]; [|done]. destruct Hspec as (Hr & Hp & Hc).
  assert (∃ segments, Forall normal_segment segments
    ∧ filter (λ c, c ≠ CurDir) (components (as_bytes requested)) = Normal <$> segments)
    as (segs & Hsegs & Hf).
  { clear Hc. induction Hcs as [|c cs Hc _ IH]; [by exists []|].
    apply not_elem_of_cons in Hr as [? ?], Hp as [? ?].
    destruct IH as (segs & Hsegs & Heq); [done..|].
    destruct c as [| | |s]; try done.
    - exists segs. by rewrite filter_cons_False by naive_solver.
    - exists (s :: segs). rewrite filter_cons_True by done. rewrite Heq. split; [|done].
      constructor; [by apply Hc|done]. }
  exists segs. split_and!; [done| |done]. by rewrite Hc, Hf.
Qed.

(** The paths of a boot script, and of a request that tries to climb out. *)
Example sanitize_examples :
  sanitize_tftp_path (as_bytes "/srv") "./scripts//a.ipxe" = Some (as_bytes "/srv/scripts/a.ipxe")
  ∧ sanitize_tftp_path (as_bytes "/srv") "scripts/../../etc/shadow" = None
  ∧ sanitize_tftp_path (as_bytes "/srv") "/etc/shadow" = None.
Proof. by vm_compute. Qed.

(** ** Read requests *)

Lemma position_zero l1 l2 : 0 ∉ l1 → position (λ b, b =? 0) (l1 ++ 0 :: l2) = Some (length l1).
Proof.
  intros Hl1. apply position_app_cons; [|done].
  apply Forall_forall. intros b Hb. apply Z.eqb_neq. by intros ->.
Qed.

Lemma position_zero_split l i :
  position (λ b, b =? 0) l = Some i →
  l = take i l ++ 0 :: drop (S i) l ∧ 0 ∉ take i l.
Proof.
  intros (x & Hx & ->%Z.eqb_eq & Hall)%position_Some. split.
  - symmetry. by apply take_drop_middle.
  - intros Hin. rewrite Forall_forall in Hall. specialize (Hall 0 Hin). done.
Qed.

Lemma from_utf8_Some bs str :
  bytes_ok bs → from_utf8 bs = Some str ↔ bs = as_bytes str ∧ utf8_valid bs = true.
Proof.
  intros Hbs. unfold from_utf8. destruct (utf8_valid bs); split; try done; try by intros [? ?].
  - intros [= <-]. by rewrite as_string_of_bytes.
  - intros [-> _]. by rewrite string_of_as_bytes.
Qed.

Lemma parse_rrq_build name mode rest :
  0 ∉ as_bytes name → 0 ∉ as_bytes mode →
  utf8_valid (as_bytes name) = true → utf8_valid (as_bytes mode) = true →
  parse_tftp_rrq ([0; 1] ++ as_bytes name ++ [0] ++ as_bytes mode ++ [0] ++ rest)
  = Some (name, to_ascii_lowercase mode).
Proof.
  intros Hnf Hnm Hvn Hvm.
  unfold parse_tftp_rrq. cbn [app].
  match goal with |- context [(?n <? 4)%nat] => assert ((n <? 4)%nat = false) as -> end.
  { apply Nat.ltb_ge. cbn. rewrite !length_app. cbn. rewrite !length_app. cbn. lia. }
  change (from_be_bytes [0; 1] =? TFTP_RRQ) with true. cbn [orb negb].
  rewrite position_zero by done. cbn [mbind option_bind].
  match goal with |- context [(?n <? ?k)%nat] => assert ((n <? k)%nat = false) as -> end.
  { apply Nat.ltb_ge. rewrite !length_app. cbn. lia. }
  rewrite (take_app_exact (as_bytes name)) by done.
  replace (drop (S (length (as_bytes name))) (as_bytes name ++ 0 :: as_bytes mode ++ 0 :: rest))
    with (as_bytes mode ++ 0 :: rest)
    by (symmetry; rewrite cons_middle, app_assoc; apply drop_app_exact; rewrite length_app; cbn; lia).
  rewrite position_zero by done. cbn [mbind option_bind].
  rewrite (take_app_exact (as_bytes mode)) by done.
  by rewrite !from_utf8_as_bytes.
Qed.

(** C33: a datagram is a read request for a file in a mode exactly when it is the
    opcode, the name, a zero byte, the mode in any case, a zero byte, and anything
    after that (options are ignored); name and mode are UTF-8 without zero bytes. *)
Theorem parse_rrq_exact packet name mode :
  bytes_ok packet →
  parse_tftp_rrq packet = Some (name, mode) ↔
  ∃ mode0 rest, packet = [0; 1] ++ as_bytes name ++ [0] ++ as_bytes mode0 ++ [0] ++ rest
    ∧ mode = to_ascii_lowercase mode0
    ∧ (0 ∉ as_bytes name) ∧ (0 ∉ as_bytes mode0)
    ∧ utf8_valid (as_bytes name) = true ∧ utf8_valid (as_bytes mode0) = true.
Proof.
  intros Hok. split.
  - intros Hp. destruct packet as [|b0 [|b1 payload]]; try done. unfold parse_tftp_rrq in Hp.
    destruct (_ || _) eqn:Hop; [done|]. apply orb_false_iff in Hop as [_ Hop%negb_false_iff].
    apply Z.eqb_eq in Hop. rewrite !Forall_cons in Hok. destruct Hok as (Hb0 & Hb1 & Hpl).
    rewrite from_be_bytes_2 in Hop. unfold TFTP_RRQ in Hop.
    assert (b0 = 0 ∧ b1 = 1) as [-> ->] by fits_lia.
    destruct (position _ payload) as [fe|] eqn:Hfe; [|done]. cbn in Hp.
    destruct (Nat.leb_spec (length payload) fe); [done|].
    destruct (position _ (drop _ payload)) as [ml|] eqn:Hml; [|done]. cbn in Hp.
    apply position_zero_split in Hfe as [Hpay Hnf], Hml as [Hrest Hnm].
    destruct (from_utf8 (take fe payload)) as [n|] eqn:Hn; [|done]. cbn in Hp.
    destruct (from_utf8 (take ml _)) as [m0|] eqn:Hm; [|done]. cbn in Hp. simplify_eq.
    apply from_utf8_Some in Hn as [Hn Hvn]; [|by apply Forall_take].
    apply from_utf8_Some in Hm as [Hm Hvm]; [|by apply Forall_take, Forall_drop].
    exists m0, (drop (S ml) (drop (S fe) payload)). rewrite <-Hn, <-Hm.
    split_and!; try done. cbn [app]. do 2 f_equal. rewrite <-Hrest. done.
  - intros (mode0 & rest & -> & -> & Hnf & Hnm & Hvn & Hvm). by apply parse_rrq_build.
Qed.

Lemma parse_rrq_exact_witness :
  parse_tftp_rrq ([0; 1] ++ as_bytes "a" ++ [0] ++ as_bytes "Octet" ++ [0] ++ as_bytes "x")
  = Some ("a", "octet").
Proof.
  apply parse_rrq_exact; [by_compute|].
  exists "Octet"%string, (as_bytes "x"). split_and!; [reflexivity..| | | |]; by_compute.
Defined.

(** ** Transfers *)

Section Transfer.
Context (client : SocketAddr) (file : bytes).
#[local] Existing Instance full_reads.

(** The [i]-th block of the file, from 0, its packet, and the number of blocks:
    the last one is shorter than a full block, and empty if the size is a multiple. *)
Definition chunk (i : nat) : bytes := take TFTP_BLOCK_SIZE (drop (TFTP_BLOCK_SIZE * i) file).
Definition block_number (i : nat) : Z := wrap 16 (Z.of_nat i + 1).
Definition data_packet (i : nat) : bytes := build_tftp_data (block_number i) (chunk i).
Definition nblocks : nat := S (length file / TFTP_BLOCK_SIZE).

#[local] Arguments nblocks : simpl never.
#[local] Arguments block_number : simpl never.

(** The packets of a run of blocks from the [i]-th on, the [j]-th of them sent
    [counts !! j] times. *)
Fixpoint sent_blocks (i : nat) (counts : list nat) : list bytes :=
  match counts with
  | [] => []
  | c :: counts => replicate c (data_packet i) ++ sent_blocks (S i) counts
  end.

(** A block is sent at least once before the next one, and at most [budget]
    times, the following ones five times. *)
Fixpoint counts_ok (budget : nat) (counts : list nat) : Prop :=
  match counts with
  | [] => True
  | c :: counts => (c ≤ budget)%nat ∧ (counts ≠ [] → 1 ≤ c)%nat ∧ counts_ok TFTP_MAX_RETRIES counts
  end.

(** The attempt brought the client's acknowledgement of the [i]-th block. *)
Definition acknowledges (a : attempt) (i : nat) : Prop :=
  match a with Received from dg => is_ack client (block_number i) from dg = true | _ => False end.

Definition at_block (i retries : nat) : transfer :=
  Sending (block_number i) (TFTP_BLOCK_SIZE * i + length (chunk i)) (chunk i) retries.

Definition finished (st : transfer) : bool :=
  match st with Sending _ _ _ _ => false | _ => true end.

Lemma length_chunk i : length (chunk i) = Nat.min TFTP_BLOCK_SIZE (length file - TFTP_BLOCK_SIZE * i).
Proof. unfold chunk. by rewrite length_take, length_drop. Qed.

Lemma chunk_last i :
  (i < nblocks)%nat →
  (length (chunk i) < TFTP_BLOCK_SIZE)%nat ↔ S i = nblocks.
Proof.
  rewrite length_chunk. unfold nblocks, TFTP_BLOCK_SIZE. intros Hi.
  pose proof (Nat.div_mod (length file) 512 ltac:(lia)).
  pose proof (Nat.mod_upper_bound (length file) 512 ltac:(lia)). lia.
Qed.

Lemma next_block_full i :
  next_block file (block_number i) (TFTP_BLOCK_SIZE * i) = (at_block i 0, []).
Proof.
  unfold next_block, read_len, full_reads, at_block. fold (chunk i).
  do 2 f_equal. unfold chunk. by rewrite length_take, <-take_take, firstn_all.
Qed.

Lemma block_number_S i : wrap 16 (block_number i + 1) = block_number (S i).
Proof. unfold block_number. fits_lia. Qed.

(** The three things a step can do to a sending transfer. *)
Lemma step_acked a i r :
  acknowledges a i → (i < nblocks)%nat →
  transfer_step client file (at_block i r) a
  = (if decide (S i = nblocks) then Complete (block_number i) else at_block (S i) 0,
     [data_packet i]).
Proof.
  intros Ha Hi. destruct a as [|from dg| |]; try done. cbn in Ha.
  unfold transfer_step, at_block. rewrite Ha.
  pose proof (chunk_last i Hi) as Hlast.
  destruct (Nat.ltb_spec (length (chunk i)) TFTP_BLOCK_SIZE) as [Hlt|Hge].
  - rewrite decide_True by by apply Hlast. done.
  - rewrite decide_False by (intros ?%Hlast; lia). rewrite block_number_S.
    assert (TFTP_BLOCK_SIZE * i + length (chunk i) = TFTP_BLOCK_SIZE * S i)%nat as ->.
    { rewrite length_chunk in *. lia. }
    by rewrite next_block_full.
Qed.

Lemma step_not_acked a i r :
  ¬ acknowledges a i → a ≠ SendFailed →
  transfer_step client file (at_block i r) a
  = (if (TFTP_MAX_RETRIES <=? S r)%nat then GaveUp else at_block i (S r), [data_packet i]).
Proof.
  intros Ha Hs. unfold transfer_step, at_block. destruct a as [|from dg| |]; try done; cbn in Ha.
  - destruct (is_ack _ _ _ _); [done|]. by destruct (_ <=? _)%nat.
  - by destruct (_ <=? _)%nat.
  - by destruct (_ <=? _)%nat.
Qed.

Lemma run_finished st attempts :
  finished st = true → transfer_run client file st attempts = (st, []).
Proof. intros Hst. induction attempts as [|a atts IH]; [done|].
  by destruct st; try done; cbn in *; rewrite IH.
Qed.

#[local] Instance acknowledges_dec a i : Decision (acknowledges a i).
Proof. unfold acknowledges. destruct a; apply _. Defined.

(** A run from a block: what is sent, and which acknowledgements came in. *)
Lemma run_from attempts : ∀ i r,
  (i < nblocks)%nat → (r < TFTP_MAX_RETRIES)%nat →
  let '(st, sent) := transfer_run client file (at_block i r) attempts in
  ∃ counts acks, counts ≠ [] ∧
    sent = sent_blocks i counts ∧ counts_ok (TFTP_MAX_RETRIES - r) counts ∧
    (i + length counts ≤ nblocks)%nat ∧
    acks `sublist_of` attempts ∧
    match st with
    | Complete b => (i + length counts)%nat = nblocks ∧ b = block_number (nblocks - 1)
                    ∧ Forall2 acknowledges acks (seq i (length counts))
    | Sending _ _ _ _ => Forall2 acknowledges acks (seq i (length counts - 1))
                         ∧ ∃ r', st = at_block (i + (length counts - 1)) r'
    | _ => Forall2 acknowledges acks (seq i (length counts - 1))
    end.
Proof.
  induction attempts as [|a attempts IH]; intros i r Hi Hr; cbn [transfer_run].
  { exists [0%nat], []. cbn. split_and!; try done; try lia.
    exists r. by rewrite Nat.add_0_r. }
  destruct (decide (a = SendFailed)) as [->|Hs].
  { cbn. rewrite run_finished by done. exists [0%nat], []. cbn.
    split_and!; try done; try lia. apply sublist_nil_l. }
  destruct (decide (acknowledges a i)) as [Ha|Ha].
  - rewrite (step_acked a i r Ha Hi). destruct (decide (S i = nblocks)) as [Hlast|Hmore].
    + rewrite run_finished by done. exists [1%nat], [a]. cbn.
      unfold TFTP_MAX_RETRIES in *. split_and!; try done; try lia.
      * apply sublist_skip, sublist_nil_l.
      * f_equal. lia.
      * apply Forall2_cons. by split.
    + specialize (IH (S i) 0%nat ltac:(lia) ltac:(unfold TFTP_MAX_RETRIES; lia)).
      destruct (transfer_run _ _ (at_block (S i) 0) attempts) as [st sent].
      destruct IH as (counts & acks & Hne & -> & Hc & Hlen & Hsub & Hst).
      exists (1%nat :: counts), (a :: acks). unfold TFTP_MAX_RETRIES in *.
      destruct counts as [|c counts]; [done|].
      assert (counts_ok (5 - r) (1%nat :: c :: counts)) by (split; [lia|split; [lia|done]]).
      cbn [length] in *. rewrite Nat.sub_succ, Nat.sub_0_r in *.
      split_and!; try done; try lia; [by apply sublist_skip|].
      destruct st; cbn [seq].
      -- destruct Hst as [? [r' ->]]. split; [by constructor|]. exists r'. f_equal. lia.
      -- destruct Hst as (? & ? & ?). split_and!; [lia|done|by constructor].
      -- by constructor.
      -- by constructor.
      -- by constructor.
  - rewrite (step_not_acked a i r Ha Hs). unfold TFTP_MAX_RETRIES in *.
    destruct (Nat.leb_spec 5 (S r)) as [Hlast|Hmore].
    + rewrite run_finished by done. exists [1%nat], []. cbn.
      split_and!; try done; try lia. apply sublist_nil_l.
    + specialize (IH i (S r) Hi ltac:(lia)).
      destruct (transfer_run _ _ (at_block i (S r)) attempts) as [st sent].
      destruct IH as (counts & acks & Hne & -> & Hc & Hlen & Hsub & Hst).
      destruct counts as [|c counts]; [done|].
      assert (counts_ok (5 - r) (S c :: counts)).
      { destruct Hc as (? & ? & ?). split; [lia|split; [lia|done]]. }
      exists (S c :: counts), acks. cbn [length sent_blocks] in *.
      split_and!; try done; try lia. by apply sublist_cons.
Qed.

(** The blocks in order are the file. *)
Lemma chunks_take k : mjoin (chunk <$> seq 0 k) = take (TFTP_BLOCK_SIZE * k) file.
Proof.
  induction k as [|k IH]; [by rewrite Nat.mul_0_r|].
  rewrite seq_S, fmap_app, join_app, IH. cbn [fmap list_fmap mjoin list_join app Nat.add].
  rewrite app_nil_r. unfold chunk. rewrite Nat.mul_succ_r.
  apply take_take_drop.
Qed.

Lemma chunks_file : mjoin (chunk <$> seq 0 nblocks) = file.
Proof.
  rewrite chunks_take. apply take_ge. unfold nblocks, TFTP_BLOCK_SIZE.
  pose proof (Nat.div_mod (length file) 512 ltac:(lia)).
  pose proof (Nat.mod_upper_bound (length file) 512 ltac:(lia)). lia.
Qed.

Lemma chunks_drop k :
  (TFTP_BLOCK_SIZE * k ≤ length file)%nat →
  mjoin (chunk <$> seq k (nblocks - k)) = drop (TFTP_BLOCK_SIZE * k) file.
Proof.
  intros Hk. pose proof chunks_file as Hfile.
  assert (k ≤ nblocks)%nat as Hle.
  { unfold nblocks, TFTP_BLOCK_SIZE in *. pose proof (Nat.div_le_lower_bound (length file) 512 k). lia. }
  replace nblocks with (k + (nblocks - k))%nat in Hfile at 1 by lia.
  rewrite seq_app, fmap_app, join_app, chunks_take, Nat.add_0_l in Hfile.
  eapply app_inv_head. rewrite Hfile. symmetry. apply take_drop.
Qed.

Lemma start_at_block : next_block file 1 0 = (at_block 0 0, []).
Proof. exact (next_block_full 0). Qed.

Lemma nblocks_pos : (0 < nblocks)%nat.
Proof. unfold nblocks. lia. Qed.

(** C17: whatever the network and the client do, the packets of a transfer are the
    blocks of the file in order, from the first, each at most five times and each
    block after the client's acknowledgement of the one before.  When the transfer
    completes, every block was sent and acknowledged in order, and together they
    are the file. *)
Theorem transfer_stop_and_wait attempts :
  let '(st, sent) := transfer_run client file (next_block file 1 0).1 attempts in
  ∃ counts acks, counts ≠ [] ∧ sent = sent_blocks 0 counts ∧ counts_ok TFTP_MAX_RETRIES counts
    ∧ (length counts ≤ nblocks)%nat ∧ acks `sublist_of` attempts
    ∧ match st with
      | Complete b => length counts = nblocks ∧ Forall2 acknowledges acks (seq 0 nblocks)
                      ∧ mjoin (chunk <$> seq 0 (length counts)) = file
      | _ => Forall2 acknowledges acks (seq 0 (length counts - 1))
      end.
Proof.
  rewrite start_at_block. pose proof (run_from attempts 0 0 nblocks_pos) as Hrun.
  specialize (Hrun ltac:(unfold TFTP_MAX_RETRIES; lia)). cbn [fst].
  destruct (transfer_run _ _ _ _) as [st sent].
  destruct Hrun as (counts & acks & Hne & -> & Hc & Hlen & Hsub & Hst).
  exists counts, acks. split_and!; try done. destruct st; try done; [by destruct Hst|].
  destruct Hst as (Hl & _ & Hacks). rewrite Nat.add_0_l in Hl. rewrite Hl in *.
  split_and!; [done..|apply chunks_file].
Qed.

(** Rounds left until the transfer must have ended. *)
Lemma run_ends attempts : ∀ i r,
  (i < nblocks)%nat → (r < TFTP_MAX_RETRIES)%nat →
  (TFTP_MAX_RETRIES * (nblocks - i) - r ≤ length attempts)%nat →
  finished (transfer_run client file (at_block i r) attempts).1 = true.
Proof.
  unfold TFTP_MAX_RETRIES.
  induction attempts as [|a attempts IH]; intros i r Hi Hr Hlen; cbn [length transfer_run] in *; [lia|].
  destruct (decide (a = SendFailed)) as [->|Hs]; [cbn; by rewrite run_finished|].
  destruct (decide (acknowledges a i)) as [Ha|Ha].
  - rewrite (step_acked a i r Ha Hi). case_decide; [by rewrite run_finished|].
    specialize (IH (S i) 0%nat ltac:(lia) ltac:(lia) ltac:(lia)). by destruct (transfer_run _ _ _ _).
  - rewrite (step_not_acked a i r Ha Hs). unfold TFTP_MAX_RETRIES.
    destruct (Nat.leb_spec 5 (S r)); [by rewrite run_finished|].
    specialize (IH i (S r) Hi ltac:(lia) ltac:(lia)). by destruct (transfer_run _ _ _ _).
Qed.

(** C32: a transfer always ends, after at most five attempts per block, whatever
    happens on the network. *)
Theorem transfer_terminates attempts :
  (TFTP_MAX_RETRIES * nblocks ≤ length attempts)%nat →
  finished (transfer_run client file (next_block file 1 0).1 attempts).1 = true.
Proof.
  intros Hlen. rewrite start_at_block. apply run_ends; [apply nblocks_pos| |].
  - unfold TFTP_MAX_RETRIES. lia.
  - lia.
Qed.

Lemma transfer_run_app st atts1 atts2 :
  transfer_run client file st (atts1 ++ atts2)
  = let '(st1, sent1) := transfer_run client file st atts1 in
    let '(st2, sent2) := transfer_run client file st1 atts2 in (st2, sent1 ++ sent2).
Proof.
  revert st. induction atts1 as [|a atts IH]; intros st; cbn.
  - by destruct (transfer_run _ _ _ _).
  - destruct (transfer_step _ _ _ _). rewrite IH. destruct (transfer_run _ _ _ atts).
    destruct (transfer_run _ _ _ atts2). by rewrite app_assoc.
Qed.

(** Up to four rounds that bring no acknowledgement of the block, and one that does. *)
Fixpoint patient_client (i : nat) (rounds : list (list attempt * attempt)) : Prop :=
  match rounds with
  | [] => True
  | (fails, ack) :: rounds =>
    (length fails < TFTP_MAX_RETRIES)%nat
    ∧ Forall (λ a, a ≠ SendFailed ∧ ¬ acknowledges a i) fails
    ∧ acknowledges ack i ∧ patient_client (S i) rounds
  end.

Definition all_attempts (rounds : list (list attempt * attempt)) : list attempt :=
  mjoin ((λ r, r.1 ++ [r.2]) <$> rounds).

Lemma run_failures fails : ∀ i r,
  (r + length fails < TFTP_MAX_RETRIES)%nat →
  Forall (λ a, a ≠ SendFailed ∧ ¬ acknowledges a i) fails →
  transfer_run client file (at_block i r) fails
  = (at_block i (r + length fails), replicate (length fails) (data_packet i)).
Proof.
  induction fails as [|a fails IH]; intros i r Hr Hall; [by rewrite Nat.add_0_r|].
  cbn [transfer_run length] in *. inversion_clear Hall as [|? ? [Hs Ha] Hrest].
  rewrite (step_not_acked a i r Ha Hs).
  destruct (Nat.leb_spec TFTP_MAX_RETRIES (S r)); [lia|].
  rewrite IH by (done || lia). by rewrite Nat.add_succ_r.
Qed.

(** A client that acknowledges every block within five attempts gets the whole
    file: the transfer completes, and block [i] was sent once more than it went
    unacknowledged. *)
Theorem transfer_completes rounds :
  length rounds = nblocks → patient_client 0 rounds →
  transfer_run client file (next_block file 1 0).1 (all_attempts rounds)
  = (Complete (block_number (nblocks - 1)), sent_blocks 0 ((λ r, S (length r.1)) <$> rounds)).
Proof.
  rewrite start_at_block. cbn [fst].
  assert (∀ i, (i + length rounds)%nat = nblocks → (i < nblocks)%nat → patient_client i rounds →
    transfer_run client file (at_block i 0) (all_attempts rounds)
    = (Complete (block_number (nblocks - 1)),
       sent_blocks i ((λ r, S (length r.1)) <$> rounds))) as Hgen.
  { induction rounds as [|[fails ack] rounds IH]; intros i Hlen Hi Hp; [cbn in Hlen; lia|].
    destruct Hp as (Hf & Hfails & Hack & Hp). cbn [length] in Hlen.
    unfold all_attempts. rewrite fmap_cons. cbn [mjoin list_join fst snd]. fold (all_attempts rounds).
    rewrite <-app_assoc, transfer_run_app, run_failures by done.
    cbn [app transfer_run]. rewrite (step_acked ack i _ Hack Hi). case_decide as Hlast.
    - rewrite run_finished by done. assert (rounds = []) as -> by (destruct rounds; [done|cbn in *; lia]).
      cbn [sent_blocks fmap list_fmap fst]. rewrite replicate_S_end.
      assert (nblocks - 1 = i)%nat as -> by lia. by rewrite !app_nil_r.
    - rewrite IH by (done || lia). cbn [fmap list_fmap sent_blocks fst].
      rewrite replicate_S_end, <-!app_assoc. done. }
  intros Hlen. by apply Hgen; [|apply nblocks_pos].
Qed.
End Transfer.

(** ** Requests *)

(** What a path must be to be served from under a root. *)
Definition under (root p : path) : Prop :=
  ∃ segments, Forall normal_segment segments ∧ components p = components root ++ (Normal <$> segments).

Lemma sanitize_under root requested p : sanitize_tftp_path root requested = Some p → under root p.
Proof.
  intros Hp. pose proof (components_Normal (as_bytes requested)) as Hcs.
  pose proof (push_components_spec root _ Hcs) as Hspec.
  unfold sanitize_tftp_path in Hp. rewrite Hp in Hspec. destruct Hspec as (Hr & Hpd & Hc).
  clear Hp. unfold under. rewrite Hc. clear Hc.
  induction Hcs as [|c cs Hn _ IH]; [by exists []|].
  apply not_elem_of_cons in Hr as [? ?], Hpd as [? ?]. destruct IH as (segs & Hsegs & Heq); [done..|].
  apply app_inv_head in Heq. destruct c as [| | |s]; try done.
  - exists segs. by rewrite filter_cons_False by naive_solver; rewrite Heq.
  - exists (s :: segs). rewrite filter_cons_True by done. rewrite Heq. split; [|done].
    constructor; [by apply Hn|done].
Qed.

(** The answer to a request: a path that leaves the root gets error 2, one
    without a file error 1, and a transfer only ever reads the file that is stored
    under the root at the request's normal segments; it starts with block 1 and the
    file's first 512 bytes.  Whether a socket could be bound only decides between
    this answer and silence. *)
Theorem serve_outcome {reads : FileRead} (disk : gmap (list Z) (list Z)) root requested :
  serve_tftp_read disk false root requested = NoSocket ∧
  match sanitize_tftp_path root requested with
  | None => serve_tftp_read disk true root requested = Refused (build_tftp_error 2 "invalid path")
  | Some p => under root p ∧
    match disk !! p with
    | None => serve_tftp_read disk true root requested = Refused (build_tftp_error 1 "file not found")
    | Some file => ∃ st sent, serve_tftp_read disk true root requested = Started file st sent ∧
      match read_len file 0 with
      | Some n => st = Sending 1 n (take n file) 0 ∧ sent = []
      | None => st = ReadFailed ∧ sent = [build_tftp_error 0 "read failed"]
      end
    end
  end.
Proof.
  unfold serve_tftp_read. destruct (sanitize_tftp_path root requested) as [p|] eqn:Hp; [|done].
  split; [by destruct (disk !! p)|]. split; [by eapply sanitize_under|].
  destruct (disk !! p) as [file|]; [|done]. unfold next_block.
  destruct (read_len file 0) as [n|]; eexists _, _; (split; [done|]); by rewrite ?drop_0.
Qed.

(** ** Witnesses *)

Module Witnesses.
#[local] Existing Instance full_reads.

Definition client : SocketAddr := V4 (ipv4 10 0 0 5) 2070.
Definition file : bytes := replicate 600 7.
Definition ack (block : Z) : attempt := Received client (to_be_bytes 2 TFTP_ACK ++ to_be_bytes 2 block).

Lemma transfer_terminates_witness :
  finished (transfer_run client file (next_block file 1 0).1 (replicate 10 TimedOut)).1 = true.
Proof.
  apply (transfer_terminates client file). apply Nat.leb_le. vm_compute. reflexivity.
Defined.

(** Two blocks; the first acknowledgement is lost once, and a stranger answers. *)
Definition rounds : list (list attempt * attempt) :=
  [([TimedOut; Received (V4 1 1) [0; 4; 0; 1]], ack 1); ([], ack 2)].

Lemma transfer_completes_witness :
  transfer_run client file (next_block file 1 0).1 (all_attempts rounds)
  = (Complete 2, replicate 3 (data_packet file 0) ++ [data_packet file 1]).
Proof.
  apply (transfer_completes client file rounds); [by vm_compute|].
  split; [apply Nat.ltb_lt; by vm_compute|]. split.
  { apply Forall_cons_2; [split; [done|by intros []]|]. apply Forall_singleton. split; [done|]. by vm_compute. }
  split; [by vm_compute|]. split; [apply Nat.ltb_lt; by vm_compute|].
  split; [constructor|]. split; [by vm_compute|done].
Defined.
End Witnesses.
