(* ===== verification/TftpClient.v ===== *)
(** * A TFTP transfer to a client, over a network that loses packets

    [Tftp] proves what the server does against arbitrary attempts.  Here its attempts
    come from a client that follows the protocol (RFC 1350) and a network that may lose
    either direction: the client takes a block it expects, acknowledges every block, and
    is finished by a short one.  The client is the specification the transfers are
    measured against; no client is part of the repository. *)

From S2P Require Import Prelude RustStd Tftp.
Local Open Scope Z_scope.

#[local] Existing Instance full_reads.

(** ** The client *)

Record receiver := { rc_next : Z; rc_data : bytes; rc_done : bool }.

Definition ack_packet (block : Z) : bytes := to_be_bytes 2 TFTP_ACK ++ to_be_bytes 2 block.

(** A packet from the server, and what the client answers. *)
Definition receive (c : receiver) (packet : bytes) : receiver * option bytes :=
  match packet with
  | o1 :: o2 :: b1 :: b2 :: data =>
    if from_be_bytes [o1; o2] =? TFTP_DATA then
      let block := from_be_bytes [b1; b2] in
      (if (block =? rc_next c) && negb (rc_done c)
       then {| rc_next := wrap 16 (block + 1); rc_data := rc_data c ++ data;
               rc_done := (length data <? TFTP_BLOCK_SIZE)%nat |}
       else c,
       Some (ack_packet block))
    else (c, None)
  | _ => (c, None)
  end.

(** ** The exchange *)

(** What the network does to one attempt: it may lose the block and it may lose the
    acknowledgement. *)
Record loss := { lose_block : bool; lose_ack : bool }.
Definition lost (l : loss) : bool := lose_block l || lose_ack l.

(** What an attempt of the server ends in. *)
Definition attempt_of (client : SocketAddr) (l : loss) (reply : option bytes) : attempt :=
  match reply with
  | Some ack => if lose_ack l then TimedOut else Received client ack
  | None => TimedOut
  end.

(** The server and the client, one attempt after the other, for as long as the server
    sends. *)
Fixpoint exchange (client : SocketAddr) (file : bytes) (server : transfer) (c : receiver)
    (net : list loss) : transfer * receiver :=
  match net with
  | [] => (server, c)
  | l :: net =>
    match server with
    | Sending block _ data _ =>
      let '(c, reply) := if lose_block l then (c, None) else receive c (build_tftp_data block data) in
      exchange client file (transfer_step client file server (attempt_of client l reply)).1 c net
    | _ => (server, c)
    end
  end.

Definition receiver_init : receiver := {| rc_next := 1; rc_data := []; rc_done := false |}.

Section Lossy.
Context (client : SocketAddr) (file : bytes).

(** The client after the first [k] blocks. *)
Definition after_blocks (k : nat) : receiver := {|
  rc_next := block_number k; rc_data := mjoin (chunk file <$> seq 0 k);
  rc_done := bool_decide (k = nblocks file) |}.

Lemma from_to_be_2 z : u16 z → from_be_bytes [(z `div` 256) `mod` 256; z `mod` 256] = z.
Proof. intros Hz. rewrite <-to_be_bytes_2. by apply from_to_be_bytes. Qed.

Lemma block_number_u16 i : u16 (block_number i).
Proof. by apply fits_wrap. Qed.

Lemma acked_by_packet i : acknowledges client (Received client (ack_packet (block_number i))) i.
Proof.
  unfold acknowledges, is_ack, ack_packet. rewrite !to_be_bytes_2. cbn [app take].
  rewrite bool_decide_true by done. rewrite !from_to_be_2 by (apply block_number_u16 || by_compute).
  by rewrite !Z.eqb_refl.
Qed.

(** Receiving a block for the first time, and again. *)
Lemma receive_data c i :
  receive c (data_packet file i)
  = (if (block_number i =? rc_next c) && negb (rc_done c)
     then {| rc_next := block_number (S i); rc_data := rc_data c ++ chunk file i;
             rc_done := (length (chunk file i) <? TFTP_BLOCK_SIZE)%nat |}
     else c, Some (ack_packet (block_number i))).
Proof.
  unfold data_packet, build_tftp_data. rewrite !to_be_bytes_2. cbn [app]. unfold receive.
  rewrite !from_to_be_2 by (apply block_number_u16 || by_compute).
  by rewrite block_number_S.
Qed.

Lemma receive_new i :
  (i < nblocks file)%nat →
  receive (after_blocks i) (data_packet file i)
  = (after_blocks (S i), Some (ack_packet (block_number i))).
Proof.
  intros Hi. rewrite receive_data. cbn [rc_next rc_data rc_done after_blocks].
  rewrite Z.eqb_refl, bool_decide_false by lia. cbn [negb andb]. f_equal. unfold after_blocks.
  f_equal; [by rewrite seq_S, fmap_app, join_app; cbn; rewrite app_nil_r|].
  pose proof (chunk_last file i Hi) as Hlast.
  destruct (Nat.ltb_spec (length (chunk file i)) TFTP_BLOCK_SIZE);
    [rewrite bool_decide_true; [done|by apply Hlast]|rewrite bool_decide_false; [done|]].
  intros ?%Hlast. lia.
Qed.

Lemma receive_again i :
  receive (after_blocks (S i)) (data_packet file i)
  = (after_blocks (S i), Some (ack_packet (block_number i))).
Proof.
  rewrite receive_data. cbn [rc_next after_blocks].
  rewrite (proj2 (Z.eqb_neq _ _)); [done|]. unfold block_number. fits_lia.
Qed.

(** One attempt for block [i] while the client has it, or not yet. *)
Lemma attempt_lost i k r l net :
  k = i ∨ k = S i → (i < nblocks file)%nat → lost l = true →
  ∃ k', (k' = i ∨ k' = S i) ∧ (k ≤ k')%nat ∧
  exchange client file (at_block file i r) (after_blocks k) (l :: net)
  = exchange client file (if (TFTP_MAX_RETRIES <=? S r)%nat then GaveUp else at_block file i (S r))
      (after_blocks k') net.
Proof.
  intros Hk Hi Hl. cbn [exchange]. unfold at_block at 1. fold (data_packet file i).
  assert (∀ reply, (lose_ack l = true ∨ reply = None) → ¬ acknowledges client (attempt_of client l reply) i
    ∧ attempt_of client l reply ≠ SendFailed) as Hatt.
  { intros [ack|] [Ha|?]; try done; unfold attempt_of; rewrite ?Ha; split; [by intros []|done|by intros []|
    done|by intros []|done]. }
  unfold lost in Hl. destruct (lose_block l) eqn:Hb.
  - exists k. split; [done|]. split; [lia|].
    rewrite step_not_acked by (by apply Hatt; right). done.
  - exists (S i). split; [by right|]. split; [lia|].
    assert (receive (after_blocks k) (data_packet file i)
      = (after_blocks (S i), Some (ack_packet (block_number i)))) as ->.
    { destruct Hk as [-> | ->]; [by apply receive_new|apply receive_again]. }
    rewrite step_not_acked by (by apply Hatt; left). done.
Qed.

Lemma attempt_arrives i k r l net :
  k = i ∨ k = S i → (i < nblocks file)%nat → lost l = false →
  exchange client file (at_block file i r) (after_blocks k) (l :: net)
  = exchange client file (if decide (S i = nblocks file) then Complete (block_number i)
                          else at_block file (S i) 0) (after_blocks (S i)) net.
Proof.
  intros Hk Hi Hl. cbn [exchange]. unfold at_block at 1. fold (data_packet file i).
  unfold lost in Hl. apply orb_false_iff in Hl as [-> Ha].
  assert (receive (after_blocks k) (data_packet file i)
    = (after_blocks (S i), Some (ack_packet (block_number i)))) as ->.
  { destruct Hk as [-> | ->]; [by apply receive_new|apply receive_again]. }
  unfold attempt_of. rewrite Ha, step_acked by (apply acked_by_packet || done). done.
Qed.

Lemma exchange_finished server c net :
  finished server = true → exchange client file server c net = (server, c).
Proof. intros Hs. destruct net; [done|]. by destruct server. Qed.

(** The client never has anything but the first blocks of the file. *)
Lemma exchange_safe net : ∀ i k r,
  k = i ∨ k = S i → (i < nblocks file)%nat → (r < TFTP_MAX_RETRIES)%nat →
  let '(server, c) := exchange client file (at_block file i r) (after_blocks k) net in
  ∃ k', c = after_blocks k' ∧ (k' ≤ nblocks file)%nat ∧
    match server with
    | Complete _ => k' = nblocks file
    | Sending _ _ _ _ => (length net < TFTP_MAX_RETRIES * (nblocks file - i) - r)%nat
    | GaveUp => True
    | _ => False
    end.
Proof.
  unfold TFTP_MAX_RETRIES. induction net as [|l net IH]; intros i k r Hk Hi Hr.
  { cbn [exchange length]. exists k. split; [done|]. unfold at_block. lia. }
  destruct (lost l) eqn:Hl.
  - destruct (attempt_lost i k r l net Hk Hi Hl) as (k' & Hk' & _ & ->). unfold TFTP_MAX_RETRIES.
    destruct (Nat.leb_spec 5 (S r)).
    + rewrite exchange_finished by done. exists k'. split; [done|]. split; [destruct Hk'; lia|done].
    + specialize (IH i k' (S r) Hk' Hi ltac:(lia)).
      destruct (exchange _ _ _ _ net) as [server c]. destruct IH as (k2 & -> & Hle & IH).
      exists k2. split; [done|]. split; [done|]. destruct server; try done. cbn [length]. lia.
  - rewrite attempt_arrives by done. case_decide as Hlast.
    + rewrite exchange_finished by done. exists (S i). split; [done|]. lia.
    + specialize (IH (S i) (S i) 0%nat ltac:(by left) ltac:(lia) ltac:(lia)).
      destruct (exchange _ _ _ _ net) as [server c]. destruct IH as (k2 & -> & Hle & IH).
      exists k2. split; [done|]. split; [done|]. destruct server; try done. cbn [length]. lia.
Qed.

(** Some losses, fewer than the server's attempts, and then a block that gets through. *)
Lemma exchange_round fails : ∀ i k r net,
  k = i ∨ k = S i → (i < nblocks file)%nat → (r + length fails < TFTP_MAX_RETRIES)%nat →
  Forall (λ l, lost l = true) fails →
  exchange client file (at_block file i r) (after_blocks k)
    (fails ++ {| lose_block := false; lose_ack := false |} :: net)
  = exchange client file (if decide (S i = nblocks file) then Complete (block_number i)
                          else at_block file (S i) 0) (after_blocks (S i)) net.
Proof.
  induction fails as [|l fails IH]; intros i k r net Hk Hi Hr Hall; cbn [app]; [by apply attempt_arrives|].
  inversion_clear Hall as [|? ? Hl Hrest].
  destruct (attempt_lost i k r l (fails ++ {| lose_block := false; lose_ack := false |} :: net) Hk Hi Hl)
    as (k' & Hk' & _ & ->).
  cbn [length] in Hr. destruct (Nat.leb_spec TFTP_MAX_RETRIES (S r)); [lia|]. apply IH; (done || lia).
Qed.

(** A network that delivers every block and its acknowledgement within five attempts. *)
Definition rounds_net (rounds : list (list loss)) : list loss :=
  mjoin ((λ fails, fails ++ [{| lose_block := false; lose_ack := false |}]) <$> rounds).

Lemma exchange_rounds rounds : ∀ i,
  (i + length rounds)%nat = nblocks file → (i < nblocks file)%nat →
  Forall (λ fails, (length fails < TFTP_MAX_RETRIES)%nat ∧ Forall (λ l, lost l = true) fails) rounds →
  exchange client file (at_block file i 0) (after_blocks i) (rounds_net rounds)
  = (Complete (block_number (nblocks file - 1)), after_blocks (nblocks file)).
Proof.
  induction rounds as [|fails rounds IH]; intros i Hlen Hi Hall; [cbn in Hlen; lia|].
  inversion_clear Hall as [|? ? [Hf Hfails] Hrest].
  unfold rounds_net. rewrite fmap_cons. cbn [mjoin list_join]. fold (rounds_net rounds).
  rewrite <-app_assoc. cbn [app]. rewrite exchange_round by (done || by left).
  cbn [length] in Hlen. case_decide as Hlast.
  - rewrite exchange_finished by done. rewrite <-Hlast. do 3 f_equal. lia.
  - by apply IH; [lia|lia|].
Qed.

Lemma after_blocks_data k :
  (k ≤ nblocks file)%nat →
  rc_data (after_blocks k) `prefix_of` file ∧ (rc_done (after_blocks k) = true → rc_data (after_blocks k) = file).
Proof.
  intros Hk. pose proof (chunks_file file) as Hfile. cbn [rc_data rc_done after_blocks]. split.
  - replace (nblocks file) with (k + (nblocks file - k))%nat in Hfile by lia.
    rewrite seq_app, fmap_app, join_app in Hfile. eexists. symmetry. exact Hfile.
  - intros ->%bool_decide_eq_true. exact Hfile.
Qed.

Lemma rounds_complete rounds :
  length rounds = nblocks file →
  Forall (λ fails, (length fails < TFTP_MAX_RETRIES)%nat ∧ Forall (λ l, lost l = true) fails) rounds →
  ∃ block c, exchange client file (at_block file 0 0) receiver_init (rounds_net rounds)
    = (Complete block, c) ∧ rc_data c = file ∧ rc_done c = true.
Proof.
  intros Hlen Hall. change receiver_init with (after_blocks 0).
  exists (block_number (nblocks file - 1)), (after_blocks (nblocks file)).
  split; [by apply exchange_rounds; [lia|apply nblocks_pos|]|].
  assert (rc_done (after_blocks (nblocks file)) = true) as Hd by by apply bool_decide_eq_true.
  split; [|done]. by apply after_blocks_data.
Qed.

(** C18: a client that follows the protocol gets the file, over a network that loses
    blocks and acknowledgements as it likes: at every moment it has a prefix of the file,
    and the whole file once it is finished, and the server reports a completed transfer
    only to a client that has it; and if no block needs more than five attempts, the
    client does get it. *)
Theorem transfer_over_lossy_network :
  (∀ net, let '(server, c) := exchange client file (next_block file 1 0).1 receiver_init net in
     rc_data c `prefix_of` file ∧ (rc_done c = true → rc_data c = file)
     ∧ match server with
       | Complete _ => rc_done c = true
       | Sending _ _ _ _ => (length net < TFTP_MAX_RETRIES * nblocks file)%nat
       | GaveUp => True
       | _ => False
       end) ∧
  (∀ rounds, length rounds = nblocks file →
     Forall (λ fails, (length fails < TFTP_MAX_RETRIES)%nat ∧ Forall (λ l, lost l = true) fails) rounds →
     exists block c, exchange client file (next_block file 1 0).1 receiver_init (rounds_net rounds)
       = (Complete block, c) ∧ rc_data c = file ∧ rc_done c = true).
Proof.
  rewrite start_at_block. cbn [fst]. change receiver_init with (after_blocks 0). split.
  - intros net.
    pose proof (exchange_safe net 0 0 0 ltac:(by left) (nblocks_pos file) ltac:(unfold TFTP_MAX_RETRIES; lia)) as Hs.
    destruct (exchange _ _ _ _ net) as [server c]. destruct Hs as (k & -> & Hk & Hserver).
    destruct (after_blocks_data k Hk) as [? ?]. split; [done|]. split; [done|].
    destruct server; try done.
    subst k. by apply bool_decide_eq_true.
  - apply rounds_complete.
Qed.
End Lossy.

(** ** Witness *)

Module Witnesses.
Definition client : SocketAddr := V4 (ipv4 10 0 0 5) 2070.

(** Two blocks; the first gets lost twice, and the acknowledgement of the second. *)
Lemma transfer_over_lossy_network_witness :
  ∃ block c, exchange client (replicate 600 7) (next_block (replicate 600 7) 1 0).1 receiver_init
    (rounds_net [[{| lose_block := true; lose_ack := false |}; {| lose_block := true; lose_ack := true |}];
                 [{| lose_block := false; lose_ack := true |}]])
    = (Complete block, c) ∧ rc_data c = replicate 600 7 ∧ rc_done c = true.
Proof.
  apply (proj2 (transfer_over_lossy_network client (replicate 600 7))); [by vm_compute|].
  repeat constructor.
Defined.
End Witnesses.
