(* ===== verification/TftpShared.v ===== *)
(** * A file that is rewritten while it is sent

    The server reads a file block by block while the network decides how long that takes,
    and pxeboot rewrites boot scripts in place whenever it answers DHCP or a machine is
    registered.  [Tftp] and [TftpClient] let the file be fixed during a transfer; here each
    attempt comes with what the file holds when it is made.  [transfer_step] is the same:
    it reads, if it does, from what the file holds then. *)

From S2P Require Import Prelude RustStd Tftp TftpClient.
Local Open Scope Z_scope.

#[local] Existing Instance full_reads.
#[local] Arguments block_number : simpl never.

(** [exchange] over a file whose contents change. *)
Fixpoint exchange_shared (client : SocketAddr) (server : transfer) (c : receiver)
    (net : list (bytes * loss)) : transfer * receiver :=
  match net with
  | [] => (server, c)
  | (file, l) :: net =>
    match server with
    | Sending block _ data _ =>
      let '(c, reply) := if lose_block l then (c, None) else receive c (build_tftp_data block data) in
      exchange_shared client (transfer_step client file server (attempt_of client l reply)).1 c net
    | _ => (server, c)
    end
  end.

Section Shared.
Context (client : SocketAddr).

Lemma exchange_shared_const file server c net :
  exchange_shared client server c ((λ l, (file, l)) <$> net) = exchange client file server c net.
Proof.
  revert server c. induction net as [|l net IH]; intros server c; [done|]. cbn.
  destruct server; try done. by destruct (if lose_block l then _ else _).
Qed.

Lemma exchange_shared_finished server c net :
  finished server = true → exchange_shared client server c net = (server, c).
Proof. intros Hs. destruct net as [|[file l] net]; [done|]. by destruct server. Qed.

(** What has been read: the [i]-th read takes block [i] of the contents it finds. *)
Definition chunks (reads : list bytes) : list bytes := imap (λ i f, chunk f i) reads.
Definition chunks_data (reads : list bytes) : bytes := mjoin (chunks reads).

(** All reads filled a block. *)
Definition full_chunks (reads : list bytes) : Prop :=
  Forall (λ d, length d = TFTP_BLOCK_SIZE) (chunks reads).

Lemma chunks_snoc reads f : chunks (reads ++ [f]) = chunks reads ++ [chunk f (length reads)].
Proof. unfold chunks. rewrite imap_app. cbn [imap]. by rewrite Nat.add_0_r. Qed.

Lemma chunks_data_snoc reads f : chunks_data (reads ++ [f]) = chunks_data reads ++ chunk f (length reads).
Proof. unfold chunks_data. rewrite chunks_snoc, join_app. cbn. by rewrite app_nil_r. Qed.

(** The server while it sends the block of the last read, and the client before and after
    it has received that block. *)
Definition reading (reads : list bytes) (f : bytes) (retries : nat) : transfer := at_block f (length reads) retries.

Definition got (reads : list bytes) : receiver := {|
  rc_next := block_number (length reads); rc_data := chunks_data reads; rc_done := false |}.
Definition got_last (reads : list bytes) (f : bytes) : receiver := {|
  rc_next := block_number (S (length reads)); rc_data := chunks_data (reads ++ [f]);
  rc_done := (length (chunk f (length reads)) <? TFTP_BLOCK_SIZE)%nat |}.

Lemma receive_first reads f :
  receive (got reads) (data_packet f (length reads))
  = (got_last reads f, Some (ack_packet (block_number (length reads)))).
Proof.
  rewrite receive_data. cbn [rc_next rc_data rc_done got]. rewrite Z.eqb_refl. cbn [negb andb].
  unfold got_last. by rewrite chunks_data_snoc.
Qed.

Lemma receive_repeated reads f :
  receive (got_last reads f) (data_packet f (length reads))
  = (got_last reads f, Some (ack_packet (block_number (length reads)))).
Proof.
  rewrite receive_data. cbn [rc_next got_last].
  rewrite (proj2 (Z.eqb_neq _ _)); [done|]. unfold block_number. fits_lia.
Qed.

(** One attempt: it is lost, or the block was the last, or the next block is read from what
    the file holds now. *)
Definition after_attempt (reads : list bytes) (f file : bytes) (r : nat) (l : loss) : transfer :=
  if lost l then if (TFTP_MAX_RETRIES <=? S r)%nat then GaveUp else reading reads f (S r)
  else if (length (chunk f (length reads)) <? TFTP_BLOCK_SIZE)%nat
       then Complete (block_number (length reads))
       else reading (reads ++ [f]) file 0.

Lemma shared_attempt reads f file r l c net :
  c = got reads ∨ c = got_last reads f →
  ∃ c', (c' = got reads ∨ c' = got_last reads f) ∧ (lost l = false → c' = got_last reads f) ∧
  exchange_shared client (reading reads f r) c ((file, l) :: net)
  = exchange_shared client (after_attempt reads f file r l) c' net.
Proof.
  intros Hc. cbn [exchange_shared]. unfold reading at 1, at_block at 1.
  fold (data_packet f (length reads)).
  assert (receive c (data_packet f (length reads))
    = (got_last reads f, Some (ack_packet (block_number (length reads))))) as Hrec.
  { destruct Hc as [-> | ->]; [apply receive_first|apply receive_repeated]. }
  assert (∀ b, is_ack client (block_number (length reads)) client (ack_packet b) = true →
    (transfer_step client file (reading reads f r) (Received client (ack_packet b))).1
    = if (length (chunk f (length reads)) <? TFTP_BLOCK_SIZE)%nat
      then Complete (block_number (length reads)) else reading (reads ++ [f]) file 0) as Hacked.
  { intros b Hb. unfold reading, at_block, transfer_step. rewrite Hb.
    destruct (Nat.ltb_spec (length (chunk f (length reads))) TFTP_BLOCK_SIZE) as [|Hfull]; [done|].
    rewrite block_number_S.
    assert (TFTP_BLOCK_SIZE * length reads + length (chunk f (length reads))
            = TFTP_BLOCK_SIZE * S (length reads))%nat as ->.
    { rewrite length_chunk in *. lia. }
    rewrite next_block_full. cbn [fst]. rewrite length_app. cbn [length].
    by rewrite Nat.add_1_r. }
  unfold lost, after_attempt, lost. destruct (lose_block l); cbn [orb].
  - exists c. split; [done|]. split; [done|]. unfold reading, at_block, transfer_step, attempt_of.
    by destruct (_ <=? _)%nat.
  - rewrite Hrec. exists (got_last reads f). split; [by right|]. split; [done|].
    unfold attempt_of. destruct (lose_ack l).
    + unfold reading, at_block, transfer_step. by destruct (_ <=? _)%nat.
    + change (Sending _ _ (chunk f (length reads)) r) with (reading reads f r).
      rewrite Hacked; [done|]. exact (acked_by_packet client (length reads)).
Qed.

(** The state of an exchange: some reads were full and are with the client; of the last
    one the client may or may not have the block yet. *)
Definition shared_state (P : bytes → Prop) (server : transfer) (c : receiver) : Prop :=
  ∃ reads f, Forall P (reads ++ [f]) ∧ full_chunks reads
    ∧ (c = got reads ∨ c = got_last reads f)
    ∧ match server with
      | Sending _ _ _ _ => ∃ r, server = reading reads f r ∧ (r < TFTP_MAX_RETRIES)%nat
      | Complete b => c = got_last reads f ∧ b = block_number (length reads) ∧ rc_done c = true
      | GaveUp => True
      | _ => False
      end.

Lemma full_chunks_snoc reads f :
  full_chunks reads → (TFTP_BLOCK_SIZE ≤ length (chunk f (length reads)))%nat → full_chunks (reads ++ [f]).
Proof.
  intros Hr Hf. unfold full_chunks. rewrite chunks_snoc. apply Forall_app. split; [done|].
  apply Forall_singleton. rewrite length_chunk in *. lia.
Qed.

Lemma shared_run P net : ∀ server c,
  Forall (λ p : bytes * loss, P p.1) net → shared_state P server c →
  shared_state P (exchange_shared client server c net).1 (exchange_shared client server c net).2.
Proof.
  induction net as [|[file l] net IH]; intros server c Hnet Hst; [done|].
  destruct (finished server) eqn:Hfin; [by rewrite exchange_shared_finished|].
  apply Forall_cons in Hnet as [Hfile Hnet]. cbn in Hfile.
  destruct Hst as (reads & f & HP & Hfull & Hc & Hserver). destruct server; try done.
  destruct Hserver as (r & -> & Hr).
  destruct (shared_attempt reads f file r l c net Hc) as (c' & Hc' & Harr & ->).
  apply IH; [done|]. unfold after_attempt. destruct (lost l).
  - exists reads, f. split_and!; [done..|]. destruct (Nat.leb_spec TFTP_MAX_RETRIES (S r)); [done|].
    by exists (S r).
  - specialize (Harr eq_refl). subst c'.
    destruct (Nat.ltb_spec (length (chunk f (length reads))) TFTP_BLOCK_SIZE) as [Hlt|Hge].
    + exists reads, f. split_and!; [done..|]. by apply Nat.ltb_lt.
    + exists (reads ++ [f]), file. split; [by apply Forall_app_2; [|apply Forall_singleton]|].
      split; [by apply full_chunks_snoc|]. split.
      * left. unfold got, got_last. rewrite length_app, Nat.add_1_r. f_equal.
        symmetry. by apply Nat.ltb_ge in Hge.
      * exists 0%nat. split; [done|]. unfold TFTP_MAX_RETRIES. lia.
Qed.

Lemma shared_start (P : bytes → Prop) file :
  P file → shared_state P (next_block file 1 0).1 receiver_init.
Proof.
  intros HP. rewrite start_at_block. exists [], file. cbn.
  split; [by apply Forall_singleton|]. split; [apply Forall_nil_2|]. split; [by left|].
  exists 0%nat. split; [done|]. unfold TFTP_MAX_RETRIES. lia.
Qed.

(** ** One script, rewritten *)

Lemma chunk_take n file i : chunk (take n file) i = take (n - TFTP_BLOCK_SIZE * i) (chunk file i).
Proof. unfold chunk. by rewrite skipn_firstn_comm, !take_take, Nat.min_comm. Qed.

Lemma chunk_prefix f script i : f `prefix_of` script → chunk f i `prefix_of` chunk script i.
Proof.
  intros [rest ->]. assert (f = take (length f) (f ++ rest)) as Hf by by rewrite take_app_length.
  rewrite Hf at 1. rewrite chunk_take. apply prefix_take.
Qed.

(** Full reads of prefixes of a script are its first blocks. *)
Lemma chunks_data_prefix script reads :
  Forall (λ f, f `prefix_of` script) reads → full_chunks reads →
  chunks_data reads = take (TFTP_BLOCK_SIZE * length reads) script.
Proof.
  induction reads as [|f reads IH] using rev_ind; intros HP Hfull; [by rewrite Nat.mul_0_r|].
  apply Forall_app in HP as [HP [Hf _]%Forall_cons]. unfold full_chunks in Hfull.
  rewrite chunks_snoc in Hfull. apply Forall_app in Hfull as [Hfull [Hlen _]%Forall_cons].
  rewrite chunks_data_snoc, IH by done.
  assert (chunk f (length reads) = chunk script (length reads)) as ->.
  { pose proof (chunk_prefix f script (length reads) Hf) as Hp. apply prefix_length_eq; [done|].
    rewrite Hlen. apply firstn_le_length. }
  rewrite length_app, Nat.add_1_r, Nat.mul_succ_r. unfold chunk. apply take_take_drop.
Qed.

Lemma got_prefix script reads f c :
  Forall (λ f, f `prefix_of` script) (reads ++ [f]) → full_chunks reads →
  c = got reads ∨ c = got_last reads f →
  rc_data c `prefix_of` script ∧ (rc_done c = true → f = script → rc_data c = script).
Proof.
  intros [HP [Hf _]%Forall_cons]%Forall_app Hfull Hc.
  pose proof (chunks_data_prefix script reads HP Hfull) as Hdata.
  assert (take (TFTP_BLOCK_SIZE * length reads) script ++ chunk script (length reads) `prefix_of` script) as Hnext.
  { unfold chunk. rewrite take_take_drop. apply prefix_take. }
  destruct Hc as [-> | ->]; cbn [rc_data rc_done got got_last].
  - rewrite Hdata. split; [apply prefix_take|done].
  - rewrite chunks_data_snoc, Hdata. split.
    + etrans; [|exact Hnext]. by apply prefix_app, chunk_prefix.
    + intros Hshort%Nat.ltb_lt ->. rewrite length_chunk in Hshort.
      unfold chunk. rewrite take_take_drop. apply take_ge. lia.
Qed.

(** ** A network that loses nothing *)

Definition no_loss : loss := {| lose_block := false; lose_ack := false |}.

(** Each read but the last fills a block, the last does not. *)
Fixpoint whole (reads : list bytes) (f : bytes) (todo : list bytes) : Prop :=
  match todo with
  | [] => (length (chunk f (length reads)) < TFTP_BLOCK_SIZE)%nat
  | g :: todo => (TFTP_BLOCK_SIZE ≤ length (chunk f (length reads)))%nat ∧ whole (reads ++ [f]) g todo
  end.

Lemma lossless_reads todo : ∀ reads f final c,
  whole reads f todo → c = got reads ∨ c = got_last reads f →
  exchange_shared client (reading reads f 0) c ((λ g, (g, no_loss)) <$> todo ++ [final])
  = (Complete (block_number (length reads + length todo)),
     {| rc_next := block_number (S (length reads + length todo));
        rc_data := chunks_data (reads ++ f :: todo); rc_done := true |}).
Proof.
  induction todo as [|g todo IH]; intros reads f final c Hw Hc; cbn [app fmap list_fmap];
    [set (file := final)|set (file := g)];
    match goal with |- exchange_shared _ _ _ (_ :: ?net) = _ =>
      destruct (shared_attempt reads f file 0 no_loss c net Hc) as (c' & _ & Harr & ->) end;
    rewrite Harr by done; unfold after_attempt; cbn [lost no_loss lose_block lose_ack orb]; cbn [whole] in Hw.
  - rewrite (proj2 (Nat.ltb_lt _ _)) by done. cbn. rewrite Nat.add_0_r. unfold got_last.
    by rewrite (proj2 (Nat.ltb_lt _ _)) by done.
  - destruct Hw as [Hfull Hw]. rewrite (proj2 (Nat.ltb_ge _ _)) by done.
    rewrite IH; [|done|].
    + rewrite length_app. cbn [length]. rewrite <-app_assoc. cbn [app].
      do 2 f_equal; [|f_equal]; f_equal; lia.
    + left. unfold got, got_last. rewrite length_app, Nat.add_1_r. f_equal. by apply Nat.ltb_ge.
Qed.

Lemma lossless_start todo f final :
  whole [] f todo →
  exchange_shared client (next_block f 1 0).1 receiver_init ((λ g, (g, no_loss)) <$> todo ++ [final])
  = (Complete (block_number (length todo)),
     {| rc_next := block_number (S (length todo)); rc_data := chunks_data (f :: todo); rc_done := true |}).
Proof. rewrite start_at_block. intros Hw. by apply (lossless_reads todo []); [|left]. Qed.

(** Reading one file from block [length reads] on. *)
Lemma whole_file file k : ∀ reads,
  (length reads + k)%nat = (nblocks file - 1)%nat → whole reads file (replicate k file).
Proof.
  pose proof (nblocks_pos file) as Hpos. induction k as [|k IH]; intros reads Hk; cbn [replicate whole].
  - apply chunk_last; lia.
  - pose proof (chunk_last file (length reads) ltac:(lia)) as Hlast. split; [|apply IH; rewrite length_app; cbn [length]; lia].
    destruct (Nat.le_gt_cases TFTP_BLOCK_SIZE (length (chunk file (length reads)))); [done|].
    assert (S (length reads) = nblocks file) by by apply Hlast. lia.
Qed.

Lemma chunks_data_same reads file k :
  chunks_data (reads ++ replicate k file)
  = chunks_data reads ++ mjoin (chunk file <$> seq (length reads) k).
Proof.
  induction k as [|k IH]; [by rewrite !app_nil_r|].
  rewrite replicate_S_end, app_assoc, chunks_data_snoc, IH, length_app, length_replicate.
  rewrite seq_S, fmap_app, join_app. cbn. by rewrite app_nil_r, app_assoc.
Qed.

Lemma chunks_data_file file : chunks_data (replicate (nblocks file) file) = file.
Proof. etrans; [exact (chunks_data_same [] file (nblocks file))|]. exact (chunks_file file). Qed.

(** C19: a script that is rewritten while it is sent: when each read may find the file
    emptied or half written again, a client on any network has a prefix of the script at
    every moment, the server reports the transfer as complete only to a client that takes
    itself for finished, and the client has the whole script then, unless some read found
    the file cut.  But it may be cut at any length, to nothing even: a client whose
    network loses nothing is finished with that part of the script alone, and the server
    reports the transfer as complete. *)
Theorem rewritten_while_sent script :
  (∀ first net, first `prefix_of` script → Forall (λ p : bytes * loss, p.1 `prefix_of` script) net →
     let '(server, c) := exchange_shared client (next_block first 1 0).1 receiver_init net in
     rc_data c `prefix_of` script
     ∧ match server with Complete _ => rc_done c = true | Sending _ _ _ _ | GaveUp => True | _ => False end
     ∧ (rc_done c = true → rc_data c = script ∨ ∃ f, f ∈ first :: net.*1 ∧ f ≠ script)) ∧
  (∀ n, (n ≤ length script)%nat →
     ∃ net block c, Forall (λ p : bytes * loss, p.1 = take n script ∧ p.2 = no_loss) net
     ∧ exchange_shared client (next_block (take n script) 1 0).1 receiver_init net = (Complete block, c)
     ∧ rc_data c = take n script ∧ rc_done c = true).
Proof.
  split.
  - intros first net Hfirst Hnet.
    set (P f := f `prefix_of` script ∧ f ∈ first :: net.*1).
    assert (shared_state P (exchange_shared client (next_block first 1 0).1 receiver_init net).1
      (exchange_shared client (next_block first 1 0).1 receiver_init net).2) as Hst.
    { apply shared_run; [|apply shared_start; split; [done|left]].
      apply Forall_forall. intros p Hp. rewrite Forall_forall in Hnet. split; [by apply Hnet|].
      right. by apply list_elem_of_fmap_2. }
    destruct (exchange_shared _ _ _ net) as [server c]. cbn [fst snd] in Hst.
    destruct Hst as (reads & f & HP & Hfull & Hc & Hserver).
    destruct (got_prefix script reads f c) as [Hpre Hdone]; [|done..|].
    { eapply Forall_impl; [exact HP|]. by intros g [? _]. }
    split; [done|]. split; [destruct server; try done; by destruct Hserver as (_ & _ & ?)|].
    intros Hd. destruct (decide (f = script)) as [Heq|Hne]; [left; by apply Hdone|right].
    exists f. split; [|done]. apply Forall_app in HP as [_ [[_ Hin] _]%Forall_cons]. done.
  - intros n Hn. set (file := take n script).
    exists ((λ g, (g, no_loss)) <$> replicate (nblocks file - 1) file ++ [file]).
    rewrite lossless_start by by apply (whole_file file _ []). eexists _, _. split_and!; [|done| |done].
    + apply Forall_fmap, Forall_app. split; [by apply Forall_replicate|by apply Forall_singleton].
    + cbn [rc_data]. change (file :: replicate (nblocks file - 1) file) with (replicate (S (nblocks file - 1)) file).
      replace (S (nblocks file - 1)) with (nblocks file) by (pose proof (nblocks_pos file); lia).
      apply chunks_data_file.
Qed.

(** A script that is replaced by another one between two reads: the client is finished
    with the first blocks of the old one and the rest of the new one. *)
Theorem replaced_midway old new k :
  (0 < k)%nat → (TFTP_BLOCK_SIZE * k ≤ length old)%nat → (TFTP_BLOCK_SIZE * k ≤ length new)%nat →
  let net := (λ g, (g, no_loss)) <$> replicate (k - 1) old ++ replicate (nblocks new - k + 1) new in
  ∃ block c, exchange_shared client (next_block old 1 0).1 receiver_init net = (Complete block, c)
    ∧ rc_data c = take (TFTP_BLOCK_SIZE * k) old ++ drop (TFTP_BLOCK_SIZE * k) new ∧ rc_done c = true.
Proof.
  intros Hk Hold Hnew net. pose proof (chunk_last new) as Hlast.
  set (tail := (nblocks new - k - 1)%nat).
  assert (k < nblocks new)%nat as Hlt.
  { unfold nblocks, TFTP_BLOCK_SIZE in *. pose proof (Nat.div_le_lower_bound (length new) 512 k). lia. }
  assert (net = (λ g, (g, no_loss)) <$> (replicate (k - 1) old ++ replicate (S tail) new) ++ [new]) as ->.
  { unfold net. rewrite <-app_assoc. do 2 f_equal. rewrite <-replicate_S_end. f_equal. lia. }
  assert (∀ j reads, (length reads + j + 1 = k)%nat → whole reads old (replicate j old ++ replicate (S tail) new))
    as Hwhole.
  { assert (∀ i, (i < k)%nat → (TFTP_BLOCK_SIZE ≤ length (chunk old i))%nat) as Hfull.
    { intros i Hi. rewrite length_chunk. nia. }
    induction j as [|j IH]; intros reads Hj; cbn [replicate app whole]; (split; [apply Hfull; lia|]).
    - apply whole_file. rewrite length_app. cbn [length]. lia.
    - apply IH. rewrite length_app. cbn [length]. lia. }
  rewrite lossless_start by (apply Hwhole; cbn [length]; lia). eexists _, _. split; [done|]. split; [|done].
  cbn [rc_data]. change (old :: replicate (k - 1) old ++ replicate (S tail) new)
    with (replicate (S (k - 1)) old ++ replicate (S tail) new).
  rewrite chunks_data_same, length_replicate.
  replace (S (k - 1)) with k by lia. replace (S tail) with (nblocks new - k)%nat by lia.
  rewrite chunks_drop by done. f_equal. etrans; [exact (chunks_data_same [] old k)|]. exact (chunks_take old k).
Qed.
End Shared.

(** ** Witness *)

Module Witnesses.
Definition client : SocketAddr := V4 (ipv4 10 0 0 5) 2070.
Definition script : bytes := replicate 600 7.

(** The first read finds the file emptied. *)
Lemma rewritten_while_sent_witness :
  rc_data (exchange_shared client (next_block [] 1 0).1 receiver_init [(script, no_loss)]).2 `prefix_of` script
  ∧ ∃ net block c, exchange_shared client (next_block [] 1 0).1 receiver_init net = (Complete block, c)
      ∧ rc_data c = [] ∧ rc_done c = true.
Proof.
  destruct (rewritten_while_sent client script) as [Hsafe Hcut]. split.
  - specialize (Hsafe [] [(script, no_loss)] (prefix_nil _) ltac:(by repeat constructor)).
    destruct (exchange_shared _ _ _ _) as [server c]. exact (proj1 Hsafe).
  - destruct (Hcut 0%nat) as (net & block & c & _ & Hx & Hd & Hdone); [lia|].
    exists net, block, c. split; [exact Hx|]. split; [exact Hd|exact Hdone].
Defined.

(** Two blocks of one script and a shorter rest of another. *)
Lemma replaced_midway_witness :
  ∃ block c, exchange_shared client (next_block (replicate 1500 1) 1 0).1 receiver_init
    ((λ g, (g, no_loss)) <$> replicate 1 (replicate 1500 1) ++ replicate 2 (replicate 1200 2)) = (Complete block, c)
    ∧ rc_data c = replicate 1024 1 ++ replicate 176 2 ∧ rc_done c = true.
Proof.
  destruct (replaced_midway client (replicate 1500 1) (replicate 1200 2) 2) as (block & c & Hx & Hd & Hdone);
    [lia|by apply Nat.leb_le; vm_compute|by apply Nat.leb_le; vm_compute|].
  exists block, c. split; [exact Hx|]. split; [|exact Hdone]. rewrite Hd. by vm_compute.
Defined.
End Witnesses.
