(* ===== verification/Dhcp.v ===== *)
(** * The DHCP server of pxeboot (crates/pxeboot/src/main.rs)

    The boot table, the boot scripts, the leases, the reply packet and the
    handler of one datagram.  The handler takes the boot table's lock three times;
    what the control plane registers in between is part of its environment. *)

From S2P Require Import Prelude RustStd Wire Proto Tftp.
Local Open Scope Z_scope.

(** ** Configuration *)

Record Config := {
  px_server_ip : Ipv4Addr;
  px_iface : string;
  px_pool_start : Ipv4Addr;
  px_pool_end : Ipv4Addr;
  px_subnet_mask : Ipv4Addr;
  px_gateway : option Ipv4Addr;
  px_tftp_root : string;
  px_boot_file : string;
  px_seed_url : option string;
  px_lease_secs : Z;
}.

Definition default_mask : Ipv4Addr := ipv4 255 255 255 0.
Definition default_tftp_root : string := "/var/lib/hivebus/tftp".
Definition default_boot_file : string := "ipxe.efi".
Definition default_lease_secs : Z := 3600.

(** ** Boot entries *)

(** [pieces.join(sep)] *)
Fixpoint join_bytes (sep : bytes) (pieces : list bytes) : bytes :=
  match pieces with
  | [] => []
  | [piece] => piece
  | piece :: pieces => piece ++ sep ++ join_bytes sep pieces
  end.

Definition fmt_mac (mac : Mac) : string := string_of_bytes (join_bytes [58] (fmt_02x <$> mac_bytes mac)).

Definition default_script_path (mac : Mac) : string := "scripts/" +:+ fmt_mac mac +:+ ".ipxe".

Record BootEntry := {
  be_hostname : string;
  be_ip : option Ipv4Addr;
  be_ipxe_script : option string;
  be_tags : gmap string string;
}.

#[export] Instance BootEntry_eq_dec : EqDecision BootEntry.
Proof. solve_decision. Defined.

Definition lf : string := String (ascii_of_byte 10) EmptyString.

Definition render_ipxe_script (cfg : Config) (mac : Mac) (entry : BootEntry) : string :=
  let seed_url :=
    match be_tags entry !! "seed_url"%string with
    | Some url => url
    | None =>
      match px_seed_url cfg with
      | Some url => url
      | None => "http://" +:+ fmt_ipv4 (px_server_ip cfg) +:+ ":7780/seed.tar.gz"
      end
    end in
  "#!ipxe" +:+ lf +:+ "echo hivebus bootstrap for " +:+ be_hostname entry
    +:+ " (" +:+ fmt_mac mac +:+ ")" +:+ lf
    +:+ "set seed-url " +:+ seed_url +:+ lf +:+ "chain " +:+ seed_url +:+ lf.

(** What creating the directory and writing the file end in; a failed write may
    have left something else in the file. *)
Inductive io_result := IoOk | IoFailed (left_over : option bytes).

Inductive script_error := InvalidScriptPath | ScriptIo.

Definition write_ipxe_script (cfg : Config) (mac : Mac) (entry : BootEntry) (io : io_result)
    (disk : Disk) : Disk * result script_error unit :=
  match be_ipxe_script entry with
  | None => (disk, Ok ())
  | Some rel_path =>
    match sanitize_tftp_path (as_bytes (px_tftp_root cfg)) rel_path with
    | None => (disk, Err InvalidScriptPath)
    | Some p =>
      match io with
      | IoOk => (<[p := as_bytes (render_ipxe_script cfg mac entry)]> disk, Ok ())
      | IoFailed None => (disk, Err ScriptIo)
      | IoFailed (Some left_over) => (<[p := left_over]> disk, Err ScriptIo)
      end
    end
  end.

(** Writing a file is not one step: opening it for writing empties it, and the text is then
    written over what the file holds by that time. *)
Definition truncate (p : path) (disk : Disk) : Disk := <[p := []]> disk.
Definition write_over (p : path) (text : bytes) (disk : Disk) : Disk :=
  <[p := text ++ drop (length text) (default [] (disk !! p))]> disk.

Definition script_steps (cfg : Config) (mac : Mac) (entry : BootEntry) (io : io_result) :
    list (Disk → Disk) :=
  match be_ipxe_script entry with
  | None => []
  | Some rel_path =>
    match sanitize_tftp_path (as_bytes (px_tftp_root cfg)) rel_path with
    | None => []
    | Some p =>
      match io with
      | IoOk => [truncate p; write_over p (as_bytes (render_ipxe_script cfg mac entry))]
      | IoFailed None => []
      | IoFailed (Some left_over) => [truncate p; write_over p left_over]
      end
    end
  end.

(** Undisturbed, the steps are the whole write. *)
Lemma script_steps_whole (cfg : Config) mac entry io disk :
  foldl (λ disk f, f disk) disk (script_steps cfg mac entry io)
  = (write_ipxe_script cfg mac entry io disk).1.
Proof.
  assert (∀ p text, write_over p text (truncate p disk) = <[p := text]> disk) as Hw.
  { intros p text. unfold write_over, truncate. rewrite lookup_insert_eq. cbn [default from_option id].
    by rewrite drop_nil, app_nil_r, insert_insert_eq. }
  unfold script_steps, write_ipxe_script. destruct (be_ipxe_script entry); [|done].
  destruct (sanitize_tftp_path _ _); [|done]. destruct io as [|[left_over|]]; cbn; by rewrite ?Hw.
Qed.

(** ** Constants *)

Definition DHCP_SERVER_PORT : Z := 67.
Definition DHCP_CLIENT_PORT : Z := 68.
Definition DHCP_MAGIC : bytes := [99; 130; 83; 99].
Definition OPT_SUBNET_MASK : Z := 1.
Definition OPT_ROUTER : Z := 3.
Definition OPT_LEASE_TIME : Z := 51.
Definition OPT_MESSAGE_TYPE : Z := 53.
Definition OPT_SERVER_ID : Z := 54.
Definition OPT_TFTP_SERVER : Z := 66.
Definition OPT_BOOT_FILE : Z := 67.
Definition OPT_END : Z := 255.
Definition DHCPDISCOVER : Z := 1.
Definition DHCPOFFER : Z := 2.
Definition DHCPREQUEST : Z := 3.
Definition DHCPACK : Z := 5.

(** ** Leases *)

Record Lease := {
  ls_ip : Ipv4Addr;
  ls_expires : Instant;
}.

Abbreviation BootTable := (gmap Mac BootEntry) (only parsing).
Abbreviation LeaseTable := (gmap Mac Lease) (only parsing).

Definition in_use (leases : LeaseTable) : gset Z :=
  list_to_set ((λ l, ls_ip l.2) <$> map_to_list leases).

(** [(start..=end).find(|ip| !in_use.contains(ip))] *)
Definition find_free (pool_start pool_end : Z) (used : gset Z) : option Z :=
  snd <$> list_find (λ ip, ip ∉ used) (seqZ pool_start (pool_end - pool_start + 1)).

(** [allocate_ip]: the address and the lease table; [now] is the clock when a lease
    is renewed. *)
Definition allocate_ip (mac : Mac) (boot_table : BootTable) (leases : LeaseTable)
    (pool_start pool_end : Ipv4Addr) (lease_secs : Z) (now : Instant) :
    option Ipv4Addr * LeaseTable :=
  match boot_table !! mac ≫= be_ip with
  | Some ip => (Some ip, leases)
  | None =>
    match leases !! mac with
    | Some lease =>
      (Some (ls_ip lease),
       <[mac := {| ls_ip := ls_ip lease; ls_expires := now + from_secs lease_secs |}]> leases)
    | None => (find_free pool_start pool_end (in_use leases), leases)
    end
  end.

(** ** The reply *)

(** [pkt[off..off + bs.len()].copy_from_slice(bs)] *)
Definition splice (off : nat) (bs pkt : bytes) : bytes :=
  take off pkt ++ bs ++ drop (off + length bs) pkt.

(** [build_dhcp_reply] *)
Definition build_dhcp_reply (op xid : Z) (chaddr : bytes) (yiaddr siaddr subnet : Ipv4Addr)
    (gateway : option Ipv4Addr) (lease_secs : Z) (boot_file : string) : bytes :=
  let pkt := replicate 236 0 in
  let pkt := splice 0 [2] pkt in
  let pkt := splice 1 [1] pkt in
  let pkt := splice 2 [6] pkt in
  let pkt := splice 3 [0] pkt in
  let pkt := splice 4 (to_be_bytes 4 xid) pkt in
  let pkt := splice 16 (octets yiaddr) pkt in
  let pkt := splice 20 (octets siaddr) pkt in
  let copy_len := Nat.min (length chaddr) 16 in
  let pkt := splice 28 (take copy_len chaddr) pkt in
  let boot_file_bytes := as_bytes boot_file in
  let boot_copy_len := Nat.min (length boot_file_bytes) 127 in
  let pkt := splice 108 (take boot_copy_len boot_file_bytes) pkt in
  pkt ++ DHCP_MAGIC
    ++ [OPT_MESSAGE_TYPE; 1; op]
    ++ [OPT_SERVER_ID; 4] ++ octets siaddr
    ++ [OPT_SUBNET_MASK; 4] ++ octets subnet
    ++ match gateway with Some gw => [OPT_ROUTER; 4] ++ octets gw | None => [] end
    ++ [OPT_LEASE_TIME; 4] ++ to_be_bytes 4 lease_secs
    ++ [OPT_TFTP_SERVER; 4] ++ octets siaddr
    ++ [OPT_BOOT_FILE; wrap 8 (Z.of_nat boot_copy_len)] ++ take boot_copy_len boot_file_bytes
    ++ [OPT_END].

(** ** The handler *)

(** The option loop: the index [i] and the type found so far.  Every round moves
    [i] forward, so as many rounds as there are bytes are enough. *)
Fixpoint scan_options (fuel : nat) (opts : bytes) (i : nat) (msg_type : Z) : outcome Z :=
  match fuel with
  | O => Done msg_type
  | S fuel =>
    match opts !! i with
    | None => Done msg_type
    | Some opt =>
      if opt =? OPT_END then Done msg_type
      else if opt =? 0 then scan_options fuel opts (i + 1) msg_type
      else
        match opts !! (i + 1)%nat with
        | None => Done msg_type
        | Some len =>
          msg_type ← (if (opt =? OPT_MESSAGE_TYPE) && (1 <=? len)
                      then index opts (i + 2) else Done msg_type);
          scan_options fuel opts (i + 2 + Z.to_nat len) msg_type
        end
    end
  end.

Definition message_type (opts : bytes) : outcome Z := scan_options (length opts) opts 0 0.

Record DhcpState := {
  dh_boot : gmap Mac BootEntry;
  dh_leases : gmap Mac Lease;
  dh_disk : gmap (list Z) (list Z);
}.

Definition dhcp_init : DhcpState := {| dh_boot := ∅; dh_leases := ∅; dh_disk := ∅ |}.

(** Entries the control plane inserts, in order. *)
Definition insert_entries (regs : list (Mac * BootEntry)) (bt : BootTable) : BootTable :=
  foldl (λ bt '(mac, entry), <[mac := entry]> bt) bt regs.

(** What happens outside the handler while it runs: the result of writing the
    script, the clock, and the entries registered between its looks at the table. *)
Record DhcpEnv := {
  de_io : io_result;
  de_now_renew : Instant;
  de_now_store : Instant;
  de_before_allocate : list (Mac * BootEntry);
  de_before_reply : list (Mac * BootEntry);
}.

(** [chaddr[..6]] *)
Definition mac_of_chaddr (chaddr : bytes) : Mac :=
  match chaddr with
  | b0 :: b1 :: b2 :: b3 :: b4 :: b5 :: _ => mkMac b0 b1 b2 b3 b4 b5
  | _ => mkMac 0 0 0 0 0 0
  end.

(** The entry a new MAC address gets. *)
Definition discovered_entry (mac : Mac) : BootEntry := {|
  be_hostname := "node-" +:+ fmt_mac mac; be_ip := None;
  be_ipxe_script := Some (default_script_path mac); be_tags := ∅ |}.

(** Answering a DISCOVER or REQUEST of [mac]. *)
Definition dhcp_answer (cfg : Config) (env : DhcpEnv) (st : DhcpState) (mac : Mac)
    (chaddr : bytes) (xid flags msg_type : Z) : DhcpState * list (SocketAddr * bytes) :=
  let entry := default (discovered_entry mac) (dh_boot st !! mac) in
  let bt := <[mac := entry]> (dh_boot st) in
  let disk := (write_ipxe_script cfg mac entry (de_io env) (dh_disk st)).1 in
  let bt := insert_entries (de_before_allocate env) bt in
  match allocate_ip mac bt (dh_leases st) (px_pool_start cfg) (px_pool_end cfg)
          (px_lease_secs cfg) (de_now_renew env) with
  | (None, leases) => ({| dh_boot := bt; dh_leases := leases; dh_disk := disk |}, [])
  | (Some offered_ip, leases) =>
    let leases := <[mac := {| ls_ip := offered_ip;
                              ls_expires := de_now_store env + from_secs (px_lease_secs cfg) |}]> leases in
    let bt := insert_entries (de_before_reply env) bt in
    let boot_file := default (px_boot_file cfg) (bt !! mac ≫= be_ipxe_script) in
    let reply_op := if msg_type =? DHCPDISCOVER then DHCPOFFER else DHCPACK in
    let reply := build_dhcp_reply reply_op xid chaddr offered_ip (px_server_ip cfg)
                   (px_subnet_mask cfg) (px_gateway cfg) (px_lease_secs cfg) boot_file in
    let target := if negb (Z.land flags 32768 =? 0)
                  then V4 (ipv4 255 255 255 255) DHCP_CLIENT_PORT
                  else V4 offered_ip DHCP_CLIENT_PORT in
    ({| dh_boot := bt; dh_leases := leases; dh_disk := disk |}, [(target, reply)])
  end.

(** The body of [dhcp_server] on one datagram. *)
Definition dhcp_datagram (cfg : Config) (env : DhcpEnv) (st : DhcpState) (datagram : bytes) :
    outcome (DhcpState * list (SocketAddr * bytes)) :=
  let data := take 576 datagram in
  if (length data <? 240)%nat || negb (bool_decide (take 4 (drop 236 data) = DHCP_MAGIC))
  then Done (st, [])
  else
    let xid := from_be_bytes (take 4 (drop 4 data)) in
    let flags := from_be_bytes (take 2 (drop 10 data)) in
    let chaddr := take 16 (drop 28 data) in
    let mac := mac_of_chaddr chaddr in
    msg_type ← message_type (drop 240 data);
    if (msg_type =? DHCPDISCOVER) || (msg_type =? DHCPREQUEST)
    then Done (dhcp_answer cfg env st mac chaddr xid flags msg_type)
    else Done (st, []).

(** ** MAC addresses as text *)

Lemma split_join sep pieces :
  pieces ≠ [] → Forall (λ p, sep ∉ p) pieces →
  split_byte sep (join_bytes [sep] pieces) = pieces.
Proof.
  intros Hne Hall. induction Hall as [|p pieces Hp Hall IH]; [done|].
  destruct pieces as [|q pieces]; cbn [join_bytes]; [by apply split_byte_none|].
  cbn [app]. rewrite split_byte_cons_sep by done. f_equal. by apply IH.
Qed.

Lemma mac_pieces mac :
  mac_ok mac → Forall (Forall (λ c, 48 ≤ c < 128 ∧ c ≠ 58)) (fmt_02x <$> mac_bytes mac).
Proof.
  intros Hok. apply Forall_fmap. eapply Forall_impl; [exact Hok|]. apply fmt_02x_ascii.
Qed.

Lemma join_ascii sep pieces (P : Z → Prop) :
  P sep → Forall (Forall P) pieces → Forall P (join_bytes [sep] pieces).
Proof.
  intros Hsep. induction 1 as [|p pieces Hp Hall IH]; [constructor|].
  destruct pieces; [done|]. cbn [join_bytes]. rewrite !Forall_app. split_and!; [done| |done].
  by apply Forall_singleton.
Qed.

Definition mac_text (mac : Mac) : bytes := join_bytes [58] (fmt_02x <$> mac_bytes mac).

Lemma mac_text_range mac : mac_ok mac → Forall (λ c, 48 ≤ c < 128) (mac_text mac).
Proof.
  intros Hok. apply join_ascii; [lia|]. eapply Forall_impl; [by apply mac_pieces|]. cbn.
  intros p Hp. eapply Forall_impl; [exact Hp|]. cbn. tauto.
Qed.

Lemma as_bytes_fmt_mac mac : mac_ok mac → as_bytes (fmt_mac mac) = mac_text mac.
Proof.
  intros Hok. apply as_string_of_bytes. eapply Forall_impl; [by apply mac_text_range|].
  cbn. intros c Hc. fits_lia.
Qed.

Lemma split_mac_text mac : mac_ok mac → split_byte 58 (mac_text mac) = fmt_02x <$> mac_bytes mac.
Proof.
  intros Hok. apply split_join; [done|]. eapply Forall_impl; [by apply mac_pieces|]. cbn.
  intros p Hp Hin. rewrite Forall_forall in Hp. by destruct (Hp _ Hin).
Qed.

Lemma fmt_02x_list_inj l1 l2 :
  Forall u8 l1 → Forall u8 l2 → fmt_02x <$> l1 = fmt_02x <$> l2 → l1 = l2.
Proof.
  intros H1. revert l2. induction H1 as [|a l1 Ha _ IH]; intros [|b l2] H2 Heq; try done.
  inversion_clear H2. rewrite !fmap_cons in Heq. injection Heq as Hab1 Hab2 Hl.
  f_equal; [|by apply IH]. apply fmt_02x_inj; [done..|]. unfold fmt_02x. by rewrite Hab1, Hab2.
Qed.

Lemma mac_bytes_inj m m' : mac_bytes m = mac_bytes m' → m = m'.
Proof. destruct m, m'. unfold mac_bytes. cbn. by intros [= -> -> -> -> -> ->]. Qed.

Lemma mac_text_inj m m' : mac_ok m → mac_ok m' → mac_text m = mac_text m' → m = m'.
Proof.
  intros Hm Hm' Heq. apply (f_equal (split_byte 58)) in Heq.
  rewrite !split_mac_text in Heq by done. by apply mac_bytes_inj, fmt_02x_list_inj.
Qed.

(** ** Script paths *)

Definition script_segment (mac : Mac) : bytes := mac_text mac ++ as_bytes ".ipxe".

Lemma slash_not_in_mac mac : mac_ok mac → 47 ∉ mac_text mac.
Proof.
  intros Hok Hin. pose proof (mac_text_range mac Hok) as Hr. rewrite Forall_forall in Hr.
  specialize (Hr _ Hin). lia.
Qed.

Lemma script_segment_normal mac : mac_ok mac → normal_segment (script_segment mac).
Proof.
  intros Hok. unfold script_segment.
  assert (mac_text mac ≠ []) as Hne by done.
  assert (5 ≤ length (mac_text mac ++ as_bytes ".ipxe"))%nat as Hlen
    by (rewrite length_app; cbn; lia).
  split_and!.
  - intros Hnil. by rewrite Hnil in Hlen; cbn in Hlen; lia.
  - rewrite not_elem_of_app. split; [by apply slash_not_in_mac|]. by_compute.
  - intros Hnil. rewrite Hnil in Hlen. cbn in Hlen. lia.
  - intros Hnil. rewrite Hnil in Hlen. cbn in Hlen. lia.
Qed.

Lemma sanitize_default_script root mac :
  mac_ok mac →
  sanitize_tftp_path root (default_script_path mac)
  = Some (push (push root (as_bytes "scripts")) (script_segment mac)).
Proof.
  intros Hok. unfold sanitize_tftp_path.
  assert (components (as_bytes (default_script_path mac))
          = [Normal (as_bytes "scripts"); Normal (script_segment mac)]) as ->; [|done].
  unfold default_script_path. rewrite !as_bytes_app, as_bytes_fmt_mac by done.
  change (as_bytes "scripts/") with (as_bytes "scripts" ++ [47]). rewrite <-app_assoc.
  change ([47] ++ mac_text mac ++ as_bytes ".ipxe") with (47 :: script_segment mac).
  pose proof (script_segment_normal mac Hok) as Hn.
  rewrite components_app_sep; [|by destruct Hn as (_ & ? & _)|done].
  by rewrite omap_parse_normal.
Qed.

(** Two MAC addresses never share a boot script: every address has a script file
    [scripts/<mac>.ipxe] under the root, and different addresses have different
    files. *)
Theorem script_paths_distinct root m m' :
  mac_ok m → mac_ok m' → m ≠ m' →
  ∃ p p', sanitize_tftp_path root (default_script_path m) = Some p
    ∧ sanitize_tftp_path root (default_script_path m') = Some p'
    ∧ components p = components root ++ [Normal (as_bytes "scripts"); Normal (script_segment m)]
    ∧ p ≠ p'.
Proof.
  intros Hm Hm' Hne. rewrite !sanitize_default_script by done.
  eexists _, _. split; [done|]. split; [done|].
  assert (normal_segment (as_bytes "scripts")) as Hscripts
    by (split_and!; [done|by_compute|done|done]).
  rewrite !components_push by (done || by apply script_segment_normal).
  split; [by rewrite <-app_assoc|]. intros Heq. apply Hne.
  apply (f_equal components) in Heq.
  rewrite !components_push in Heq by (done || by apply script_segment_normal).
  apply app_inv_head in Heq. assert (script_segment m = script_segment m') as Hseg by congruence.
  unfold script_segment in Hseg. apply app_inv_tail in Hseg. by apply mac_text_inj.
Qed.

Lemma script_paths_distinct_witness :
  ∃ p p', sanitize_tftp_path (as_bytes "/srv") (default_script_path (mkMac 8 0 39 1 2 3)) = Some p
    ∧ sanitize_tftp_path (as_bytes "/srv") (default_script_path (mkMac 8 0 39 1 3 2)) = Some p'
    ∧ p ≠ p'.
Proof.
  destruct (script_paths_distinct (as_bytes "/srv") (mkMac 8 0 39 1 2 3) (mkMac 8 0 39 1 3 2)
    ltac:(by_compute) ltac:(by_compute) ltac:(done)) as (p & p' & Hp & Hp' & _ & Hne).
  exists p, p'. split_and!; [exact Hp|exact Hp'|exact Hne].
Defined.

(** ** Options *)

(** A reference reading of the option field: padding, and options with their data. *)
Inductive opt := Pad | Opt (code : Z) (data : bytes).

Definition encode_opt (o : opt) : bytes :=
  match o with
  | Pad => [0]
  | Opt code data => code :: Z.of_nat (length data) :: data
  end.
Definition encode_opts (os : list opt) : bytes := mjoin (encode_opt <$> os).

Definition opt_ok (o : opt) : Prop :=
  match o with
  | Pad => True
  | Opt code data => code ≠ 0 ∧ code ≠ OPT_END ∧ (length data < 256)%nat
  end.

(** The message type of a list of options: the first data byte of the last option
    53 that has one. *)
Definition opt_type (t : Z) (o : opt) : Z :=
  match o with
  | Opt code (b :: _) => if code =? OPT_MESSAGE_TYPE then b else t
  | _ => t
  end.
Definition last_type (t : Z) (os : list opt) : Z := foldl opt_type t os.

(** What is left when no whole option follows, and what the scan makes of it. *)
Inductive tail_result (t : Z) : bytes → outcome Z → Prop :=
| tail_nothing : tail_result t [] (Done t)
| tail_end rest : tail_result t (OPT_END :: rest) (Done t)
| tail_no_length code :
  code ≠ 0 → code ≠ OPT_END → tail_result t [code] (Done t)
| tail_no_type len :
  1 ≤ len → tail_result t [OPT_MESSAGE_TYPE; len] Panicked
| tail_cut code len data :
  code ≠ 0 → code ≠ OPT_END → Z.of_nat (length data) < len →
  (code = OPT_MESSAGE_TYPE → data ≠ []) →
  tail_result t (code :: len :: data) (Done (opt_type t (Opt code data))).

Lemma scan_shift fuel pre bs i t :
  scan_options fuel (pre ++ bs) (length pre + i) t = scan_options fuel bs i t.
Proof.
  revert i t. induction fuel as [|fuel IH]; intros i t; cbn [scan_options]; [done|].
  assert (∀ j k, j = (length pre + k)%nat → (pre ++ bs) !! j = bs !! k) as Hlook.
  { intros j k ->. rewrite lookup_app_r by lia. f_equal. lia. }
  rewrite (Hlook _ i) by lia.
  destruct (bs !! i) as [o|]; [|done]. destruct (o =? OPT_END); [done|].
  destruct (o =? 0); [by rewrite <-Nat.add_assoc, IH|].
  rewrite (Hlook _ (i + 1)%nat) by lia. destruct (bs !! (i + 1)%nat) as [len|]; [|done].
  unfold index. rewrite (Hlook _ (i + 2)%nat) by lia.
  assert (∀ t', scan_options fuel (pre ++ bs) (length pre + i + 2 + Z.to_nat len) t'
          = scan_options fuel bs (i + 2 + Z.to_nat len) t') as Hrec.
  { intros t'. rewrite <-IH. f_equal. lia. }
  destruct (_ && _); cbn [mbind outcome_bind]; [|done].
  by destruct (bs !! (i + 2)%nat); cbn [mbind outcome_bind].
Qed.

(** More rounds than bytes are left change nothing. *)
Lemma scan_fuel f1 : ∀ f2 bs i t,
  (length bs - i ≤ f1)%nat → (length bs - i ≤ f2)%nat →
  scan_options f1 bs i t = scan_options f2 bs i t.
Proof.
  induction f1 as [|f1 IH]; intros f2 bs i t H1 H2.
  { destruct f2; cbn [scan_options]; [done|]. by rewrite lookup_ge_None_2 by lia. }
  destruct f2 as [|f2]; cbn [scan_options]; [by rewrite lookup_ge_None_2 by lia|].
  destruct (bs !! i) as [o|] eqn:Ho; [|done]. apply lookup_lt_Some in Ho.
  destruct (o =? OPT_END); [done|]. destruct (o =? 0); [apply IH; lia|].
  destruct (bs !! (i + 1)%nat) as [len|]; [|done].
  destruct (if _ && _ then _ else _) as [t'|]; cbn [mbind outcome_bind]; [apply IH; lia|done].
Qed.

(** The scan of what is left, with as many rounds as there are bytes. *)
Definition scan (bs : bytes) (t : Z) : outcome Z := scan_options (length bs) bs 0 t.

Lemma scan_skip fuel pre bs t :
  (length bs ≤ fuel)%nat → scan_options fuel (pre ++ bs) (length pre) t = scan bs t.
Proof.
  intros Hf. rewrite <-(Nat.add_0_r (length pre)), scan_shift. apply scan_fuel; lia.
Qed.

(** One round on an option's code and length. *)
Lemma scan_code fuel code len rest t :
  code ≠ 0 → code ≠ OPT_END →
  scan_options (S fuel) (code :: len :: rest) 0 t
  = (t' ← (if (code =? OPT_MESSAGE_TYPE) && (1 <=? len) then index rest 0 else Done t);
     scan_options fuel (code :: len :: rest) (2 + Z.to_nat len) t').
Proof.
  intros H0 Hend. cbn [scan_options lookup list_lookup Nat.add].
  rewrite (proj2 (Z.eqb_neq _ _) Hend), (proj2 (Z.eqb_neq _ _) H0). done.
Qed.

Lemma scan_opt o bs t : opt_ok o → scan (encode_opt o ++ bs) t = scan bs (opt_type t o).
Proof.
  destruct o as [|code data]; [intros _|intros (H0 & Hend & Hlen)]; unfold scan at 1;
    cbn [encode_opt app length].
  - cbn [scan_options lookup list_lookup]. apply (scan_skip (length bs) [0] bs t). lia.
  - rewrite scan_code by done. rewrite Nat2Z.id, length_app.
    assert (∀ t', scan_options (S (length data + length bs))
        (code :: Z.of_nat (length data) :: data ++ bs) (2 + length data) t' = scan bs t') as Hrec.
    { intros t'. apply (scan_skip _ (code :: Z.of_nat (length data) :: data) bs t'). lia. }
    destruct data as [|b data]; cbn [length] in *.
    + rewrite andb_false_r. cbn [mbind outcome_bind]. apply Hrec.
    + rewrite (proj2 (Z.leb_le 1 _)) by lia. rewrite andb_true_r. cbn [opt_type].
      destruct (code =? OPT_MESSAGE_TYPE); apply Hrec.
Qed.

Lemma scan_opts os bs t : Forall opt_ok os → scan (encode_opts os ++ bs) t = scan bs (last_type t os).
Proof.
  intros Hos. revert t. induction Hos as [|o os Ho _ IH]; intros t; [done|].
  unfold encode_opts. rewrite fmap_cons. cbn [mjoin list_join]. rewrite <-app_assoc, scan_opt by done.
  apply IH.
Qed.

Lemma scan_tail t tail r : tail_result t tail r → scan tail t = r.
Proof.
  intros [|rest|code H0 Hend|len Hlen|code len data H0 Hend Hcut Hdata]; unfold scan; cbn [length].
  - done.
  - done.
  - cbn [scan_options lookup list_lookup Nat.add].
    by rewrite (proj2 (Z.eqb_neq _ _) Hend), (proj2 (Z.eqb_neq _ _) H0).
  - rewrite scan_code by done. by rewrite (proj2 (Z.leb_le _ _) Hlen).
  - rewrite scan_code by done. rewrite (proj2 (Z.leb_le 1 len)) by lia. rewrite andb_true_r.
    assert (∀ t', scan_options (S (length data)) (code :: len :: data) (2 + Z.to_nat len) t' = Done t')
      as Hend'.
    { intros t'. cbn [scan_options]. by rewrite lookup_ge_None_2 by (cbn; lia). }
    cbn [opt_type]. destruct (Z.eqb_spec code OPT_MESSAGE_TYPE) as [->|].
    + destruct data as [|b data]; [by destruct Hdata|]. cbn [index lookup list_lookup mbind outcome_bind].
      apply Hend'.
    + cbn [mbind outcome_bind]. rewrite Hend'. by destruct data.
Qed.

(** Every byte string reads as options and a rest. *)
Lemma options_exist bs : bytes_ok bs → ∀ t, ∃ os tail r,
  Forall opt_ok os ∧ bs = encode_opts os ++ tail ∧ tail_result (last_type t os) tail r.
Proof.
  induction bs as [bs IH] using (induction_ltof1 _ length); unfold ltof in IH. intros Hok t.
  assert (∀ o rest, bs = encode_opt o ++ rest → opt_ok o → ∃ os tail r,
    Forall opt_ok os ∧ bs = encode_opts os ++ tail ∧ tail_result (last_type t os) tail r) as Hrec.
  { intros o rest Heq Ho. rewrite Heq in Hok. apply Forall_app in Hok as [_ Hrest].
    destruct (IH rest) with (t := opt_type t o) as (os & tail & r & Hos & -> & Hr); [|done|].
    { rewrite Heq, length_app. destruct o; cbn; lia. }
    exists (o :: os), tail, r. split_and!; [by constructor| |done].
    unfold encode_opts. rewrite fmap_cons. cbn [mjoin list_join]. by rewrite <-app_assoc, Heq. }
  destruct bs as [|code bs]; [by exists [], [], (Done t); split_and!; [..|constructor]|].
  destruct (decide (code = OPT_END)) as [->|Hend];
    [by eexists [], _, _; split_and!; [..|apply tail_end]|].
  destruct (decide (code = 0)) as [->|H0]; [by apply (Hrec Pad bs)|].
  destruct bs as [|len data]; [by eexists [], _, _; split_and!; [..|by apply tail_no_length]|].
  rewrite !Forall_cons in Hok. destruct Hok as (_ & Hlen & _).
  destruct (decide (Z.of_nat (length data) < len)) as [Hcut|Hfull].
  - destruct (decide (code = OPT_MESSAGE_TYPE ∧ data = [])) as [[-> ->]|Hne].
    + eexists [], _, _. split_and!; [done..|apply tail_no_type; cbn in Hcut; lia].
    + eexists [], _, _. split_and!; [done..|]. apply tail_cut; try done. intros -> ->. by apply Hne.
  - apply (Hrec (Opt code (take (Z.to_nat len) data)) (drop (Z.to_nat len) data)).
    + cbn [encode_opt]. rewrite length_take, Nat.min_l by lia. rewrite Z2Nat.id by fits_lia.
      by rewrite <-!app_comm_cons, take_drop.
    + split_and!; [done..|]. rewrite length_take. fits_lia.
Qed.

(** C25: how the option field of any datagram is read: it splits into whole options
    and a rest, and the message type is the first data byte of the last option 53
    that has one (0 if there is none), an option cut off by the end of the datagram
    included.  If the rest is an option 53 whose length byte promises data and
    nothing follows, the scan reads behind the datagram and the server task panics. *)
Theorem message_type_spec opts :
  bytes_ok opts →
  (∃ os tail r, Forall opt_ok os ∧ opts = encode_opts os ++ tail ∧ tail_result (last_type 0 os) tail r) ∧
  ∀ os tail r, Forall opt_ok os → opts = encode_opts os ++ tail → tail_result (last_type 0 os) tail r →
    message_type opts = r.
Proof.
  intros Hok. split; [by apply options_exist|]. intros os tail r Hos -> Hr.
  change (scan (encode_opts os ++ tail) 0 = r). rewrite scan_opts by done. by apply scan_tail.
Qed.

Lemma message_type_spec_witness : message_type [0; 53; 1; 3; 12; 2; 97; 98; 255; 7] = Done 3.
Proof.
  apply (proj2 (message_type_spec [0; 53; 1; 3; 12; 2; 97; 98; 255; 7] ltac:(by_compute))
    [Pad; Opt 53 [3]; Opt 12 [97; 98]] [255; 7]); [|done|apply tail_end].
  rewrite !Forall_cons.
  split_and!; try done; (split; [done|split; [done|apply Nat.ltb_lt; reflexivity]]).
Defined.

(** ** The reply packet *)

Lemma splice_app off bs a b c :
  off = length a → length b = length bs → splice off bs (a ++ b ++ c) = a ++ bs ++ c.
Proof.
  intros -> Hb. unfold splice. rewrite take_app_length. do 2 f_equal.
  rewrite drop_app, drop_ge, app_nil_l by lia.
  apply drop_app_exact. lia.
Qed.

(** Overwriting zeros that start at [off]. *)
Lemma splice_zeros off bs a k :
  off = length a → (length bs ≤ k)%nat →
  splice off bs (a ++ replicate k 0) = a ++ bs ++ replicate (k - length bs) 0.
Proof.
  intros Hoff Hk. replace k with (length bs + (k - length bs))%nat at 1 by lia.
  rewrite replicate_add. apply splice_app; [done|]. by rewrite length_replicate.
Qed.

(** Zeros before the field. *)
Lemma splice_gap off bs a gap k :
  off = (length a + gap)%nat → (gap + length bs ≤ k)%nat →
  splice off bs (a ++ replicate k 0)
  = (a ++ replicate gap 0 ++ bs) ++ replicate (k - gap - length bs) 0.
Proof.
  intros Hoff Hk. replace k with (gap + (k - gap))%nat at 1 by lia.
  rewrite replicate_add, app_assoc, splice_zeros;
    [by rewrite <-!app_assoc|by rewrite length_app, length_replicate|lia].
Qed.

Definition boot_bytes (boot_file : string) : bytes := take 127 (as_bytes boot_file).

(** The options of a reply, in order. *)
Definition reply_options (op : Z) (siaddr subnet : Ipv4Addr) (gateway : option Ipv4Addr)
    (lease_secs : Z) (boot_file : string) : list opt :=
  [Opt OPT_MESSAGE_TYPE [op]; Opt OPT_SERVER_ID (octets siaddr); Opt OPT_SUBNET_MASK (octets subnet)]
  ++ match gateway with Some gw => [Opt OPT_ROUTER (octets gw)] | None => [] end
  ++ [Opt OPT_LEASE_TIME (to_be_bytes 4 lease_secs); Opt OPT_TFTP_SERVER (octets siaddr);
      Opt OPT_BOOT_FILE (boot_bytes boot_file)].

(** The fixed part: the fields of a BOOTREPLY at their offsets. *)
Definition reply_fixed (xid : Z) (chaddr : bytes) (yiaddr siaddr : Ipv4Addr) (boot_file : string) : bytes :=
  [2; 1; 6; 0] ++ to_be_bytes 4 xid ++ replicate 8 0
  ++ octets yiaddr ++ octets siaddr ++ replicate 4 0
  ++ take 16 chaddr ++ replicate (16 - length (take 16 chaddr)) 0 ++ replicate 64 0
  ++ boot_bytes boot_file ++ replicate (128 - length (boot_bytes boot_file)) 0.

Lemma take_min_length {A} n (l : list A) : take (Nat.min (length l) n) l = take n l.
Proof. rewrite Nat.min_comm, <-take_take. by rewrite firstn_all. Qed.

Lemma length_boot_bytes f : (length (boot_bytes f) ≤ 127)%nat.
Proof. unfold boot_bytes. rewrite length_take. lia. Qed.

Lemma reply_fixed_built xid chaddr yiaddr siaddr boot_file :
  let pkt := replicate 236 0 in
  let pkt := splice 3 [0] (splice 2 [6] (splice 1 [1] (splice 0 [2] pkt))) in
  let pkt := splice 20 (octets siaddr) (splice 16 (octets yiaddr) (splice 4 (to_be_bytes 4 xid) pkt)) in
  splice 108 (boot_bytes boot_file) (splice 28 (take 16 chaddr) pkt)
  = reply_fixed xid chaddr yiaddr siaddr boot_file.
Proof.
  pose proof (length_boot_bytes boot_file) as Hbf.
  assert (length (take 16 chaddr) ≤ 16)%nat as Hch by (rewrite length_take; lia).
  cbv zeta.
  assert (splice 3 [0] (splice 2 [6] (splice 1 [1] (splice 0 [2] (replicate 236 0))))
          = [2; 1; 6; 0] ++ replicate 232 0) as -> by reflexivity.
  rewrite (splice_gap 4 _ [2; 1; 6; 0] 0) by (rewrite ?length_to_be_bytes; cbn; lia).
  rewrite length_to_be_bytes. unfold octets.
  rewrite (splice_gap 16 (to_be_bytes 4 yiaddr) _ 8)
    by (rewrite ?length_app, ?length_to_be_bytes; cbn; lia).
  rewrite length_to_be_bytes.
  rewrite (splice_gap 20 (to_be_bytes 4 siaddr) _ 0)
    by (rewrite ?length_app, ?length_to_be_bytes; cbn; lia).
  rewrite length_to_be_bytes.
  rewrite (splice_gap 28 (take 16 chaddr) _ 4)
    by (rewrite ?length_app, ?length_to_be_bytes; cbn; lia).
  rewrite (splice_gap 108 (boot_bytes boot_file) _ (80 - length (take 16 chaddr)))
    by (rewrite ?length_app, ?length_to_be_bytes; cbn -[take]; lia).
  unfold reply_fixed, octets. set (n := length (take 16 chaddr)) in *.
  replace (80 - n)%nat with ((16 - n) + 64)%nat by lia. rewrite replicate_add.
  change (replicate 0 0) with (@nil Z). rewrite <-!app_assoc, !app_nil_l.
  do 10 f_equal. f_equal. lia.
Qed.

Lemma length_reply_fixed xid chaddr yiaddr siaddr f :
  length (reply_fixed xid chaddr yiaddr siaddr f) = 236%nat.
Proof.
  pose proof (length_boot_bytes f) as Hbf.
  assert (length (take 16 chaddr) ≤ 16)%nat as Hch by (rewrite length_take; lia).
  unfold reply_fixed, octets. rewrite !length_app, !length_replicate, !length_to_be_bytes.
  set (n := length (take 16 chaddr)) in *. cbn [length]. lia.
Qed.

Lemma build_dhcp_reply_eq op xid chaddr yiaddr siaddr subnet gateway lease_secs f :
  build_dhcp_reply op xid chaddr yiaddr siaddr subnet gateway lease_secs f
  = reply_fixed xid chaddr yiaddr siaddr f ++ DHCP_MAGIC
    ++ encode_opts (reply_options op siaddr subnet gateway lease_secs f) ++ [OPT_END].
Proof.
  unfold build_dhcp_reply. cbv zeta. rewrite !take_min_length. fold (boot_bytes f).
  pose proof (reply_fixed_built xid chaddr yiaddr siaddr f) as Hfix. cbv zeta in Hfix.
  rewrite Hfix. do 2 f_equal.
  assert (wrap 8 (Z.of_nat (Nat.min (length (as_bytes f)) 127)) = Z.of_nat (length (boot_bytes f)))
    as ->.
  { unfold boot_bytes. rewrite length_take, Nat.min_comm. apply wrap_fits. fits_lia. }
  unfold reply_options, encode_opts, octets. rewrite !fmap_app, !join_app.
  cbn [fmap list_fmap mjoin list_join encode_opt].
  rewrite !length_to_be_bytes, <-!app_assoc, !app_nil_l.
  destruct gateway as [gw|]; [|done].
  cbn [fmap list_fmap mjoin list_join encode_opt]. by rewrite length_to_be_bytes, <-!app_assoc.
Qed.

Lemma reply_options_ok op siaddr subnet gateway lease_secs f :
  Forall opt_ok (reply_options op siaddr subnet gateway lease_secs f).
Proof.
  pose proof (length_boot_bytes f).
  assert (∀ code data, code ≠ 0 → code ≠ OPT_END → (length data < 256)%nat → opt_ok (Opt code data))
    as Hok by (intros; split; [done|by split]).
  assert (∀ code z, code ≠ 0 → code ≠ OPT_END → opt_ok (Opt code (to_be_bytes 4 z))) as Hok4.
  { intros. apply Hok; [done..|]. rewrite length_to_be_bytes. lia. }
  unfold reply_options, octets. destruct gateway; cbn [app];
    repeat (apply Forall_cons_2; [first [by apply Hok4|apply Hok; [done..|cbn; lia]]|]);
    apply Forall_nil_2.
Qed.

Lemma reply_options_type op siaddr subnet gateway lease_secs f t :
  last_type t (reply_options op siaddr subnet gateway lease_secs f) = op.
Proof.
  unfold reply_options, octets, last_type.
  destruct gateway; cbn [app foldl]; destruct (boot_bytes f); by rewrite ?to_be_bytes_2.
Qed.

Lemma reply_xid op xid chaddr yiaddr siaddr subnet gateway lease_secs f :
  take 4 (drop 4 (build_dhcp_reply op xid chaddr yiaddr siaddr subnet gateway lease_secs f))
  = to_be_bytes 4 xid.
Proof.
  rewrite build_dhcp_reply_eq. unfold reply_fixed. rewrite <-!app_assoc, drop_app_exact by done.
  apply take_app_exact. by rewrite length_to_be_bytes.
Qed.

Lemma reply_yiaddr op xid chaddr yiaddr siaddr subnet gateway lease_secs f :
  take 4 (drop 16 (build_dhcp_reply op xid chaddr yiaddr siaddr subnet gateway lease_secs f))
  = octets yiaddr.
Proof.
  rewrite build_dhcp_reply_eq. unfold reply_fixed.
  rewrite <-!app_assoc, !(app_assoc _ _ (octets yiaddr ++ _)).
  rewrite drop_app_exact by (rewrite !length_app, length_to_be_bytes, length_replicate; done).
  apply take_app_exact. unfold octets. by rewrite length_to_be_bytes.
Qed.

Lemma reply_chaddr op xid chaddr yiaddr siaddr subnet gateway lease_secs f :
  length chaddr = 16%nat →
  take 16 (drop 28 (build_dhcp_reply op xid chaddr yiaddr siaddr subnet gateway lease_secs f))
  = chaddr.
Proof.
  intros Hch. rewrite build_dhcp_reply_eq. unfold reply_fixed, octets.
  rewrite (firstn_all2 chaddr) by lia.
  rewrite <-!app_assoc, !(app_assoc _ _ (chaddr ++ _)).
  rewrite drop_app_exact; [by apply take_app_exact|].
  by rewrite !length_app, !length_replicate, !length_to_be_bytes.
Qed.

Lemma reply_options_at op xid chaddr yiaddr siaddr subnet gateway lease_secs f :
  drop 240 (build_dhcp_reply op xid chaddr yiaddr siaddr subnet gateway lease_secs f)
  = encode_opts (reply_options op siaddr subnet gateway lease_secs f) ++ [OPT_END].
Proof.
  rewrite build_dhcp_reply_eq, app_assoc. apply drop_app_exact.
  by rewrite length_app, length_reply_fixed.
Qed.

Lemma reply_type op xid chaddr yiaddr siaddr subnet gateway lease_secs f :
  message_type
    (drop 240 (build_dhcp_reply op xid chaddr yiaddr siaddr subnet gateway lease_secs f)) = Done op.
Proof.
  rewrite reply_options_at. set (os := reply_options _ _ _ _ _ _).
  change (scan (encode_opts os ++ [OPT_END]) 0 = Done op).
  rewrite scan_opts by apply reply_options_ok.
  rewrite (scan_tail _ _ _ (tail_end _ [])). f_equal. apply reply_options_type.
Qed.

(** The reply is a BOOTREPLY laid out as the protocol asks: 236 bytes with the
    transaction id, the offered and the server's address, the client's hardware
    address and the boot file (at most 127 bytes, zero-terminated) at their offsets,
    the magic cookie, and the options in order with correct lengths, ended by 255;
    read back with the server's own option scan it has the message type it was
    built with. *)
Theorem reply_layout op xid chaddr yiaddr siaddr subnet gateway lease_secs f :
  let reply := build_dhcp_reply op xid chaddr yiaddr siaddr subnet gateway lease_secs f in
  reply = reply_fixed xid chaddr yiaddr siaddr f ++ DHCP_MAGIC
          ++ encode_opts (reply_options op siaddr subnet gateway lease_secs f) ++ [OPT_END]
  ∧ take 4 (drop 236 reply) = DHCP_MAGIC
  ∧ take 4 (drop 4 reply) = to_be_bytes 4 xid
  ∧ take 4 (drop 16 reply) = octets yiaddr
  ∧ message_type (drop 240 reply) = Done op.
Proof.
  cbv zeta. rewrite reply_xid, reply_yiaddr, reply_type, build_dhcp_reply_eq.
  split_and!; [done| |done..].
  rewrite drop_app_exact by (by rewrite length_reply_fixed). by apply take_app_exact.
Qed.

(** ** Allocation *)

Lemma elem_of_in_use leases ip :
  ip ∈ in_use leases ↔ ∃ mac l, leases !! mac = Some l ∧ ls_ip l = ip.
Proof.
  unfold in_use. rewrite elem_of_list_to_set, list_elem_of_fmap. split.
  - intros ([mac l] & -> & Hin%elem_of_map_to_list). by exists mac, l.
  - intros (mac & l & Hl & <-). exists (mac, l). by rewrite elem_of_map_to_list.
Qed.

Lemma find_free_Some start end_ used ip :
  find_free start end_ used = Some ip ↔
  start ≤ ip ≤ end_ ∧ (ip ∉ used) ∧ ∀ j, start ≤ j < ip → j ∈ used.
Proof.
  unfold find_free. split.
  - intros ([i x] & Hf & ->)%fmap_Some. apply list_find_Some in Hf as (Hi & Hx & Hmin).
    apply lookup_seqZ in Hi as [-> Hi]. cbn. split_and!; [lia..|done|].
    intros j Hj. specialize (Hmin (Z.to_nat (j - start)) j).
    destruct (decide (j ∈ used)) as [|Hn]; [done|]. exfalso. apply Hmin; [|lia|done].
    apply lookup_seqZ. lia.
  - intros (Hr & Hx & Hmin). apply fmap_Some. exists (Z.to_nat (ip - start), ip). split; [|done].
    apply list_find_Some. split; [apply lookup_seqZ; lia|]. split; [done|].
    intros j y [-> Hj]%lookup_seqZ Hlt Hn. apply Hn, Hmin. lia.
Qed.

Lemma find_free_None start end_ used :
  find_free start end_ used = None ↔ ∀ j, start ≤ j ≤ end_ → j ∈ used.
Proof.
  unfold find_free. rewrite fmap_None.
  transitivity (Forall (λ ip, ¬ (ip ∉ used)) (seqZ start (end_ - start + 1)));
    [apply list_find_None|]. rewrite Forall_forall. split.
  - intros H j Hj. destruct (decide (j ∈ used)) as [|Hn]; [done|].
    exfalso. apply (H j); [apply elem_of_seqZ; lia|done].
  - intros H j Hj%elem_of_seqZ Hn. apply Hn, H. lia.
Qed.

(** Which address a MAC address is offered: its static address if its boot entry
    has one; else the address of its lease, which is renewed; else the least address
    of the pool that no lease holds, and none exactly when every address of the pool
    is leased.  When a lease expires plays no part in it. *)
Theorem allocate_ip_spec mac bt leases start end_ secs now :
  let '(ip, leases') := allocate_ip mac bt leases start end_ secs now in
  match bt !! mac ≫= be_ip, leases !! mac with
  | Some static, _ => ip = Some static ∧ leases' = leases
  | None, Some l => ip = Some (ls_ip l)
      ∧ leases' = <[mac := {| ls_ip := ls_ip l; ls_expires := now + from_secs secs |}]> leases
  | None, None => leases' = leases ∧
      match ip with
      | Some a => start ≤ a ≤ end_ ∧ (∀ m l, leases !! m = Some l → ls_ip l ≠ a)
                  ∧ ∀ j, start ≤ j < a → ∃ m l, leases !! m = Some l ∧ ls_ip l = j
      | None => ∀ j, start ≤ j ≤ end_ → ∃ m l, leases !! m = Some l ∧ ls_ip l = j
      end
  end.
Proof.
  unfold allocate_ip. destruct (bt !! mac ≫= be_ip); [done|]. destruct (leases !! mac); [done|].
  split; [done|]. destruct (find_free start end_ (in_use leases)) as [a|] eqn:Hf.
  - apply find_free_Some in Hf as (Hr & Hfree & Hmin). split_and!; [lia..| |].
    + intros m l Hl <-. apply Hfree, elem_of_in_use. eauto.
    + intros j Hj. by apply elem_of_in_use, Hmin.
  - intros j Hj. apply elem_of_in_use. by apply (proj1 (find_free_None _ _ _) Hf).
Qed.

(** ** The handler *)

(** The datagrams that are not answered whatever they ask for. *)
Definition not_dhcp (datagram : bytes) : Prop :=
  (length (take 576 datagram) < 240)%nat ∨ take 4 (drop 236 (take 576 datagram)) ≠ DHCP_MAGIC.

(** The fields of a datagram the handler reads. *)
Definition dg_mac (datagram : bytes) : Mac := mac_of_chaddr (take 16 (drop 28 (take 576 datagram))).
Definition dg_options (datagram : bytes) : bytes := drop 240 (take 576 datagram).
Definition dg_answer (cfg : Config) (env : DhcpEnv) (st : DhcpState) (datagram : bytes) (t : Z) :
    DhcpState * list (SocketAddr * bytes) :=
  dhcp_answer cfg env st (dg_mac datagram) (take 16 (drop 28 (take 576 datagram)))
    (from_be_bytes (take 4 (drop 4 (take 576 datagram))))
    (from_be_bytes (take 2 (drop 10 (take 576 datagram)))) t.

Lemma dhcp_datagram_dhcp cfg env st datagram :
  ¬ not_dhcp datagram →
  dhcp_datagram cfg env st datagram
  = (t ← message_type (dg_options datagram);
     if (t =? DHCPDISCOVER) || (t =? DHCPREQUEST)
     then Done (dg_answer cfg env st datagram t) else Done (st, [])).
Proof.
  intros Hn. unfold dhcp_datagram. cbv zeta.
  assert ((length (take 576 datagram) <? 240)%nat = false) as ->.
  { apply Nat.ltb_ge. destruct (decide (240 ≤ length (take 576 datagram))%nat); [done|].
    exfalso. apply Hn. left. lia. }
  rewrite bool_decide_true; [done|].
  destruct (decide (take 4 (drop 236 (take 576 datagram)) = DHCP_MAGIC)) as [|Hm]; [done|].
  exfalso. apply Hn. by right.
Qed.

Lemma dhcp_datagram_not cfg env st datagram :
  not_dhcp datagram → dhcp_datagram cfg env st datagram = Done (st, []).
Proof.
  unfold dhcp_datagram. cbv zeta. intros [Hlen|Hm].
  - by rewrite (proj2 (Nat.ltb_lt _ _) Hlen).
  - rewrite bool_decide_false by done. by rewrite orb_true_r.
Qed.

#[export] Instance not_dhcp_dec datagram : Decision (not_dhcp datagram).
Proof. unfold not_dhcp. apply _. Defined.

(** Either nothing happens or a DISCOVER or REQUEST is answered. *)
Lemma dhcp_datagram_cases cfg env st datagram st' s :
  dhcp_datagram cfg env st datagram = Done (st', s) →
  (st' = st ∧ s = []) ∨
  ∃ t, ¬ not_dhcp datagram ∧ message_type (dg_options datagram) = Done t
       ∧ (t = DHCPDISCOVER ∨ t = DHCPREQUEST) ∧ (st', s) = dg_answer cfg env st datagram t.
Proof.
  destruct (decide (not_dhcp datagram)) as [Hn|Hn].
  - rewrite dhcp_datagram_not by done. intros [= <- <-]. by left.
  - rewrite dhcp_datagram_dhcp by done. destruct (message_type _) as [t|]; [|done].
    cbn [mbind outcome_bind]. destruct (Z.eqb_spec t DHCPDISCOVER); [|destruct (Z.eqb_spec t DHCPREQUEST)];
      cbn [orb]; intros [= Heq]; [right..|left]; try (exists t; split_and!; auto).
    by simplify_eq.
Qed.

(** What an answer does to each table, and what it sends. *)
Lemma lookup_insert_entries regs bt mac :
  insert_entries regs bt !! mac = match last (filter (λ r, r.1 = mac) regs) with
                                  | Some (_, e) => Some e | None => bt !! mac end.
Proof.
  revert bt. induction regs as [|[m e] regs IH] using rev_ind; intros bt; [done|].
  unfold insert_entries in *. rewrite foldl_app, filter_app, filter_cons. cbn [foldl fst].
  case_decide as Hm; cbn.
  - subst m. by rewrite last_snoc, lookup_insert_eq.
  - by rewrite lookup_insert_ne, app_nil_r.
Qed.

(** The boot table an answer allocates from, and the one it takes the boot file from. *)
Definition answer_boot (env : DhcpEnv) (st : DhcpState) (mac : Mac) : BootTable :=
  insert_entries (de_before_allocate env)
    (<[mac := default (discovered_entry mac) (dh_boot st !! mac)]> (dh_boot st)).

Definition answer_allocate (cfg : Config) (env : DhcpEnv) (st : DhcpState) (mac : Mac) :
    option Ipv4Addr * LeaseTable :=
  allocate_ip mac (answer_boot env st mac) (dh_leases st) (px_pool_start cfg) (px_pool_end cfg)
    (px_lease_secs cfg) (de_now_renew env).

Lemma dhcp_answer_eq cfg env st mac chaddr xid flags t :
  let disk := (write_ipxe_script cfg mac (default (discovered_entry mac) (dh_boot st !! mac))
                 (de_io env) (dh_disk st)).1 in
  dhcp_answer cfg env st mac chaddr xid flags t =
  match answer_allocate cfg env st mac with
  | (None, leases) =>
    ({| dh_boot := answer_boot env st mac; dh_leases := leases; dh_disk := disk |}, [])
  | (Some ip, leases) =>
    let bt := insert_entries (de_before_reply env) (answer_boot env st mac) in
    ({| dh_boot := bt;
        dh_leases := <[mac := {| ls_ip := ip;
                        ls_expires := de_now_store env + from_secs (px_lease_secs cfg) |}]> leases;
        dh_disk := disk |},
     [(if negb (Z.land flags 32768 =? 0) then V4 (ipv4 255 255 255 255) DHCP_CLIENT_PORT
       else V4 ip DHCP_CLIENT_PORT,
       build_dhcp_reply (if t =? DHCPDISCOVER then DHCPOFFER else DHCPACK) xid chaddr ip
         (px_server_ip cfg) (px_subnet_mask cfg) (px_gateway cfg) (px_lease_secs cfg)
         (default (px_boot_file cfg) (bt !! mac ≫= be_ipxe_script)))])
  end.
Proof. reflexivity. Qed.

Lemma allocate_ip_leases mac bt leases start end_ secs now ip leases' :
  allocate_ip mac bt leases start end_ secs now = (ip, leases') →
  (∀ m, m ≠ mac → leases' !! m = leases !! m) ∧ (ip = None → leases' = leases).
Proof.
  unfold allocate_ip. destruct (bt !! mac ≫= be_ip); [by intros [= <- <-]|].
  destruct (leases !! mac); intros [= <- <-]; [|done].
  split; [|done]. intros m Hm. by rewrite lookup_insert_ne.
Qed.

(** C26: every reply answers the request it was sent for: a datagram leads to at most
    one packet, which carries the transaction id and hardware address of the request,
    is an OFFER for a DISCOVER and an ACK for a REQUEST, offers the address that the
    lease table then records for this client, and goes to the broadcast address
    exactly if the request asked for it, else to the offered address.  No other
    client's lease is touched, and without a reply no lease is. *)
Theorem reply_answers_request cfg env st datagram st' s :
  bytes_ok datagram → dhcp_datagram cfg env st datagram = Done (st', s) →
  let mac := dg_mac datagram in
  (∀ m, m ≠ mac → dh_leases st' !! m = dh_leases st !! m) ∧
  ((s = [] ∧ dh_leases st' = dh_leases st) ∨
   ∃ target reply l t, s = [(target, reply)] ∧ dh_leases st' !! mac = Some l
     ∧ message_type (dg_options datagram) = Done t
     ∧ take 4 (drop 4 reply) = take 4 (drop 4 datagram)
     ∧ take 16 (drop 28 reply) = take 16 (drop 28 datagram)
     ∧ take 4 (drop 16 reply) = octets (ls_ip l)
     ∧ (t = DHCPDISCOVER ∧ message_type (drop 240 reply) = Done DHCPOFFER
        ∨ t = DHCPREQUEST ∧ message_type (drop 240 reply) = Done DHCPACK)
     ∧ target = V4 (if Z.testbit (from_be_bytes (take 2 (drop 10 datagram))) 15
                    then ipv4 255 255 255 255 else ls_ip l) DHCP_CLIENT_PORT).
Proof.
  intros Hbytes Hd mac.
  destruct (dhcp_datagram_cases _ _ _ _ _ _ Hd) as [[-> ->]|(t & Hn & Hmt & Ht & Heq)];
    [split; [done|by left]|].
  assert (240 ≤ length (take 576 datagram))%nat as Hlen.
  { destruct (decide (240 ≤ length (take 576 datagram))%nat); [done|]. exfalso. apply Hn. left. lia. }
  rewrite length_take in Hlen.
  assert (∀ k n, (k + n ≤ 240)%nat → take k (drop n (take 576 datagram)) = take k (drop n datagram)) as Hsub.
  { intros k n Hkn. rewrite !take_drop_commute, take_take. do 2 f_equal. lia. }
  unfold dg_answer in Heq. rewrite dhcp_answer_eq, !Hsub in Heq by lia.
  fold mac in Heq. destruct (answer_allocate cfg env st mac) as [ip leases] eqn:Ha.
  destruct (allocate_ip_leases _ _ _ _ _ _ _ _ _ Ha) as [Hother Hnone].
  destruct ip as [ip|]; injection Heq as -> ->; cbn [dh_leases]; cycle 1.
  { split; [done|]. left. by rewrite Hnone. }
  split; [intros m Hm; rewrite lookup_insert_ne by done; by apply Hother|]. right.
  eexists _, _, _, t. split; [done|]. split; [apply lookup_insert_eq|]. cbn [ls_ip].
  rewrite reply_xid, reply_chaddr, reply_yiaddr, reply_type by (rewrite length_take, length_drop; lia).
  split_and!; [done| |done|done| |].
  - assert (length (take 4 (drop 4 datagram)) = 4%nat) as Hl by (rewrite length_take, length_drop; lia).
    rewrite <-Hl at 1. apply to_from_be_bytes. by apply Forall_take, Forall_drop.
  - destruct Ht as [->| ->]; [left|right]; by split.
  - change 32768 with (2 ^ 15). rewrite land_pow2 by done. by destruct (Z.testbit _ 15).
Qed.

(** ** Two ways to go wrong *)

(** Nothing keeps a static address apart from the leases: registering a MAC
    address with an address that another client holds makes the server give the
    same address to both. *)
Theorem static_address_conflict cfg env st m1 l1 entry datagram t :
  dh_leases st !! m1 = Some l1 → dg_mac datagram ≠ m1 → be_ip entry = Some (ls_ip l1) →
  de_before_allocate env = [] →
  ¬ not_dhcp datagram → message_type (dg_options datagram) = Done t →
  t = DHCPDISCOVER ∨ t = DHCPREQUEST →
  ∃ st' target reply l2,
    dhcp_datagram cfg env {| dh_boot := <[dg_mac datagram := entry]> (dh_boot st);
                             dh_leases := dh_leases st; dh_disk := dh_disk st |} datagram
    = Done (st', [(target, reply)])
    ∧ take 4 (drop 16 reply) = octets (ls_ip l1)
    ∧ dh_leases st' !! m1 = Some l1
    ∧ dh_leases st' !! dg_mac datagram = Some l2 ∧ ls_ip l2 = ls_ip l1.
Proof.
  intros Hl1 Hne Hip Henv Hdhcp Ht Htype. rewrite dhcp_datagram_dhcp, Ht by done.
  cbn [mbind outcome_bind].
  assert ((t =? DHCPDISCOVER) || (t =? DHCPREQUEST) = true) as -> by by destruct Htype as [-> | ->].
  unfold dg_answer. rewrite dhcp_answer_eq. unfold answer_allocate, allocate_ip, answer_boot.
  rewrite Henv. cbn [insert_entries foldl dh_boot dh_leases].
  rewrite !lookup_insert_eq. change (default _ (Some entry)) with entry.
  change (Some entry ≫= be_ip) with (be_ip entry). rewrite Hip.
  eexists _, _, _, _. split; [done|]. rewrite reply_yiaddr.
  cbn [dh_leases]. split; [done|]. split; [by rewrite lookup_insert_ne|].
  by rewrite lookup_insert_eq.
Qed.

(** C40: one malformed datagram stops the server: a datagram whose options are
    nothing but the code of the message-type option and a length of at least one
    makes the option scan index behind the end and panic, in every state. *)
Theorem truncated_option_panics cfg env st header len :
  length header = 236%nat → 1 ≤ len →
  dhcp_datagram cfg env st (header ++ DHCP_MAGIC ++ [OPT_MESSAGE_TYPE; len]) = Panicked.
Proof.
  intros Hlen H1.
  assert (take 576 (header ++ DHCP_MAGIC ++ [OPT_MESSAGE_TYPE; len])
          = header ++ DHCP_MAGIC ++ [OPT_MESSAGE_TYPE; len]) as Htake
    by (apply take_ge; rewrite !length_app, Hlen; cbn; lia).
  rewrite dhcp_datagram_dhcp.
  - unfold dg_options. rewrite Htake, app_assoc, drop_app_exact by (rewrite length_app, Hlen; done).
    change (message_type [OPT_MESSAGE_TYPE; len]) with (scan [OPT_MESSAGE_TYPE; len] 0).
    by rewrite (scan_tail _ _ _ (tail_no_type 0 len H1)).
  - unfold not_dhcp. rewrite Htake, !length_app, Hlen, drop_app_exact by done.
    intros [Hl|Hm]; [cbn in Hl; lia|done].
Qed.

(** ** Booting a new machine *)

Lemma default_script_bytes mac :
  mac_ok mac → as_bytes (default_script_path mac) = as_bytes "scripts/" ++ script_segment mac.
Proof. intros Hok. unfold default_script_path. by rewrite !as_bytes_app, as_bytes_fmt_mac. Qed.

Lemma default_script_length mac : mac_ok mac → length (as_bytes (default_script_path mac)) = 30%nat.
Proof.
  intros Hok. rewrite default_script_bytes by done. unfold script_segment. by rewrite !length_app.
Qed.

Lemma default_script_range mac :
  mac_ok mac → Forall (λ c, 0 < c < 128) (as_bytes (default_script_path mac)).
Proof.
  intros Hok. rewrite default_script_bytes by done. unfold script_segment.
  rewrite !Forall_app. split_and!; [by_compute| |by_compute].
  eapply Forall_impl; [by apply mac_text_range|]. cbn. lia.
Qed.

(** A read request for a file in octet mode. *)
Definition rrq (name : string) : bytes :=
  [0; 1] ++ as_bytes name ++ [0] ++ as_bytes "octet" ++ [0].

Lemma tftp_rrq_script mac :
  mac_ok mac → tftp_datagram (rrq (default_script_path mac)) = Spawn (default_script_path mac).
Proof.
  intros Hok. unfold tftp_datagram.
  pose proof (default_script_length mac Hok) as Hlen.
  pose proof (default_script_range mac Hok) as Hrange.
  rewrite take_ge by (unfold rrq; rewrite !length_app, Hlen; cbn; lia).
  assert (parse_tftp_rrq (rrq (default_script_path mac)) = Some (default_script_path mac, "octet"%string))
    as ->; [|done].
  apply (parse_rrq_build _ "octet" []).
  - intros Hin. rewrite Forall_forall in Hrange. specialize (Hrange 0 Hin). lia.
  - by_compute.
  - apply utf8_valid_ascii. eapply Forall_impl; [exact Hrange|]. cbn. lia.
  - by_compute.
Qed.

Lemma written_script_served (cfg : Config) mac entry rel disk :
  be_ipxe_script entry = Some rel →
  sanitize_tftp_path (as_bytes (px_tftp_root cfg)) rel ≠ None →
  let disk' := (write_ipxe_script cfg mac entry IoOk disk).1 in
  let script := as_bytes (render_ipxe_script cfg mac entry) in
  serve_tftp_read (reads := full_reads) disk' true (as_bytes (px_tftp_root cfg)) rel
  = Started script (at_block script 0 0) [].
Proof.
  intros Hrel Hpath. unfold write_ipxe_script, serve_tftp_read. rewrite Hrel.
  destruct (sanitize_tftp_path _ _) as [p|]; [|done]. cbn [fst]. rewrite lookup_insert_eq.
  by rewrite start_at_block.
Qed.

(** Answering again writes the script that is there already: all a reader can notice is the
    writing itself ([TftpShared.rewritten_while_sent]). *)
Lemma script_written_again (cfg : Config) mac entry disk :
  let disk' := (write_ipxe_script cfg mac entry IoOk disk).1 in
  (write_ipxe_script cfg mac entry IoOk disk').1 = disk'.
Proof.
  unfold write_ipxe_script. destruct (be_ipxe_script entry) as [rel|]; [|done].
  destruct (sanitize_tftp_path _ rel); [|done]. apply insert_insert_eq.
Qed.

(** The boot chain of an unknown machine is closed: its first DISCOVER or REQUEST,
    if the pool has a free address, is answered with the least one and with its own
    script [scripts/<mac>.ipxe] as boot file, in full; and requesting that very name
    by TFTP then starts a transfer of the script rendered for this machine.  The
    boot file configured for the server is not used. *)
Theorem new_machine_boots cfg env st datagram t ip :
  let mac := dg_mac datagram in
  let path := default_script_path mac in
  mac_ok mac → ¬ not_dhcp datagram → message_type (dg_options datagram) = Done t →
  t = DHCPDISCOVER ∨ t = DHCPREQUEST →
  dh_boot st !! mac = None → dh_leases st !! mac = None →
  find_free (px_pool_start cfg) (px_pool_end cfg) (in_use (dh_leases st)) = Some ip →
  de_io env = IoOk → de_before_allocate env = [] → de_before_reply env = [] →
  ∃ st' target xid chaddr op,
    let script := as_bytes (render_ipxe_script cfg mac (discovered_entry mac)) in
    dhcp_datagram cfg env st datagram = Done (st', [(target,
      build_dhcp_reply op xid chaddr ip (px_server_ip cfg) (px_subnet_mask cfg) (px_gateway cfg)
        (px_lease_secs cfg) path)])
    ∧ boot_bytes path = as_bytes path
    ∧ (∃ l, dh_leases st' !! mac = Some l ∧ ls_ip l = ip)
    ∧ tftp_datagram (rrq path) = Spawn path
    ∧ serve_tftp_read (reads := full_reads) (dh_disk st') true (as_bytes (px_tftp_root cfg)) path
      = Started script (at_block script 0 0) [].
Proof.
  intros mac path Hok Hdhcp Ht Htype Hnew Hlease Hfree Hio Hreg1 Hreg2.
  rewrite dhcp_datagram_dhcp, Ht by done. cbn [mbind outcome_bind].
  assert ((t =? DHCPDISCOVER) || (t =? DHCPREQUEST) = true) as -> by by destruct Htype as [-> | ->].
  unfold dg_answer. fold mac. rewrite dhcp_answer_eq. unfold answer_allocate, allocate_ip, answer_boot.
  rewrite Hreg1, Hreg2, Hio, Hnew. cbn [insert_entries foldl]. rewrite lookup_insert_eq.
  change (default (discovered_entry mac) None) with (discovered_entry mac).
  change (Some (discovered_entry mac) ≫= be_ip) with (@None Z). rewrite Hlease, Hfree.
  change (default (px_boot_file cfg) (Some (discovered_entry mac) ≫= be_ipxe_script)) with path.
  eexists _, _, _, _, _. split; [done|]. cbn [dh_leases dh_disk]. split_and!.
  - unfold boot_bytes. apply take_ge. unfold path. rewrite default_script_length by done. lia.
  - rewrite lookup_insert_eq. by eexists.
  - by apply tftp_rrq_script.
  - apply written_script_served; [done|]. unfold path. by rewrite sanitize_default_script.
Qed.

(** ** Witnesses *)

Module Witnesses.
Definition cfg : Config := {|
  px_server_ip := ipv4 10 0 0 1; px_iface := "eth0"; px_pool_start := ipv4 10 0 0 100;
  px_pool_end := ipv4 10 0 0 101; px_subnet_mask := default_mask; px_gateway := None;
  px_tftp_root := "/srv"; px_boot_file := default_boot_file; px_seed_url := None;
  px_lease_secs := default_lease_secs |}.
Definition env : DhcpEnv := {|
  de_io := IoOk; de_now_renew := 0; de_now_store := 0; de_before_allocate := []; de_before_reply := [] |}.
Definition m1 : Mac := mkMac 8 0 39 0 0 1.
Definition m2 : Mac := mkMac 8 0 39 0 0 2.
Definition m3 : Mac := mkMac 8 0 39 0 0 3.

(** A datagram of a type from a MAC address. *)
Definition request (mac : Mac) (t : Z) : bytes :=
  [1; 1; 6; 0; 1; 2; 3; 4] ++ replicate 20 0 ++ mac_bytes mac ++ replicate 202 0
  ++ DHCP_MAGIC ++ [53; 1; t; 255].

Definition run (st : DhcpState) (datagram : bytes) : DhcpState :=
  match dhcp_datagram cfg env st datagram with Done (st', _) => st' | Panicked => st end.
Definition sent (st : DhcpState) (datagram : bytes) : list (SocketAddr * bytes) :=
  match dhcp_datagram cfg env st datagram with Done (_, s) => s | Panicked => [] end.
Definition st1 : DhcpState := run dhcp_init (request m1 1).
Definition st2 : DhcpState := run st1 (request m2 1).

(** The datagram did not stop the server. *)
Definition survives (st : DhcpState) (datagram : bytes) : bool :=
  match dhcp_datagram cfg env st datagram with Done _ => true | Panicked => false end.

Lemma run_sent st datagram :
  survives st datagram = true →
  dhcp_datagram cfg env st datagram = Done (run st datagram, sent st datagram).
Proof. unfold survives, run, sent. by destruct (dhcp_datagram cfg env st datagram) as [[]|]. Qed.

Definition lease1 : Lease := {| ls_ip := ipv4 10 0 0 100; ls_expires := from_secs 3600 |}.
Definition lease2 : Lease := {| ls_ip := ipv4 10 0 0 101; ls_expires := from_secs 3600 |}.

Lemma reply_answers_request_witness :
  dh_leases st2 !! m1 = dh_leases st1 !! m1 ∧ sent st1 (request m2 1) ≠ [].
Proof.
  assert (survives st1 (request m2 1) = true) as Hs by by vm_compute.
  assert (m1 ≠ m2) as Hne by by_compute.
  destruct (reply_answers_request cfg env st1 (request m2 1) st2 (sent st1 (request m2 1))
    ltac:(by_compute) (run_sent _ _ Hs)) as [Hother _].
  split; [apply Hother; by vm_compute|by vm_compute].
Defined.

Lemma static_address_conflict_witness :
  ∃ st' l2, dh_leases st' !! m1 = Some lease1 ∧ dh_leases st' !! m2 = Some l2
            ∧ ls_ip l2 = ls_ip lease1.
Proof.
  destruct (static_address_conflict cfg env st1 m1 lease1
    {| be_hostname := "b"; be_ip := Some (ls_ip lease1); be_ipxe_script := None; be_tags := ∅ |}
    (request m2 1) 1) as (st' & target & reply & l2 & _ & _ & H1 & H2 & Hip);
    try done; try by_compute; try by vm_compute.
  exists st', l2. split_and!; [exact H1|exact H2|exact Hip].
Defined.

Lemma truncated_option_panics_witness :
  dhcp_datagram cfg env st2 (replicate 236 0 ++ DHCP_MAGIC ++ [OPT_MESSAGE_TYPE; 1]) = Panicked.
Proof. by apply truncated_option_panics. Defined.

Lemma new_machine_boots_witness :
  ∃ st', serve_tftp_read (reads := full_reads) (dh_disk st') true (as_bytes "/srv")
           (default_script_path m1)
         = Started (as_bytes (render_ipxe_script cfg m1 (discovered_entry m1)))
             (at_block (as_bytes (render_ipxe_script cfg m1 (discovered_entry m1))) 0 0) [].
Proof.
  destruct (new_machine_boots cfg env dhcp_init (request m1 1) 1 (ipv4 10 0 0 100))
    as (st' & target & xid & chaddr & op & _ & _ & _ & _ & Hserve); try done;
    try by_compute; try by vm_compute.
  exists st'. exact Hserve.
Defined.
End Witnesses.
