(* ===== verification/Leases.v ===== *)
(** * Leases over time (crates/pxeboot/src/main.rs)

    The DHCP server of [Dhcp] and the control plane as one transition system on the boot
    table, the lease table and the files: what holds of leases in every state they can reach
    together, and what a client can rely on between its requests. *)

From S2P Require Import Prelude RustStd Wire Proto Tftp Dhcp.
Local Open Scope Z_scope.

(** ** The server and the control plane together *)

Section System.
Context (cfg : Config).
(** The static address each MAC address is registered with, if it is. *)
Context (static : Mac → option Ipv4Addr).

Definition entry_allowed (r : Mac * BootEntry) : Prop :=
  be_ip r.2 = None ∨ be_ip r.2 = static r.1.

(** A step and the datagrams it sends: a datagram comes in, the control plane
    registers an entry, or it writes a boot script. *)
Inductive dhcp_step : DhcpState → list (SocketAddr * bytes) → DhcpState → Prop :=
| DhcpReceive st env datagram st' s :
  Forall entry_allowed (de_before_allocate env) → Forall entry_allowed (de_before_reply env) →
  dhcp_datagram cfg env st datagram = Done (st', s) → dhcp_step st s st'
| DhcpRegister st mac entry :
  entry_allowed (mac, entry) →
  dhcp_step st [] {| dh_boot := <[mac := entry]> (dh_boot st);
                     dh_leases := dh_leases st; dh_disk := dh_disk st |}
| DhcpScript st mac entry io :
  dhcp_step st [] {| dh_boot := dh_boot st; dh_leases := dh_leases st;
                     dh_disk := (write_ipxe_script cfg mac entry io (dh_disk st)).1 |}.

Inductive dhcp_steps : DhcpState → DhcpState → Prop :=
| dhcp_steps_refl st : dhcp_steps st st
| dhcp_steps_step st1 s st2 st3 :
  dhcp_steps st1 st2 → dhcp_step st2 s st3 → dhcp_steps st1 st3.

Definition boot_inv (bt : BootTable) : Prop := map_Forall (λ mac e, entry_allowed (mac, e)) bt.

(** A lease holds an address of the pool or the static one of its owner, and no
    two leases hold the same address. *)
Definition lease_inv (leases : LeaseTable) : Prop :=
  (∀ mac l, leases !! mac = Some l →
     px_pool_start cfg ≤ ls_ip l ≤ px_pool_end cfg ∨ static mac = Some (ls_ip l)) ∧
  ∀ m1 m2 l1 l2, leases !! m1 = Some l1 → leases !! m2 = Some l2 → ls_ip l1 = ls_ip l2 → m1 = m2.

Lemma insert_entries_inv regs bt :
  Forall entry_allowed regs → boot_inv bt → boot_inv (insert_entries regs bt).
Proof.
  intros Hregs. revert bt. induction Hregs as [|[mac e] regs He _ IH]; intros bt Hbt; [done|].
  apply IH. by apply map_Forall_insert_2.
Qed.

Lemma answer_boot_inv env st mac :
  Forall entry_allowed (de_before_allocate env) → boot_inv (dh_boot st) →
  boot_inv (answer_boot env st mac).
Proof.
  intros Hregs Hbt. apply insert_entries_inv; [done|]. apply map_Forall_insert_2; [|done].
  destruct (dh_boot st !! mac) as [e|] eqn:He; [by apply Hbt|by left].
Qed.

(** Every step keeps the boot table's entries allowed. *)
Lemma dhcp_step_boot st s st' : dhcp_step st s st' → boot_inv (dh_boot st) → boot_inv (dh_boot st').
Proof.
  intros [st0 env dg st1 s1 Ha Hr Hd|st0 mac e He|st0 mac e io] Hbt; cbn; [| |done].
  - apply dhcp_datagram_cases in Hd as [[-> _]|(t & _ & _ & _ & Heq)]; [done|].
    unfold dg_answer in Heq. rewrite dhcp_answer_eq in Heq.
    destruct (answer_allocate _ _ _ _) as [[ip|] leases]; simplify_eq/=.
    + by apply insert_entries_inv, answer_boot_inv.
    + by apply answer_boot_inv.
  - by apply map_Forall_insert_2.
Qed.

(** The lease a step leaves at a MAC address. *)
Lemma dhcp_step_leases st s st' :
  dhcp_step st s st' →
  dh_leases st' = dh_leases st ∨
  ∃ env mac ip exp leases, Forall entry_allowed (de_before_allocate env)
    ∧ answer_allocate cfg env st mac = (Some ip, leases)
    ∧ dh_leases st' = <[mac := {| ls_ip := ip; ls_expires := exp |}]> (dh_leases st).
Proof.
  intros [st0 env dg st1 s1 Ha Hr Hd|st0 mac e He|st0 mac e io]; [|by left..].
  apply dhcp_datagram_cases in Hd as [[-> _]|(t & _ & _ & _ & Heq)]; [by left|].
  unfold dg_answer in Heq. rewrite dhcp_answer_eq in Heq.
  destruct (answer_allocate cfg env st0 (dg_mac dg)) as [[ip|] leases] eqn:Hal;
    simplify_eq/=; [right|left].
  - eexists env, (dg_mac dg), ip, _, leases. split_and!; [done|done|].
    unfold answer_allocate, allocate_ip in Hal.
    destruct (answer_boot _ _ _ !! _ ≫= be_ip); [by simplify_eq|].
    destruct (dh_leases st0 !! dg_mac dg); simplify_eq; [|done]. by rewrite insert_insert_eq.
  - unfold answer_allocate, allocate_ip in Hal.
    destruct (answer_boot _ _ _ !! _ ≫= be_ip); [done|].
    destruct (dh_leases st0 !! dg_mac dg); by simplify_eq.
Qed.
End System.

Section Leases.
Context (cfg : Config) (static : Mac → option Ipv4Addr).
Context (static_inj : ∀ m1 m2 ip, static m1 = Some ip → static m2 = Some ip → m1 = m2).
Context (static_outside : ∀ m ip, static m = Some ip →
  ¬ (px_pool_start cfg ≤ ip ≤ px_pool_end cfg)).

Lemma allocate_lease_inv env st mac ip leases exp :
  boot_inv static (dh_boot st) → Forall (entry_allowed static) (de_before_allocate env) →
  lease_inv cfg static (dh_leases st) →
  answer_allocate cfg env st mac = (Some ip, leases) →
  lease_inv cfg static (<[mac := {| ls_ip := ip; ls_expires := exp |}]> (dh_leases st)).
Proof using static_inj static_outside.
  intros Hbt Hregs [Hin Hinj] Hal.
  assert ((px_pool_start cfg ≤ ip ≤ px_pool_end cfg ∨ static mac = Some ip) ∧
          ∀ m l, m ≠ mac → dh_leases st !! m = Some l → ls_ip l ≠ ip) as [Hip Hother].
  { pose proof (answer_boot_inv static env st mac Hregs Hbt) as Hbt'.
    unfold answer_allocate in Hal.
    unfold allocate_ip in Hal. destruct (answer_boot env st mac !! mac) as [e|] eqn:He; cbn in Hal.
    - pose proof (Hbt' _ _ He) as Hallow. unfold entry_allowed in Hallow. cbn in Hallow.
      destruct (be_ip e) as [a|] eqn:Hst; [|clear Hallow].
      + destruct Hallow as [|Hs]; [done|]. simplify_eq. split; [by right|].
        intros m l Hne Hl Heq. destruct (Hin _ _ Hl) as [Hpool|Hsm].
        * rewrite Heq in Hpool. by eapply static_outside.
        * apply Hne. eapply static_inj; [exact Hsm|]. by rewrite Heq.
      + destruct (dh_leases st !! mac) as [l0|] eqn:Hl0; simplify_eq.
        * split; [by apply Hin|]. intros m l Hne Hl Heq. apply Hne. by eapply Hinj.
        * match goal with H : find_free _ _ _ = Some _ |- _ => apply find_free_Some in H as (Hr & Hf & _) end.
          split; [by left|]. intros m l _ Hl Heq. apply Hf, elem_of_in_use. eauto.
    - destruct (dh_leases st !! mac) as [l0|] eqn:Hl0; simplify_eq.
      * split; [by apply Hin|]. intros m l Hne Hl Heq. apply Hne. by eapply Hinj.
      * match goal with H : find_free _ _ _ = Some _ |- _ => apply find_free_Some in H as (Hr & Hf & _) end.
        split; [by left|]. intros m l _ Hl Heq. apply Hf, elem_of_in_use. eauto. }
  split.
  - intros m l [[<- <-]|[_ Hl]]%lookup_insert_Some; [done|by apply Hin].
  - intros m1 m2 l1 l2 [[<- <-]|[Hne1 H1]]%lookup_insert_Some [[<- <-]|[Hne2 H2]]%lookup_insert_Some Heq.
    + done.
    + cbn in Heq. by destruct (Hother m2 l2).
    + cbn in Heq. by destruct (Hother m1 l1).
    + by eapply Hinj.
Qed.

Lemma dhcp_reachable_inv st :
  dhcp_steps cfg static dhcp_init st → boot_inv static (dh_boot st) ∧ lease_inv cfg static (dh_leases st).
Proof using static_inj static_outside.
  remember dhcp_init as st0 eqn:H0. induction 1 as [|st1 s st2 st3 _ IH Hstep]; subst.
  - split; [apply map_Forall_empty|]. split; [intros m l|intros m1 m2 l1 l2]; cbn; by rewrite lookup_empty.
  - destruct (IH eq_refl) as [Hbt Hl]. split; [by eapply dhcp_step_boot|].
    apply dhcp_step_leases in Hstep as [->|(env & mac & ip & exp & leases & Ha & Hal & ->)]; [done|].
    by eapply allocate_lease_inv.
Qed.
End Leases.

(** C16: no two clients ever hold the same address: when the registered static
    addresses differ from one another and lie outside the pool, then in every state
    the server and the control plane can reach together, different MAC addresses
    hold leases of different addresses, and each leased address is in the pool or
    the owner's static one. *)
Theorem leases_distinct cfg static st m1 m2 l1 l2 :
  (∀ m1 m2 ip, static m1 = Some ip → static m2 = Some ip → m1 = m2) →
  (∀ m ip, static m = Some ip → ¬ (px_pool_start cfg ≤ ip ≤ px_pool_end cfg)) →
  dhcp_steps cfg static dhcp_init st →
  dh_leases st !! m1 = Some l1 → dh_leases st !! m2 = Some l2 → m1 ≠ m2 →
  ls_ip l1 ≠ ls_ip l2 ∧
  (px_pool_start cfg ≤ ls_ip l1 ≤ px_pool_end cfg ∨ static m1 = Some (ls_ip l1)).
Proof.
  intros Hinj Hout Hst H1 H2 Hne. destruct (dhcp_reachable_inv cfg static Hinj Hout st Hst) as [_ [Hin Hd]].
  split; [|by apply Hin]. intros Heq. apply Hne. by eapply Hd.
Qed.

(** ** Leases that stay *)

Section Stable.
Context (cfg : Config) (static : Mac → option Ipv4Addr) (mac : Mac).
Context (mac_dynamic : static mac = None).

Lemma boot_no_static bt : boot_inv static bt → bt !! mac ≫= be_ip = None.
Proof using mac_dynamic.
  intros Hbt. destruct (bt !! mac) as [e|] eqn:He; [|done]. cbn.
  destruct (Hbt _ _ He) as [|Hs]; [done|]. cbn in Hs. congruence.
Qed.

Lemma dhcp_step_keeps st s st' l :
  dhcp_step cfg static st s st' → boot_inv static (dh_boot st) →
  dh_leases st !! mac = Some l →
  ∃ l', dh_leases st' !! mac = Some l' ∧ ls_ip l' = ls_ip l.
Proof using mac_dynamic.
  intros Hstep Hbt Hl.
  destruct (dhcp_step_leases cfg static st s st' Hstep)
    as [->|(env & mac' & ip & exp & leases & Ha & Hal & ->)]; [by exists l|].
  destruct (decide (mac' = mac)) as [->|Hne]; [|exists l; by rewrite lookup_insert_ne].
  exists {| ls_ip := ip; ls_expires := exp |}. rewrite lookup_insert_eq. split; [done|].
  unfold answer_allocate, allocate_ip in Hal.
  rewrite (boot_no_static _ (answer_boot_inv static env st mac Ha Hbt)), Hl in Hal.
  by simplify_eq.
Qed.

Lemma dhcp_steps_keep st st' l :
  dhcp_steps cfg static st st' → boot_inv static (dh_boot st) → dh_leases st !! mac = Some l →
  boot_inv static (dh_boot st') ∧ ∃ l', dh_leases st' !! mac = Some l' ∧ ls_ip l' = ls_ip l.
Proof using mac_dynamic.
  intros Hsteps Hbt Hl. induction Hsteps as [|st1 s st2 st3 _ IH Hstep]; [split; [done|by exists l]|].
  destruct (IH Hbt Hl) as (Hbt2 & l2 & Hl2 & <-). split; [by eapply dhcp_step_boot|].
  by eapply dhcp_step_keeps.
Qed.
End Stable.

(** C29: a REQUEST confirms what the OFFER promised: once a MAC address without a
    static address holds a lease, then after whatever other datagrams, registrations
    and script writes, an answer to it offers the same address, which stays its lease. *)
Theorem request_confirms_offer cfg static mac st st' l env datagram st'' s :
  static mac = None → boot_inv static (dh_boot st) → dh_leases st !! mac = Some l →
  dhcp_steps cfg static st st' →
  Forall (entry_allowed static) (de_before_allocate env) →
  ¬ not_dhcp datagram → dg_mac datagram = mac →
  (message_type (dg_options datagram) = Done DHCPDISCOVER
   ∨ message_type (dg_options datagram) = Done DHCPREQUEST) →
  dhcp_datagram cfg env st' datagram = Done (st'', s) →
  (∃ target reply, s = [(target, reply)] ∧ take 4 (drop 16 reply) = octets (ls_ip l)) ∧
  ∃ l', dh_leases st'' !! mac = Some l' ∧ ls_ip l' = ls_ip l.
Proof.
  intros Hdyn Hbt Hl Hsteps Ha Hdhcp Hmac Ht Hd.
  destruct (dhcp_steps_keep cfg static mac Hdyn st st' l Hsteps Hbt Hl) as (Hbt' & l1 & Hl1 & Hip).
  rewrite dhcp_datagram_dhcp in Hd by done.
  assert (∃ t, Done (dg_answer cfg env st' datagram t) = Done (st'', s)) as [t Heq].
  { destruct Ht as [Ht|Ht]; rewrite Ht in Hd; eexists; exact Hd. }
  unfold dg_answer in Heq. rewrite Hmac, dhcp_answer_eq in Heq.
  unfold answer_allocate, allocate_ip in Heq.
  rewrite (boot_no_static static mac Hdyn _ (answer_boot_inv static env st' mac Ha Hbt')), Hl1 in Heq.
  injection Heq as <- <-. split.
  - eexists _, _. split; [done|]. by rewrite reply_yiaddr, Hip.
  - rewrite <-Hip. cbn. rewrite lookup_insert_eq. by eexists.
Qed.

(** Leases never run out: when every address of the pool is leased (and nobody
    has a static address), then from then on, whatever the clock reads and whatever
    happens in between, a MAC address without a lease gets no answer. *)
Theorem exhausted_pool_stays cfg st st' env datagram st'' s :
  let nobody := λ _ : Mac, @None Ipv4Addr in
  boot_inv nobody (dh_boot st) →
  (∀ ip, px_pool_start cfg ≤ ip ≤ px_pool_end cfg → ∃ m l, dh_leases st !! m = Some l ∧ ls_ip l = ip) →
  dhcp_steps cfg nobody st st' →
  Forall (entry_allowed nobody) (de_before_allocate env) →
  dh_leases st' !! dg_mac datagram = None →
  dhcp_datagram cfg env st' datagram = Done (st'', s) →
  s = [] ∧ dh_leases st'' = dh_leases st'.
Proof.
  intros nobody Hbt Hfull Hsteps Ha Hnone Hd.
  assert (boot_inv nobody (dh_boot st')) as Hbt'.
  { clear -Hbt Hsteps. induction Hsteps as [|st1 s st2 st3 _ IH Hstep]; [done|].
    eapply dhcp_step_boot; [done|by apply IH]. }
  apply dhcp_datagram_cases in Hd as [[-> ->]|(t & _ & _ & _ & Heq)]; [done|].
  unfold dg_answer in Heq. rewrite dhcp_answer_eq in Heq.
  unfold answer_allocate, allocate_ip in Heq.
  rewrite (boot_no_static nobody (dg_mac datagram) eq_refl _ (answer_boot_inv nobody env st' _ Ha Hbt')),
    Hnone in Heq.
  assert (find_free (px_pool_start cfg) (px_pool_end cfg) (in_use (dh_leases st')) = None) as Hfree.
  { apply find_free_None. intros j Hj. apply elem_of_in_use.
    destruct (Hfull j Hj) as (m & l & Hl & <-).
    destruct (dhcp_steps_keep cfg nobody m eq_refl st st' l Hsteps Hbt Hl) as (_ & l' & Hl' & Hip).
    by exists m, l'. }
  rewrite Hfree in Heq. by simplify_eq.
Qed.

(** ** Witnesses *)

Module Witnesses.
Import Dhcp.Witnesses.

Definition nobody : Mac → option Ipv4Addr := λ _, None.

Lemma run_step st datagram :
  survives st datagram = true → dhcp_step cfg nobody st (sent st datagram) (run st datagram).
Proof.
  intros Hd%run_sent. by apply (DhcpReceive _ _ st env datagram).
Qed.

Lemma steps1 : dhcp_steps cfg nobody dhcp_init st1.
Proof. eapply dhcp_steps_step; [apply dhcp_steps_refl|]. apply run_step. by vm_compute. Qed.
Lemma steps12 : dhcp_steps cfg nobody st1 st2.
Proof. eapply dhcp_steps_step; [apply dhcp_steps_refl|]. apply run_step. by vm_compute. Qed.
Lemma steps2 : dhcp_steps cfg nobody dhcp_init st2.
Proof. eapply dhcp_steps_step; [apply steps1|]. apply run_step. by vm_compute. Qed.

Lemma boot1 : boot_inv nobody (dh_boot st1).
Proof. by_compute. Qed.
Lemma boot2 : boot_inv nobody (dh_boot st2).
Proof. by_compute. Qed.

Lemma leases_distinct_witness : ls_ip lease1 ≠ ls_ip lease2.
Proof.
  refine (proj1 (leases_distinct cfg nobody st2 m1 m2 lease1 lease2 _ _ steps2 _ _ _)); done.
Defined.

Lemma request_confirms_offer_witness :
  ∃ target reply, sent st2 (request m1 3) = [(target, reply)]
                  ∧ take 4 (drop 16 reply) = octets (ls_ip lease1).
Proof.
  assert (survives st2 (request m1 3) = true) as Hs by by vm_compute.
  refine (proj1 (request_confirms_offer cfg nobody m1 st1 st2 lease1 env (request m1 3)
    (run st2 (request m1 3)) _ eq_refl boot1 _ steps12 (Forall_nil_2 _) _ _ _ (run_sent _ _ Hs)));
    first [by_compute|by vm_compute].
Defined.

Lemma exhausted_pool_stays_witness : sent st2 (request m3 1) = [].
Proof.
  assert (survives st2 (request m3 1) = true) as Hs by by vm_compute.
  refine (proj1 (exhausted_pool_stays cfg st2 st2 env (request m3 1) (run st2 (request m3 1)) _
    boot2 _ (dhcp_steps_refl _ _ _) (Forall_nil_2 _) _ (run_sent _ _ Hs))).
  - intros ip Hip. change (167772260 ≤ ip ≤ 167772261) in Hip.
    assert (ip = 167772260 ∨ ip = 167772261) as [-> | ->] by lia.
    + exists m1, lease1. by vm_compute.
    + exists m2, lease2. by vm_compute.
  - by vm_compute.
Defined.
End Witnesses.
