(* ===== verification/Pxeboot.v ===== *)
(** * The pxeboot daemon (crates/pxeboot/src/main.rs)

    Loading the configuration, the control operations on the boot table over one
    connection and over a sequence of them, and how the MAC address in a boot script names
    the node that hivebus later announces. *)

From S2P Require Import Prelude RustStd Wire Proto Control Hivebus Tftp Dhcp Leases ControlSocket.
Local Open Scope Z_scope.

(** ** Configuration *)

Inductive load_error (E : Type) :=
| ReadConfig
| ParseConfig (e : E)
| InvalidPool (pool_start pool_end : Ipv4Addr).
Arguments ReadConfig {E}.
Arguments ParseConfig {E} e.
Arguments InvalidPool {E} pool_start pool_end.

(** [Config::load]: [raw] is what reading the file gave, [parse] the TOML decoder. *)
Definition config_load {E} (parse : string → result E Dhcp.Config) (raw : option string) :
    result (load_error E) Dhcp.Config :=
  match raw with
  | None => Err ReadConfig
  | Some text =>
    match parse text with
    | Err e => Err (ParseConfig e)
    | Ok cfg =>
      if px_pool_end cfg <? px_pool_start cfg
      then Err (InvalidPool (px_pool_start cfg) (px_pool_end cfg))
      else Ok cfg
    end
  end.

(** ** Boot entries on the wire *)

#[global] Instance BootEntry_wire : WireOk BootEntry := λ e,
  str_ok (be_hostname e)
  ∧ match be_ip e with Some ip => u32 ip | None => True end
  ∧ match be_ipxe_script e with Some s => str_ok s | None => True end
  ∧ map_Forall (λ k v, str_ok k ∧ str_ok v) (be_tags e).

#[global] Instance BootEntry_wire_dec (e : BootEntry) : Decision (wire_ok e).
Proof. unfold wire_ok, BootEntry_wire. destruct (be_ip e), (be_ipxe_script e); apply _. Defined.

#[global] Instance BootEntry_countable : Countable BootEntry.
Proof.
  refine (inj_countable'
    (λ e, ((be_hostname e, be_ip e), (be_ipxe_script e, be_tags e)))
    (λ x, {| be_hostname := x.1.1; be_ip := x.1.2; be_ipxe_script := x.2.1; be_tags := x.2.2 |}) _).
  by intros [].
Defined.

(** The payloads of the two operations. *)
#[global] Instance register_wire : WireOk (Mac * BootEntry) := λ p, mac_ok p.1 ∧ wire_ok p.2.
#[global] Instance list_wire : WireOk (list (string * BootEntry)) := λ l,
  Forall (λ p, str_ok p.1 ∧ wire_ok p.2) l.

#[global] Instance register_wire_dec (p : Mac * BootEntry) : Decision (wire_ok p).
Proof. unfold wire_ok, register_wire. apply _. Defined.
#[global] Instance list_wire_dec (l : list (string * BootEntry)) : Decision (wire_ok l).
Proof. unfold wire_ok, list_wire. apply _. Defined.

(** ** Control operations *)

(** What the handler reads besides the tables: the configuration, the order of the
    boot table, and what writing the script ends in. *)
Record PxeEnv := {
  pe_cfg : Dhcp.Config;
  pe_iter : HashIter Mac BootEntry;
  pe_io : io_result;
}.

Section Service.
Context `{Bincode} `{!Codec (Mac * BootEntry), !Codec (list (string * BootEntry))}.

(** boot.register: under the lock of the boot table the entry replaces the old one; once the
    lock is released the entry's script is written, a failure being logged only. *)
Definition boot_insert (mac : Mac) (entry : BootEntry) (st : DhcpState) : DhcpState := {|
  dh_boot := <[mac := entry]> (dh_boot st); dh_leases := dh_leases st; dh_disk := dh_disk st |}.

Definition on_disk (f : Disk → Disk) (st : DhcpState) : DhcpState := {|
  dh_boot := dh_boot st; dh_leases := dh_leases st; dh_disk := f (dh_disk st) |}.

Definition boot_write (env : PxeEnv) (mac : Mac) (entry : BootEntry) : list (DhcpState → DhcpState) :=
  on_disk <$> script_steps (pe_cfg env) mac entry (pe_io env).

(** The entries boot.list reports. *)
Definition boot_entries (env : PxeEnv) (bt : gmap Mac BootEntry) : list (string * BootEntry) :=
  (λ p, (fmt_mac p.1, p.2)) <$> hash_iter (HashIter := pe_iter env) bt.

(** What an operation does until it has released the lock. *)
Definition pxeboot_locked (env : PxeEnv) (st : DhcpState) (op : ControlOp) : DhcpState * action :=
  match op with
  | Ping => (st, Reply ReplyOk)
  | Custom tag inner =>
    if (tag =? "boot.register")%string then
      match decode_from_slice (A := Mac * BootEntry) inner with
      | Ok ((mac, entry), _) => (boot_insert mac entry st, Reply ReplyOk)
      | Err e => (st, Reply (ReplyError (decode_error_to_string e)))
      end
    else if (tag =? "boot.list")%string then
      match encode_to_vec (boot_entries env (dh_boot st)) with
      | Ok data => (st, Reply (ReplyData "boot.list" data))
      | Err e => (st, Reply (ReplyError (encode_error_to_string e)))
      end
    else (st, Reply (ReplyError ("unknown tag: " +:+ tag)))
  | Shutdown => (st, ExitProcess)
  | GetNodes | GetMaster | StepDown => (st, Reply (ReplyError "unsupported op"))
  end.

(** And afterwards. *)
Definition pxeboot_unlocked (env : PxeEnv) (op : ControlOp) : list (DhcpState → DhcpState) :=
  match op with
  | Custom tag inner =>
    if (tag =? "boot.register")%string then
      match decode_from_slice (A := Mac * BootEntry) inner with
      | Ok ((mac, entry), _) => boot_write env mac entry
      | Err _ => []
      end
    else []
  | _ => []
  end.

#[global] Instance pxeboot_service : ControlService PxeEnv DhcpState := λ env st op,
  in_stages (pxeboot_locked env st op) (pxeboot_unlocked env op).

#[global] Instance pxeboot_stages : ControlStages pxeboot_service.
Proof. by refine {| locked := pxeboot_locked; unlocked := pxeboot_unlocked |}. Defined.

#[global] Instance pxeboot_service_ok : ControlServiceOk pxeboot_service.
Proof.
  split; [done..|]. intros env st op. unfold dispatch, pxeboot_service, in_stages. cbn [snd].
  unfold pxeboot_locked. destruct op; try done. repeat case_match; done.
Qed.

(** The tables; writing scripts changes neither. *)
#[global] Instance pxeboot_locked_part : LockedPart pxeboot_stages (λ st, (dh_boot st, dh_leases st)).
Proof.
  split.
  - intros env op f st. cbn. unfold pxeboot_unlocked. repeat case_match; try by intros ?%not_elem_of_nil.
    unfold boot_write. by intros (g & -> & _)%list_elem_of_fmap.
  - intros env st st' op [= Hb Hl]. cbn. unfold pxeboot_locked, boot_insert.
    rewrite Hb. repeat case_match; cbn; by rewrite ?Hb, ?Hl.
Qed.

(** A registration that is not disturbed. *)
Definition boot_register (env : PxeEnv) (st : DhcpState) (mac : Mac) (entry : BootEntry) : DhcpState := {|
  dh_boot := <[mac := entry]> (dh_boot st);
  dh_leases := dh_leases st;
  dh_disk := (write_ipxe_script (pe_cfg env) mac entry (pe_io env) (dh_disk st)).1 |}.

Lemma boot_register_stages env st mac entry :
  foldl (λ st f, f st) (boot_insert mac entry st) (boot_write env mac entry) = boot_register env st mac entry.
Proof.
  assert (∀ fs st, foldl (λ st f, f st) st (on_disk <$> fs)
    = on_disk (λ disk, foldl (λ disk f, f disk) disk fs) st) as Hfold.
  { induction fs as [|f fs IH]; intros st'; [by destruct st'|]. cbn. by rewrite IH. }
  unfold boot_write. rewrite Hfold. unfold on_disk, boot_insert, boot_register. cbn.
  by rewrite script_steps_whole.
Qed.

(** What the operations come to, undisturbed. *)
Lemma dispatch_custom env st tag inner :
  dispatch env st (Custom tag inner) =
  if (tag =? "boot.register")%string then
    match decode_from_slice (A := Mac * BootEntry) inner with
    | Ok ((mac, entry), _) => (boot_register env st mac entry, Reply ReplyOk)
    | Err e => (st, Reply (ReplyError (decode_error_to_string e)))
    end
  else (st, (pxeboot_locked env st (Custom tag inner)).2).
Proof.
  unfold dispatch, pxeboot_service, in_stages, pxeboot_locked, pxeboot_unlocked. cbn [fst snd].
  destruct (tag =? "boot.register")%string.
  - destruct (decode_from_slice inner) as [[[mac entry] n]|e]; [|done]. cbn [fst snd].
    by rewrite boot_register_stages.
  - by repeat case_match.
Qed.
End Service.

(** ** Loading *)

Lemma find_free_first start end_ : start ≤ end_ → find_free start end_ ∅ = Some start.
Proof. intros H. apply find_free_Some. split_and!; [lia..|set_solver|]. intros j Hj. lia. Qed.

(** A configuration is accepted exactly when the file can be read and parsed and
    its pool is not upside down; the pool of an accepted configuration is never
    empty, so the first client always gets an address, the first of the pool. *)
Theorem config_load_spec {E} (parse : string → result E Dhcp.Config) raw cfg :
  (config_load parse raw = Ok cfg ↔
   ∃ text, raw = Some text ∧ parse text = Ok cfg ∧ px_pool_start cfg ≤ px_pool_end cfg) ∧
  (config_load parse raw = Ok cfg → ∀ mac secs now,
   (allocate_ip mac ∅ ∅ (px_pool_start cfg) (px_pool_end cfg) secs now).1 = Some (px_pool_start cfg)).
Proof.
  assert (config_load parse raw = Ok cfg ↔
    ∃ text, raw = Some text ∧ parse text = Ok cfg ∧ px_pool_start cfg ≤ px_pool_end cfg) as Hiff.
  { unfold config_load. destruct raw as [text|]; [|split; [done|by intros (? & ? & _)]].
    destruct (parse text) as [c|e] eqn:Hp; cycle 1.
    { split; [done|]. intros (? & [= <-] & Hc & _). congruence. }
    destruct (Z.ltb_spec (px_pool_end c) (px_pool_start c)) as [Hlt|Hge].
    - split; [done|]. intros (? & [= <-] & Hc & Hle). rewrite Hp in Hc. simplify_eq. lia.
    - split; [intros [= <-]; by exists text|]. intros (? & [= <-] & Hc & _). congruence. }
  split; [done|]. intros (text & _ & _ & Hle)%Hiff mac secs now.
  unfold allocate_ip. rewrite !lookup_empty. cbn. unfold in_use. rewrite map_to_list_empty.
  by apply find_free_first.
Qed.

(** ** Node identity *)

Lemma mapM_parse_fmt bs : Forall u8 bs → mapM u8_from_str_radix_16 (fmt_02x <$> bs) = Some bs.
Proof.
  induction 1 as [|b bs Hb _ IH]; [done|]. rewrite fmap_cons. cbn [mapM].
  rewrite u8_from_str_radix_fmt_02x by done. cbn [mbind option_bind]. by rewrite IH.
Qed.

Lemma fmt_mac_str_ok mac : mac_ok mac → str_ok (fmt_mac mac).
Proof.
  intros Hok. unfold str_ok. rewrite as_bytes_fmt_mac by done. apply utf8_valid_ascii.
  eapply Forall_impl; [by apply mac_text_range|]. cbn. lia.
Qed.

(** The name of a boot script and the node id of the machine that boots from it
    come from the same address: the text pxeboot prints for a MAC address, as it
    stands in the kernel's address file with its newline, is read by hivebus as that
    very address, and its node id is the fold of its octets. *)
Theorem node_id_of_printed_mac mac :
  mac_ok mac → derive_node_id (as_bytes (fmt_mac mac) ++ [10]) = Ok (node_id_from_mac mac).
Proof.
  intros Hok. rewrite as_bytes_fmt_mac by done. unfold derive_node_id.
  pose proof (mac_text_range mac Hok) as Hr.
  assert (trim (mac_text mac ++ [10]) = mac_text mac) as ->.
  { remember (mac_text mac) as text eqn:Ht.
    assert (∃ first rest final, text = first :: rest ++ [final]) as (first & rest & final & ->).
    { destruct text as [|first text]; [done|].
      destruct text as [|final rest _] using rev_ind; [done|]. by eexists _, _, _. }
    rewrite <-app_comm_cons, <-app_assoc. rewrite Forall_cons, Forall_app, Forall_singleton in Hr.
    apply trim_line; lia. }
  rewrite split_mac_text, mapM_parse_fmt by done. by destruct mac.
Qed.

Lemma node_id_of_printed_mac_witness :
  derive_node_id (as_bytes (fmt_mac (mkMac 8 0 39 1 2 3)) ++ [10]) = Ok 11522.
Proof. apply (node_id_of_printed_mac (mkMac 8 0 39 1 2 3)). by_compute. Defined.

(** ** The operations *)

Section Operations.
Context `{Bincode} `{!Codec (Mac * BootEntry), !Codec (list (string * BootEntry))}.
Context `{!Codec ControlOp, !Codec ControlReply}.

(** One connection of [control_plane]. *)
Definition control_plane (env : PxeEnv) (st : DhcpState) (stream : bytes) : DhcpState * conn_end :=
  serve_connection env st stream.

(** [boot.list] names every machine of the boot table exactly once, under the
    printed form of its address. *)
Theorem boot_list_complete (env : PxeEnv) (bt : gmap Mac BootEntry) :
  HashIterOk (pe_iter env) → map_Forall (λ mac _, mac_ok mac) bt →
  NoDup (boot_entries env bt).*1 ∧
  ∀ mac e, mac_ok mac → bt !! mac = Some e ↔ (fmt_mac mac, e) ∈ boot_entries env bt.
Proof.
  intros Hit Hok.
  assert (∀ m m', mac_ok m → mac_ok m' → fmt_mac m = fmt_mac m' → m = m') as Hinj.
  { intros m m' Hm Hm' Heq. apply (f_equal as_bytes) in Heq.
    rewrite !as_bytes_fmt_mac in Heq by done. by apply mac_text_inj. }
  unfold boot_entries. split.
  - rewrite <-list_fmap_compose. cbn.
    assert (NoDup (hash_iter (HashIter := pe_iter env) bt).*1) as Hnd.
    { rewrite (hash_iter_perm (it := pe_iter env) bt). apply NoDup_fst_map_to_list. }
    assert (Forall (λ p, mac_ok p.1) (hash_iter (HashIter := pe_iter env) bt)) as Hall.
    { apply Forall_forall. intros [m e] Hin. rewrite (hash_iter_perm (it := pe_iter env) bt) in Hin.
      apply elem_of_map_to_list in Hin. by apply (Hok m e). }
    induction Hall as [|p l Hp Hl IH]; [constructor|]. cbn in *.
    apply NoDup_cons in Hnd as [Hnin Hnd]. constructor; [|by apply IH].
    intros (p' & Heq & Hin)%list_elem_of_fmap. apply Hnin.
    rewrite Forall_forall in Hl. apply list_elem_of_fmap. exists p'. split; [|done].
    apply Hinj; [done|by apply Hl|done].
  - intros mac e Hmac. rewrite list_elem_of_fmap. split.
    + intros He. exists (mac, e). split; [done|].
      rewrite (hash_iter_perm (it := pe_iter env) bt). by apply elem_of_map_to_list.
    + intros ([m e'] & Heq & Hin).
      assert (fmt_mac mac = fmt_mac m) as Hm by exact (f_equal fst Heq).
      assert (e = e') as -> by exact (f_equal snd Heq). rewrite (hash_iter_perm (it := pe_iter env) bt) in Hin.
      apply elem_of_map_to_list in Hin. rewrite (Hinj mac m); try done. by apply (Hok m e').
Qed.

(** Registering is a registration and then a script write of the system in [Dhcp]. *)
Lemma boot_register_steps static (env : PxeEnv) (st : DhcpState) mac entry :
  entry_allowed static (mac, entry) →
  dhcp_steps (pe_cfg env) static st (boot_register env st mac entry).
Proof.
  intros Ha. eapply dhcp_steps_step; [eapply dhcp_steps_step; [apply dhcp_steps_refl|]|].
  - by apply (DhcpRegister _ _ st mac entry).
  - exact (DhcpScript _ _ _ mac entry (pe_io env)).
Qed.

(** C30: the control plane refines the system the DHCP server was verified in: whatever
    bytes a client sends, one connection takes the daemon through steps of that system,
    provided that the entries it leaves in the table respect the plan of static
    addresses; it never touches a lease, and removes no machine. *)
Theorem control_plane_refines static (env : PxeEnv) (st : DhcpState) stream :
  let st' := (control_plane env st stream).1 in
  (∀ mac entry, dh_boot st' !! mac = Some entry →
     dh_boot st !! mac = Some entry ∨ entry_allowed static (mac, entry)) →
  boot_inv static (dh_boot st) →
  dhcp_steps (pe_cfg env) static st st' ∧ boot_inv static (dh_boot st')
  ∧ dh_leases st' = dh_leases st ∧ dom (dh_boot st) ⊆ dom (dh_boot st').
Proof.
  intros st' Hnew Hinv.
  assert (boot_inv static (dh_boot st')) as Hinv'.
  { intros mac entry He. by destruct (Hnew mac entry He) as [Hold|]; [apply Hinv|]. }
  assert (st' = st ∨ ∃ mac entry, st' = boot_register env st mac entry) as Hcases.
  { subst st'. unfold control_plane, serve_connection, handle_payload.
    destruct (read_control_frame stream) as [payload|]; [|by left].
    destruct (decode_control payload) as [op|e]; [|by left].
    destruct op as [| | | | |tag inner]; try by left.
    rewrite dispatch_custom. destruct (tag =? "boot.register")%string.
    - destruct (decode_from_slice inner) as [[[mac entry] n]|e]; [|by left].
      right. by exists mac, entry.
    - left. by destruct (pxeboot_locked _ _ _) as [? []]. }
  destruct Hcases as [->|(mac & entry & ->)]; [split_and!; try done; apply dhcp_steps_refl|].
  split_and!; [|done|done|].
  - apply boot_register_steps. apply Hinv'. apply lookup_insert_eq.
  - cbn [boot_register dh_boot]. rewrite dom_insert. set_solver.
Qed.

Context `{!CodecLaws (Mac * BootEntry), !CodecLaws ControlOp, !CodecLaws ControlReply}.

(** Registering a machine over the control socket takes effect before the
    answer Ok comes back: the entry is in the boot table, no other entry and no
    lease has changed, and if it names a script under the root and the write
    succeeds, TFTP serves the script rendered for this machine under that name. *)
Theorem register_over_socket (env : PxeEnv) (st : DhcpState) mac entry inner op_payload ok_payload :
  let op := Custom "boot.register" inner in
  wire_ok (mac, entry) → encode_to_vec (mac, entry) = Ok inner →
  encode_to_vec op = Ok op_payload → Z.of_nat (length op_payload) ≤ MAX_CONTROL_PAYLOAD →
  encode_to_vec ReplyOk = Ok ok_payload → Z.of_nat (length ok_payload) ≤ MAX_CONTROL_PAYLOAD →
  let st' := (control_plane env st (frame op_payload [])).1 in
  send_op (λ request, received (control_plane env st request).2) op = Done (Ok ReplyOk) ∧
  dh_boot st' = <[mac := entry]> (dh_boot st) ∧ dh_leases st' = dh_leases st ∧
  ∀ rel, be_ipxe_script entry = Some rel → pe_io env = IoOk →
    sanitize_tftp_path (as_bytes (px_tftp_root (pe_cfg env))) rel ≠ None →
    let script := as_bytes (render_ipxe_script (pe_cfg env) mac entry) in
    serve_tftp_read (reads := full_reads) (dh_disk st') true
      (as_bytes (px_tftp_root (pe_cfg env))) rel
    = Started script (at_block script 0 0) [].
Proof.
  intros op Hok Hinner Hop Hlen Hrep Hrlen st'.
  assert (wire_ok op) as Hopok by (split; [by_compute|exact (codec_bytes (A := Mac * BootEntry) _ _ Hinner)]).
  assert (dispatch env st op = (boot_register env st mac entry, Reply ReplyOk)) as Hd.
  { unfold op. rewrite dispatch_custom. cbn [String.eqb Ascii.eqb Bool.eqb].
    by rewrite (codec_roundtrip (A := Mac * BootEntry) _ _ Hok Hinner). }
  destruct (exchange_reply env st _ op op_payload ReplyOk ok_payload Hopok Hop Hlen Hd I Hrep)
    as [Hst Hx]. subst st'. unfold control_plane. rewrite Hst.
  cbv zeta in Hx. rewrite (proj2 (Z.leb_le _ _) Hrlen) in Hx. split; [done|]. split; [done|].
  split; [done|]. intros rel Hrel Hio Hpath. cbn [dh_disk boot_register]. rewrite Hio.
  by apply written_script_served.
Qed.

(** The frame a client sends to register a machine, if its encoding fits. *)
Definition register_frame (r : Mac * BootEntry) : option bytes :=
  inner ← ok (encode_to_vec r);
  payload ← ok (encode_to_vec (Custom "boot.register" inner));
  if decide (Z.of_nat (length payload) ≤ MAX_CONTROL_PAYLOAD) then Some (frame payload []) else None.

Lemma register_frame_effect (env : PxeEnv) (st : DhcpState) r f :
  wire_ok r → register_frame r = Some f →
  (control_plane env st f).1 = boot_register env st r.1 r.2.
Proof.
  intros Hr. unfold register_frame. destruct (encode_to_vec r) as [inner|] eqn:Hinner; [|done]. cbn.
  destruct (encode_to_vec (Custom "boot.register" inner)) as [payload|] eqn:Hop; [|done]. cbn.
  case_decide as Hlen; [|done]. intros [= <-].
  assert (wire_ok (Custom "boot.register" inner)) as Hopok
    by (split; [by_compute|exact (codec_bytes (A := Mac * BootEntry) _ _ Hinner)]).
  unfold control_plane. rewrite (serve_connection_frame env st _ _ Hopok Hop Hlen).
  rewrite dispatch_custom. cbn [String.eqb Ascii.eqb Bool.eqb].
  rewrite (codec_roundtrip (A := Mac * BootEntry) _ _ Hr Hinner). by destruct r.
Qed.

(** A handler that has read such a frame has the entry in the table, and its script still to
    write. *)
Lemma register_frame_start (env : PxeEnv) (st : DhcpState) r f :
  wire_ok r → register_frame r = Some f →
  ∃ payload, handler_reading f = Payload payload
    ∧ start_operation env st payload = (boot_insert r.1 r.2 st, Working (boot_write env r.1 r.2) ReplyOk).
Proof.
  intros Hr. unfold register_frame. destruct (encode_to_vec r) as [inner|] eqn:Hinner; [|done]. cbn.
  destruct (encode_to_vec (Custom "boot.register" inner)) as [payload|] eqn:Hop; [|done]. cbn.
  case_decide as Hlen; [|done]. intros [= <-].
  assert (wire_ok (Custom "boot.register" inner)) as Hopok
    by (split; [by_compute|exact (codec_bytes (A := Mac * BootEntry) _ _ Hinner)]).
  exists payload. split.
  - pose proof (read_control_frame_frame payload [] ltac:(unfold MAX_CONTROL_PAYLOAD in *; lia)) as Hread.
    rewrite (proj2 (Z.leb_le _ _) Hlen), read_control_frame_reading in Hread.
    destruct (handler_reading _); [done..|congruence].
  - unfold start_operation. erewrite decode_control_roundtrip by done. cbn.
    rewrite (codec_roundtrip (A := Mac * BootEntry) _ _ Hr Hinner). by destruct r.
Qed.

(** Two registrations of one machine at once can disagree: the second entry is the one the
    table keeps, and the first entry's script is the one TFTP serves, because the handlers
    write their scripts after they have released the lock.  Both clients are told Ok. *)
Theorem registrations_race (env : PxeEnv) (st : DhcpState) mac first second rel f1 f2 :
  wire_ok (mac, first) → wire_ok (mac, second) →
  register_frame (mac, first) = Some f1 → register_frame (mac, second) = Some f2 →
  be_ipxe_script first = Some rel → be_ipxe_script second = Some rel → pe_io env = IoOk →
  sanitize_tftp_path (as_bytes (px_tftp_root (pe_cfg env))) rel ≠ None →
  let l := socket_run st
    [Accepted (Ok ()); Accepted (Ok ()); Received 0 f1 env; Received 1 f2 env;
     Resumed 1; Resumed 1; Resumed 1; Resumed 0; Resumed 0; Resumed 0] in
  let script := as_bytes (render_ipxe_script (pe_cfg env) mac first) in
  handlers l = [Finished (send_reply ReplyOk); Finished (send_reply ReplyOk)] ∧
  dh_boot (served l) !! mac = Some second ∧
  serve_tftp_read (reads := full_reads) (dh_disk (served l)) true
    (as_bytes (px_tftp_root (pe_cfg env))) rel
  = Started script (at_block script 0 0) [].
Proof.
  intros H1 H2 Hf1 Hf2 Hr1 Hr2 Hio Hpath l script.
  destruct (register_frame_start env st _ _ H1 Hf1) as (p1 & Hp1 & Hs1).
  destruct (register_frame_start env (boot_insert mac first st) _ _ H2 Hf2) as (p2 & Hp2 & Hs2).
  unfold boot_write, script_steps in Hs1, Hs2. cbn [fst snd] in Hs1, Hs2.
  rewrite Hr1, Hio in Hs1. rewrite Hr2, Hio in Hs2.
  destruct (sanitize_tftp_path _ rel) as [p|] eqn:Hsan; [|done].
  assert (handlers l = [Finished (send_reply ReplyOk); Finished (send_reply ReplyOk)]
    ∧ dh_boot (served l) !! mac = Some second ∧ dh_disk (served l) !! p = Some script) as (Hh & Hb & Hd).
  { subst l. unfold socket_run. cbn. rewrite Hp1, Hs1. cbn. rewrite Hp2, Hs2. cbn.
    split; [done|]. split; [apply lookup_insert_eq|]. unfold write_over, truncate.
    rewrite !lookup_insert_eq. cbn [default from_option id]. by rewrite drop_nil, app_nil_r. }
  split; [done|]. split; [done|]. unfold serve_tftp_read. rewrite Hsan, Hd. by rewrite start_at_block.
Qed.

(** Connections that each send one frame, with what their handlers read. *)
Definition connections (st : DhcpState) (fs : list (PxeEnv * bytes)) : DhcpState :=
  foldl (λ st '(env, f), (control_plane env st f).1) st fs.

Lemma connections_register (st : DhcpState) envs regs frames :
  Forall wire_ok regs → mapM register_frame regs = Some frames → length envs = length regs →
  let st' := connections st (zip envs frames) in
  dh_boot st' = foldl (λ bt r, <[r.1 := r.2]> bt) (dh_boot st) regs ∧ dh_leases st' = dh_leases st.
Proof.
  intros Hok Hframes. apply mapM_Some in Hframes. revert st envs.
  induction Hframes as [|r f regs frames Hf _ IH]; intros st envs Hlen.
  { by destruct envs. }
  destruct envs as [|env envs]; [done|]. injection Hlen as Hlen. apply Forall_cons in Hok as [Hr Hok].
  unfold connections. cbn. rewrite (register_frame_effect env st r f Hr Hf).
  by apply (IH Hok (boot_register env st r.1 r.2)).
Qed.

(** What the client of a reply with so long an encoding sees. *)
Definition seen_by_client (reply : ControlReply) (reply_payload : bytes) : outcome (result client_error ControlReply) :=
  let n := Z.of_nat (length reply_payload) in
  Done (if n <=? MAX_CONTROL_PAYLOAD then Ok reply
        else if n <? 65536 then Err (ReplyTooLarge n) else Err HeaderRead).

(** The list the client gets back. *)
Lemma list_reply (env : PxeEnv) (st : DhcpState) inner data op_payload reply_payload
    `{!CodecLaws (list (string * BootEntry))} :
  let op := Custom "boot.list" inner in
  let reply := ReplyData "boot.list" data in
  HashIterOk (pe_iter env) → map_Forall (λ mac e, mac_ok mac ∧ wire_ok e) (dh_boot st) →
  bytes_ok inner → encode_to_vec (boot_entries env (dh_boot st)) = Ok data →
  encode_to_vec op = Ok op_payload → Z.of_nat (length op_payload) ≤ MAX_CONTROL_PAYLOAD →
  encode_to_vec reply = Ok reply_payload →
  send_op (λ request, received (control_plane env st request).2) op = seen_by_client reply reply_payload ∧
  (control_plane env st (frame op_payload [])).1 = st ∧
  decode_from_slice data = Ok (boot_entries env (dh_boot st), length data).
Proof.
  intros op reply Hit Htyped Hinner Hdata Hop Hlen Hrep.
  assert (wire_ok (boot_entries env (dh_boot st))) as Hok.
  { unfold boot_entries. apply Forall_fmap, Forall_forall. intros [mac e] Hin.
    rewrite (hash_iter_perm (it := pe_iter env) (dh_boot st)) in Hin. apply elem_of_map_to_list in Hin.
    destruct (Htyped mac e Hin) as [Hmac He]. split; [by apply fmt_mac_str_ok|done]. }
  assert (wire_ok op) as Hopok by (split; [by_compute|done]).
  assert (dispatch env st op = (st, Reply reply)) as Hd.
  { unfold op. rewrite dispatch_custom. unfold pxeboot_locked. cbn. by rewrite Hdata. }
  assert (wire_ok reply) as Hrok by (split; [by_compute|exact (codec_bytes _ _ Hdata)]).
  destruct (exchange_reply env st st op op_payload reply reply_payload Hopok Hop Hlen Hd Hrok Hrep)
    as [Hst Hx].
  split; [exact Hx|]. split; [done|]. by apply codec_roundtrip.
Qed.

(** What was registered last for a machine. *)
Definition last_registered (regs : list (Mac * BootEntry)) (mac : Mac) : option BootEntry :=
  snd <$> last (filter (λ r, r.1 = mac) regs).

Lemma foldl_insert_lookup (bt : gmap Mac BootEntry) regs mac :
  foldl (λ bt r, <[r.1 := r.2]> bt) bt regs !! mac
  = match last_registered regs mac with Some e => Some e | None => bt !! mac end.
Proof.
  unfold last_registered. induction regs as [|r regs IH] using rev_ind; [done|].
  rewrite foldl_app, filter_app. cbn [foldl]. destruct (decide (r.1 = mac)) as [Heq|Hne].
  - rewrite filter_cons_True, filter_nil, last_snoc by done. cbn. by rewrite <-Heq, lookup_insert_eq.
  - rewrite filter_cons_False, filter_nil, app_nil_r by done. by rewrite lookup_insert_ne, IH.
Qed.

(** C36: what was registered is listed: after any number of valid entries were registered over
    the control socket, each in a frame within the payload bound and one connection after the
    other, with a well-typed table before, a boot.list over another connection encodes the
    boot table: every machine once, under the printed form of its address, with
    what was registered last for it, or what was known of it before; and no lease has
    changed.  The client gets this list if the reply's encoding is at most
    [MAX_CONTROL_PAYLOAD] bytes; with a table that makes it longer, but shorter than 65536
    bytes, the reply is sent and the client refuses it; with one that makes it longer still the
    handler panics, and the client finds the stream closed. *)
Theorem registrations_listed (st : DhcpState) envs regs frames (env : PxeEnv) inner data op_payload
    reply_payload `{!CodecLaws (list (string * BootEntry))} :
  let st' := connections st (zip envs frames) in
  let op := Custom "boot.list" inner in
  Forall wire_ok regs → mapM register_frame regs = Some frames → length envs = length regs →
  HashIterOk (pe_iter env) → map_Forall (λ mac e, mac_ok mac ∧ wire_ok e) (dh_boot st) →
  bytes_ok inner → encode_to_vec (boot_entries env (dh_boot st')) = Ok data →
  encode_to_vec op = Ok op_payload → Z.of_nat (length op_payload) ≤ MAX_CONTROL_PAYLOAD →
  encode_to_vec (ReplyData "boot.list" data) = Ok reply_payload →
  let n := Z.of_nat (length reply_payload) in
  dh_leases st' = dh_leases st ∧
  ∃ listed,
    send_op (λ request, received (control_plane env st' request).2) op
      = Done (if n <=? MAX_CONTROL_PAYLOAD then Ok (ReplyData "boot.list" data)
              else if n <? 65536 then Err (ReplyTooLarge n) else Err HeaderRead) ∧
    decode_from_slice data = Ok (listed, length data) ∧ NoDup listed.*1 ∧
    ∀ mac e, mac_ok mac → (fmt_mac mac, e) ∈ listed ↔
      match last_registered regs mac with Some e' => e = e' | None => dh_boot st !! mac = Some e end.
Proof.
  intros st' op Hregs Hframes Hlen Hit Htyped Hinner Hdata Hop Hoplen Hrep n.
  destruct (connections_register st envs regs frames Hregs Hframes Hlen) as [Hboot Hleases].
  fold st' in Hboot, Hleases. split; [done|].
  assert (map_Forall (λ mac e, mac_ok mac ∧ wire_ok e) (dh_boot st')) as Htyped'.
  { rewrite Hboot. clear -Hregs Htyped. revert Htyped. generalize (dh_boot st).
    induction Hregs as [|r regs Hr _ IH]; intros bt Hbt; [done|].
    apply IH. by apply map_Forall_insert_2. }
  destruct (list_reply env st' inner data op_payload reply_payload) as (Hsend & _ & Hdec); try done.
  exists (boot_entries env (dh_boot st')). split; [done|]. split; [done|].
  destruct (boot_list_complete env (dh_boot st') Hit) as [Hnd Hin].
  { intros mac e He. exact (proj1 (Htyped' mac e He)). }
  split; [done|]. intros mac e Hmac. rewrite <-(Hin mac e Hmac), Hboot, foldl_insert_lookup.
  destruct (last_registered regs mac); [|done]. naive_solver.
Qed.
End Operations.

(** ** Witnesses *)

Module Witnesses.
Import Simple.
#[local] Instance register_codec : Codec (Mac * BootEntry) := simple_codec _.
#[local] Instance list_codec : Codec (list (string * BootEntry)) := simple_codec _.
#[local] Instance register_laws : CodecLaws (Mac * BootEntry) := simple_codec_laws _.

Definition cfg : Dhcp.Config := Dhcp.Witnesses.cfg.
Definition env : PxeEnv := {| pe_cfg := cfg; pe_iter := map_iter; pe_io := IoOk |}.
Definition mac : Mac := mkMac 8 0 39 1 2 3.
Definition entry : BootEntry := {|
  be_hostname := "a"; be_ip := None; be_ipxe_script := Some "s"%string; be_tags := ∅ |}.

Lemma config_load_spec_witness :
  (allocate_ip mac ∅ ∅ (px_pool_start cfg) (px_pool_end cfg) 60 0).1 = Some (px_pool_start cfg).
Proof.
  apply (proj2 (config_load_spec (λ _ : string, @Ok unit _ cfg) (Some ""%string) cfg)).
  by vm_compute.
Defined.

Lemma boot_list_complete_witness :
  (fmt_mac mac, entry) ∈ boot_entries env {[mac := entry]}.
Proof.
  apply (proj2 (boot_list_complete env {[mac := entry]} map_iter_ok ltac:(by_compute))); by_compute.
Defined.

Lemma control_plane_refines_witness :
  dhcp_steps cfg Leases.Witnesses.nobody dhcp_init
    (control_plane env dhcp_init
       (frame (bits_of_pos (encode (Custom "boot.register" (bits_of_pos (encode (mac, entry)))))) [])).1.
Proof.
  refine (proj1 (control_plane_refines Leases.Witnesses.nobody env dhcp_init _ _ _)); [|by_compute].
  intros mac' entry' Hl. right. revert Hl.
  assert (boot_inv Leases.Witnesses.nobody (dh_boot (control_plane env dhcp_init
    (frame (bits_of_pos (encode (Custom "boot.register" (bits_of_pos (encode (mac, entry)))))) [])).1))
    as Hb by by_compute.
  apply Hb.
Defined.

Lemma register_over_socket_witness :
  send_op (λ request, received (control_plane env dhcp_init request).2)
    (Custom "boot.register" (bits_of_pos (encode (mac, entry)))) = Done (Ok ReplyOk).
Proof.
  refine (proj1 (register_over_socket env dhcp_init mac entry _ _ _ _ eq_refl eq_refl _ eq_refl _));
    by_compute.
Defined.

(** Two handlers at once: the entries serialise, the scripts do not. *)
Definition entry_b : BootEntry := {|
  be_hostname := "b"; be_ip := None; be_ipxe_script := Some "s"%string; be_tags := ∅ |}.
Definition frame_of (e : BootEntry) : bytes := default [] (register_frame (mac, e)).
Definition race : list (socket_event PxeEnv) :=
  [Accepted (Ok ()); Accepted (Ok ()); Received 0 (take 9 (frame_of entry)) env;
   Received 1 (take 2 (frame_of entry_b)) env; Received 0 (drop 9 (frame_of entry)) env;
   Received 1 (drop 2 (frame_of entry_b)) env; Accepted (Ok ()); Received 2 [7; 7; 7] env;
   Resumed 1; Resumed 1; Resumed 1; Resumed 0; Resumed 0].

Lemma handlers_serialise_witness :
  let l := socket_run dhcp_init race in
  dh_boot (served l) !! mac = Some entry_b
  ∧ (map_to_list (dh_disk (served l))).*2 = [as_bytes (render_ipxe_script cfg mac entry)]
  ∧ (answered <$> handlers l) = [Some (send_reply ReplyOk); Some (send_reply ReplyOk); Some Closed]
  ∧ ∃ order : list (nat * PxeEnv), NoDup order.*1
      ∧ (dh_boot (served l), dh_leases (served l))
        = (λ st, (dh_boot st, dh_leases st)) (serial (λ i, sent i race) dhcp_init order)
      ∧ ∀ i h e, handlers l !! i = Some h → answered h = Some e → ended_as dhcp_init race order i e.
Proof.
  intros l. split; [by vm_compute|]. split; [by vm_compute|]. split; [by vm_compute|].
  destruct (handlers_serialise (λ st, (dh_boot st, dh_leases st)) dhcp_init race)
    as (order & Hnd & Hst & Hends & _).
  exists order. split; [exact Hnd|]. split; [exact Hst|exact Hends].
Defined.

Lemma registrations_race_witness :
  dh_boot (served (socket_run dhcp_init
    [Accepted (Ok ()); Accepted (Ok ()); Received 0 (frame_of entry) env; Received 1 (frame_of entry_b) env;
     Resumed 1; Resumed 1; Resumed 1; Resumed 0; Resumed 0; Resumed 0])) !! mac = Some entry_b.
Proof.
  refine (proj1 (proj2 (registrations_race env dhcp_init mac entry entry_b "s" (frame_of entry) (frame_of entry_b)
    _ _ _ _ _ _ _ _))); by_compute || by vm_compute.
Defined.

(** One machine registered twice. *)
#[local] Instance list_laws : CodecLaws (list (string * BootEntry)) := simple_codec_laws _.

Definition entry2 : BootEntry := {|
  be_hostname := "b"; be_ip := Some 9; be_ipxe_script := None; be_tags := ∅ |}.
Definition regs : list (Mac * BootEntry) := [(mac, entry); (mac, entry2)].
Definition frames : list bytes := default [] (mapM register_frame regs).
Definition registered : DhcpState := connections dhcp_init (zip [env; env] frames).
Definition listing : bytes := bits_of_pos (encode (boot_entries env (dh_boot registered))).

Lemma registrations_listed_witness :
  (∃ listed, decode_from_slice listing = Ok (listed, length listing) ∧ (fmt_mac mac, entry2) ∈ listed
    ∧ (fmt_mac mac, entry) ∉ listed)
  ∧ send_op (λ request, received (control_plane env registered request).2) (Custom "boot.list" [])
    = Done (Ok (ReplyData "boot.list" listing)).
Proof.
  destruct (registrations_listed dhcp_init [env; env] regs frames env [] listing
    (bits_of_pos (encode (Custom "boot.list" []))) (bits_of_pos (encode (ReplyData "boot.list" listing))))
    as (_ & listed & Hsend & Hdec & _ & Hin).
  - by_compute.
  - by vm_compute.
  - done.
  - exact map_iter_ok.
  - apply map_Forall_empty.
  - constructor.
  - reflexivity.
  - reflexivity.
  - by_compute.
  - reflexivity.
  - split; [exists listed; split; [exact Hdec|]; split|].
    + apply Hin; [by_compute|by vm_compute].
    + intros Hold. apply Hin in Hold; [|by_compute]. by vm_compute in Hold.
    + refine (eq_trans Hsend _). by vm_compute.
Defined.
End Witnesses.
