(* ===== verification/Boot.v ===== *)
(** * Booting a machine (crates/pxeboot/src/main.rs)

    The DHCP and the TFTP server together, as a machine meets them: it asks for an
    address, confirms the offer, reads the name of its script in the acknowledgement and
    fetches it, whether nobody has heard of it or a client has registered it over the
    control socket.  Then the types of the daemon's state, which every datagram and every
    control connection keeps. *)

From S2P Require Import Prelude RustStd Text Wire Proto Control Tftp TftpClient Dhcp Pxeboot.
Local Open Scope Z_scope.

(** ** What the machine reads in a reply *)

(** The boot file field: the bytes before the first zero. *)
Fixpoint until_zero (bs : bytes) : bytes :=
  match bs with b :: bs => if b =? 0 then [] else b :: until_zero bs | [] => [] end.
Definition boot_field (reply : bytes) : bytes := until_zero (take 128 (drop 108 reply)).

Lemma until_zero_app bs k : Forall (λ b, b ≠ 0) bs → until_zero (bs ++ replicate (S k) 0) = bs.
Proof. induction 1 as [|b bs Hb _ IH]; [done|]. cbn [app until_zero]. by rewrite (proj2 (Z.eqb_neq b 0)), IH. Qed.

Lemma reply_boot_field op xid chaddr yiaddr siaddr subnet gateway lease_secs f :
  Forall (λ b, b ≠ 0) (boot_bytes f) →
  boot_field (build_dhcp_reply op xid chaddr yiaddr siaddr subnet gateway lease_secs f) = boot_bytes f.
Proof.
  intros Hf. pose proof (length_boot_bytes f) as Hlen. unfold boot_field.
  rewrite build_dhcp_reply_eq. unfold reply_fixed.
  set (pre := [2; 1; 6; 0] ++ to_be_bytes 4 xid ++ replicate 8 0 ++ octets yiaddr ++ octets siaddr
    ++ replicate 4 0 ++ take 16 chaddr ++ replicate (16 - length (take 16 chaddr)) 0 ++ replicate 64 0).
  set (field := boot_bytes f ++ replicate (128 - length (boot_bytes f)) 0).
  assert (length pre = 108%nat) as Hpre.
  { assert (length (take 16 chaddr) ≤ 16)%nat as Hch by (rewrite length_take; lia).
    unfold pre, octets. rewrite !length_app, !length_replicate, !length_to_be_bytes. 
    set (n := length (take 16 chaddr)) in *. cbn [length]. lia. }
  assert (length field = 128%nat) as Hfield by (unfold field; rewrite length_app, length_replicate; lia).
  match goal with |- until_zero (take 128 (drop 108 ?x)) = _ =>
    assert (∃ rest, x = pre ++ field ++ rest) as [rest ->] end.
  { eexists. unfold pre, field. rewrite <-!app_assoc. reflexivity. }
  rewrite drop_app_exact, take_app_exact by done. unfold field.
  replace (128 - length (boot_bytes f))%nat with (S (127 - length (boot_bytes f))) by lia.
  by apply until_zero_app.
Qed.

(** ** Answers *)

Lemma dg_mac_ok datagram : bytes_ok datagram → mac_ok (dg_mac datagram).
Proof.
  intros Hok. unfold dg_mac.
  assert (bytes_ok (take 16 (drop 28 (take 576 datagram)))) as Hch
    by by apply Forall_take, Forall_drop, Forall_take.
  unfold mac_of_chaddr. destruct (take 16 _) as [|b0 [|b1 [|b2 [|b3 [|b4 [|b5 r]]]]]]; try by_compute.
  rewrite !Forall_cons in Hch. destruct Hch as (? & ? & ? & ? & ? & ? & _).
  unfold mac_ok, mac_bytes. cbn. repeat (apply Forall_cons_2; [done|]). apply Forall_nil_2.
Qed.

(** Nothing fails and nothing is registered while the handler runs. *)
Definition quiet (env : DhcpEnv) : Prop :=
  de_io env = IoOk ∧ de_before_allocate env = [] ∧ de_before_reply env = [].

(** The reply the server sends to [datagram], with this address and boot file. *)
Definition reply_to (cfg : Config) (op : Z) (datagram : bytes) (ip : Ipv4Addr) (f : string) : bytes :=
  build_dhcp_reply op (from_be_bytes (take 4 (drop 4 (take 576 datagram))))
    (take 16 (drop 28 (take 576 datagram))) ip (px_server_ip cfg) (px_subnet_mask cfg)
    (px_gateway cfg) (px_lease_secs cfg) f.

Lemma reply_to_fields cfg op datagram ip f :
  let reply := reply_to cfg op datagram ip f in
  take 4 (drop 16 reply) = octets ip ∧ message_type (drop 240 reply) = Done op.
Proof. unfold reply_to. by rewrite reply_yiaddr, reply_type. Qed.

(** A machine gets its static address, or the address of its lease, or the first free one;
    its script is written, and it keeps its entry. *)
Lemma quiet_answer cfg env st datagram t entry ip :
  let mac := dg_mac datagram in
  ¬ not_dhcp datagram → message_type (dg_options datagram) = Done t →
  t = DHCPDISCOVER ∨ t = DHCPREQUEST → quiet env →
  entry = default (discovered_entry mac) (dh_boot st !! mac) →
  match be_ip entry, dh_leases st !! mac with
  | Some static, _ => ip = static
  | None, Some l => ip = ls_ip l
  | None, None => find_free (px_pool_start cfg) (px_pool_end cfg) (in_use (dh_leases st)) = Some ip
  end →
  ∃ st' target, dhcp_datagram cfg env st datagram
    = Done (st', [(target, reply_to cfg (if t =? DHCPDISCOVER then DHCPOFFER else DHCPACK) datagram ip
                             (default (px_boot_file cfg) (be_ipxe_script entry)))])
    ∧ dh_boot st' !! mac = Some entry ∧ ls_ip <$> dh_leases st' !! mac = Some ip
    ∧ dh_disk st' = (write_ipxe_script cfg mac entry IoOk (dh_disk st)).1.
Proof.
  intros mac Hdhcp Ht Htype (Hio & Hr1 & Hr2) Hentry Hip.
  rewrite dhcp_datagram_dhcp, Ht by done. cbn [mbind outcome_bind].
  assert ((t =? DHCPDISCOVER) || (t =? DHCPREQUEST) = true) as -> by by destruct Htype as [-> | ->].
  unfold dg_answer. fold mac. rewrite dhcp_answer_eq. unfold answer_allocate, allocate_ip, answer_boot.
  rewrite Hr1, Hr2, Hio, <-Hentry. cbn [insert_entries foldl]. rewrite lookup_insert_eq.
  change (Some entry ≫= be_ip) with (be_ip entry).
  change (Some entry ≫= be_ipxe_script) with (be_ipxe_script entry).
  destruct (be_ip entry) as [static|]; [subst ip|destruct (dh_leases st !! mac) as [l|]; [subst ip|rewrite Hip]].
  all: eexists _, _; split; [done|]; cbn [dh_boot dh_leases dh_disk]; by rewrite !lookup_insert_eq.
Qed.

(** What the machine reads as the name of its boot file, and what a request for it does. *)
Definition short_name (rel : string) : Prop :=
  str_ok rel ∧ (0 ∉ as_bytes rel) ∧ (length (as_bytes rel) ≤ 127)%nat.

Lemma short_name_boot_field cfg op datagram ip rel :
  short_name rel → from_utf8 (boot_field (reply_to cfg op datagram ip rel)) = Some rel.
Proof.
  intros (Hok & Hz & Hlen).
  assert (boot_bytes rel = as_bytes rel) as Hb by (unfold boot_bytes; apply take_ge; lia).
  unfold reply_to. rewrite reply_boot_field; rewrite Hb; [by apply from_utf8_as_bytes|].
  apply Forall_forall. intros b Hin ->. done.
Qed.

Lemma short_name_rrq rel : short_name rel → tftp_datagram (rrq rel) = Spawn rel.
Proof.
  intros (Hok & Hz & Hlen). unfold tftp_datagram.
  rewrite take_ge by (unfold rrq; rewrite !length_app; cbn; lia).
  assert (parse_tftp_rrq (rrq rel) = Some (rel, "octet"%string)) as Hp; [|by rewrite Hp].
  apply (parse_rrq_build _ "octet" []); [done|by_compute|done|by_compute].
Qed.

(** ** From DISCOVER to the script *)

(** The machine's entry and lease are what they were. *)
Definition keeps (mac : Mac) (st st' : DhcpState) : Prop :=
  dh_boot st' !! mac = dh_boot st !! mac ∧ dh_leases st' !! mac = dh_leases st !! mac.

Lemma script_boot_field cfg op datagram mac ip :
  mac_ok mac →
  from_utf8 (boot_field (reply_to cfg op datagram ip (default_script_path mac)))
  = Some (default_script_path mac).
Proof.
  intros Hok. pose proof (default_script_range mac Hok) as Hrange.
  assert (boot_bytes (default_script_path mac) = as_bytes (default_script_path mac)) as Hb.
  { unfold boot_bytes. apply take_ge. rewrite default_script_length by done. lia. }
  unfold reply_to. rewrite reply_boot_field; rewrite Hb.
  - apply from_utf8_as_bytes, utf8_valid_ascii. eapply Forall_impl; [exact Hrange|]. cbn. lia.
  - eapply Forall_impl; [exact Hrange|]. cbn. lia.
Qed.

(** The machine that got [reply] fetches [script]: the boot file named in the reply is one
    the TFTP server accepts a request for, the transfer starts with the script, and over any
    network on which no block needs more than five attempts, the machine receives it. *)
Definition fetches (cfg : Config) (disk : gmap bytes bytes) (reply script : bytes) : Prop :=
  ∃ name, from_utf8 (boot_field reply) = Some name ∧ tftp_datagram (rrq name) = Spawn name
  ∧ ∃ server, serve_tftp_read (reads := full_reads) disk true (as_bytes (px_tftp_root cfg)) name
              = Started script server []
  ∧ ∀ client rounds, length rounds = nblocks script →
    Forall (λ fails, (length fails < TFTP_MAX_RETRIES)%nat ∧ Forall (λ l, lost l = true) fails) rounds →
    ∃ block c, exchange client script server receiver_init (rounds_net rounds) = (Complete block, c)
      ∧ rc_data c = script ∧ rc_done c = true.

Lemma written_script_fetched cfg mac entry rel disk op datagram ip :
  be_ipxe_script entry = Some rel → sanitize_tftp_path (as_bytes (px_tftp_root cfg)) rel ≠ None →
  from_utf8 (boot_field (reply_to cfg op datagram ip rel)) = Some rel →
  tftp_datagram (rrq rel) = Spawn rel →
  fetches cfg (write_ipxe_script cfg mac entry IoOk disk).1 (reply_to cfg op datagram ip rel)
    (as_bytes (render_ipxe_script cfg mac entry)).
Proof.
  intros Hrel Hpath Hfield Hrrq. exists rel. split; [done|]. split; [done|].
  eexists. split; [by apply written_script_served|]. intros client rounds. apply rounds_complete.
Qed.

(** C12: an unknown machine boots: its DISCOVER is answered with an offer of the first
    free address; whatever then happens to other machines, its REQUEST is acknowledged
    with the same address; the boot file named in the acknowledgement is one the TFTP
    server accepts a request for; and over any network on which no block needs more than
    five attempts, the machine receives exactly the boot script rendered for its own
    address.  The boot file configured for the server is not used.  While each of the two
    datagrams is handled, writing the script succeeds and nothing is registered. *)
Theorem machine_boots cfg env1 env2 st discover req ip :
  let mac := dg_mac discover in
  let script := as_bytes (render_ipxe_script cfg mac (discovered_entry mac)) in
  bytes_ok discover → dg_mac req = mac → ¬ not_dhcp discover → ¬ not_dhcp req →
  message_type (dg_options discover) = Done DHCPDISCOVER →
  message_type (dg_options req) = Done DHCPREQUEST → quiet env1 → quiet env2 →
  dh_boot st !! mac = None → dh_leases st !! mac = None →
  find_free (px_pool_start cfg) (px_pool_end cfg) (in_use (dh_leases st)) = Some ip →
  ∃ st1 target1 offer, dhcp_datagram cfg env1 st discover = Done (st1, [(target1, offer)])
    ∧ take 4 (drop 16 offer) = octets ip ∧ message_type (drop 240 offer) = Done DHCPOFFER
    ∧ ∀ st1', keeps mac st1 st1' →
  ∃ st2 target2 ack, dhcp_datagram cfg env2 st1' req = Done (st2, [(target2, ack)])
    ∧ take 4 (drop 16 ack) = octets ip ∧ message_type (drop 240 ack) = Done DHCPACK
    ∧ fetches cfg (dh_disk st2) ack script.
Proof.
  intros mac script Hbytes Hmac Hd1 Hd2 Ht1 Ht2 Hq1 Hq2 Hnew Hlease Hfree.
  pose proof (dg_mac_ok _ Hbytes : mac_ok mac) as Hok. set (entry := discovered_entry mac).
  destruct (quiet_answer cfg env1 st discover DHCPDISCOVER entry ip) as (st1 & target1 & -> & Hb1 & Hl1 & _);
    try done; [by left|by fold mac; rewrite Hnew|by fold mac; cbn; rewrite Hlease|].
  fold mac in Hb1, Hl1. exists st1, target1. eexists. split; [done|].
  destruct (reply_to_fields cfg DHCPOFFER discover ip (default (px_boot_file cfg) (be_ipxe_script entry)))
    as [Hy1 Hm1]. split; [exact Hy1|]. split; [exact Hm1|].
  intros st1' [Hkb Hkl]. rewrite Hb1 in Hkb. rewrite <-Hkl in Hl1.
  destruct (quiet_answer cfg env2 st1' req DHCPREQUEST entry ip) as (st2 & target2 & -> & _ & _ & Hdisk);
    try done; [by right|by rewrite Hmac, Hkb| |].
  { rewrite Hmac. cbn. destruct (dh_leases st1' !! mac) as [l|]; [|done]. by injection Hl1 as <-. }
  exists st2, target2. eexists. split; [done|].
  destruct (reply_to_fields cfg DHCPACK req ip (default (px_boot_file cfg) (be_ipxe_script entry)))
    as [Hy2 Hm2]. split; [exact Hy2|]. split; [exact Hm2|].
  rewrite Hdisk, Hmac. change (default _ (be_ipxe_script entry)) with (default_script_path mac).
  apply written_script_fetched; [done| |by apply script_boot_field|by apply tftp_rrq_script].
  by rewrite sanitize_default_script.
Qed.

(** ** From the registration to the script *)

Section Registered.
Context `{Bincode} `{!Codec (Mac * BootEntry), !Codec (list (string * BootEntry))}.
Context `{!Codec ControlOp, !Codec ControlReply}.
Context `{!CodecLaws (Mac * BootEntry), !CodecLaws ControlOp, !CodecLaws ControlReply}.

(** C13: a registered machine boots what was registered for it: let a client have sent a
    valid registration with a static address and a script over the control socket, its
    encoding fitting the payload bound, the script's path being valid text of at most 127
    bytes without a zero byte that the server accepts as confined to the TFTP root.  Whatever then happens to other machines, to the leases and to
    the files, as long as nobody registers this machine again, each DISCOVER and each
    REQUEST of the machine during whose handling the script can be written and nothing is
    registered is answered with that address; the boot file in the answer is the
    registered script, the server accepts the request for it, and the machine receives, over
    any network on which no block needs more than five attempts, the script rendered from
    its registration. *)
Theorem registered_machine_boots (penv : PxeEnv) st mac entry f env st' datagram t ip rel :
  let cfg := pe_cfg penv in
  wire_ok (mac, entry) → register_frame (mac, entry) = Some f →
  be_ip entry = Some ip → be_ipxe_script entry = Some rel → short_name rel →
  sanitize_tftp_path (as_bytes (px_tftp_root cfg)) rel ≠ None →
  dh_boot st' !! mac = dh_boot (control_plane penv st f).1 !! mac →
  dg_mac datagram = mac → ¬ not_dhcp datagram → message_type (dg_options datagram) = Done t →
  t = DHCPDISCOVER ∨ t = DHCPREQUEST → quiet env →
  ∃ st'' target reply, dhcp_datagram cfg env st' datagram = Done (st'', [(target, reply)])
    ∧ take 4 (drop 16 reply) = octets ip
    ∧ message_type (drop 240 reply) = Done (if t =? DHCPDISCOVER then DHCPOFFER else DHCPACK)
    ∧ fetches cfg (dh_disk st'') reply (as_bytes (render_ipxe_script cfg mac entry)).
Proof.
  intros cfg Hok Hf Hip Hrel Hname Hpath Hkept Hmac Hdhcp Ht Htype Hq.
  rewrite (register_frame_effect penv st _ f Hok Hf) in Hkept. cbn [boot_register dh_boot fst snd] in Hkept.
  rewrite lookup_insert_eq in Hkept.
  destruct (quiet_answer cfg env st' datagram t entry ip) as (st'' & target & -> & _ & _ & Hdisk); try done.
  { by rewrite Hmac, Hkept. }
  { by rewrite Hip. }
  rewrite Hrel. exists st'', target. eexists. split; [done|].
  destruct (reply_to_fields cfg (if t =? DHCPDISCOVER then DHCPOFFER else DHCPACK) datagram ip rel) as [Hy Hm].
  split; [exact Hy|]. split; [exact Hm|]. rewrite Hdisk, Hmac.
  apply written_script_fetched; [done|done|by apply short_name_boot_field|by apply short_name_rrq].
Qed.
End Registered.

(** ** The types of the state *)

(** The configuration's fields are values of the Rust types. *)
Definition cfg_typed (cfg : Config) : Prop :=
  u32 (px_server_ip cfg) ∧ u32 (px_pool_start cfg) ∧ u32 (px_pool_end cfg) ∧ u32 (px_subnet_mask cfg)
  ∧ (∀ gw, px_gateway cfg = Some gw → u32 gw) ∧ u32 (px_lease_secs cfg).

(** The keys are addresses of six bytes, the entries and leases values of their types and
    the files byte strings. *)
Record state_typed (st : DhcpState) : Prop := {
  typed_boot : map_Forall (λ mac (e : BootEntry), mac_ok mac ∧ wire_ok e) (dh_boot st);
  typed_leases : map_Forall (λ mac l, mac_ok mac ∧ u32 (ls_ip l)) (dh_leases st);
  typed_disk : map_Forall (λ _ file, bytes_ok file) (dh_disk st);
}.

(** What comes from outside the handler is typed too. *)
Definition env_typed (env : DhcpEnv) : Prop :=
  Forall (λ r : Mac * BootEntry, mac_ok r.1 ∧ wire_ok r.2) (de_before_allocate env ++ de_before_reply env)
  ∧ match de_io env with IoFailed (Some left_over) => bytes_ok left_over | _ => True end.

Lemma discovered_entry_typed mac : mac_ok mac → wire_ok (discovered_entry mac).
Proof.
  intros Hok. pose proof (mac_text_range mac Hok) as Hr. unfold discovered_entry. split; [|split; [done|split]].
  - cbn [be_hostname]. unfold str_ok. rewrite as_bytes_app, as_bytes_fmt_mac by done.
    apply utf8_valid_ascii, Forall_app. split; [by_compute|]. eapply Forall_impl; [exact Hr|]. cbn. lia.
  - cbn [be_ipxe_script]. unfold str_ok. apply utf8_valid_ascii.
    eapply Forall_impl; [by apply default_script_range|]. cbn. lia.
  - apply map_Forall_empty.
Qed.

Lemma write_script_typed cfg mac entry io disk :
  map_Forall (λ _ file, bytes_ok file) disk →
  match io with IoFailed (Some left_over) => bytes_ok left_over | _ => True end →
  map_Forall (λ _ file, bytes_ok file) (write_ipxe_script cfg mac entry io disk).1.
Proof.
  intros Hdisk Hio. unfold write_ipxe_script. destruct (be_ipxe_script entry); [|done].
  destruct (sanitize_tftp_path _ _); [|done]. destruct io as [|[left_over|]]; [|by apply map_Forall_insert_2|done].
  apply map_Forall_insert_2; [apply as_bytes_ok|done].
Qed.

Lemma insert_entries_typed regs bt :
  Forall (λ r : Mac * BootEntry, mac_ok r.1 ∧ wire_ok r.2) regs →
  map_Forall (λ mac (e : BootEntry), mac_ok mac ∧ wire_ok e) bt →
  map_Forall (λ mac (e : BootEntry), mac_ok mac ∧ wire_ok e) (insert_entries regs bt).
Proof.
  intros Hregs. revert bt. induction Hregs as [|[mac e] regs He _ IH]; intros bt Hbt; [done|].
  apply IH. by apply map_Forall_insert_2.
Qed.

Definition opt_typed (o : opt) : Prop :=
  match o with Pad => True | Opt code data => bytes_ok [code] ∧ bytes_ok data end.

Lemma encode_opts_typed os :
  Forall opt_typed os → Forall opt_ok os → bytes_ok (encode_opts os).
Proof.
  unfold encode_opts. induction 1 as [|o os Ho _ IH]; [constructor|].
  intros [Hok Hoks]%Forall_cons. cbn [fmap list_fmap mjoin list_join]. apply Forall_app.
  split; [|by apply IH]. destruct o as [|code data]; [by_compute|].
  destruct Ho as [Hcode Hdata]. cbn [encode_opt]. inversion_clear Hcode. 
  destruct Hok as (_ & _ & Hlen). apply Forall_cons_2; [done|]. apply Forall_cons_2; [fits_lia|done].
Qed.

(** A reply is a packet of at most 403 bytes. *)
Lemma reply_typed cfg op xid chaddr ip f :
  u8 op → bytes_ok chaddr → cfg_typed cfg →
  let reply := build_dhcp_reply op xid chaddr ip (px_server_ip cfg) (px_subnet_mask cfg)
                 (px_gateway cfg) (px_lease_secs cfg) f in
  bytes_ok reply ∧ (length reply ≤ 403)%nat.
Proof.
  intros Hop Hch Hcfg. cbv zeta. rewrite build_dhcp_reply_eq.
  pose proof (length_boot_bytes f) as Hf. split.
  - assert (bytes_ok (boot_bytes f)) as Hb by (apply Forall_take, as_bytes_ok).
    assert (∀ k, bytes_ok (replicate k 0)) as Hz by (intros k; apply Forall_replicate; by_compute).
    apply Forall_app. split; [|apply Forall_app; split; [by_compute|apply Forall_app; split; [|by_compute]]].
    + unfold reply_fixed, octets. rewrite !Forall_app.
      split_and!; first [apply to_be_bytes_ok|apply Hz|exact Hb|by apply Forall_take|by_compute].
    + apply encode_opts_typed; [|apply reply_options_ok]. unfold reply_options, octets.
      assert (∀ code z, u8 code → bytes_ok [code] ∧ bytes_ok (to_be_bytes 4 z)) as H4
        by (intros; split; [by apply Forall_singleton|apply to_be_bytes_ok]).
      rewrite !Forall_app. split_and!; [|destruct (px_gateway cfg)|].
      all: repeat (apply Forall_cons_2; [first [apply H4; by_compute
        |split; [by_compute|first [exact Hb|by apply Forall_singleton]]]|]); apply Forall_nil_2.
  - rewrite !length_app, length_reply_fixed. unfold reply_options, octets, encode_opts.
    destruct (px_gateway cfg); cbn [app fmap list_fmap mjoin list_join encode_opt];
      repeat (rewrite ?length_app, ?length_to_be_bytes; cbn [length]); cbn; lia.
Qed.

(** The address an answer gives is an address. *)
Lemma allocate_typed cfg mac bt leases secs now ip leases' :
  cfg_typed cfg → map_Forall (λ mac (e : BootEntry), mac_ok mac ∧ wire_ok e) bt →
  map_Forall (λ mac l, mac_ok mac ∧ u32 (ls_ip l)) leases → mac_ok mac →
  allocate_ip mac bt leases (px_pool_start cfg) (px_pool_end cfg) secs now = (ip, leases') →
  (∀ a, ip = Some a → u32 a) ∧ map_Forall (λ mac l, mac_ok mac ∧ u32 (ls_ip l)) leases'.
Proof.
  intros (_ & Hstart & Hend & _) Hbt Hleases Hmac Hal. unfold allocate_ip in Hal.
  destruct (bt !! mac ≫= be_ip) as [a|] eqn:Hstatic.
  { injection Hal as <- <-. split; [|done]. intros b [= <-].
    destruct (bt !! mac) as [e|] eqn:He; [|done]. cbn in Hstatic.
    destruct (Hbt mac e He) as [_ (_ & Hip & _)]. by rewrite Hstatic in Hip. }
  destruct (leases !! mac) as [l|] eqn:Hl; injection Hal as <- <-.
  - destruct (Hleases mac l Hl) as [_ Hip]. split; [by intros b [= <-]|]. by apply map_Forall_insert_2.
  - split; [|done]. intros a Ha. apply find_free_Some in Ha as (Hr & _). fits_lia.
Qed.

Section Types.
Context `{Bincode} `{!Codec (Mac * BootEntry), !Codec (list (string * BootEntry))}.
Context `{!Codec ControlOp, !Codec ControlReply}.
Context `{!CodecLaws (Mac * BootEntry)}.

Lemma dhcp_typed cfg env st datagram st' s :
  cfg_typed cfg → env_typed env → bytes_ok datagram → state_typed st →
  dhcp_datagram cfg env st datagram = Done (st', s) →
  state_typed st' ∧ Forall (λ '(target, reply), addr_ok target ∧ bytes_ok reply ∧ (length reply ≤ 403)%nat) s.
Proof.
  intros Hcfg [Hregs Hio] Hbytes [Hbt Hls Hdisk] Hd. apply Forall_app in Hregs as [Hr1 Hr2].
  destruct (dhcp_datagram_cases _ _ _ _ _ _ Hd) as [[-> ->]|(t & _ & _ & Ht & Heq)]; [by split|].
  pose proof (dg_mac_ok _ Hbytes) as Hmac. unfold dg_answer in Heq. rewrite dhcp_answer_eq in Heq.
  set (mac := dg_mac datagram) in *. set (entry := default (discovered_entry mac) (dh_boot st !! mac)) in *.
  assert (wire_ok entry) as Hentry.
  { unfold entry. destruct (dh_boot st !! mac) as [e|] eqn:He; [by apply (Hbt mac e)|by apply discovered_entry_typed]. }
  assert (map_Forall (λ mac (e : BootEntry), mac_ok mac ∧ wire_ok e) (answer_boot env st mac)) as Hboot.
  { apply insert_entries_typed; [done|]. by apply map_Forall_insert_2. }
  pose proof (write_script_typed cfg mac entry (de_io env) (dh_disk st) Hdisk Hio) as Hfiles.
  unfold answer_allocate in Heq.
  destruct (allocate_ip _ _ _ _ _ _ _) as [ip leases] eqn:Hal.
  destruct (allocate_typed _ _ _ _ _ _ _ _ Hcfg Hboot Hls Hmac Hal) as [Hip Hleases].
  destruct ip as [ip|]; injection Heq as -> ->; [|by split].
  specialize (Hip ip eq_refl). split.
  - split; cbn [dh_boot dh_leases dh_disk]; [by apply insert_entries_typed|by apply map_Forall_insert_2|done].
  - apply Forall_singleton. split; [destruct (negb _); (split; [first [exact Hip|by_compute]|by_compute])|].
    apply reply_typed; [destruct (t =? DHCPDISCOVER); by_compute|by apply Forall_take, Forall_drop, Forall_take|done].
Qed.

Lemma control_typed (env : PxeEnv) st stream :
  match pe_io env with IoFailed (Some left_over) => bytes_ok left_over | _ => True end →
  state_typed st → state_typed (control_plane env st stream).1.
Proof.
  intros Hio Hst. unfold control_plane, serve_connection, handle_payload.
  destruct (read_control_frame stream) as [payload|]; [|done].
  destruct (decode_control payload) as [[| | | | |tag inner]|e]; try done.
  rewrite dispatch_custom. destruct (tag =? "boot.register")%string.
  - destruct (decode_from_slice inner) as [[[mac entry] n]|e] eqn:Hdec; [|done].
    apply codec_sound in Hdec as [Hmac Hentry]. destruct Hst as [Hbt Hls Hdisk].
    split; cbn; [by apply map_Forall_insert_2|done|by apply write_script_typed].
  - by destruct (pxeboot_locked _ _ _) as [? []].
Qed.

(** C20: the daemon's state stays well typed: whatever datagrams and control connections arrive, keys are
    six-byte addresses, registered entries are valid strings and 32-bit addresses, leased
    addresses are 32-bit, files are bytes; and every packet the DHCP server sends is a
    string of at most 403 bytes, less than the 576 every client must take, to a valid
    address. *)
Theorem pxeboot_types cfg env (penv : PxeEnv) st datagram stream :
  cfg_typed cfg → env_typed env → bytes_ok datagram →
  match pe_io penv with IoFailed (Some left_over) => bytes_ok left_over | _ => True end →
  state_typed st →
  state_typed (control_plane penv st stream).1 ∧
  match dhcp_datagram cfg env st datagram with
  | Done (st', s) => state_typed st' ∧
      Forall (λ '(target, reply), addr_ok target ∧ bytes_ok reply ∧ (length reply ≤ 403)%nat) s
  | Panicked => True
  end.
Proof.
  intros Hcfg Henv Hbytes Hio Hst. split; [by apply control_typed|].
  destruct (dhcp_datagram cfg env st datagram) as [[st' s]|] eqn:Hd; [|done].
  by eapply dhcp_typed.
Qed.
End Types.

(** ** Witnesses *)

Module Witnesses.
Import Simple.
Import Dhcp.Witnesses.
#[local] Instance register_codec : Codec (Mac * BootEntry) := simple_codec _.
#[local] Instance list_codec : Codec (list (string * BootEntry)) := simple_codec _.
#[local] Instance register_laws : CodecLaws (Mac * BootEntry) := simple_codec_laws _.

Definition client : SocketAddr := V4 (ipv4 10 0 0 100) 2070.
Definition script : bytes := as_bytes (render_ipxe_script cfg m1 (discovered_entry m1)).

(** One block, whose first sending and first acknowledgement are lost. *)
Definition lossy : list (list loss) :=
  [[{| lose_block := true; lose_ack := false |}; {| lose_block := false; lose_ack := true |}]].

Lemma machine_boots_witness :
  ∃ st1 target1 offer, dhcp_datagram cfg env dhcp_init (Dhcp.Witnesses.request m1 1) = Done (st1, [(target1, offer)]) ∧
  ∃ st2 target2 ack, dhcp_datagram cfg env st1 (Dhcp.Witnesses.request m1 3) = Done (st2, [(target2, ack)]) ∧
  ∃ server block c,
    exchange client script server receiver_init (rounds_net lossy) = (Complete block, c)
    ∧ rc_data c = script.
Proof.
  destruct (machine_boots cfg env env dhcp_init (Dhcp.Witnesses.request m1 1)
    (Dhcp.Witnesses.request m1 3) (ipv4 10 0 0 100)) as (st1 & target1 & offer & H1 & _ & _ & Hnext);
    [by_compute|by vm_compute|by_compute|by_compute|by vm_compute|by vm_compute|done|done|done|done
    |by vm_compute|].
  exists st1, target1, offer. split; [exact H1|].
  destruct (Hnext st1 ltac:(by split))
    as (st2 & target2 & ack & H2 & _ & _ & name & _ & _ & server & _ & Hserve).
  exists st2, target2, ack. split; [exact H2|].
  destruct (Hserve client lossy) as (block & c & Hx & Hc & _); [by vm_compute|by_compute|].
  exists server, block, c. split; [exact Hx|exact Hc].
Defined.

Definition registration : BootEntry := {|
  be_hostname := "a"; be_ip := Some (ipv4 10 0 0 7); be_ipxe_script := Some "scripts/a.ipxe"%string;
  be_tags := ∅ |}.
Definition registration_frame : bytes := default [] (register_frame (m1, registration)).

Lemma registered_machine_boots_witness :
  ∃ st target reply,
    dhcp_datagram cfg env (control_plane Pxeboot.Witnesses.env dhcp_init registration_frame).1
      (Dhcp.Witnesses.request m1 3) = Done (st, [(target, reply)])
    ∧ take 4 (drop 16 reply) = [10; 0; 0; 7] ∧ from_utf8 (boot_field reply) = Some "scripts/a.ipxe"%string.
Proof.
  destruct (registered_machine_boots Pxeboot.Witnesses.env dhcp_init m1 registration registration_frame env
    (control_plane Pxeboot.Witnesses.env dhcp_init registration_frame).1 (Dhcp.Witnesses.request m1 3)
    DHCPREQUEST (ipv4 10 0 0 7) "scripts/a.ipxe")
    as (st & target & reply & Hd & Hy & _ & name & Hname & Hrrq & _).
  - by_compute.
  - by vm_compute.
  - done.
  - done.
  - split; [by_compute|]. split; by_compute.
  - by vm_compute.
  - done.
  - by vm_compute.
  - by_compute.
  - by vm_compute.
  - by right.
  - done.
  - exists st, target, reply. split; [exact Hd|]. split; [exact Hy|].
    revert Hd. vm_compute. intros [= _ _ <-]. reflexivity.
Defined.

Lemma pxeboot_types_witness :
  state_typed (run dhcp_init (Dhcp.Witnesses.request m1 1))
  ∧ Forall (λ '(target, reply), addr_ok target ∧ bytes_ok reply ∧ (length reply ≤ 403)%nat)
      (sent dhcp_init (Dhcp.Witnesses.request m1 1)).
Proof.
  assert (cfg_typed cfg) as Hcfg by (split_and!; try by_compute; by intros gw [=]).
  destruct (pxeboot_types cfg env Pxeboot.Witnesses.env dhcp_init (Dhcp.Witnesses.request m1 1) [] Hcfg)
    as [_ H]; [by split; [constructor|]|by_compute|done|split; apply map_Forall_empty|].
  unfold run, sent. destruct (dhcp_datagram cfg env dhcp_init _) as [[st' s]|] eqn:Hd; [exact H|].
  by vm_compute in Hd.
Defined.
End Witnesses.
