(* ===== verification/PxebootMain.v ===== *)
(** * Starting pxeboot (crates/pxeboot/src/main.rs, [main], [dhcp_server], [tftp_server])

    The program [main] up to the accept loop, and the beginnings of the two tasks it
    spawns, as the calls they make.  The two servers end on their own when they
    cannot have their sockets; [main] does not learn of it. *)

From S2P Require Import Prelude RustStd Os Wire Proto Control ControlSocket Tftp Dhcp Pxeboot.
Local Open Scope Z_scope.
Local Open Scope prog_scope.

(** ** The DHCP server's socket *)

(** How the beginning of a server task ends: it receives, it returned after logging
    the error, or it panicked. *)
Inductive server_start :=
| ServerReady
| ServerGone (e : io_error)
| ServerPanic.

#[global] Instance server_start_eq_dec : EqDecision server_start.
Proof. solve_decision. Defined.

(** [dhcp_server] up to its loop; the three options are set with [let _ =]. *)
Definition dhcp_server_start : prog server_start :=
  sock ←! act SocketNew;
  match sock with
  | Err e => Ret (ServerGone e)
  | Ok _ =>
    _ ←! act_each [SetReuseAddress true; SetReusePort true; SetBroadcast true];
    bound ←! act (SocketBind (V4 0 DHCP_SERVER_PORT));
    match bound with
    | Err e => Ret (ServerGone e)
    | Ok _ =>
      nonblocking ←! act (SetNonblocking true);
      match nonblocking with
      | Err _ => Ret ServerPanic
      | Ok _ =>
        udp ←! act FromStd;
        match udp with Err e => Ret (ServerGone e) | Ok _ => Ret ServerReady end
      end
    end
  end.

(** [tftp_server] up to its loop. *)
Definition tftp_server_start (bind_addr : SocketAddr) : prog server_start :=
  sock ←! act (UdpBind bind_addr);
  match sock with Err e => Ret (ServerGone e) | Ok _ => Ret ServerReady end.

(** ** [main] *)

Inductive start_error (E : Type) :=
| StartConfig (e : load_error E)
| StartIo (e : io_error).
Arguments StartConfig {E} e.
Arguments StartIo {E} e.

(** [format!("{}:69", cfg.server_ip)], parsed. *)
Definition tftp_bind (cfg : Dhcp.Config) : SocketAddr := V4 (px_server_ip cfg) 69.

(** The directories of the TFTP root. *)
Definition tftp_dirs (cfg : Dhcp.Config) : list sysop :=
  [CreateDirAll (as_bytes (px_tftp_root cfg));
   CreateDirAll (join (as_bytes (px_tftp_root cfg)) (as_bytes "scripts"))].

Definition server_tasks (cfg : Dhcp.Config) : list task :=
  [DhcpServer; TftpServer (as_bytes (px_tftp_root cfg)) (tftp_bind cfg)].

(** The head of [control_plane]. *)
Definition control_plane_open : prog (result io_error unit) :=
  control_socket (socket_path "pxeboot").

Section Main.
Context {E : Type} (parse : string → result E Dhcp.Config).

(** [main] up to the accept loop. *)
Definition main_program (config_path : path) : prog (result (start_error E) Dhcp.Config) :=
  raw ←! read_to_string config_path;
  match config_load parse (ok raw) with
  | Err e => Ret (Err (StartConfig e))
  | Ok cfg =>
    _ ←? map_err StartIo (act_all (tftp_dirs cfg));
    _ ←! spawn_all (server_tasks cfg);
    _ ←? map_err StartIo control_plane_open;
    Ret (Ok cfg)
  end.

(** Pxeboot starts its servers only with a configuration whose pool is not upside
    down and after the directories for the boot scripts exist; it then opens the
    control socket, whatever becomes of the servers, and nothing is undone when this
    last step fails. *)
Theorem main_program_spec (o : nat → ∀ c, reply c) config_path :
  let '(made, r) := run o 0 (main_program config_path) in
  match config_load parse (ok (o 0%nat (ReadToString config_path))) with
  | Err e => made = [ReadToString config_path] ∧ r = Err (StartConfig e)
  | Ok cfg =>
    px_pool_start cfg ≤ px_pool_end cfg ∧
    ∃ dirs rest, made = ReadToString config_path :: (Act <$> dirs) ++ rest ∧
    match rest with
    | [] => ∃ e, r = Err (StartIo e) ∧ act_outcome o 1 (tftp_dirs cfg) dirs (Err e)
    | _ => act_outcome o 1 (tftp_dirs cfg) dirs (Ok ())
      ∧ ∃ ctl ctl_r, rest = (Os.Spawn <$> server_tasks cfg) ++ ctl
        ∧ run o 5 control_plane_open = (ctl, ctl_r)
        ∧ r = match ctl_r with Ok _ => Ok cfg | Err e => Err (StartIo e) end
    end
  end.
Proof.
  unfold main_program. rewrite run_seq. cbn [run read_to_string call_os length Nat.add].
  destruct (config_load parse _) as [cfg|e] eqn:Hload; [|done].
  rewrite run_try, run_map_err.
  destruct (run_act_all o 1 (tftp_dirs cfg)) as (dirs & r & -> & Hout).
  assert (px_pool_start cfg ≤ px_pool_end cfg) as Hpool.
  { unfold config_load in Hload. repeat case_match; simplify_eq. lia. }
  destruct r as [u|e]; cycle 1.
  { split; [done|]. exists dirs, []. split; [by rewrite app_nil_r|]. by exists e. }
  rewrite run_seq, run_spawn_all, run_try, run_map_err.
  assert (1 + length (Act <$> dirs) + length (Os.Spawn <$> server_tasks cfg) = 5)%nat as ->.
  { destruct Hout as [-> _]. by rewrite !length_fmap. }
  destruct (run o 5 control_plane_open) as [ctl ctl_r].
  destruct u. destruct ctl_r as [v|e]; (split; [done|]).
  all: exists dirs, ((Os.Spawn <$> server_tasks cfg) ++ ctl).
  all: split; [by cbn; rewrite ?app_nil_r|split; [done|]].
  all: eexists ctl, _; (split; [done|]); split; reflexivity.
Qed.
End Main.

(** ** What the servers need *)

(** Which of the calls matter to the DHCP server. *)
Definition dhcp_needs : list (nat * sysop) :=
  [(0%nat, SocketNew); (4%nat, SocketBind (V4 0 DHCP_SERVER_PORT));
   (5%nat, SetNonblocking true); (6%nat, FromStd)].

(** The DHCP server receives exactly when its socket is made, bound to port 67 on all
    addresses and made nonblocking; the options it sets in between do not matter, and it
    panics exactly when that last change of mode fails on a bound socket. *)
Theorem dhcp_server_start_spec (o : nat → ∀ c, reply c) :
  let r := returns o dhcp_server_start in
  let works := λ p, o p.1 (Act p.2) = Ok () in
  (r = ServerReady ↔ Forall works dhcp_needs)
  ∧ (r = ServerPanic ↔ Forall works (take 2 dhcp_needs)
                       ∧ ∃ e, o 5%nat (Act (SetNonblocking true)) = Err e)
  ∧ (Forall works dhcp_needs → calls o dhcp_server_start
     = Act <$> [SocketNew; SetReuseAddress true; SetReusePort true; SetBroadcast true;
                SocketBind (V4 0 DHCP_SERVER_PORT); SetNonblocking true; FromStd]).
Proof.
  unfold returns, calls, dhcp_server_start, dhcp_needs. cbn [take]. rewrite !Forall_cons, Forall_nil.
  rewrite !run_seq. cbn.
  destruct (o 0%nat (Act SocketNew)) as [[]|e0]; cbn; [|naive_solver].
  destruct (o 4%nat _) as [[]|e1]; cbn; [|naive_solver].
  destruct (o 5%nat _) as [[]|e2]; cbn; [|naive_solver].
  destruct (o 6%nat _) as [[]|e3]; cbn; naive_solver.
Qed.

(** The TFTP server receives exactly when the server's address can be bound. *)
Theorem tftp_server_start_spec (o : nat → ∀ c, reply c) bind_addr :
  returns o (tftp_server_start bind_addr)
  = match o 0%nat (Act (UdpBind bind_addr)) with Ok _ => ServerReady | Err e => ServerGone e end.
Proof. unfold returns, tftp_server_start. rewrite run_seq. cbn. by destruct (o 0%nat _). Qed.
