(* ===== verification/Netgate.v ===== *)
(** * The netgate daemon (crates/netgate/src/main.rs)

    The DNS record table and the proxy rules, changed over the control socket, the
    task of a proxy rule, and start-up.  The DNS server is a stub that answers nothing;
    the copying of bytes between two connections is tokio's. *)

From S2P Require Import Prelude RustStd Os Wire Proto Control ControlSocket Startup.
Local Open Scope Z_scope.
Local Open Scope prog_scope.

(** ** Configuration and start-up *)

Record Config := {
  ng_dns_addr : SocketAddr;
  ng_domain : string;
  ng_tun_iface : option string;
}.

(** What serde fills in for missing fields. *)
Definition default_dns_addr : SocketAddr := V4 (ipv4 0 0 0 0) 5353.
Definition default_domain : string := "cluster.internal".

(** The text [main] parses when there is no file; a quote is the byte 34. *)
Definition default_toml : string :=
  let q := string_of_bytes [34] in
  "dns_addr = " +:+ q +:+ "0.0.0.0:5353" +:+ q +:+ string_of_bytes [10]
  +:+ "domain = " +:+ q +:+ "cluster.internal" +:+ q.

(** The head of [control_plane]. *)
Definition control_plane_open : prog (result io_error unit) :=
  control_socket (socket_path "netgate").

(** [main]: the built-in text is parsed with [unwrap]; [parse] is the TOML decoder. *)
Definition main_program {E} (parse : string → result E Config) (arg : option path) :
    prog (result (start_error E) Config) :=
  cfg ←? read_config parse
           match parse default_toml with Ok cfg => Ok cfg | Err _ => Err StartPanic end
           (config_path "netgate" arg);
  _ ←! spawn (DnsServer (ng_dns_addr cfg));
  _ ←? map_err StartIo control_plane_open;
  Ret (Ok cfg).

(** ** Data *)

Record DnsRecord := {
  dr_name : string;
  dr_ttl : Z;
  dr_addr : IpAddr;
}.

Record ProxyRule := {
  pr_id : string;
  pr_listen : SocketAddr;
  pr_target : SocketAddr;
}.

#[global] Instance DnsRecord_eq_dec : EqDecision DnsRecord.
Proof. solve_decision. Defined.
#[global] Instance ProxyRule_eq_dec : EqDecision ProxyRule.
Proof. solve_decision. Defined.

#[global] Instance DnsRecord_countable : Countable DnsRecord.
Proof.
  refine (inj_countable' (λ r, (dr_name r, dr_ttl r, dr_addr r))
            (λ x, {| dr_name := x.1.1; dr_ttl := x.1.2; dr_addr := x.2 |}) _).
  by intros [].
Defined.
#[global] Instance ProxyRule_countable : Countable ProxyRule.
Proof.
  refine (inj_countable' (λ r, (pr_id r, pr_listen r, pr_target r))
            (λ x, {| pr_id := x.1.1; pr_listen := x.1.2; pr_target := x.2 |}) _).
  by intros [].
Defined.

#[global] Instance DnsRecord_wire : WireOk DnsRecord := λ r,
  str_ok (dr_name r) ∧ u32 (dr_ttl r) ∧ ip_ok (dr_addr r).
#[global] Instance ProxyRule_wire : WireOk ProxyRule := λ r,
  str_ok (pr_id r) ∧ addr_ok (pr_listen r) ∧ addr_ok (pr_target r).
#[global] Instance DnsRecord_wire_dec (r : DnsRecord) : Decision (wire_ok r).
Proof. unfold wire_ok, DnsRecord_wire. apply _. Defined.
#[global] Instance ProxyRule_wire_dec (r : ProxyRule) : Decision (wire_ok r).
Proof. unfold wire_ok, ProxyRule_wire. apply _. Defined.

(** The two shared tables, and the proxy tasks started so far. *)
Record Netgate := {
  ng_dns : gmap string DnsRecord;
  ng_rules : list ProxyRule;
  ng_proxies : list ProxyRule;
}.

Definition netgate_init : Netgate := {| ng_dns := ∅; ng_rules := []; ng_proxies := [] |}.

Definition dns_upsert (rec : DnsRecord) (st : Netgate) : Netgate := {|
  ng_dns := <[dr_name rec := rec]> (ng_dns st); ng_rules := ng_rules st; ng_proxies := ng_proxies st |}.

(** A name that is not UTF-8 deletes nothing. *)
Definition dns_delete (inner : bytes) (st : Netgate) : Netgate :=
  match from_utf8 inner with
  | Some name => {|
      ng_dns := delete name (ng_dns st); ng_rules := ng_rules st; ng_proxies := ng_proxies st |}
  | None => st
  end.

(** Adding a rule: it is kept under the lock of the rules; its task is started once the
    lock is released. *)
Definition proxy_push (rule : ProxyRule) (st : Netgate) : Netgate := {|
  ng_dns := ng_dns st; ng_rules := ng_rules st ++ [rule]; ng_proxies := ng_proxies st |}.
Definition proxy_spawn (rule : ProxyRule) (st : Netgate) : Netgate := {|
  ng_dns := ng_dns st; ng_rules := ng_rules st; ng_proxies := ng_proxies st ++ [rule] |}.

(** ** The task of a proxy rule *)

(** What the listener's [accept] gives, and for an inbound connection what connecting
    to the target gives. *)
Inductive proxy_accept :=
| Inbound (connect : result io_error unit)
| AcceptError (e : io_error).

(** What becomes of it: bytes are copied both ways, or the connection is dropped, or the
    error is logged. *)
Inductive proxy_event :=
| Relayed (target : SocketAddr)
| ConnectFailed (target : SocketAddr)
| AcceptLogged.

(** [run_proxy_rule]: [None] when the task ends because the address cannot be bound;
    nothing else ends it. *)
Definition run_proxy_rule (bind : SocketAddr → result io_error unit) (rule : ProxyRule)
    (accepts : list proxy_accept) : option (list proxy_event) :=
  match bind (pr_listen rule) with
  | Err _ => None
  | Ok _ => Some ((λ a, match a with
                        | Inbound (Ok _) => Relayed (pr_target rule)
                        | Inbound (Err _) => ConnectFailed (pr_target rule)
                        | AcceptError _ => AcceptLogged
                        end) <$> accepts)
  end.

(** ** Control operations *)

Section Service.
Context `{Bincode} `{!Codec DnsRecord, !Codec ProxyRule}.

(** What an operation does until it has released the locks. *)
Definition netgate_locked (st : Netgate) (op : ControlOp) : Netgate * action :=
  match op with
  | Ping => (st, Reply ReplyOk)
  | Custom tag inner =>
    if (tag =? "dns.upsert")%string then
      match decode_from_slice (A := DnsRecord) inner with
      | Ok (rec, _) => (dns_upsert rec st, Reply ReplyOk)
      | Err e => (st, Reply (ReplyError (decode_error_to_string e)))
      end
    else if (tag =? "dns.delete")%string then (dns_delete inner st, Reply ReplyOk)
    else if (tag =? "proxy.add")%string then
      match decode_from_slice (A := ProxyRule) inner with
      | Ok (rule, _) => (proxy_push rule st, Reply ReplyOk)
      | Err e => (st, Reply (ReplyError (decode_error_to_string e)))
      end
    else (st, Reply (ReplyError ("unknown tag: " +:+ tag)))
  | Shutdown => (st, ExitProcess)
  | GetNodes | GetMaster | StepDown => (st, Reply (ReplyError "unsupported op"))
  end.

(** And afterwards. *)
Definition netgate_unlocked (op : ControlOp) : list (Netgate → Netgate) :=
  match op with
  | Custom tag inner =>
    if (tag =? "proxy.add")%string then
      match decode_from_slice (A := ProxyRule) inner with
      | Ok (rule, _) => [proxy_spawn rule]
      | Err _ => []
      end
    else []
  | _ => []
  end.

#[global] Instance netgate_service : ControlService unit Netgate := λ _ st op,
  in_stages (netgate_locked st op) (netgate_unlocked op).

#[global] Instance netgate_stages : ControlStages netgate_service.
Proof. by refine {| locked _ := netgate_locked; unlocked _ := netgate_unlocked |}. Defined.

#[global] Instance netgate_service_ok : ControlServiceOk netgate_service.
Proof.
  split; [done..|]. intros ? st op. unfold dispatch, netgate_service, in_stages. cbn [snd].
  unfold netgate_locked. destruct op; try done. repeat case_match; done.
Qed.

(** The tables the locks protect: whoever started first, a task changes neither. *)
#[global] Instance netgate_locked_part : LockedPart netgate_stages (λ st, (ng_dns st, ng_rules st)).
Proof.
  split.
  - intros [] op f st. cbn. unfold netgate_unlocked. repeat case_match; try by intros ?%not_elem_of_nil.
    by intros ->%list_elem_of_singleton.
  - intros [] st st' op [= Hd Hr]. cbn. unfold netgate_locked, dns_delete.
    repeat case_match; cbn; by rewrite ?Hd, ?Hr.
Qed.

(** One connection of [control_plane]. *)
Definition control_plane `{!Codec ControlOp, !Codec ControlReply} (st : Netgate) (stream : bytes) :
    Netgate * conn_end :=
  serve_connection () st stream.

(** The state after a sequence of operations, up to a Shutdown. *)
Fixpoint netgate_run (st : Netgate) (ops : list ControlOp) : Netgate :=
  match ops with
  | [] => st
  | op :: ops =>
    match dispatch () st op with
    | (st', Reply _) => netgate_run st' ops
    | (st', ExitProcess) => st'
    end
  end.

(** ** What the table is meant to be

    A name is mapped to the record of the last upsert for it, unless a delete of
    the name came after. *)

Definition dns_effect (op : ControlOp) (name : string) (old : option DnsRecord) : option DnsRecord :=
  match op with
  | Custom tag inner =>
    if (tag =? "dns.upsert")%string then
      match decode_from_slice (A := DnsRecord) inner with
      | Ok (rec, _) => if decide (dr_name rec = name) then Some rec else old
      | Err _ => old
      end
    else if (tag =? "dns.delete")%string then
      if decide (from_utf8 inner = Some name) then None else old
    else old
  | _ => old
  end.

Definition dns_spec (name : string) (ops : list ControlOp) (old : option DnsRecord) : option DnsRecord :=
  foldl (λ old op, dns_effect op name old) old ops.

Lemma dispatch_core st op :
  ng_dns (dispatch () st op).1 = ng_dns (netgate_locked st op).1
  ∧ ng_rules (dispatch () st op).1 = ng_rules (netgate_locked st op).1
  ∧ (dispatch () st op).2 = (netgate_locked st op).2.
Proof.
  unfold dispatch, netgate_service, in_stages, netgate_unlocked. cbn [fst snd].
  destruct op; try done. by repeat case_match.
Qed.

Lemma dispatch_dns st op name :
  ng_dns (dispatch () st op).1 !! name = dns_effect op name (ng_dns st !! name).
Proof.
  rewrite (proj1 (dispatch_core st op)). unfold netgate_locked. destruct op; try done. cbn [dns_effect].
  destruct (tag =? "dns.upsert")%string.
  { destruct (decode_from_slice payload) as [[rec k]|]; [|done]. cbn. case_decide as Hn.
    - subst name. by rewrite lookup_insert_eq.
    - by rewrite lookup_insert_ne. }
  destruct (tag =? "dns.delete")%string.
  { unfold dns_delete. cbn. destruct (from_utf8 payload) as [n|]; cbn; [|by rewrite decide_False].
    case_decide as Hn; simplify_eq; [by rewrite lookup_delete_eq|].
    rewrite lookup_delete_ne; [done|]. congruence. }
  destruct (tag =? "proxy.add")%string; [|done].
  by destruct (decode_from_slice payload) as [[]|].
Qed.

Lemma dispatch_rules st op :
  (ng_rules (dispatch () st op).1 = ng_rules st ∧ ng_proxies (dispatch () st op).1 = ng_proxies st) ∨
  ∃ rule, ng_rules (dispatch () st op).1 = ng_rules st ++ [rule]
          ∧ ng_proxies (dispatch () st op).1 = ng_proxies st ++ [rule].
Proof.
  unfold dispatch, netgate_service, in_stages. destruct op; try by left.
  unfold netgate_locked, netgate_unlocked. cbn [fst].
  destruct (tag =? "dns.upsert")%string eqn:H1.
  { apply String.eqb_eq in H1 as ->. cbn. by destruct (decode_from_slice payload) as [[]|]; left. }
  destruct (tag =? "dns.delete")%string eqn:H2.
  { apply String.eqb_eq in H2 as ->. cbn. unfold dns_delete. by destruct (from_utf8 payload); left. }
  destruct (tag =? "proxy.add")%string; [|by left].
  destruct (decode_from_slice payload) as [[rule k]|]; [right|by left]. by exists rule.
Qed.

(** C39: the DNS table implements last-writer-wins per name: after any sequence of
    control operations without a Shutdown a name has the record of its last upsert
    unless it was deleted afterwards; malformed records and names and all other
    operations have no effect on it. *)
Theorem dns_last_write (st : Netgate) ops name :
  Shutdown ∉ ops →
  ng_dns (netgate_run st ops) !! name = dns_spec name ops (ng_dns st !! name).
Proof.
  revert st. induction ops as [|op ops IH]; intros st Hops; [done|].
  apply not_elem_of_cons in Hops as [Hop Hops]. cbn [netgate_run].
  pose proof (dispatch_dns st op name) as Hd.
  assert (∃ r, (dispatch () st op).2 = Reply r) as [r Hr].
  { rewrite (proj2 (proj2 (dispatch_core st op))). unfold netgate_locked.
    destruct op; try done; try (by eexists). repeat (case_match; try by eexists). }
  destruct (dispatch () st op) as [st' a]. cbn in Hr, Hd. subst a.
  rewrite IH by done. unfold dns_spec. cbn [foldl]. by rewrite Hd.
Qed.

(** Every record of the DNS table sits under its own name, and, if its clients come one
    after the other, exactly one proxy task was started per rule, in the order of the
    rules. *)
Theorem netgate_invariant ops :
  let st := netgate_run netgate_init ops in
  map_Forall (λ name rec, dr_name rec = name) (ng_dns st) ∧ ng_proxies st = ng_rules st.
Proof.
  assert (∀ st, map_Forall (λ name rec, dr_name rec = name) (ng_dns st) ∧ ng_proxies st = ng_rules st →
    map_Forall (λ name rec, dr_name rec = name) (ng_dns (netgate_run st ops))
    ∧ ng_proxies (netgate_run st ops) = ng_rules (netgate_run st ops)) as Hgen.
  { induction ops as [|op ops IH]; intros st [Hdns Hrules]; [done|]. cbn [netgate_run].
    assert (map_Forall (λ name rec, dr_name rec = name) (ng_dns (dispatch () st op).1)
      ∧ ng_proxies (dispatch () st op).1 = ng_rules (dispatch () st op).1) as Hst'.
    { split.
      - intros name rec. rewrite dispatch_dns. unfold dns_effect. intros He.
        repeat case_match; simplify_eq; by eauto.
      - destruct (dispatch_rules st op) as [[-> ->]|(rule & -> & ->)]; by rewrite ?Hrules. }
    destruct (dispatch () st op) as [st' []]; [by apply IH|done]. }
  apply Hgen. split; [apply map_Forall_empty|done].
Qed.

(** ** Rules and tasks of concurrent clients

    A handler that has kept a rule still owes its task. *)

Definition owes (h : handler Netgate) (r : option ProxyRule) : Prop :=
  match h, r with
  | Working [f] _, Some rule => f = proxy_spawn rule
  | Working [] _, None | Reading _, None | Finished _, None => True
  | _, _ => False
  end.

Context `{!Codec ControlOp, !Codec ControlReply}.

Lemma owes_start st payload :
  let '(st', h) := start_operation () st payload in
  ng_proxies st' = ng_proxies st ∧
  ∃ r, owes h r ∧ ng_rules st' = ng_rules st ++ option_list r.
Proof.
  unfold start_operation. destruct (decode_control payload) as [op|e]; cycle 1.
  { split; [done|]. exists None. by rewrite app_nil_r. }
  cbn. unfold netgate_locked, netgate_unlocked. destruct op as [| | | | |tag inner];
    try (split; [done|]; exists None; by rewrite app_nil_r).
  destruct (tag =? "dns.upsert")%string eqn:H1.
  { apply String.eqb_eq in H1 as ->. cbn.
    destruct (decode_from_slice inner) as [[]|]; (split; [done|]); exists None; by rewrite app_nil_r. }
  destruct (tag =? "dns.delete")%string eqn:H2.
  { apply String.eqb_eq in H2 as ->. cbn. unfold dns_delete.
    destruct (from_utf8 inner); (split; [done|]); exists None; by rewrite app_nil_r. }
  destruct (tag =? "proxy.add")%string; [|split; [done|]; exists None; by rewrite app_nil_r].
  destruct (decode_from_slice inner) as [[rule k]|]; (split; [done|]);
    [by exists (Some rule)|exists None; by rewrite app_nil_r].
Qed.

Lemma owed_insert (rs : list (option ProxyRule)) i r r' :
  rs !! i = Some r → option_list r ++ omap id (<[i := r']> rs) ≡ₚ option_list r' ++ omap id rs.
Proof.
  intros Hi. rewrite <-(take_drop_middle rs i r Hi) at 2.
  rewrite insert_take_drop by by eapply lookup_lt_Some. rewrite !omap_app.
  destruct r, r'; cbn; by rewrite <-?Permutation_middle; try apply perm_swap.
Qed.

Lemma owes_step l (ev : socket_event unit) rs :
  Forall2 owes (handlers l) rs → ng_rules (served l) ≡ₚ ng_proxies (served l) ++ omap id rs →
  let l' := socket_step l ev in
  ∃ rs', Forall2 owes (handlers l') rs' ∧ ng_rules (served l') ≡ₚ ng_proxies (served l') ++ omap id rs'.
Proof.
  intros Hall Hperm. unfold socket_step.
  assert (∀ i h h', handlers l !! i = Some h → owes h None → owes h' None →
    ∃ rs', Forall2 owes (<[i := h']> (handlers l)) rs'
      ∧ ng_rules (served l) ≡ₚ ng_proxies (served l) ++ omap id rs') as Hkeep.
  { intros i h h' Hi Ho Ho'. destruct (Forall2_lookup_l _ _ _ _ _ Hall Hi) as (r & Hr & Hor).
    assert (r = None) as -> by by destruct h as [|[|? []]|], r.
    exists rs. split; [|done]. rewrite <-(list_insert_id rs i None) by done. by apply Forall2_insert. }
  destruct (ending l); [|by exists rs..].
  destruct ev as [[[]|]|i bs []|i|i]; cbn [served handlers]; [|by exists rs|..].
  - exists (rs ++ [None]). rewrite omap_app, app_nil_r. split; [by apply Forall2_app; [|constructor]|done].
  - destruct (handlers l !! i) as [[got| |]|] eqn:Hi; [|by exists rs..].
    destruct (handler_reading _) as [| |payload]; [by eapply Hkeep..|].
    pose proof (owes_start (served l) payload) as Hs.
    destruct (start_operation () (served l) payload) as [st h]. destruct Hs as (Hp & r' & Hr' & Hrules).
    destruct (Forall2_lookup_l _ _ _ _ _ Hall Hi) as (r & Hr & Hor).
    assert (r = None) as -> by by destruct r. exists (<[i := r']> rs).
    split; [by apply Forall2_insert|]. cbn. rewrite Hp, Hrules, Hperm, <-app_assoc. f_equiv.
    rewrite Permutation_app_comm. symmetry. exact (owed_insert rs i None r' Hr).
  - destruct (handlers l !! i) as [[got| |]|] eqn:Hi; [|by exists rs..]. by eapply Hkeep.
  - destruct (handlers l !! i) as [[got|[|f steps] answer|e]|] eqn:Hi; [by exists rs| | |by exists rs..].
    + by eapply Hkeep.
    + destruct (Forall2_lookup_l _ _ _ _ _ Hall Hi) as (r & Hr & Hor).
      destruct steps; [|done]. destruct r as [rule|]; [|done]. cbn in Hor. subst f.
      exists (<[i := None]> rs). split; [by apply Forall2_insert|]. cbn.
      rewrite Hperm, <-app_assoc. f_equiv. symmetry. exact (owed_insert rs i _ None Hr).
Qed.

(** With concurrent clients the tasks may start in another order than the rules were kept, but
    none is forgotten: the rules are those whose tasks run, and those of handlers that are
    still to start theirs. *)
Theorem proxies_follow_rules (events : list (socket_event unit)) :
  let l := socket_run netgate_init events in
  ∃ rs, Forall2 owes (handlers l) rs
    ∧ ng_rules (served l) ≡ₚ ng_proxies (served l) ++ omap id rs.
Proof.
  unfold socket_run. cbv zeta. induction events as [|ev events (rs & Hall & Hperm)] using rev_ind.
  - exists []. split; [constructor|done].
  - rewrite foldl_app. by apply (owes_step _ ev rs).
Qed.

(** A rule is acknowledged and kept whether or not its address can be bound: the task
    of a rule whose listener cannot be had is gone, and nothing says so.  The task of any
    other rule answers every connection with its own target, and never ends. *)
Theorem proxy_add_unchecked (bind : SocketAddr → result io_error unit) (st : Netgate) rule n inner :
  decode_from_slice (A := ProxyRule) inner = Ok (rule, n) →
  let '(st', a) := dispatch () st (Custom "proxy.add" inner) in
  a = Reply ReplyOk ∧ ng_rules st' = ng_rules st ++ [rule] ∧ last (ng_proxies st') = Some rule ∧
  ∀ accepts, match run_proxy_rule bind rule accepts with
    | None => is_ok (bind (pr_listen rule)) = false
    | Some events => is_ok (bind (pr_listen rule)) = true ∧ length events = length accepts
        ∧ ∀ t, Relayed t ∈ events ∨ ConnectFailed t ∈ events → t = pr_target rule
    end.
Proof.
  intros Hdec. unfold dispatch, netgate_service, in_stages, netgate_locked, netgate_unlocked. cbn.
  rewrite Hdec. cbn.
  split; [done|]. split; [done|]. split; [by rewrite last_snoc|]. intros accepts. unfold run_proxy_rule.
  destruct (bind (pr_listen rule)) as [u|e]; [|done].
  split; [done|]. split; [by rewrite length_fmap|].
  intros t [Hin|Hin]; apply list_elem_of_fmap in Hin as (a & Ha & _); repeat case_match; congruence.
Qed.
End Service.

(** ** Witnesses *)

Module Witnesses.
Import Simple.
#[local] Instance dns_codec : Codec DnsRecord := simple_codec _.
#[local] Instance rule_codec : Codec ProxyRule := simple_codec _.

Definition rec (ttl : Z) : DnsRecord := {| dr_name := "a"; dr_ttl := ttl; dr_addr := IpV4 7 |}.
Definition upsert (ttl : Z) : ControlOp := Custom "dns.upsert" (bits_of_pos (encode (rec ttl))).

Lemma dns_last_write_witness :
  ng_dns (netgate_run netgate_init
    [upsert 1; Custom "dns.delete" [97]; upsert 2; Custom "dns.delete" [255]]) !! "a"%string
  = Some (rec 2).
Proof.
  refine (eq_trans (dns_last_write netgate_init _ "a" _) _); by_compute.
Defined.

(** Two clients add a rule each; the task of the second starts first. *)
Definition rule (id : string) : ProxyRule :=
  {| pr_id := id; pr_listen := V4 0 80; pr_target := V4 1 80 |}.
Definition add_frame (id : string) : bytes :=
  frame (bits_of_pos (encode (Custom "proxy.add" (bits_of_pos (encode (rule id)))))) [].

Definition two_clients : list (socket_event unit) :=
  [Accepted (Ok ()); Accepted (Ok ()); Received 0 (add_frame "a") (); Received 1 (add_frame "b") ();
   Resumed 1; Resumed 0].

Lemma tasks_out_of_order :
  let st := served (socket_run netgate_init two_clients) in
  ng_rules st = [rule "a"; rule "b"] ∧ ng_proxies st = [rule "b"; rule "a"].
Proof. cbv zeta. by_compute. Qed.

(** A system on which the directory of the socket cannot be made. *)
Definition no_directory (i : nat) (c : call) : reply c :=
  match c with Act (CreateDirAll _) => Err (IoError "denied") | c => working_os true c end.

Lemma control_socket_calls_witness :
  let p := socket_path "netgate" in
  ∃ before a after,
    [RemoveFile p; CreateDirAll (as_bytes SOCKET_DIR); UnixBind p; SetPermissions p 432]
      = before ++ a :: after
    ∧ calls no_directory (control_socket p) = PathExists p :: (Act <$> before ++ [a])
    ∧ no_directory (S (length before)) (Act a) = Err (IoError "denied").
Proof.
  intros p. pose proof (control_socket_calls no_directory "netgate" ltac:(by_compute)) as H.
  unfold calls. cbv zeta in H.
  destruct (run no_directory 0 (control_socket (socket_path "netgate"))) as [made r] eqn:Hrun.
  assert (r = Err (IoError "denied")) as -> by (apply (f_equal snd) in Hrun; by vm_compute in Hrun).
  destruct H as (before & a & after & Hsteps & Hmade & He & _). exists before, a, after.
  split; [exact Hsteps|]. split; [|exact He]. unfold p. by rewrite Hrun.
Defined.
End Witnesses.
