(* ===== verification/Netop.v ===== *)
(** * The netop daemon (crates/netop/src/main.rs)

    The desired state, set over the control socket, and the reconciliation loop,
    whose body visits the rules and interfaces of the state but does not yet apply
    them, and the daemon's start-up. *)

From S2P Require Import Prelude RustStd Os Wire Proto Control ControlSocket Startup.
Local Open Scope Z_scope.
Local Open Scope prog_scope.

(** ** Configuration *)

Record Config := { no_reconcile_secs : Z }.

(** What serde fills in for a missing field of a configuration file. *)
Definition default_reconcile_secs : Z := 5.

(** The derived [Config::default()]: every field is its type's default. *)
Definition config_default : Config := {| no_reconcile_secs := 0 |}.

(** The head of [control_plane]. *)
Definition control_plane_open : prog (result io_error unit) :=
  control_socket (socket_path "netop").

(** [main]: [parse] is the TOML decoder. *)
Definition main_program {E} (parse : string → result E Config) (arg : option path) :
    prog (result (start_error E) Config) :=
  cfg ←? read_config parse (Ok config_default) (config_path "netop" arg);
  _ ←! spawn (ReconcileLoop (from_secs (no_reconcile_secs cfg)));
  _ ←? map_err StartIo control_plane_open;
  Ret (Ok cfg).

(** ** The desired state *)

Inductive IfaceKind :=
| Veth (peer : string)
| Bridge
| Tun (tap : bool)
| Vxlan (vni : Z) (remote : Ipv4Addr).

Record IfaceSpec := {
  if_name : string;
  if_kind : IfaceKind;
  if_addresses : list IpAddr;
  if_up : bool;
}.

Record NftRule := { nr_json : string }.

Record DesiredState := {
  ds_interfaces : list IfaceSpec;
  ds_nft_rules : list NftRule;
}.

Definition desired_default : DesiredState := {| ds_interfaces := []; ds_nft_rules := [] |}.

#[global] Instance IfaceKind_eq_dec : EqDecision IfaceKind.
Proof. solve_decision. Defined.
#[global] Instance IfaceSpec_eq_dec : EqDecision IfaceSpec.
Proof. solve_decision. Defined.
#[global] Instance NftRule_eq_dec : EqDecision NftRule.
Proof. solve_decision. Defined.
#[global] Instance DesiredState_eq_dec : EqDecision DesiredState.
Proof. solve_decision. Defined.

#[global] Instance IfaceKind_countable : Countable IfaceKind.
Proof.
  refine (inj_countable'
    (λ k, match k with
          | Veth p => inl (inl p) | Bridge => inl (inr None) | Tun t => inl (inr (Some t))
          | Vxlan v r => inr (v, r)
          end)
    (λ x, match x with
          | inl (inl p) => Veth p | inl (inr None) => Bridge | inl (inr (Some t)) => Tun t
          | inr (v, r) => Vxlan v r
          end) _).
  by intros [].
Defined.
#[global] Instance IfaceSpec_countable : Countable IfaceSpec.
Proof.
  refine (inj_countable' (λ s, ((if_name s, if_kind s), (if_addresses s, if_up s)))
    (λ x, {| if_name := x.1.1; if_kind := x.1.2; if_addresses := x.2.1; if_up := x.2.2 |}) _).
  by intros [].
Defined.
#[global] Instance NftRule_countable : Countable NftRule.
Proof. refine (inj_countable' nr_json Build_NftRule _). by intros []. Defined.
#[global] Instance DesiredState_countable : Countable DesiredState.
Proof.
  refine (inj_countable' (λ s, (ds_interfaces s, ds_nft_rules s))
            (λ x, {| ds_interfaces := x.1; ds_nft_rules := x.2 |}) _).
  by intros [].
Defined.

Definition kind_ok (k : IfaceKind) : Prop :=
  match k with
  | Veth peer => str_ok peer
  | Vxlan vni remote => u32 vni ∧ u32 remote
  | _ => True
  end.
#[global] Instance kind_ok_dec k : Decision (kind_ok k).
Proof. unfold kind_ok. destruct k; apply _. Defined.

#[global] Instance DesiredState_wire : WireOk DesiredState := λ s,
  Forall (λ i, str_ok (if_name i) ∧ kind_ok (if_kind i) ∧ Forall ip_ok (if_addresses i)) (ds_interfaces s)
  ∧ Forall (λ r, str_ok (nr_json r)) (ds_nft_rules s).
#[global] Instance DesiredState_wire_dec (s : DesiredState) : Decision (wire_ok s).
Proof. unfold wire_ok, DesiredState_wire. apply _. Defined.

(** ** Reconciliation *)

(** What a reconciliation visits, in order. *)
Inductive visit := VisitRule (json : string) | VisitInterface (name : string).

Definition reconcile (state : DesiredState) : list visit :=
  (VisitRule ∘ nr_json <$> ds_nft_rules state) ++ (VisitInterface ∘ if_name <$> ds_interfaces state).

(** The loop creates its timer first, [interval] being tokio's; then it visits, at every
    tick, the state it finds. *)
Definition reconcile_loop (interval : Duration → outcome unit) (period : Duration)
    (states : list DesiredState) : outcome (list (list visit)) :=
  _ ← interval period; Done (reconcile <$> states).

(** ** Control operations *)

Section Service.
Context `{Bincode} `{!Codec DesiredState}.

#[global] Instance netop_service : ControlService unit DesiredState := λ _ st op,
  match op with
  | Ping => (st, Reply ReplyOk)
  | Custom tag inner =>
    if (tag =? "state.set")%string then
      match decode_from_slice (A := DesiredState) inner with
      | Ok (new_state, _) => (new_state, Reply ReplyOk)
      | Err e => (st, Reply (ReplyError (decode_error_to_string e)))
      end
    else (st, Reply (ReplyError ("unknown tag: " +:+ tag)))
  | Shutdown => (st, ExitProcess)
  | GetNodes | GetMaster | StepDown => (st, Reply (ReplyError "unsupported op"))
  end.

#[global] Instance netop_service_ok : ControlServiceOk netop_service.
Proof. split; [done..|solve_exit netop_service]. Qed.

(** Replacing the state is one write under its lock. *)
#[global] Instance netop_stages : ControlStages netop_service := one_stage _.
#[global] Instance netop_locked_part : LockedPart netop_stages (λ st, st) := one_stage_locked _.

Context `{!Codec ControlOp, !Codec ControlReply}.

(** One connection of [control_plane]. *)
Definition control_plane (st : DesiredState) (stream : bytes) : DesiredState * conn_end :=
  serve_connection () st stream.

Context `{!CodecLaws DesiredState, !CodecLaws ControlOp, !CodecLaws ControlReply}.

(** Setting the desired state over the control socket replaces it as a whole:
    after the answer Ok, whatever the state was before, the next reconciliation
    visits exactly the rules and then the interfaces that were sent, in order. *)
Theorem state_set_over_socket (st new_state : DesiredState) inner op_payload ok_payload :
  let op := Custom "state.set" inner in
  wire_ok new_state → encode_to_vec new_state = Ok inner →
  encode_to_vec op = Ok op_payload → Z.of_nat (length op_payload) ≤ MAX_CONTROL_PAYLOAD →
  encode_to_vec ReplyOk = Ok ok_payload → Z.of_nat (length ok_payload) ≤ MAX_CONTROL_PAYLOAD →
  let st' := (control_plane st (frame op_payload [])).1 in
  send_op (λ request, received (control_plane st request).2) op = Done (Ok ReplyOk) ∧
  st' = new_state ∧
  reconcile st' = (VisitRule ∘ nr_json <$> ds_nft_rules new_state)
                  ++ (VisitInterface ∘ if_name <$> ds_interfaces new_state).
Proof.
  intros op Hok Hinner Hop Hlen Hrep Hrlen st'.
  assert (wire_ok op) as Hopok by (split; [by_compute|exact (codec_bytes _ _ Hinner)]).
  assert (dispatch () st op = (new_state, Reply ReplyOk)) as Hd.
  { unfold dispatch, netop_service. cbn. by rewrite (codec_roundtrip _ _ Hok Hinner). }
  destruct (exchange_reply () st _ op op_payload ReplyOk ok_payload Hopok Hop Hlen Hd I Hrep)
    as [Hst Hx]. subst st'. unfold control_plane. rewrite Hst.
  cbv zeta in Hx. by rewrite (proj2 (Z.leb_le _ _) Hrlen) in Hx.
Qed.
End Service.

(** Without a configuration file the daemon never reconciles: the derived default
    configuration has a period of zero, not the five seconds the documentation and
    the file's default give, and a timer of period zero panics, which ends the
    reconciliation task.  [interval] is any timer constructor with that documented
    behaviour.  The daemon comes up all the same and acknowledges desired states. *)
Theorem default_config_never_reconciles {E} (parse : string → result E Config)
    (interval : Duration → outcome unit) (o : nat → ∀ c, reply c) arg :
  interval 0 = Panicked → o 0%nat (PathExists (config_path "netop" arg)) = false →
  (∀ i a, o i (Act a) = Ok ()) →
  returns o (main_program parse arg) = Ok config_default ∧
  no_reconcile_secs config_default ≠ default_reconcile_secs ∧
  ∃ period, Spawn (ReconcileLoop period) ∈ calls o (main_program parse arg)
    ∧ ∀ states, reconcile_loop interval period states = Panicked.
Proof.
  intros Hzero Hfile Hos. unfold returns, calls, main_program.
  rewrite (run_starts parse (Ok config_default) o "netop"
    (λ cfg, [Spawn (ReconcileLoop (from_secs (no_reconcile_secs cfg)))])); cycle 1.
  { intros cfg i. rewrite run_seq. cbn [run spawn call_os length].
    rewrite run_try, run_map_err. unfold control_plane_open.
    rewrite run_control_socket, until_failure_ok by (done || by_compute). cbn.
    rewrite !until_failure_ok, Nat.add_1_r, app_nil_r by done. done. }
  unfold starts. rewrite Hfile, until_failure_ok by done. cbn [fst snd].
  split; [done|]. split; [done|].
  exists (from_secs 0). split; [set_solver|].
  intros states. unfold reconcile_loop. change (from_secs 0) with 0. by rewrite Hzero.
Qed.

(** ** Witnesses *)

Module Witnesses.
Import Simple.
#[local] Instance state_codec : Codec DesiredState := simple_codec _.
#[local] Instance state_laws : CodecLaws DesiredState := simple_codec_laws _.

Definition wanted : DesiredState := {|
  ds_interfaces := [{| if_name := "b"; if_kind := Bridge; if_addresses := [IpV4 7]; if_up := true |}];
  ds_nft_rules := [{| nr_json := "x" |}] |}.

Lemma state_set_over_socket_witness :
  reconcile (control_plane desired_default
    (frame (bits_of_pos (encode (Custom "state.set" (bits_of_pos (encode wanted))))) [])).1
  = [VisitRule "x"; VisitInterface "b"].
Proof.
  refine (proj2 (proj2 (state_set_over_socket desired_default wanted _ _ _ _ eq_refl eq_refl _ eq_refl _)));
    by_compute.
Defined.

(** tokio's constructor panics at a zero period and succeeds otherwise. *)
Definition tokio_interval (d : Duration) : outcome unit := if d =? 0 then Panicked else Done ().

Lemma default_config_never_reconciles_witness :
  let o := (λ _ c, working_os false c) in
  let netop := main_program (λ _, @Ok unit _ config_default) None in
  ∃ period, Spawn (ReconcileLoop period) ∈ calls o netop
    ∧ ∀ states, reconcile_loop tokio_interval period states = Panicked.
Proof.
  cbv zeta.
  destruct (default_config_never_reconciles (λ _ : string, @Ok unit _ config_default) tokio_interval
    (λ _ c, working_os false c) None eq_refl eq_refl (λ _ _, eq_refl)) as (_ & _ & H). exact H.
Defined.
End Witnesses.
