(* ===== verification/Imager.v ===== *)
(** * The imager daemon (crates/imager/src/main.rs)

    The chunk request frame, hashing a file block by block, and the control
    operations on the image catalog.  The hash function is a parameter: what the
    code relies on is that feeding it two pieces is feeding it their concatenation.
    Creating an image with qemu-img and the daemon's start-up are programs of [Os]. *)

From S2P Require Import Prelude RustStd Os Wire Proto Control ControlSocket Startup.
Local Open Scope Z_scope.
Local Open Scope prog_scope.

Definition CHUNK_SIZE : Z := 64 * 1024.
Definition default_store_dir : string := "/var/lib/hivebus/images".
Definition default_chunk_port : Z := 7779.

Record Config := {
  im_store_dir : string;
  im_chunk_port : Z;
}.

Definition config_default : Config := {|
  im_store_dir := default_store_dir; im_chunk_port := default_chunk_port |}.

(** The head of [control_plane]. *)
Definition control_plane_open : prog (result io_error unit) :=
  control_socket (socket_path "imager").

(** [main]; [parse] is the TOML decoder. *)
Definition main_program {E} (parse : string → result E Config) (arg : option path) :
    prog (result (start_error E) Config) :=
  cfg ←? read_config parse (Ok config_default) (config_path "imager" arg);
  _ ←? map_err StartIo (act (CreateDirAll (as_bytes (im_store_dir cfg))));
  _ ←? map_err StartIo control_plane_open;
  Ret (Ok cfg).

(** ** Creating an image *)

Inductive qcow2_error := LaunchFailed (e : io_error) | QemuFailed (status : Z).

(** [create_qcow2]: one run of qemu-img on a path in the store. *)
Definition create_qcow2 (store_dir id : string) (size_gb : Z) : prog (result qcow2_error path) :=
  let p := join (as_bytes store_dir) (as_bytes (id +:+ ".qcow2")) in
  seq_prog (command "qemu-img" [as_bytes "create"; as_bytes "-f"; as_bytes "qcow2"; p;
                                as_bytes (pretty size_gb +:+ "G")]) (λ status,
  Ret match status with
      | Err e => Err (LaunchFailed e)
      | Ok status => if status =? 0 then Ok p else Err (QemuFailed status)
      end).

(** ** The catalog *)

Inductive ImageKind := Kvm | Lxc | Container.

Record ImageEntry := {
  ie_id : string;
  ie_kind : ImageKind;
  ie_blake3 : string;
  ie_sha256 : option string;
  ie_size_bytes : Z;
  ie_path : string;
}.

Abbreviation Catalog := (gmap string ImageEntry) (only parsing).

(** ** Chunk frames *)

Inductive ChunkCmd := Request | Send | CList | Nack.

(** [cmd as u8] *)
Definition ChunkCmd_as_u8 (c : ChunkCmd) : Z :=
  match c with Request => 1 | Send => 2 | CList => 3 | Nack => 4 end.

Definition build_request (chunk_idx : Z) (digest : bytes) : bytes :=
  [ChunkCmd_as_u8 Request] ++ to_be_bytes 4 chunk_idx ++ digest.

(** The documented layout of a chunk frame, as a reader of it would parse it: command,
    index, digest, data length, data. *)
Record chunk_frame := {
  cf_cmd : Z;
  cf_idx : Z;
  cf_digest : bytes;
  cf_data : bytes;
}.

Definition parse_chunk_frame (bs : bytes) : option chunk_frame :=
  '(cmd, r) ← read_exact 1 bs;
  '(idx, r) ← read_exact 4 r;
  '(digest, r) ← read_exact 32 r;
  '(len, r) ← read_exact 4 r;
  '(data, _) ← read_exact (Z.to_nat (from_be_bytes len)) r;
  Some {| cf_cmd := from_be_bytes cmd; cf_idx := from_be_bytes idx; cf_digest := digest; cf_data := data |}.

(** ** Hashing a file *)

(** The incremental interface of the hash function. *)
Class Hasher := {
  hstate : Type;
  hasher_new : hstate;
  hasher_update : hstate → bytes → hstate;
  finalize_hex : hstate → string;
}.

(** The loop of [blake3_hash_file] on what the successive reads return; [None] means
    that it is still reading. *)
Fixpoint hash_loop {E} `{Hasher} (h : hstate) (reads : list (result E bytes)) : option (result E string) :=
  match reads with
  | [] => None
  | Err e :: _ => Some (Err e)
  | Ok [] :: _ => Some (Ok (finalize_hex h))
  | Ok chunk :: reads => hash_loop (hasher_update h chunk) reads
  end.

Definition blake3_hash_file {E} `{Hasher} (reads : list (result E bytes)) : option (result E string) :=
  hash_loop hasher_new reads.

(** An image is created by one run of qemu-img on the path that is returned, and only a
    run that exits with zero counts.  An id without a slash names a file in the store
    directory; an absolute id names a file outside it, because joining an absolute path
    drops the directory. *)
Theorem create_qcow2_spec (o : nat → ∀ c, reply c) store_dir id size_gb :
  let '(made, r) := run o 0 (create_qcow2 store_dir id size_gb) in
  ∃ p args, made = [Command "qemu-img" args] ∧ args !! 3%nat = Some p ∧
    (r = Ok p ↔ o 0%nat (Command "qemu-img" args) = Ok 0) ∧ (∀ q, r = Ok q → q = p) ∧
    (47 ∉ as_bytes id →
      components p = components (as_bytes store_dir) ++ [Normal (as_bytes id ++ as_bytes ".qcow2")]) ∧
    (head (as_bytes id) = Some 47 → p = as_bytes id ++ as_bytes ".qcow2").
Proof.
  unfold create_qcow2. rewrite run_seq. cbn [run command call_os].
  set (p := join _ _). set (args := [_; _; _; p; _]). exists p, args.
  split; [done|]. split; [done|].
  split; [|split; [|split]].
  - destruct (o 0%nat _) as [status|e]; [|done]. destruct (Z.eqb_spec status 0) as [->|]; [done|].
    split; [done|congruence].
  - intros q. repeat case_match; congruence.
  - intros Hid. subst p. unfold join. rewrite as_bytes_app. apply components_push.
    split; [by destruct (as_bytes id)|]. split.
    + intros [?|Hin]%elem_of_app; [done|]. revert Hin. by_compute.
    + split; intros Heq; apply (f_equal length) in Heq; rewrite length_app in Heq; cbn in Heq; lia.
  - intros Hid. subst p. unfold join. rewrite as_bytes_app. unfold push.
    destruct (as_bytes id) as [|b bs]; [done|]. injection Hid as ->. done.
Qed.

(** ** Control operations *)

Section Service.
Context `{Bincode} `{!Codec (list ImageEntry)}.

Definition handle_image_cmd (it : HashIter string ImageEntry) (tag : string) (catalog : Catalog) :
    ControlReply :=
  if (tag =? "image.list")%string then
    match encode_to_vec (hash_values catalog) with
    | Ok data => ReplyData "image.list" data
    | Err e => ReplyError (encode_error_to_string e)
    end
  else if (tag =? "image.create_kvm")%string then ReplyOk
  else if (tag =? "image.push")%string then ReplyOk
  else ReplyError ("unknown tag: " +:+ tag).

#[global] Instance imager_service : ControlService (HashIter string ImageEntry) (gmap string ImageEntry) :=
  λ it st op,
  match op with
  | Ping => (st, Reply ReplyOk)
  | Custom tag _ => (st, Reply (handle_image_cmd it tag st))
  | Shutdown => (st, ExitProcess)
  | GetNodes | GetMaster | StepDown => (st, Reply (ReplyError "unsupported op"))
  end.

#[global] Instance imager_service_ok : ControlServiceOk imager_service.
Proof. split; [done..|solve_exit imager_service]. Qed.

(** The catalog is read under one lock. *)
#[global] Instance imager_stages : ControlStages imager_service := one_stage _.
#[global] Instance imager_locked_part : LockedPart imager_stages (λ st, st) := one_stage_locked _.

(** One connection of [control_plane]. *)
Definition control_plane `{!Codec ControlOp, !Codec ControlReply} (it : HashIter string ImageEntry)
    (catalog : Catalog) (stream : bytes) : Catalog * conn_end :=
  serve_connection it catalog stream.

Definition imager_init : gmap string ImageEntry := ∅.

(** The catalog after a sequence of operations. *)
Definition imager_run (it : HashIter string ImageEntry) (ops : list ControlOp) : gmap string ImageEntry :=
  foldl (λ st op, (dispatch it st op).1) imager_init ops.

(** The catalog stays empty: no control operation puts an image into it, so
    from the empty catalog the daemon starts with, image.list always reports the
    empty list, also after creating or pushing an image was acknowledged. *)
Theorem image_list_stays_empty (it : HashIter string ImageEntry) (ops : list ControlOp) inner data :
  HashIterOk it → encode_to_vec (@nil ImageEntry) = Ok data →
  dispatch it (imager_run it ops) (Custom "image.list" inner)
  = (imager_init, Reply (ReplyData "image.list" data)).
Proof.
  intros Hit Hdata.
  assert (imager_run it ops = imager_init) as ->.
  { unfold imager_run. induction ops as [|op ops IH] using rev_ind; [done|].
    rewrite foldl_app. cbn [foldl]. rewrite IH. by destruct op. }
  unfold dispatch, imager_service, handle_image_cmd. cbn.
  assert (hash_values imager_init = []) as ->.
  { apply Permutation_nil_r. unfold imager_init. by rewrite hash_values_perm, map_to_list_empty. }
  by rewrite Hdata.
Qed.
End Service.

(** ** Theorems *)

(** A chunk request is 37 bytes, the command, the index and the digest at their
    places, and says which chunk of which digest is meant; but it lacks the data
    length the documented frame has, so a reader of the documented layout never
    accepts it. *)
Theorem build_request_layout idx digest :
  u32 idx → length digest = 32%nat →
  length (build_request idx digest) = 37%nat ∧
  read_exact 1 (build_request idx digest) = Some ([1], to_be_bytes 4 idx ++ digest) ∧
  from_be_bytes (take 4 (drop 1 (build_request idx digest))) = idx ∧
  drop 5 (build_request idx digest) = digest ∧
  parse_chunk_frame (build_request idx digest) = None.
Proof.
  intros Hidx Hlen. unfold build_request, parse_chunk_frame. cbn [ChunkCmd_as_u8].
  split_and!.
  - rewrite !length_app, length_to_be_bytes, Hlen. done.
  - by rewrite read_exact_app.
  - rewrite drop_app_exact, take_app_exact by (done || by rewrite length_to_be_bytes).
    by apply from_to_be_bytes.
  - rewrite app_assoc. apply drop_app_exact. by rewrite length_app, length_to_be_bytes.
  - rewrite read_exact_app by done. cbn [mbind option_bind].
    rewrite read_exact_app by by rewrite length_to_be_bytes. cbn [mbind option_bind].
    rewrite <-(app_nil_r digest), read_exact_app by done. cbn [mbind option_bind].
    by rewrite read_exact_short by (cbn; lia).
Qed.

(** The hash of a file does not depend on how the operating system cuts it into
    reads: whatever nonempty pieces the reads return until the end of the file, the
    loop ends and the result is the hash of the whole contents; a failing read ends
    it with that error. *)
Theorem hash_independent_of_reads {E} `{Hasher} (chunks : list bytes) (rest : list (result E bytes)) (e : E) :
  (∀ h a b, hasher_update (hasher_update h a) b = hasher_update h (a ++ b)) →
  (∀ h, hasher_update h [] = h) →
  Forall (λ c, c ≠ []) chunks →
  blake3_hash_file ((Ok <$> chunks) ++ Ok [] :: rest)
  = Some (Ok (finalize_hex (hasher_update hasher_new (mjoin chunks))))
  ∧ blake3_hash_file ((Ok <$> chunks) ++ Err e :: rest) = Some (Err e).
Proof.
  intros Happ Hnil Hne. unfold blake3_hash_file. generalize hasher_new as h.
  induction Hne as [|c chunks Hc _ IH]; intros h; [by rewrite Hnil|].
  rewrite fmap_cons. cbn [app hash_loop]. destruct c as [|b c]; [done|].
  cbn [mjoin list_join]. rewrite <-Happ. apply IH.
Qed.

(** ** Witnesses *)

Module Witnesses.
Import Simple.

Lemma build_request_layout_witness :
  parse_chunk_frame (build_request 7 (replicate 32 9)) = None.
Proof. refine (proj2 (proj2 (proj2 (proj2 (build_request_layout 7 (replicate 32 9) _ _))))); by_compute. Defined.

(** A hash function that keeps its input. *)
#[local] Instance plain : Hasher := {|
  hstate := bytes; hasher_new := []; hasher_update := app; finalize_hex := string_of_bytes |}.

Lemma hash_independent_of_reads_witness :
  blake3_hash_file [Ok [97; 98]; Ok [99]; @Ok unit _ []] = Some (Ok "abc"%string).
Proof.
  refine (proj1 (hash_independent_of_reads [[97; 98]; [99]] [] () _ _ _)).
  - intros h a b. cbn. by rewrite app_assoc.
  - intros h. cbn. apply app_nil_r.
  - by repeat constructor.
Defined.

#[local] Instance ImageKind_eq_dec : EqDecision ImageKind.
Proof. solve_decision. Defined.
#[local] Instance image_codec : Codec (list ImageEntry) := @Build_Codec simple_bincode _
  (λ l, match l with [] => Ok [0] | _ => Err EncodeRefused end)
  (λ bs, Err Malformed).

Lemma image_list_stays_empty_witness :
  dispatch map_iter (imager_run map_iter [Custom "image.create_kvm" [1]]) (Custom "image.list" [])
  = (imager_init, Reply (ReplyData "image.list" [0])).
Proof. apply image_list_stays_empty; [apply map_iter_ok|reflexivity]. Defined.
End Witnesses.
