(* ===== verification/Orchestrator.v ===== *)
(** * The orchestrator daemon (crates/orchestrator/src/main.rs)

    The control operations of the workload daemon and its start-up.  What the kvm crate
    answers is part of the environment; the LXC backend is a stub that
    always succeeds, and the containerd backend is never called. *)

From S2P Require Import Prelude RustStd Os Wire Proto Control ControlSocket Startup.
Local Open Scope Z_scope.
Local Open Scope prog_scope.

Record Config := {
  or_containerd_socket : string;
  or_cgroup_parent : string;
  or_image_dir : string;
}.

Definition config_default : Config := {|
  or_containerd_socket := "/run/containerd/containerd.sock";
  or_cgroup_parent := "/hivebus"; or_image_dir := "/var/lib/hivebus/images" |}.

(** The head of [control_plane]. *)
Definition control_plane_open : prog (result io_error unit) :=
  control_socket (socket_path "orchestrator").

(** [Config::load]; [parse] is the TOML decoder, and the errors keep their causes. *)
Definition config_load {E} (parse : string → result E Config) (p : path) :
    prog (result (start_error E) Config) :=
  read_config parse (Ok config_default) p.

(** [main].  Whether KVM is available is only logged. *)
Definition main_program {E} (parse : string → result E Config) (arg : option path) :
    prog (result (start_error E) Config) :=
  cfg ←? config_load parse (config_path "orchestrator" arg);
  _ ←? map_err StartIo control_plane_open;
  Ret (Ok cfg).

Inductive VirtKind := Kvm | Lxc | Container.

Record WorkloadSpec := {
  wl_id : string;
  wl_kind : VirtKind;
  wl_image : string;
  wl_cpus : Z;
  wl_memory_mb : Z;
  wl_extra : list (string * string);
}.

#[global] Instance VirtKind_eq_dec : EqDecision VirtKind.
Proof. solve_decision. Defined.
#[global] Instance WorkloadSpec_eq_dec : EqDecision WorkloadSpec.
Proof. solve_decision. Defined.
#[global] Instance VirtKind_countable : Countable VirtKind.
Proof.
  refine (inj_countable' (λ k, match k with Kvm => 0 | Lxc => 1 | Container => 2 end)
    (λ z, if decide (z = 0) then Kvm else if decide (z = 1) then Lxc else Container) _).
  by intros [].
Defined.
#[global] Instance WorkloadSpec_countable : Countable WorkloadSpec.
Proof.
  refine (inj_countable'
    (λ w, ((wl_id w, wl_kind w, wl_image w), (wl_cpus w, wl_memory_mb w, wl_extra w)))
    (λ x, {| wl_id := x.1.1.1; wl_kind := x.1.1.2; wl_image := x.1.2; wl_cpus := x.2.1.1;
             wl_memory_mb := x.2.1.2; wl_extra := x.2.2 |}) _).
  by intros [].
Defined.
#[global] Instance WorkloadSpec_wire : WireOk WorkloadSpec := λ w,
  str_ok (wl_id w) ∧ str_ok (wl_image w) ∧ u32 (wl_cpus w) ∧ u64 (wl_memory_mb w)
  ∧ Forall (λ p, str_ok p.1 ∧ str_ok p.2) (wl_extra w).
#[global] Instance WorkloadSpec_wire_dec (w : WorkloadSpec) : Decision (wire_ok w).
Proof. unfold wire_ok, WorkloadSpec_wire. apply _. Defined.

(** What the operations report of a workload; nothing does so yet. *)
Record WorkloadStatus := {
  ws_id : string;
  ws_kind : VirtKind;
  ws_running : bool;
  ws_pid : option Z;
}.

(** What the handler calls, with errors shown as text: opening the KVM device and making
    a virtual machine with it. *)
Record OrchEnv := {
  oe_kvm_new : result string unit;
  oe_kvm_create_vm : result string unit;
}.

(** [kvm_backend::is_available] *)
Definition is_available (env : OrchEnv) : bool := is_ok (oe_kvm_new env).

(** [kvm_backend::create_vm]: neither the id nor the memory is used yet. *)
Definition create_vm (env : OrchEnv) (id : string) (memory_mb : Z) : result string unit :=
  match oe_kvm_new env with Err e => Err e | Ok _ => oe_kvm_create_vm env end.

(** [lxc_backend::create_container] *)
Definition create_container (id rootfs : string) : result string unit := Ok ().

Section Service.
Context `{Bincode} `{!Codec WorkloadSpec}.

Definition handle_command (env : OrchEnv) (tag : string) (payload : bytes) : ControlReply :=
  if (tag =? "vm.create")%string then
    match decode_from_slice (A := WorkloadSpec) payload with
    | Err _ => ReplyError "invalid payload"
    | Ok (spec, _) =>
      match create_vm env (wl_id spec) (wl_memory_mb spec) with
      | Err e => ReplyError e
      | Ok _ => ReplyOk
      end
    end
  else if (tag =? "lxc.create")%string then
    match decode_from_slice (A := WorkloadSpec) payload with
    | Err _ => ReplyError "invalid payload"
    | Ok (spec, _) =>
      match create_container (wl_id spec) (wl_image spec) with
      | Err e => ReplyError e
      | Ok _ => ReplyOk
      end
    end
  else ReplyError ("unknown tag: " +:+ tag).

#[global] Instance orchestrator_service : ControlService OrchEnv unit := λ env st op,
  match op with
  | Ping => (st, Reply ReplyOk)
  | Custom tag inner => (st, Reply (handle_command env tag inner))
  | Shutdown => (st, ExitProcess)
  | GetNodes | GetMaster | StepDown => (st, Reply (ReplyError "unsupported op"))
  end.

#[global] Instance orchestrator_service_ok : ControlServiceOk orchestrator_service.
Proof. split; [done..|solve_exit orchestrator_service]. Qed.

(** There is no shared state to lock. *)
#[global] Instance orchestrator_stages : ControlStages orchestrator_service := one_stage _.
#[global] Instance orchestrator_locked_part : LockedPart orchestrator_stages (λ st, st) := one_stage_locked _.

(** One connection of [control_plane]. *)
Definition control_plane `{!Codec ControlOp, !Codec ControlReply} (env : OrchEnv) (stream : bytes) :
    conn_end :=
  (serve_connection env () stream).2.

(** The operations the daemon documents. *)
Definition documented_tags : list string :=
  ["vm.create"; "vm.delete"; "vm.start"; "vm.stop"; "vm.list";
   "lxc.create"; "lxc.delete"; "lxc.start"; "lxc.stop"; "lxc.list";
   "ct.create"; "ct.delete"; "ct.start"; "ct.stop"; "ct.list"]%string.

(** Of the fifteen documented operations the daemon knows two: vm.create, which
    is answered with what the KVM backend says about the decoded specification, and
    lxc.create, which always succeeds on a specification; every other tag is
    answered as unknown, and a payload that does not decode as invalid. *)
Theorem orchestrator_only_creates (env : OrchEnv) tag payload :
  tag ∈ documented_tags →
  dispatch env () (Custom tag payload) = ((), Reply
    (if decide (tag = "vm.create" ∨ tag = "lxc.create")%string then
       match decode_from_slice (A := WorkloadSpec) payload with
       | Err _ => ReplyError "invalid payload"
       | Ok (spec, _) =>
         if decide (tag = "vm.create"%string) then
           match oe_kvm_new env, oe_kvm_create_vm env with
           | Err e, _ => ReplyError e
           | Ok _, Err e => ReplyError e
           | Ok _, Ok _ => ReplyOk
           end
         else ReplyOk
       end
     else ReplyError ("unknown tag: " +:+ tag))).
Proof.
  intros Htag. unfold documented_tags in Htag. rewrite !elem_of_cons in Htag.
  destruct_or! Htag; subst; try by apply not_elem_of_nil in Htag.
  all: unfold dispatch, orchestrator_service, handle_command, create_vm; cbn; try done.
  destruct (decode_from_slice payload) as [[]|]; [|done]. cbn. by destruct (oe_kvm_new env), (oe_kvm_create_vm env).
Qed.
End Service.

Module Witnesses.
#[local] Instance spec_codec : @Codec simple_bincode WorkloadSpec := simple_codec _.
Lemma orchestrator_only_creates_witness :
  dispatch {| oe_kvm_new := Ok (); oe_kvm_create_vm := Ok () |} () (Custom "vm.start" [])
  = ((), Reply (ReplyError "unknown tag: vm.start")).
Proof. refine (orchestrator_only_creates _ "vm.start" [] _). by_compute. Defined.
End Witnesses.
