(* ===== verification/Daemons.v ===== *)
(** * The four small daemons start

    The [main]s of netgate, netop, imager and orchestrator, call by call.  Each finds its
    configuration, prepares what it serves and opens its control socket; [starts] is that
    sequence for all answers of the system. *)

From S2P Require Import Prelude RustStd Os ControlSocket Startup Netgate Netop Imager Orchestrator.
Local Open Scope Z_scope.
Local Open Scope prog_scope.




