(* ===== verification/Hivectl.v ===== *)
(** * The hivectl inspector (crates/hivectl/src/main.rs)

    The state of the terminal program, its keys and refreshes, and the query it makes
    to hivebus over two connections, with the facts the header line shows.  What is
    drawn from them, and the event loop, are file [HivectlUi]. *)

From S2P Require Import Prelude RustStd Wire Proto Control Membership Hivebus.
Local Open Scope Z_scope.
Implicit Types (m : gmap Z NodeInfo).

Definition REFRESH_INTERVAL : Duration := from_secs 1.

(** ** Querying hivebus *)

Inductive query_error `{Bincode} :=
| ConnectFailed
| SendOp (e : client_error)
| GetNodesError (message : string)
| UnexpectedNodesReply.

Section Query.
Context `{Bincode} `{!Codec ControlOp, !Codec ControlReply}.

(** [query_hivebus]: each connection is what the server answers to what is written,
    or a failure to connect; two connections because a socket serves one request. *)
Definition query_hivebus (c1 c2 : option (bytes → bytes)) :
    outcome (result query_error (list NodeInfo * option Z)) :=
  match c1 with
  | None => Done (Err ConnectFailed)
  | Some c1 =>
    r1 ← send_op c1 GetNodes;
    match r1 with
    | Err e => Done (Err (SendOp e))
    | Ok (ReplyNodes nodes) =>
      match c2 with
      | None => Done (Err ConnectFailed)
      | Some c2 =>
        r2 ← send_op c2 GetMaster;
        match r2 with
        | Err e => Done (Err (SendOp e))
        | Ok (ReplyMaster (Some n)) => Done (Ok (nodes, Some (ni_node_id n)))
        | Ok _ => Done (Ok (nodes, None))
        end
      end
    | Ok (ReplyError message) => Done (Err (GetNodesError message))
    | Ok _ => Done (Err UnexpectedNodesReply)
    end
  end.
End Query.

(** ** The application *)

(** What the error line can hold. *)
Inductive app_error `{Bincode} := Connecting | QueryFailed (e : query_error).

Record ClusterState `{Bincode} := {
  cs_nodes : list NodeInfo;
  cs_master_id : option Z;
  cs_queried_at : Instant;
  cs_error : option app_error;
}.

(** [selected] is the row the table widget highlights. *)
Record App `{Bincode} := {
  app_cluster : ClusterState;
  app_selected : option nat;
  app_socket_path : string;
}.

Section App.
Context `{Bincode}.

Definition set_selected (sel : option nat) (a : App) : App := {|
  app_cluster := app_cluster a; app_selected := sel; app_socket_path := app_socket_path a |}.
Definition set_cluster (c : ClusterState) (a : App) : App := {|
  app_cluster := c; app_selected := app_selected a; app_socket_path := app_socket_path a |}.

(** [App::new]: the last query lies far enough back that the first round refreshes. *)
Definition app_new (socket_path : string) (now : Instant) : App := {|
  app_cluster := {| cs_nodes := []; cs_master_id := None;
                    cs_queried_at := now - REFRESH_INTERVAL - from_millis 1;
                    cs_error := Some Connecting |};
  app_selected := None;
  app_socket_path := socket_path |}.

(** [App::refresh] on the result of the query; [now] is read when it is stored. *)
Definition refresh (query : result query_error (list NodeInfo * option Z)) (now : Instant) (a : App) : App :=
  match query with
  | Ok (nodes, master_id) =>
    let a :=
      match app_selected a with
      | Some sel =>
        if negb (length nodes =? 0)%nat && (length nodes <=? sel)%nat
        then set_selected (Some (length nodes - 1)%nat) a else a
      | None => if negb (length nodes =? 0)%nat then set_selected (Some 0%nat) a else a
      end in
    set_cluster {| cs_nodes := nodes; cs_master_id := master_id; cs_queried_at := now;
                   cs_error := None |} a
  | Err e =>
    set_cluster {| cs_nodes := cs_nodes (app_cluster a); cs_master_id := cs_master_id (app_cluster a);
                   cs_queried_at := now; cs_error := Some (QueryFailed e) |} a
  end.

Definition scroll_up (a : App) : App :=
  let sel := default 0%nat (app_selected a) in
  if (0 <? sel)%nat then set_selected (Some (sel - 1)%nat) a else a.

Definition scroll_down (a : App) : App :=
  let len := length (cs_nodes (app_cluster a)) in
  if (len =? 0)%nat then a
  else
    let sel := default 0%nat (app_selected a) in
    if (sel + 1 <? len)%nat then set_selected (Some (sel + 1)%nat) a else a.

(** The keys [run_loop] reacts to; anything else, and no event at all, is [Other]. *)
Inductive key := KeyQ | KeyCtrlC | KeyR | KeyUp | KeyDown | Other.

(** One round of [run_loop] after drawing: [None] leaves the loop.  The queries are
    what a refresh for the key and the periodic one would get, with their times;
    [now] is when the age of the view is checked. *)
Definition run_round (k : key) (q1 q2 : result query_error (list NodeInfo * option Z))
    (t1 now t2 : Instant) (a : App) : option App :=
  let after :=
    match k with
    | KeyQ | KeyCtrlC => None
    | KeyR => Some (refresh q1 t1 a)
    | KeyUp => Some (scroll_up a)
    | KeyDown => Some (scroll_down a)
    | Other => Some a
    end in
  a ← after;
  Some (if REFRESH_INTERVAL <=? now - cs_queried_at (app_cluster a) then refresh q2 t2 a else a).

(** ** The header line *)

Definition fmt_age (age : Duration) : string :=
  let secs := as_secs age in
  if secs <? 60 then pretty secs +:+ "s ago"
  else pretty (secs `div` 60) +:+ "m" +:+ pretty (secs `mod` 60) +:+ "s ago".

Definition alive_count (a : App) : nat :=
  length (filter (λ n, ni_state n = Alive) (cs_nodes (app_cluster a))).

(** The node shown as master, if the id is in the list. *)
Definition master_node (a : App) : option NodeInfo :=
  id ← cs_master_id (app_cluster a);
  snd <$> list_find (λ n, ni_node_id n = id) (cs_nodes (app_cluster a)).

Definition master_label (a : App) : option string :=
  (λ n, ni_hostname n +:+ " (" +:+ pretty (ni_node_id n) +:+ ")") <$> master_node a.

(** ** The selection *)

(** There is a selected row exactly when there has been one to select, and it is a
    row of the list unless the list has become empty. *)
Definition selection_ok (a : App) : Prop :=
  match app_selected a with
  | Some i => cs_nodes (app_cluster a) = [] ∨ (i < length (cs_nodes (app_cluster a)))%nat
  | None => cs_nodes (app_cluster a) = []
  end.

Lemma refresh_selection q now a : selection_ok a → selection_ok (refresh q now a).
Proof.
  intros Ha. destruct q as [[nodes mid]|e]; [|exact Ha]. unfold refresh, selection_ok in *.
  destruct (app_selected a) as [i|] eqn:Hs.
  - destruct (Nat.eqb_spec (length nodes) 0) as [H0|H0]; cbn [negb andb].
    + cbn. rewrite Hs. left. by apply length_zero_iff_nil.
    + destruct (Nat.leb_spec (length nodes) i); cbn; [right; lia|]. rewrite Hs. by right.
  - destruct (Nat.eqb_spec (length nodes) 0) as [H0|H0]; cbn [negb].
    + cbn. rewrite Hs. by apply length_zero_iff_nil.
    + cbn. right. lia.
Qed.

Lemma scroll_up_selection a : selection_ok a → selection_ok (scroll_up a).
Proof.
  intros Ha. unfold scroll_up.
  destruct (Nat.ltb_spec 0 (default 0%nat (app_selected a))) as [Hlt|]; [|done].
  unfold selection_ok in *. cbn. destruct (app_selected a) as [i|]; cbn in *; [|lia].
  destruct Ha as [?|?]; [by left|right; lia].
Qed.

Lemma scroll_down_selection a : selection_ok a → selection_ok (scroll_down a).
Proof.
  intros Ha. unfold scroll_down.
  destruct (Nat.eqb_spec (length (cs_nodes (app_cluster a))) 0); [done|].
  destruct (Nat.ltb_spec (default 0%nat (app_selected a) + 1) (length (cs_nodes (app_cluster a)))); [|done].
  by right.
Qed.

(** The states the program reaches, whatever keys are pressed and whatever the
    queries return. *)
Inductive app_reachable (socket_path : string) : App → Prop :=
| app_start now : app_reachable socket_path (app_new socket_path now)
| app_round k q1 q2 t1 now t2 a a' :
  app_reachable socket_path a → run_round k q1 q2 t1 now t2 a = Some a' →
  app_reachable socket_path a'.

Lemma app_reachable_selection socket_path a : app_reachable socket_path a → selection_ok a.
Proof.
  induction 1 as [|k q1 q2 t1 now t2 a a' _ IH Hround]; [done|].
  unfold run_round in Hround.
  assert (∀ b, selection_ok b → Some (if REFRESH_INTERVAL <=? now - cs_queried_at (app_cluster b)
    then refresh q2 t2 b else b) = Some a' → selection_ok a') as Hb.
  { intros b Hb [= <-]. destruct (REFRESH_INTERVAL <=? _); [by apply refresh_selection|done]. }
  destruct k; cbn [mbind option_bind] in Hround; try done; (eapply Hb; [|exact Hround]);
    auto using refresh_selection, scroll_up_selection, scroll_down_selection.
Qed.

(** The queries a round makes: for the R key, and when the view is a second old by then. *)
Definition round_queries (k : key) (q1 q2 : result query_error (list NodeInfo * option Z))
    (t1 now : Instant) (a : App) : list (result query_error (list NodeInfo * option Z)) :=
  let queried_at := match k with KeyR => t1 | _ => cs_queried_at (app_cluster a) end in
  (match k with KeyR => [q1] | _ => [] end)
  ++ (if REFRESH_INTERVAL <=? now - queried_at then [q2] else []).

(** A state the program reaches, with the results of all its queries, oldest first. *)
Inductive app_queried (socket_path : string) :
    list (result query_error (list NodeInfo * option Z)) → App → Prop :=
| queried_start now : app_queried socket_path [] (app_new socket_path now)
| queried_round k q1 q2 t1 now t2 qs a a' :
  app_queried socket_path qs a → run_round k q1 q2 t1 now t2 a = Some a' →
  app_queried socket_path (qs ++ round_queries k q1 q2 t1 now a) a'.

Lemma app_reachable_queried socket_path a :
  app_reachable socket_path a ↔ ∃ qs, app_queried socket_path qs a.
Proof.
  split.
  - induction 1 as [now|k q1 q2 t1 now t2 a a' _ [qs IH] Hround].
    + exists []. apply queried_start.
    + exists (qs ++ round_queries k q1 q2 t1 now a). by eapply queried_round.
  - intros [qs Hq]. induction Hq; [apply app_start|by eapply app_round].
Qed.

(** What the queries so far leave to be shown: the nodes and the master of the last one that
    succeeded, and the error of the last one if it failed. *)
Definition last_success (qs : list (result query_error (list NodeInfo * option Z))) :
    list NodeInfo * option Z :=
  foldl (λ shown q, match q with Ok answer => answer | Err _ => shown end) ([], None) qs.
Definition last_error (qs : list (result query_error (list NodeInfo * option Z))) : option app_error :=
  match last qs with
  | None => Some Connecting
  | Some (Ok _) => None
  | Some (Err e) => Some (QueryFailed e)
  end.

Definition shows_queries (qs : list (result query_error (list NodeInfo * option Z))) (a : App) : Prop :=
  cs_nodes (app_cluster a) = (last_success qs).1 ∧ cs_master_id (app_cluster a) = (last_success qs).2
  ∧ cs_error (app_cluster a) = last_error qs.

Lemma refresh_shows qs q now a : shows_queries qs a → shows_queries (qs ++ [q]) (refresh q now a).
Proof.
  intros (Hn & Hm & _). unfold shows_queries, last_success, last_error. rewrite foldl_app, last_snoc.
  destruct q as [[nodes mid]|e]; cbn; [by repeat case_match|done].
Qed.

Lemma app_queried_shows socket_path qs a : app_queried socket_path qs a → shows_queries qs a.
Proof.
  induction 1 as [|k q1 q2 t1 now t2 qs a a' _ IH Hround]; [done|].
  unfold run_round in Hround. unfold round_queries. rewrite app_assoc.
  assert (∀ b qs', shows_queries qs' b →
    Some (if REFRESH_INTERVAL <=? now - cs_queried_at (app_cluster b) then refresh q2 t2 b else b) = Some a' →
    shows_queries (qs' ++ if REFRESH_INTERVAL <=? now - cs_queried_at (app_cluster b) then [q2] else []) a')
    as Hb.
  { intros b qs' Hb [= <-]. destruct (_ <=? _); [by apply refresh_shows|by rewrite app_nil_r]. }
  destruct k; cbn [mbind option_bind] in Hround; try done; rewrite ?app_nil_r.
  - assert (cs_queried_at (app_cluster (refresh q1 t1 a)) = t1) as Ht by by destruct q1 as [[]|].
    pose proof (Hb _ _ (refresh_shows _ q1 t1 _ IH) Hround) as Hs. by rewrite Ht in Hs.
  - assert (app_cluster (scroll_up a) = app_cluster a) as Ht by (unfold scroll_up; by repeat case_match).
    unfold shows_queries in *. rewrite <-Ht in IH. pose proof (Hb (scroll_up a) qs IH Hround) as Hs.
    by rewrite Ht in Hs.
  - assert (app_cluster (scroll_down a) = app_cluster a) as Ht by (unfold scroll_down; by repeat case_match).
    unfold shows_queries in *. rewrite <-Ht in IH. pose proof (Hb (scroll_down a) qs IH Hround) as Hs.
    by rewrite Ht in Hs.
  - by apply (Hb a qs).
Qed.

(** The highlighted row always exists: in every state the inspector reaches,
    whatever keys are pressed, however the number of nodes changes and whenever
    queries fail, the selection is a row of the shown list as long as the list is
    not empty, and there is one as soon as there are nodes. *)
Theorem selection_in_bounds socket_path a :
  app_reachable socket_path a → cs_nodes (app_cluster a) ≠ [] →
  ∃ i n, app_selected a = Some i ∧ cs_nodes (app_cluster a) !! i = Some n.
Proof.
  intros Hok%app_reachable_selection.
  intros Hne. unfold selection_ok in Hok. destruct (app_selected a) as [i|]; [|done].
  destruct Hok as [|Hlt]; [done|]. apply lookup_lt_is_Some_2 in Hlt as [n Hn]. by exists i, n.
Qed.
End App.

(** ** Against hivebus *)

Section EndToEnd.
Context `{Bincode} `{!Codec ControlOp, !Codec ControlReply}.
Context `{!CodecLaws ControlOp, !CodecLaws ControlReply}.

(** The connection to a daemon with this table. *)
Definition hivebus_connection (env : ControlEnv) (m : Members) : bytes → bytes :=
  λ request, received (control_plane_connection env m request).2.

(** The encoding of an operation or reply that fits the payload bound. *)
Definition fits_payload {A} `{!Codec A} (x : A) : Prop :=
  ∃ payload, encode_to_vec x = Ok payload ∧ Z.of_nat (length payload) ≤ MAX_CONTROL_PAYLOAD.

Lemma send_op_reply env m op reply :
  wire_ok op → fits_payload op → dispatch env m op = (m, Reply reply) →
  wire_ok reply → fits_payload reply →
  send_op (hivebus_connection env m) op = Done (Ok reply).
Proof.
  intros Hop (p & Hp & Hlen) Hd Hr (q & Hq & Hqlen).
  destruct (exchange_reply env m m op p reply q Hop Hp Hlen Hd Hr Hq) as [_ Hx].
  cbv zeta in Hx. by rewrite (proj2 (Z.leb_le _ _) Hqlen) in Hx.
Qed.

Lemma refresh_selected nodes mid now (a : App) :
  nodes ≠ [] →
  ∃ i n, app_selected (refresh (Ok (nodes, mid)) now a) = Some i ∧ nodes !! i = Some n.
Proof.
  intros Hne. assert (0 < length nodes)%nat as Hlen by (destruct nodes; [done|cbn; lia]).
  assert (∃ i, app_selected (refresh (Ok (nodes, mid)) now a) = Some i ∧ (i < length nodes)%nat)
    as (i & Hi & Hlt).
  { unfold refresh. destruct (Nat.eqb_spec (length nodes) 0); [lia|].
    destruct (app_selected a) as [i|] eqn:Hs; cbn [negb andb]; [|by exists 0%nat].
    destruct (Nat.leb_spec (length nodes) i); cbn; [|by exists i].
    exists (length nodes - 1)%nat. split; [done|lia]. }
  apply lookup_lt_is_Some_2 in Hlt as [n Hn]. by exists i, n.
Qed.

(** A query over two connections, with the answers of the two moments. *)
Lemma query_daemon (env1 env2 : ControlEnv) (m1 m2 : gmap Z NodeInfo) :
  HashIterOk (ce_iter env1) → HashIterOk (ce_iter env2) →
  local_ok (ce_local env1) → local_ok (ce_local env2) →
  members_inv (l_node_id (ce_local env1)) m1 → members_inv (l_node_id (ce_local env2)) m2 →
  fits_payload GetNodes → fits_payload GetMaster →
  fits_payload (ReplyNodes (get_nodes env1 m1)) → fits_payload (ReplyMaster (get_master env2 m2)) →
  ∃ n, query_hivebus (Some (hivebus_connection env1 m1)) (Some (hivebus_connection env2 m2))
       = Done (Ok (get_nodes env1 m1, Some (ni_node_id n))) ∧
    is_master_of m2 (l_node_id (ce_local env2)) (ni_node_id n) ∧ ni_state n = Alive ∧
    (n = local_node_info (ce_local env2) (ce_now env2) true ∨ m2 !! ni_node_id n = Some n).
Proof.
  intros Hit1 Hit2 Hl1 Hl2 Hinv1 Hinv2 Hgn Hgm Hrn Hrm.
  pose proof (send_op_reply env1 m1 GetNodes _ I Hgn eq_refl (get_nodes_wire env1 m1 Hit1 Hl1 Hinv1) Hrn) as H1.
  destruct (get_master_spec env2 m2 Hinv2) as (n & Hn & Hmaster & Hst & Hfrom).
  assert (wire_ok (ReplyMaster (get_master env2 m2))) as Hmw.
  { rewrite Hn. destruct Hfrom as [->|Hlook]; [by apply local_node_info_wire|].
    exact (proj2 (inv_entries _ _ Hinv2 _ _ Hlook)). }
  pose proof (send_op_reply env2 m2 GetMaster _ I Hgm eq_refl Hmw Hrm) as H2.
  exists n. split; [|done]. unfold query_hivebus. rewrite H1. cbn [mbind outcome_bind].
  by rewrite H2, Hn.
Qed.

(** C22: what the inspector shows is the cluster: querying a hivebus daemon, whose table
    may change between the two connections, yields the full node list of the first
    moment and the elected master of the second, provided that operations and replies
    encode within the payload bound; after the refresh there is no error
    and a row of the list is selected; and if the table did not change, the header
    finds the master in the list, and it is [Alive]. *)
Theorem inspector_shows_cluster (env : ControlEnv) (m1 m2 : gmap Z NodeInfo) :
  HashIterOk (ce_iter env) → local_ok (ce_local env) →
  members_inv (l_node_id (ce_local env)) m1 → members_inv (l_node_id (ce_local env)) m2 →
  fits_payload GetNodes → fits_payload GetMaster →
  fits_payload (ReplyNodes (get_nodes env m1)) → fits_payload (ReplyMaster (get_master env m2)) →
  ∃ master,
    query_hivebus (Some (hivebus_connection env m1)) (Some (hivebus_connection env m2))
    = Done (Ok (get_nodes env m1, Some master)) ∧
    is_master_of m2 (l_node_id (ce_local env)) master ∧
    ∀ now (a : App), let a' := refresh (Ok (get_nodes env m1, Some master)) now a in
      cs_error (app_cluster a') = None ∧
      (∃ i n, app_selected a' = Some i ∧ cs_nodes (app_cluster a') !! i = Some n) ∧
      (m1 = m2 → ∃ n, master_node a' = Some n ∧ ni_node_id n = master ∧ ni_state n = Alive).
Proof.
  intros Hit Hl Hinv1 Hinv2 Hgn Hgm Hrn Hrm.
  destruct (query_daemon env env m1 m2) as (n & Hquery & Hmaster & Hst & Hfrom); try done.
  exists (ni_node_id n). split; [done|]. split; [done|]. intros now a.
  set (a' := refresh (Ok (get_nodes env m1, Some (ni_node_id n))) now a). split; [done|]. split.
  { apply (refresh_selected (get_nodes env m1)). intros Hnil. pose proof (get_nodes_perm env m1) as Hp.
    rewrite Hnil in Hp. by apply Permutation_nil_cons in Hp. }
  intros <-. unfold master_node. cbn [mbind option_bind].
  assert (∃ n', n' ∈ get_nodes env m1 ∧ ni_node_id n' = ni_node_id n ∧ ni_state n' = Alive)
    as (n' & Hin & Hid & Hst').
  { setoid_rewrite (get_nodes_perm env m1). destruct Hfrom as [->|Hlook].
    - exists (own_entry env m1). split_and!; [constructor|done|done].
    - exists n. split_and!; [|done|done]. right. apply list_elem_of_fmap.
      exists (ni_node_id n, n). split; [done|]. by apply elem_of_map_to_list. }
  change (cs_master_id (app_cluster a')) with (Some (ni_node_id n)).
  change (cs_nodes (app_cluster a')) with (get_nodes env m1). cbn [mbind option_bind].
  destruct (list_find_elem_of (λ x, ni_node_id x = ni_node_id n) _ n' Hin Hid) as [[i x] Hfind].
  rewrite Hfind. exists x. split; [done|].
  apply list_find_Some in Hfind as (Hi & Hx & _). split; [done|].
  apply list_elem_of_lookup in Hin as [j Hj].
  assert (j = i) as ->; [|by simplify_eq].
  apply (NoDup_lookup (ni_node_id <$> get_nodes env m1) j i (ni_node_id n));
    [by apply get_nodes_keys|by rewrite list_lookup_fmap, Hj, <-Hid|by rewrite list_lookup_fmap, Hi, <-Hx].
Qed.
End EndToEnd.

(** ** Witnesses *)

Module Witnesses.
Import Simple.
Import Hivebus.Witnesses.

Definition q : result query_error (list NodeInfo * option Z) := Ok ([peer 3 Alive 0], Some 3).

Lemma selection_in_bounds_witness :
  ∃ i n, app_selected (refresh q 9 (app_new "s" 0)) = Some i ∧ [peer 3 Alive 0] !! i = Some n.
Proof.
  apply (selection_in_bounds "s" (refresh q 9 (app_new "s" 0))); [|done].
  apply (app_round "s" KeyR q q 9 9 9 (app_new "s" 0)); [apply app_start|done].
Defined.

Lemma inspector_shows_cluster_witness :
  ∃ master, query_hivebus (Some (hivebus_connection env sample_members))
              (Some (hivebus_connection env sample_members))
            = Done (Ok (get_nodes env sample_members, Some master)).
Proof.
  destruct (inspector_shows_cluster env sample_members sample_members map_iter_ok
    ltac:(by_compute) sample_inv sample_inv) as (master & Hq & _);
    try (eexists; split; [reflexivity|by_compute]).
  exists master. exact Hq.
Defined.
End Witnesses.
