(* ===== verification/Inspectors.v ===== *)
(** * Inspectors at different daemons

    [Hivectl] asks one hivebus daemon; [Calm] and [Stability] say what the daemons agree
    on.  Together: in a calm cluster it does not matter which daemon an operator asks, or
    when. *)

From S2P Require Import Prelude RustStd Wire Proto Control Membership Hivebus Cluster Calm Stability.
From S2P Require Import Hivectl.
Local Open Scope Z_scope.
Implicit Types (m : gmap Z NodeInfo) (c : Cluster).

Section Inspectors.
Context `{Bincode} `{!Codec HeartbeatPayload, !Codec AnnouncePayload,
                     !Codec LeavePayload, !Codec GossipPayload}.
Context `{!CodecLaws HeartbeatPayload, !CodecLaws AnnouncePayload,
          !CodecLaws LeavePayload, !CodecLaws GossipPayload}.
Context `{!Codec ControlOp, !Codec ControlReply, !CodecLaws ControlOp, !CodecLaws ControlReply}.
Context (suspect dead : Duration) (version : string) (ids : gset Z).

(** The ids an inspector shows as [Alive], in the order of its list. *)
Definition alive_shown (nodes : list NodeInfo) : list Z :=
  ni_node_id <$> filter (λ n, ni_state n = Alive) nodes.

Lemma alive_shown_spec (env : ControlEnv) m (live : gset Z) :
  HashIterOk (ce_iter env) → members_inv (l_node_id (ce_local env)) m →
  l_node_id (ce_local env) ∈ live →
  (∀ k, alive_in m k ↔ k ∈ live ∧ k ≠ l_node_id (ce_local env)) →
  alive_shown (get_nodes env m) ≡ₚ elements live.
Proof.
  intros Hit Hinv Hself Halive. apply NoDup_Permutation.
  - apply (sublist_NoDup _ (ni_node_id <$> get_nodes env m)); [by apply (get_nodes_keys env m)|].
    apply fmap_sublist, sublist_filter.
  - apply NoDup_elements.
  - intros k. rewrite elem_of_elements. unfold alive_shown. rewrite list_elem_of_fmap.
    setoid_rewrite list_elem_of_filter. setoid_rewrite (get_nodes_perm env m).
    setoid_rewrite elem_of_cons. split.
    + intros (n & -> & Hs & [->|([j n'] & -> & Hin)%list_elem_of_fmap]); [done|].
      apply elem_of_map_to_list in Hin. cbn in *.
      destruct (inv_entries _ _ Hinv _ _ Hin) as [-> _]. apply (Halive j). by exists n'.
    + intros Hk. destruct (decide (k = l_node_id (ce_local env))) as [->|Hne].
      * exists (own_entry env m). split_and!; [done..|by left].
      * destruct (proj2 (Halive k) (conj Hk Hne)) as (n & Hn & Hs).
        destruct (inv_entries _ _ Hinv _ _ Hn) as [Hkey _]. exists n. split_and!; [done..|right].
        apply list_elem_of_fmap. exists (k, n). split; [done|]. by apply elem_of_map_to_list.
Qed.

(** C9: every inspector shows the same cluster: in a calm cluster that agrees, an inspector
    that asks any daemon at any two moments of the period gets, over its two connections,
    the running daemons as the [Alive] nodes, each once, and the least of them as the
    master, provided that the encodings of the two operations and of the two replies fit the
    payload bound of the control protocol. *)
Theorem inspectors_agree c turns1 turns2 boss j nd1 nd2 env1 env2 :
  cluster_reachable suspect dead version ids c → agreed c →
  suspect ≤ dead ∧ suspect < cleanup_threshold → least (dom (cl_nodes c)) boss →
  calm suspect dead (dom (cl_nodes c)) (dom (cl_nodes c)) (start_seen c) (quiet c) (turns1 ++ turns2) →
  cl_nodes (run suspect dead (quiet c) turns1) !! j = Some nd1 →
  cl_nodes (run suspect dead (quiet c) (turns1 ++ turns2)) !! j = Some nd2 →
  ce_local env1 = nd_local nd1 → ce_local env2 = nd_local nd2 →
  HashIterOk (ce_iter env1) → HashIterOk (ce_iter env2) →
  let m1 := hv_members (nd_hive nd1) in
  let m2 := hv_members (nd_hive nd2) in
  fits_payload GetNodes → fits_payload GetMaster →
  fits_payload (ReplyNodes (get_nodes env1 m1)) → fits_payload (ReplyMaster (get_master env2 m2)) →
  ∃ nodes,
    query_hivebus (Some (hivebus_connection env1 m1)) (Some (hivebus_connection env2 m2))
    = Done (Ok (nodes, Some boss)) ∧
    alive_shown nodes ≡ₚ elements (dom (cl_nodes c)).
Proof.
  intros Hreach Hagreed Hthr Hboss Hcalm Hj1 Hj2 He1 He2 Hit1 Hit2 m1 m2 Hgn Hgm Hrn Hrm.
  destruct (stable_view suspect dead version ids c turns1 j nd1) as (Hid1 & Hok1 & Hm1 & Hlive & Ha1); try done.
  { by apply calm_app in Hcalm as [? _]. }
  destruct (stable_view suspect dead version ids c (turns1 ++ turns2) j nd2) as (Hid2 & Hok2 & Hm2 & _ & Ha2); try done.
  rewrite <-He1 in Hid1, Hok1. rewrite <-He2 in Hid2, Hok2.
  destruct (query_daemon env1 env2 m1 m2) as (n & Hquery & Hmaster & _); rewrite ?Hid1, ?Hid2; try done.
  exists (get_nodes env1 m1). split.
  - rewrite Hquery. rewrite Hid2 in Hmaster. repeat f_equal. eapply is_master_of_unique; [exact Hmaster|].
    apply (master_from_eq (it := ce_iter env1)). by apply (agreed_master _ (dom (cl_nodes c))).
  - apply alive_shown_spec; rewrite ?Hid1; done.
Qed.
End Inspectors.

(** ** Witness *)

Module Witnesses.
Import Simple.
Import Hivebus.Witnesses Cluster.Witnesses Stability.Witnesses.

(** The pair of [Stability], asked at daemon 7 before and after its scan. *)
Lemma inspectors_agree_witness :
  let c1 := run 450 30000 (quiet pair) (take 2 pair_turns) in
  let c2 := run 450 30000 (quiet pair) pair_turns in
  ∃ nd1 nd2 nodes, cl_nodes c1 !! 7 = Some nd1 ∧ cl_nodes c2 !! 7 = Some nd2 ∧
    query_hivebus (Some (hivebus_connection env (hv_members (nd_hive nd1))))
                  (Some (hivebus_connection env (hv_members (nd_hive nd2))))
      = Done (Ok (nodes, Some 3))
    ∧ alive_shown nodes ≡ₚ elements ids.
Proof.
  intros c1 c2.
  destruct (cl_nodes c1 !! 7) as [nd1|] eqn:H1; [|by vm_compute in H1].
  destruct (cl_nodes c2 !! 7) as [nd2|] eqn:H2; [|by vm_compute in H2].
  pose proof H1 as E1. pose proof H2 as E2. vm_compute in E1, E2.
  injection E1 as E1. injection E2 as E2.
  destruct (inspectors_agree 450 30000 "1" ids pair (take 2 pair_turns) (drop 2 pair_turns) 3 7 nd1 nd2
    env env pair_reachable pair_agreed) as (nodes & Hq & Ha); try done.
  - split; by_compute.
  - rewrite pair_dom. exact pair_calm.
  - by rewrite <-E1.
  - by rewrite <-E2.
  - exact map_iter_ok.
  - exact map_iter_ok.
  - eexists. split; [reflexivity|by_compute].
  - eexists. split; [reflexivity|by_compute].
  - rewrite <-E1. eexists. split; [reflexivity|by_compute].
  - rewrite <-E2. eexists. split; [reflexivity|by_compute].
  - exists nd1, nd2, nodes. rewrite pair_dom in Ha. by split_and!.
Defined.
End Witnesses.
