(* ===== verification/HivectlUi.v ===== *)
(** * The screen of hivectl (crates/hivectl/src/main.rs)

    What the inspector draws: [ui] gives the widgets of a frame with their areas, texts
    and styles, in drawing order; putting them on the screen and splitting an area
    ([split]) is the terminal library's.  Then the event loop and [main], with the
    terminal's modes. *)

From S2P Require Import Prelude RustStd Text Os Wire Proto Control ControlSocket Membership.
From S2P Require Import Hivebus Hivectl.
Local Open Scope Z_scope.
Local Open Scope prog_scope.

(** ** Widgets *)

Inductive color := Red | Green | Yellow | Cyan | White | DarkGray.
Inductive modifier := BOLD | DIM | REVERSED.

Record style := { fg : option color; modifiers : list modifier }.
Definition style_default : style := {| fg := None; modifiers := [] |}.
Definition fg_style (c : color) : style := {| fg := Some c; modifiers := [] |}.
Definition fg_modified (c : color) (m : modifier) : style := {| fg := Some c; modifiers := [m] |}.

(** A [Span] or a [Cell]: text with a style. *)
Record span := { text : string; sp_style : style }.
Definition plain (s : string) : span := {| text := s; sp_style := style_default |}.

Record rect := { x : Z; y : Z; width : Z; height : Z }.
Inductive direction := Vertical | Horizontal.
Inductive constraint := Length (n : Z) | Min (n : Z) | Percentage (n : Z).

Inductive widget :=
| Line (spans : list span) (title : option string)
| NodeTable (header : list span) (rows : list (list span)) (widths : list constraint)
    (title : string) (selected : option nat) (highlight : style)
| Clear
| ErrorBox (message : string) (message_style : style) (title : string).

(** ** The rows of the table *)

Definition header_cells : list span :=
  (λ h, {| text := h; sp_style := fg_modified Cyan BOLD |}) <$>
    ["NODE ID"; "HOSTNAME"; "ADDRESS"; "STATE"; "★"; "LAST SEEN"]%string.

Definition widths : list constraint := [Length 9; Length 16; Length 22; Length 10; Length 3; Min 9].

Definition state_style (s : NodeState) : style :=
  match s with
  | Alive => fg_style Green
  | Suspect => fg_style Yellow
  | Dead => fg_modified Red DIM
  end.

(** [{:?}] of a [NodeState] *)
Definition state_text (s : NodeState) : string :=
  match s with Alive => "Alive" | Suspect => "Suspect" | Dead => "Dead" end.

Definition master_cell (is_master : bool) : span :=
  if is_master then {| text := "★"; sp_style := fg_modified Yellow BOLD |} else plain "".

Definition fmt_duration (d : Duration) : string :=
  let secs := as_secs d in
  if secs <? 60 then pretty secs +:+ "s"
  else pretty (secs `div` 60) +:+ "m" +:+ pretty (secs `mod` 60) +:+ "s".

(** The time since a node was last seen; the clock may have been set back. *)
Definition last_seen_text (now last_seen : SystemTime) : string :=
  match duration_since now last_seen with Ok d => fmt_duration d | Err _ => "?" end.

Definition node_row (now : SystemTime) (n : NodeInfo) : list span :=
  [plain (pretty (ni_node_id n)); plain (ni_hostname n); plain (fmt_socket_addr (ni_control_addr n));
   {| text := state_text (ni_state n); sp_style := state_style (ni_state n) |};
   master_cell (ni_is_master n); plain (last_seen_text now (ni_last_seen n))].

Section Ui.
Context `{Bincode}.

(** ** A frame *)

(** The layout engine, and how a failed query is printed. *)
Context (split : direction → list constraint → rect → list rect).
Context (show_error : query_error → string).

(** [draw_header], [age] being the time since the last query. *)
Definition draw_header (age : Duration) (a : App) : widget :=
  let '(conn_sym, conn_style) :=
    match cs_error (app_cluster a) with
    | Some _ => ("✗"%string, fg_style Red) | None => ("✔"%string, fg_style Green)
    end in
  Line
    [{| text := conn_sym; sp_style := conn_style |};
     {| text := "  socket: " +:+ app_socket_path a +:+ "   "; sp_style := fg_style DarkGray |};
     {| text := "master: "; sp_style := fg_style Cyan |};
     {| text := default "—"%string (master_label a); sp_style := fg_modified Yellow BOLD |};
     {| text := "   nodes: " +:+ pretty (alive_count a) +:+ "/"
                +:+ pretty (length (cs_nodes (app_cluster a))) +:+ " alive";
        sp_style := fg_style White |};
     {| text := "   updated " +:+ fmt_age age; sp_style := fg_style DarkGray |}]
    (Some " hivebus hivectl "%string).

(** [draw_table]; the [i]-th row reads the clock as [clock i]. *)
Definition draw_table (clock : nat → SystemTime) (a : App) : widget :=
  NodeTable header_cells (imap (λ i n, node_row (clock i) n) (cs_nodes (app_cluster a)))
    widths " nodes " (app_selected a) {| fg := None; modifiers := [REVERSED] |}.

Definition draw_footer : widget :=
  Line [{| text := " [q] quit   [r] refresh   [↑ ↓] select   [ctrl-c] quit";
           sp_style := fg_style DarkGray |}] None.

(** [(100 - pct) / 2] on [u16], with or without overflow checks. *)
Definition margin (overflow_checks : bool) (pct : Z) : outcome Z :=
  if decide (pct ≤ 100) then Done ((100 - pct) `div` 2)
  else if overflow_checks then Panicked else Done (wrap 16 (100 - pct) `div` 2).

Definition centered_rect (overflow_checks : bool) (pct_w pct_h : Z) (r : rect) : outcome rect :=
  margin_v ← margin overflow_checks pct_h;
  margin_h ← margin overflow_checks pct_w;
  middle ← index (split Vertical [Percentage margin_v; Percentage pct_h; Percentage margin_v] r) 1;
  index (split Horizontal [Percentage margin_h; Percentage pct_w; Percentage margin_h] middle) 1.

Definition error_text (e : app_error) : string :=
  match e with Connecting => "connecting…" | QueryFailed e => show_error e end.

Definition draw_error (overflow_checks : bool) (area : rect) (msg : string) :
    outcome (list (rect * widget)) :=
  popup ← centered_rect overflow_checks 70 30 area;
  Done [(popup, Clear);
        (popup, ErrorBox (string_of_bytes [10] +:+ " " +:+ msg) (fg_style Red) " connection error ")].

(** [ui]: the widgets of a frame, each drawn over the ones before. *)
Definition ui (overflow_checks : bool) (area : rect) (age : Duration) (clock : nat → SystemTime)
    (a : App) : outcome (list (rect * widget)) :=
  let chunks := split Vertical [Length 3; Min 5; Length 1] area in
  top ← index chunks 0; middle ← index chunks 1; bottom ← index chunks 2;
  popup ← match cs_error (app_cluster a) with
          | Some err => draw_error overflow_checks middle (error_text err)
          | None => Done []
          end;
  Done ([(top, draw_header age a); (middle, draw_table clock a); (bottom, draw_footer)] ++ popup).
End Ui.

(** ** What a row tells *)

(** A node whose columns the table shows in full, its host name apart. *)
Definition row_ok (now : SystemTime) (n : NodeInfo) : Prop :=
  u16 (ni_node_id n) ∧ addr_ok (ni_control_addr n)
  ∧ match ni_control_addr n with V4 _ _ => True | V6 _ _ _ _ => False end
  ∧ now - ni_last_seen n < from_secs (60 * 100000).

Definition column_width (c : constraint) : Z :=
  match c with Length n | Min n | Percentage n => n end.

(** The width of a cell that is not longer than its number of bytes. *)
Definition cell_fits (c : constraint) (s : span) : Prop :=
  Z.of_nat (length (as_bytes (text s))) ≤ column_width c.

Lemma fmt_duration_length d :
  0 ≤ d < from_secs (60 * 100000) → (length (as_bytes (fmt_duration d)) ≤ 9)%nat.
Proof.
  intros Hd. unfold fmt_duration, as_secs, from_secs in *.
  assert (0 ≤ d `div` 1000000000 < 6000000) as Hs by lia.
  destruct (Z.ltb_spec (d `div` 1000000000) 60).
  - rewrite as_bytes_app, length_app. cbn.
    pose proof (pretty_length (d `div` 1000000000) 2 ltac:(lia) ltac:(lia)). lia.
  - rewrite !as_bytes_app, !length_app. cbn.
    pose proof (pretty_length ((d `div` 1000000000) `div` 60) 5 ltac:(lia) ltac:(lia)).
    pose proof (pretty_length ((d `div` 1000000000) `mod` 60) 2 ltac:(lia) ltac:(lia)). lia.
Qed.

(** Every cell but the host name fits its column: ids, states, IPv4 addresses of any
    kind, and times up to sixty-nine days. *)
Theorem row_fits now n i c s :
  row_ok now n → widths !! i = Some c → node_row now n !! i = Some s → i ≠ 1%nat → cell_fits c s.
Proof.
  intros (Hid & Haddr & Hv4 & Hseen) Hc Hs Hi. unfold cell_fits.
  assert (∀ k : nat, Z.of_nat k ≤ column_width c →
    (length (as_bytes (text s)) ≤ k)%nat → Z.of_nat (length (as_bytes (text s))) ≤ column_width c)
    as Hle by lia.
  destruct i as [|[|[|[|[|[|i]]]]]]; try done; injection Hc as <-; injection Hs as <-; cbn [text plain].
  - apply (Hle 5%nat); [cbn; lia|]. apply pretty_length; [fits_lia|lia].
  - destruct (ni_control_addr n) as [ip port|]; [|done]. apply (Hle 21%nat); [cbn; lia|].
    apply fmt_v4_length. apply Haddr.
  - apply (Hle 7%nat); [cbn; lia|]. by destruct (ni_state n); cbn; lia.
  - apply (Hle 3%nat); [cbn; lia|]. destruct (ni_is_master n); vm_compute; lia.
  - apply (Hle 9%nat); [cbn; lia|]. unfold last_seen_text, duration_since.
    case_decide; [|cbn; lia]. apply fmt_duration_length. lia.
Qed.

(** Two rows look the same only if they show the same id, host name, IPv4 address and
    port, state and master flag. *)
Lemma row_injective now n1 n2 :
  row_ok now n1 → row_ok now n2 → text <$> node_row now n1 = text <$> node_row now n2 →
  ni_node_id n1 = ni_node_id n2 ∧ ni_hostname n1 = ni_hostname n2
  ∧ ni_control_addr n1 = ni_control_addr n2 ∧ ni_state n1 = ni_state n2
  ∧ ni_is_master n1 = ni_is_master n2.
Proof.
  intros (_ & Ha1 & Hv1 & _) (_ & Ha2 & Hv2 & _) [= Hid Hhost Haddr Hstate Hmaster _].
  split; [by apply (inj pretty)|]. split; [done|].
  split; [|split].
  - destruct (ni_control_addr n1) as [ip1 p1|], (ni_control_addr n2) as [ip2 p2|]; try done.
    destruct Ha1, Ha2. apply fmt_v4_inj in Haddr as [-> ->]; done.
  - by destruct (ni_state n1), (ni_state n2).
  - by destruct (ni_is_master n1), (ni_is_master n2).
Qed.

(** As many rows are marked Alive as there are living nodes. *)
Lemma alive_rows (clock : nat → SystemTime) nodes :
  length (filter (λ r, text <$> r !! 3%nat = Some "Alive"%string)
            (imap (λ i n, node_row (clock i) n) nodes))
  = length (filter (λ n, ni_state n = Alive) nodes).
Proof.
  revert clock. induction nodes as [|n ns IH]; intros clock; [done|].
  cbn [imap]. rewrite !filter_cons. cbn [text node_row lookup list_lookup fmap option_fmap option_map].
  specialize (IH (λ i, clock (S i))). destruct (ni_state n) eqn:Hst; cbn [state_text].
  - rewrite !decide_True by done. cbn [length]. f_equal. exact IH.
  - rewrite !decide_False by done. exact IH.
  - rewrite !decide_False by done. exact IH.
Qed.

Section Screen.
Context `{Bincode}.
Context (split : direction → list constraint → rect → list rect).
Context (show_error : query_error → string).

(** Splitting an area gives a part for every constraint. *)
Context (split_length : ∀ d cs r, length (split d cs r) = length cs).

Lemma index_split d cs r i : (i < length cs)%nat → ∃ part, index (split d cs r) i = Done part.
Proof.
  intros Hi. rewrite <-(split_length d cs r) in Hi. apply lookup_lt_is_Some_2 in Hi as [part Hp].
  exists part. unfold index. by rewrite Hp.
Qed.

Lemma draw_error_done oc area msg :
  ∃ popup, draw_error split oc area msg
    = Done [(popup, Clear); (popup, ErrorBox (string_of_bytes [10] +:+ " " +:+ msg) (fg_style Red)
                                             " connection error ")].
Proof.
  unfold draw_error, centered_rect.
  assert (∀ p, p ≤ 100 → margin oc p = Done ((100 - p) `div` 2)) as Hm.
  { intros p Hp. unfold margin. by rewrite decide_True. }
  rewrite !Hm by lia. cbn [mbind outcome_bind].
  destruct (index_split Vertical [Percentage ((100 - 30) `div` 2); Percentage 30; Percentage ((100 - 30) `div` 2)] area 1)
    as [mid ->]; [cbn; lia|]. cbn [mbind outcome_bind].
  destruct (index_split Horizontal [Percentage ((100 - 70) `div` 2); Percentage 70; Percentage ((100 - 70) `div` 2)] mid 1)
    as [popup ->]; [cbn; lia|]. cbn [mbind outcome_bind]. by exists popup.
Qed.

(** C24: with a layout engine that yields an area per constraint, drawing never fails, and a
    frame shows what the queries found: after any rounds of
    the event loop, with any keys and whatever each query returned, the table has one row per
    node of the last query that succeeded, in its order, and none before the first; the
    header counts as many nodes alive as rows are marked Alive, and looks the master of that
    query up among them; the highlighted row, if there are rows, is one of them; and an
    error box with the error's text is drawn over the others exactly when the last query
    failed, or, saying that it is connecting, when none was made yet. *)
Theorem ui_shows_state socket_path oc area age clock qs a :
  app_queried socket_path qs a →
  ∃ top middle bottom rows popup,
    ui split show_error oc area age clock a
    = Done ([(top, draw_header age a);
             (middle, NodeTable header_cells rows widths " nodes " (app_selected a)
                        {| fg := None; modifiers := [REVERSED] |});
             (bottom, draw_footer)] ++ popup)
    ∧ (∀ i, rows !! i = node_row (clock i) <$> (last_success qs).1 !! i)
    ∧ length (filter (λ r, text <$> r !! 3%nat = Some "Alive"%string) rows) = alive_count a
    ∧ master_node a = (id ← (last_success qs).2;
                       snd <$> list_find (λ n, ni_node_id n = id) (last_success qs).1)
    ∧ (rows ≠ [] → ∃ i row, app_selected a = Some i ∧ rows !! i = Some row)
    ∧ match last qs with
      | Some (Ok _) => popup = []
      | failed => ∃ r, popup = [(r, Clear);
          (r, ErrorBox (string_of_bytes [10] +:+ " "
                        +:+ match failed with Some (Err e) => show_error e | _ => "connecting…" end)
                       (fg_style Red) " connection error ")]
      end.
Proof.
  intros Hq. assert (app_reachable socket_path a) as Hreach by (apply app_reachable_queried; by exists qs).
  destruct (app_queried_shows socket_path qs a Hq) as (Hnodes & Hmaster & Herror). unfold ui.
  destruct (index_split Vertical [Length 3; Min 5; Length 1] area 0) as [top ->]; [cbn; lia|].
  destruct (index_split Vertical [Length 3; Min 5; Length 1] area 1) as [middle ->]; [cbn; lia|].
  destruct (index_split Vertical [Length 3; Min 5; Length 1] area 2) as [bottom ->]; [cbn; lia|].
  cbn [mbind outcome_bind]. unfold draw_table.
  set (rows := imap _ _). exists top, middle, bottom, rows.
  assert (∀ i, rows !! i = node_row (clock i) <$> (last_success qs).1 !! i) as Hrows
    by (intros i; unfold rows; by rewrite list_lookup_imap, Hnodes).
  assert (master_node a = (id ← (last_success qs).2;
    snd <$> list_find (λ n, ni_node_id n = id) (last_success qs).1)) as Hlooked
    by (unfold master_node; by rewrite Hmaster, Hnodes).
  assert (length (filter (λ r, text <$> r !! 3%nat = Some "Alive"%string) rows) = alive_count a) as Hcount
    by apply alive_rows.
  assert (rows ≠ [] → ∃ i row, app_selected a = Some i ∧ rows !! i = Some row) as Hsel.
  { intros Hne. assert (selection_ok a) as Hok by by eapply app_reachable_selection.
    assert (length rows = length (cs_nodes (app_cluster a))) as Hlen by by unfold rows; rewrite length_imap.
    unfold selection_ok in Hok. destruct (app_selected a) as [i|].
    - destruct Hok as [Hnil|Hlt]; [rewrite Hnil in Hlen; by destruct rows|].
      rewrite <-Hlen in Hlt. apply lookup_lt_is_Some_2 in Hlt as [row Hrow]. by exists i, row.
    - rewrite Hok in Hlen. by destruct rows. }
  rewrite Herror. unfold last_error. destruct (last qs) as [[answer|e]|].
  - cbn [mbind outcome_bind]. exists []. by split_and!.
  - destruct (draw_error_done oc middle (show_error e)) as [r Hr]. cbn [error_text]. rewrite Hr.
    cbn [mbind outcome_bind]. eexists. split; [done|]. split_and!; try done. by exists r.
  - destruct (draw_error_done oc middle "connecting…") as [r Hr]. cbn [error_text]. rewrite Hr.
    cbn [mbind outcome_bind]. eexists. split; [done|]. split_and!; try done. by exists r.
Qed.
End Screen.

(** ** The event loop *)

Inductive key_code := Char (c : Z) | Up | Down | OtherKey.
Inductive key_modifiers := NoModifier | CONTROL | OtherModifiers.

(** The match of [run_loop] on an event; [None] is no key event, or none at all.  Only
    Ctrl-C looks at the modifiers. *)
Definition event_key (e : option (key_code * key_modifiers)) : key :=
  match e with
  | None => Other
  | Some (code, mods) =>
    match code, mods with
    | Char c, _ =>
      if c =? 113 then KeyQ
      else if c =? 99 then match mods with CONTROL => KeyCtrlC | _ => Other end
      else if c =? 114 then KeyR
      else Other
    | Up, _ => KeyUp
    | Down, _ => KeyDown
    | OtherKey, _ => Other
    end
  end.

Section Run.
Context `{Bincode}.

(** What one round meets: drawing, polling and reading the terminal, the queries a key
    and the timer would make, and the clock. *)
Record round := {
  rd_draw : result io_error unit;
  rd_poll : result io_error bool;
  rd_read : result io_error (option (key_code * key_modifiers));
  rd_query_key : result query_error (list NodeInfo * option Z);
  rd_query_timer : result query_error (list NodeInfo * option Z);
  rd_key_time : Instant;
  rd_now : Instant;
  rd_timer_time : Instant;
}.

(** The event of a round: reading only when something is there. *)
Definition round_event (r : round) : result io_error (option (key_code * key_modifiers)) :=
  _ ← rd_draw r; ready ← rd_poll r; if ready : bool then rd_read r else Ok None.

(** [run_loop]: [None] while it runs. *)
Fixpoint run_loop (a : App) (rounds : list round) : App * option (result io_error unit) :=
  match rounds with
  | [] => (a, None)
  | r :: rounds =>
    match round_event r with
    | Err e => (a, Some (Err e))
    | Ok event =>
      match run_round (event_key event) (rd_query_key r) (rd_query_timer r)
              (rd_key_time r) (rd_now r) (rd_timer_time r) a with
      | None => (a, Some (Ok ()))
      | Some a => run_loop a rounds
      end
    end
  end.

(** The keys that end the program. *)
Definition quits (r : round) : Prop :=
  ∃ mods, round_event r = Ok (Some (Char 113, mods)) ∨ round_event r = Ok (Some (Char 99, CONTROL)).

Lemma event_key_quits e :
  event_key e = KeyQ ∨ event_key e = KeyCtrlC ↔
  (∃ mods, e = Some (Char 113, mods)) ∨ e = Some (Char 99, CONTROL).
Proof.
  split.
  - destruct e as [[[c| | |] mods]|]; cbn; try naive_solver.
    destruct (Z.eqb_spec c 113) as [->|]; [left; by exists mods|].
    destruct (Z.eqb_spec c 99) as [->|]; [destruct mods; naive_solver|]. case_match; naive_solver.
  - intros [[mods ->]| ->]; naive_solver.
Qed.

Lemma run_round_None k q1 q2 t1 now t2 a :
  run_round k q1 q2 t1 now t2 a = None ↔ k = KeyQ ∨ k = KeyCtrlC.
Proof. unfold run_round. destruct k; cbn; naive_solver. Qed.

(** The event loop keeps the application in its reachable states and ends for two
    reasons only: the terminal cannot be drawn on, polled or read, and then its error is
    returned, or q or Ctrl-C was pressed, and then it ends well.  In every other round it
    goes on, whatever is pressed and however the queries end. *)
Theorem run_loop_spec socket_path a rounds :
  app_reachable socket_path a →
  let '(a', ended) := run_loop a rounds in
  app_reachable socket_path a' ∧
  let goes_on r := is_ok (round_event r) = true ∧ ¬ quits r in
  match ended with
  | None => Forall goes_on rounds
  | Some (Ok _) => ∃ before r after, rounds = before ++ r :: after ∧ Forall goes_on before ∧ quits r
  | Some (Err e) => ∃ before r after, rounds = before ++ r :: after ∧ Forall goes_on before
      ∧ round_event r = Err e
  end.
Proof.
  revert a. induction rounds as [|r rounds IH]; intros a Ha; [by split|]. cbn [run_loop].
  destruct (round_event r) as [ev|e] eqn:Hev; cycle 1.
  { split; [done|]. exists [], r, rounds. by split_and!. }
  destruct (run_round _ _ _ _ _ _ a) as [a1|] eqn:Hround; cycle 1.
  { split; [done|]. exists [], r, rounds. split; [done|]. split; [constructor|].
    apply run_round_None, event_key_quits in Hround. unfold quits. rewrite Hev.
    destruct Hround as [[mods ->]| ->]; [by exists mods; left|by exists CONTROL; right]. }
  assert (is_ok (round_event r) = true ∧ ¬ quits r) as Hgo.
  { split; [by rewrite Hev|]. intros (mods & Hq). rewrite Hev in Hq.
    assert (run_round (event_key ev) (rd_query_key r) (rd_query_timer r)
      (rd_key_time r) (rd_now r) (rd_timer_time r) a = None) as Hnone; [|congruence].
    apply run_round_None, event_key_quits. destruct Hq as [[= ->]|[= ->]]; [left; by exists mods|by right]. }
  assert (app_reachable socket_path a1) as Ha1 by by eapply app_round.
  specialize (IH a1 Ha1). destruct (run_loop a1 rounds) as [a' [[u|e]|]]; destruct IH as [? IH];
    (split; [done|]); [| |by constructor].
  all: destruct IH as (before & r' & after & -> & Hb & Hr); exists (r :: before), r', after.
  all: split_and!; [done|by constructor|done].
Qed.
End Run.

(** ** The terminal *)

(** [execute!(stdout, LeaveAlternateScreen, Show)], its result ignored. *)
Definition leave_screen : prog (result io_error unit) := act_all [LeaveAlternateScreen; ShowCursor].

(** What [TerminalGuard] does when it is dropped. *)
Definition guard_drop : prog unit :=
  _ ←! act DisableRawMode; _ ←! leave_screen; Ret ().

Inductive main_error := RawMode (e : io_error) | AlternateScreen (e : io_error)
                      | CreateTerminal (e : io_error) | LoopError (e : io_error).

(** The scope of the guard: it is dropped when the scope is left, also by a panic. *)
Definition guarded {A} (p : prog A) : prog A := r ←! p; _ ←! guard_drop; Ret r.

(** [main]; [event_loop] stands for the calls [run_loop] makes and what it ends in. *)
Definition terminal_main (event_loop : prog (outcome (result io_error unit))) :
    prog (outcome (result main_error unit)) :=
  raw ←! act EnableRawMode;
  match raw with
  | Err e => Ret (Done (Err (RawMode e)))
  | Ok _ =>
    screen ←! act EnterAlternateScreen;
    match screen with
    | Err e => Ret (Done (Err (AlternateScreen e)))
    | Ok _ =>
      guarded
        (terminal ←! act NewTerminal;
         match terminal with
         | Err e => Ret (Done (Err (CreateTerminal e)))
         | Ok _ =>
           result ←! event_loop;
           match result with
           | Panicked => Ret Panicked
           | Done r =>
             _ ←! act DisableRawMode; _ ←! leave_screen; _ ←! act ShowCursor;
             Ret (Done match r with Ok u => Ok u | Err e => Err (LoopError e) end)
           end
         end)
    end
  end.

(** The calls the guard makes from the [i]-th on. *)
Definition guard_calls (o : nat → ∀ c, reply c) (i : nat) : list call :=
  [Act DisableRawMode; Act LeaveAlternateScreen]
  ++ if is_ok (o (S i) (Act LeaveAlternateScreen)) then [Act ShowCursor] else [].

Lemma run_guarded {A} (o : nat → ∀ c, reply c) i (p : prog A) :
  run o i (guarded p)
  = let '(cs, a) := run o i p in (cs ++ guard_calls o (i + length cs), a).
Proof.
  unfold guarded. rewrite run_seq. destruct (run o i p) as [cs a]. unfold guard_drop, leave_screen.
  rewrite !run_seq. cbn [run act call_os length Nat.add].
  rewrite run_seq, Nat.add_1_r. unfold guard_calls. cbn.
  destruct (o (S (i + length cs)) (Act LeaveAlternateScreen)) as [u|e]; cbn; [|done].
  by destruct (o _ (Act ShowCursor)).
Qed.

(** C23: once the alternate screen is entered, raw mode is turned off and the screen left
    as the last things the program does, and the cursor shown if that worked, whether
    setting up the terminal fails, the event loop ends, fails or panics; and the result
    of the loop is the program's.  Before that nothing is restored: a failure to enter
    the alternate screen leaves the terminal in raw mode. *)
Theorem terminal_restored (o : nat → ∀ c, reply c) event_loop :
  let '(made, r) := run o 0 (terminal_main event_loop) in
  match o 0%nat (Act EnableRawMode), o 1%nat (Act EnterAlternateScreen) with
  | Err e, _ => made = [Act EnableRawMode] ∧ r = Done (Err (RawMode e))
  | Ok _, Err e => made = [Act EnableRawMode; Act EnterAlternateScreen]
      ∧ r = Done (Err (AlternateScreen e))
  | Ok _, Ok _ =>
      (∃ inner, made = Act EnableRawMode :: Act EnterAlternateScreen :: inner
                       ++ guard_calls o (2 + length inner)) ∧
      match o 2%nat (Act NewTerminal) with
      | Err e => r = Done (Err (CreateTerminal e))
      | Ok _ => r = match (run o 3 event_loop).2 with
                    | Done (Ok u) => Done (Ok u)
                    | Done (Err e) => Done (Err (LoopError e))
                    | Panicked => Panicked
                    end
      end
  end.
Proof.
  unfold terminal_main. rewrite run_seq. cbn [run act call_os length Nat.add].
  destruct (o 0%nat (Act EnableRawMode)) as [u0|e0]; [|done]. rewrite run_seq. cbn [run act call_os length Nat.add].
  destruct (o 1%nat (Act EnterAlternateScreen)) as [u1|e1]; [|done]. rewrite run_guarded, run_seq.
  cbn [run act call_os length Nat.add].
  destruct (o 2%nat (Act NewTerminal)) as [u2|e2]; cycle 1.
  { split; [|done]. by eexists [_]. }
  rewrite run_seq. destruct (run o 3 event_loop) as [cs [res|]]; cycle 1.
  { split; [|done]. cbn. rewrite app_nil_r. by eexists (_ :: cs). }
  rewrite run_seq. cbn [run act call_os length Nat.add].
  rewrite run_seq. destruct (run o _ leave_screen) as [cs2 r2].
  rewrite run_seq. cbn [run act call_os]. 
  split; [|by destruct res].
  eexists (_ :: cs ++ _ :: cs2 ++ [_]). done.
Qed.

(** ** The socket *)

Definition DEFAULT_SOCKET : string := "/var/run/hivebus/hivebus.sock".

(** The first argument, if there is one. *)
Definition main_socket_path (arg : option string) : string := default DEFAULT_SOCKET arg.

(** Without an argument the inspector connects to where hivebus listens. *)
Lemma default_socket_is_hivebus :
  as_bytes (main_socket_path None) = socket_path "hivebus".
Proof. reflexivity. Qed.

(** ** Witnesses *)

Module Witnesses.
Import Simple.
Import Hivectl.Witnesses.

(** A layout that gives every part the whole area. *)
Definition stack (d : direction) (cs : list constraint) (r : rect) : list rect := replicate (length cs) r.
Definition area : rect := {| x := 0; y := 0; width := 80; height := 24 |}.
Definition shown : App := refresh q 9 (app_new "s" 0).

Lemma shown_reachable : app_reachable "s" shown.
Proof. apply (app_round "s" KeyR q q 9 9 9 (app_new "s" 0)); [apply app_start|done]. Qed.

(** A query that succeeds, and then one that fails: the row stays, under an error box. *)
Definition failed : App := refresh (Err ConnectFailed) 12 shown.

Lemma failed_queried : app_queried "s" [q; Err ConnectFailed] failed.
Proof.
  apply (queried_round "s" KeyR (Err ConnectFailed) q 12 12 12 [q] shown); [|done].
  apply (queried_round "s" KeyR q q 9 9 9 [] (app_new "s" 0)); [apply queried_start|done].
Qed.

Lemma ui_shows_state_witness :
  ∃ frame top middle bottom rows r,
    ui stack (λ _, "e"%string) true area 0 (λ _, 0) failed = Done frame
    ∧ frame = [(top, draw_header 0 failed); (middle, NodeTable header_cells rows widths " nodes "
                 (app_selected failed) {| fg := None; modifiers := [REVERSED] |}); (bottom, draw_footer);
               (r, Clear); (r, ErrorBox (string_of_bytes [10] +:+ " " +:+ "e") (fg_style Red)
                                        " connection error ")]
    ∧ rows !! 0%nat = Some (node_row 0 (peer 3 Alive 0))
    ∧ length (filter (λ r, text <$> r !! 3%nat = Some "Alive"%string) rows) = 1%nat.
Proof.
  destruct (ui_shows_state stack (λ _, "e"%string) (λ _ cs r, length_replicate (length cs) r)
    "s" true area 0 (λ _, 0) [q; Err ConnectFailed] failed failed_queried)
    as (top & middle & bottom & rows & popup & Hui & Hrows & Halive & _ & _ & (r & Hpopup)).
  eexists _, top, middle, bottom, rows, r. split; [exact Hui|]. split; [by rewrite Hpopup|].
  split; [exact (Hrows 0%nat)|exact Halive].
Defined.

(** A failed refresh, a c without Ctrl, and then q. *)
Definition press (c : Z) (mods : key_modifiers) : round := {|
  rd_draw := Ok (); rd_poll := Ok true; rd_read := Ok (Some (Char c, mods));
  rd_query_key := Err ConnectFailed; rd_query_timer := q;
  rd_key_time := 10; rd_now := 10; rd_timer_time := 10 |}.

Lemma run_loop_spec_witness :
  let keys := [press 114 NoModifier; press 99 NoModifier; press 113 NoModifier] in
  (run_loop shown keys).2 = Some (Ok ()) ∧ app_reachable "s" (run_loop shown keys).1
  ∧ ∃ before r after, keys = before ++ r :: after ∧ quits r.
Proof.
  intros keys. pose proof (run_loop_spec "s" shown keys shown_reachable) as H.
  destruct (run_loop shown keys) as [a ended] eqn:Hrun.
  assert (ended = Some (Ok ())) as -> by (apply (f_equal snd) in Hrun; by vm_compute in Hrun).
  destruct H as [Ha (before & r & after & Hkeys & _ & Hq)].
  split; [done|]. split; [exact Ha|]. exists before, r, after. split; [exact Hkeys|exact Hq].
Defined.
End Witnesses.
